(* ===== verification/_CoqProject ===== *)
-Q . S2P
Prelude.v
RangeSet.v
MemoryMap.v
FrameAlloc.v
Heap.v
Bytes.v
Addr.v
Bits.v
Paging.v
Msr.v
Mtrr.v
Control.v
Mapper.v
CleanUp.v
Recursive.v
KernelMemory.v
Mmu.v
Boot.v
Multiboot.v
CoreState.v
Acpi.v
LapicIter.v
Cores.v
Gdt.v
Idt.v
Pic.v
Apic.v
Stacks.v
Smp.v
KernelInit.v
Vga.v
Uart.v
Pci.v
DynAlloc.v
Paging32.v
Mapper32.v
Cpuid.v
Idt32.v
Handover.v
Locks.v
