(* ===== verification/Prelude.v ===== *)
(** * Verification of the perf_kernel (svm_kernel) sources

    The repository holds a 32-bit bootloader ([src/crates/bootloader]) that GRUB or iPXE
    starts, and a 64-bit kernel ([src/kernel]) that the bootloader enters on every core.
    The bootloader turns the multiboot2 memory areas into a memory map, reserves its own
    image, builds identity mapped page tables, gives every core its stacks and jumps to
    the kernel.  The kernel takes over the page tables, sets up segments, interrupts, a
    heap, the ACPI tables and the local APIC, and starts the other cores.  Both use the
    crates under [src/crates] ([x86_64], [rangeset], [pic8259_simple], ...).

    ** How the code is modelled

    A function of the source is a function of the same name that returns in [run]: [Ret]
    of its result or [Panic] with the kind of fault.  The sources are built with the dev
    profile, so [+], [-] and [*] on machine integers panic on overflow ([uadd], [usub],
    [umul]); wrapping and saturating operations are written as such.  An n-bit integer
    is a [Z], bit operations are those of [Z].  Statics and [&mut] arguments are passed
    and returned.  Raw memory is explicit: page tables are a store from addresses to
    tables, physical memory a function from addresses to bytes, devices a state behind a
    class.  Where cores or interrupts interleave, the code is a step relation.

    A loop that is not structural takes fuel and panics with [NoFuel] without it; the
    theorems show results, not only partial correctness, so they include that the fuel
    given by the definitions is enough: passes over a range set ([S in_use]), heap steps,
    entries of an ACPI table and of its iterator (its bytes), multiboot2 tags (one for
    each 8 bytes), the frames of an iterator (the regions left), the levels of a clean-up
    (four), the polling of the serial port (the readings of the slowest byte), the busy
    wait (ticks to wait plus one, as the counter advances with every reading).

    ** Files and the sources they model

    - [Prelude] (this file): outcomes, machine integers, lists by index, loops, tactics.
      [Bytes], [Bits]: lemmas on bytes in memory and on bit fields, no code.
    - [RangeSet]: crates/rangeset.  [DynAlloc]: crates/dyn_frame_alloc.
    - [MemoryMap]: crates/bootloader/src/bootinfo/memory_map.rs.
    - [FrameAlloc]: the frame iterators and allocators of kernel/src/memory.rs and
      crates/bootloader/src/pagetable.rs.
    - [Heap]: kernel/src/allocator/fixed_size_block.rs.
    - [Addr], [Paging]: addr.rs, structures/paging/page.rs, frame.rs, page_table.rs of
      crates/x86_64.  [Mapper], [CleanUp], [Recursive]: structures/paging/mapper, the
      mapper with its provided methods, [clean_up], and the recursive page table.
    - [Paging32], [Mapper32]: the same modules of the 32-bit crates/x86.
    - [Msr], [Mtrr], [Control]: registers of crates/x86_64 (model_specific.rs, mtrr.rs,
      control.rs, xcontrol.rs, rflags.rs) and instructions/tlb.rs.
    - [KernelMemory]: kernel/src/memory.rs and allocator.rs.
    - [Mmu]: crates/bootloader/src/mmu.rs, pagetable.rs.
    - [Cpuid]: the queries of crates/rust-cpuid that the bootloader makes, and the
      processor check of crates/bootloader/src/main.rs.
    - [Multiboot]: crates/multiboot2 as far as the bootloader reads it.
    - [Boot], [Stacks]: crates/bootloader/src/main.rs, memory map and stack phases.
    - [LapicIter]: crates/bootloader/src/acpi.rs.
    - [Idt32]: idt.rs of crates/x86, interrupts.rs and default_interrupt.rs of the
      bootloader.
    - [Handover]: media_extensions.rs, smp.rs, the end of main.rs and the switch to long
      mode of the bootloader, on all cores.
    - [CoreState]: kernel/src/corestate.rs.  [Smp]: kernel/src/smp.rs.
    - [Acpi]: kernel/src/acpi.rs, acpi_regs.rs.
    - [Cores]: crates/bootloader/src/bootinfo/mod.rs.
    - [Gdt]: gdt.rs and tss.rs of crates/x86_64, kernel/src/tss.rs.
    - [Idt]: idt.rs of crates/x86_64, kernel/src/interrupts.rs, default_interrupt.rs.
    - [Pic]: crates/pic8259_simple; [Apic]: kernel/src/apic.rs, apic_regs.rs, time.rs.
    - [KernelInit]: kernel/src/lib.rs, all cores from their entry to running.
    - [Locks]: the handlers of kernel/src/interrupts.rs and the spin locks.
    - [Vga], [Uart] (with [Console]): vga.rs, crates/uart_16550, serial.rs, print.rs,
      klog.rs.  [Pci]: kernel/src/pci.rs.

    ** Interfaces

    What one part promises to another, or what code outside the repository promises, is
    a class: [SortUnstable] (the sort of the standard library), [BitField] (the bit_field
    crate), [ModularBitfield] (the modular_bitfield crate), [PageTableFrameMapping] and
    [FrameAllocator] (the traits of crates/x86_64, the latter discharged by the
    allocators of [FrameAlloc]), [PortIO], [PciIO] and [LapicIO] (byte ports;
    configuration space; registers and time stamp counter of a processor), [Processor]
    (address translation).  Each has an instance, which the witnesses use.

    ** What the theorems show

    - Boot: the processor check accepts exactly the processors it asks for; the parsers of
      the boot information are inverse to encoders; partitioning changes the type of
      exactly the range asked for; for which maps the repair of overlaps yields a map
      without overlaps; the phases keep such a map, in which image, trampoline and page
      tables are reserved; the boot tables map the first 4 GiB to themselves, with the bits
      of each entry stated for each kind of memory.
    - Hand-over: on every interleaving the cores arrive in the kernel one by one, in long
      mode with protection on, each on its own stack; an overflow of a stack faults in the
      tables that are handed over, after the pages of the interrupt stacks were split.
    - Memory: the frame allocators hand out every usable frame at most once; the blocks of
      the heap stay a partition, allocated blocks are aligned, in bounds and disjoint; the
      range set operations refine union, difference and a best fit on sets of addresses.
    - Page tables: map, unmap and update change the translation of exactly one page and
      keep the tree, clean-up frees exactly the unused tables of the range; the recursive mapper does
      the same although its accesses go through the tables it changes; the 32-bit mapper
      agrees with the walk of its processor; [id_map] and the heap mapping follow.
    - Kernel: on every interleaving all cores reach the running state ([KernelInit]); no order
      of steps and interrupts makes them wait for each other in a circle, and what waits
      forever waits for a core that panicked in a handler ([Locks]); the segment
      and interrupt tables they load, six exceptions on stacks of their own; the interrupt
      controllers; starting a core; the comparison of core registers.
    - ACPI: the parsers are inverse to encoders of the tables, the iterator agrees with the
      kernel's parser, yields the processors of the first MADT and stays in the table;
      initialisation ends on any memory contents.
    - Devices: the screen shows the end of the text, the log reaches both outputs, the bus
      scan offers every device to every driver.
    - Registers: writes keep reserved bits and other registers.
    Where the code does not do what it means to, a lemma shows the behaviour on a concrete
    input; the doc comment of the lemma says what was intended.

    ** Granularity of the interleavings

    In [KernelInit] and [Handover] a step is a phase of the code between two accesses to
    what other cores see; the increment of a counter is a load and a store of its own.  In
    [Locks] a step is one lock operation or change of the interrupt flag.

    ** Not modelled

    Debug printers and the text of panics; assembly, except the switch to long mode;
    floating point code (calibration of the time stamp counter, uptime, benchmarks); the
    translation look-aside buffer, so that flushing has no effect; exceptions and
    non-maskable interrupts during the interleavings, except in examples.  Of rust-cpuid
    and multiboot2 only what the bootloader reads; of crates/x86 not the segment tables
    and ports, which the bootloader sets up in assembly or does not use; cpuio, whose
    instructions the class [PortIO] stands for.  The tools, examples and build scripts run
    on the host. *)
From stdpp Require Export base option list list_numbers sorting gmap.
From Stdlib Require Export ZArith Lia.

#[global] Open Scope Z_scope.

(** ** Outcomes of Rust code

    A computation either returns or panics.  [NoFuel] is not a Rust panic: it
    marks a loop of the model that was given too few iterations, and every
    component proves that it does not occur. *)
Inductive fault : Set :=
  | Overflow      (* arithmetic overflow, checked in the dev profile *)
  | AssertFailed  (* assert!, const_assert! *)
  | Unwrap        (* unwrap or expect of None / Err *)
  | OutOfBounds   (* slice or array index out of range *)
  | Explicit      (* panic! *)
  | Undefined     (* undefined behaviour of an unsafe operation *)
  | NoFuel.

#[global] Instance fault_eq_dec : EqDecision fault.
Proof. solve_decision. Defined.

Inductive run (A : Type) : Type :=
  | Ret (a : A)
  | Panic (f : fault).
Arguments Ret {A} _.
Arguments Panic {A} _.

#[global] Instance run_ret : MRet run := λ _ a, Ret a.
#[global] Instance run_bind : MBind run :=
  λ _ _ f m, match m with Ret a => f a | Panic e => Panic e end.
#[global] Instance run_fmap : FMap run :=
  λ _ _ f m, match m with Ret a => Ret (f a) | Panic e => Panic e end.

Definition returns {A} (m : run A) : Prop := ∃ a, m = Ret a.

(** Rust's [assert!], [Option::unwrap]/[expect], [panic!]. *)
Definition rust_assert (b : bool) : run unit := if b then Ret tt else Panic AssertFailed.
Definition unwrap {A} (o : option A) : run A :=
  match o with Some a => Ret a | None => Panic Unwrap end.
Definition index {A} (l : list A) (i : nat) : run A :=
  match l !! i with Some a => Ret a | None => Panic OutOfBounds end.
Definition store {A} (l : list A) (i : nat) (a : A) : run (list A) :=
  if decide (i < length l)%nat then Ret (<[i := a]> l) else Panic OutOfBounds.

(** Rust's [Result<T, E>]. *)
Inductive result (A E : Type) : Type :=
  | Ok (a : A)
  | Err (e : E).
Arguments Ok {A E} _.
Arguments Err {A E} _.

(** ** Machine integers

    A [w]-bit unsigned integer is a [Z] in [0, 2^w). *)
Definition umax (w : Z) : Z := 2 ^ w - 1.
Definition in_width (w z : Z) : Prop := 0 ≤ z < 2 ^ w.
Abbreviation u8 := (in_width 8).
Abbreviation u16 := (in_width 16).
Abbreviation u32 := (in_width 32).
Abbreviation u64 := (in_width 64).

(** Operators of the dev profile: [+], [-], [*] panic on overflow. *)
Definition uadd (w a b : Z) : run Z := if a + b <? 2 ^ w then Ret (a + b) else Panic Overflow.
Definition usub (a b : Z) : run Z := if b <=? a then Ret (a - b) else Panic Overflow.
Definition umul (w a b : Z) : run Z := if a * b <? 2 ^ w then Ret (a * b) else Panic Overflow.

(** [a % b] panics on a zero divisor. *)
Definition urem (a b : Z) : run Z := if b =? 0 then Panic Explicit else Ret (a mod b).

Definition checked_add (w a b : Z) : option Z := if a + b <? 2 ^ w then Some (a + b) else None.
Definition checked_sub (a b : Z) : option Z := if b <=? a then Some (a - b) else None.
Definition saturating_add (w a b : Z) : Z := Z.min (a + b) (umax w).
Definition saturating_sub (a b : Z) : Z := Z.max 0 (a - b).
Definition wrapping_add (w a b : Z) : Z := (a + b) mod 2 ^ w.
(** [!a] on a [w]-bit integer. *)
Definition unot (w a : Z) : Z := umax w - a.
(** [a as uW] of a wider integer, and [a << k] on a [w]-bit integer. *)
Definition cast (w a : Z) : Z := a mod 2 ^ w.
Definition ushl (w a k : Z) : Z := Z.shiftl a k mod 2 ^ w.

Fixpoint pos_count_ones (p : positive) : Z :=
  match p with
  | xH => 1
  | xO q => pos_count_ones q
  | xI q => 1 + pos_count_ones q
  end.
Definition count_ones (a : Z) : Z :=
  match a with Zpos p => pos_count_ones p | _ => 0 end.
(** [is_power_of_two] of core: exactly one bit is set. *)
Definition is_power_of_two (a : Z) : bool := count_ones a =? 1.

(** ** Loops

    [for_each f l s] runs a [for] loop over [l] that threads the state [s]. *)
Fixpoint for_each {A S} (f : A → S → run S) (l : list A) (s : S) : run S :=
  match l with
  | [] => Ret s
  | a :: l' => s' ← f a s; for_each f l' s'
  end.

(** [(s..e).step_by(n)] on integers. *)
Definition step_by (s e n : Z) : list Z :=
  (λ i, s + Z.of_nat i * n) <$> seq 0 (Z.to_nat ((e - s + (n - 1)) / n)).

(** [&l[0..n]] of a slice. *)
Definition slice_to {A} (l : list A) (n : nat) : run (list A) :=
  if decide (n ≤ length l)%nat then Ret (take n l) else Panic OutOfBounds.

(** ** Sorting

    [slice::sort_unstable_by] of core with the comparison's [Less] as [less]: the
    result is a permutation, and it is sorted when [less] is a strict weak order.
    Equivalent elements come out in any order, so components that sort are
    proved against this interface. *)
Definition asymmetric {A} (less : A → A → bool) : Prop :=
  ∀ a b, less a b = true → less b a = false.
Definition negatively_transitive {A} (less : A → A → bool) : Prop :=
  ∀ a b c, less b a = false → less c b = false → less c a = false.

Definition not_less {A} (less : A → A → bool) (a b : A) : Prop := less b a = false.
#[global] Instance not_less_dec {A} (less : A → A → bool) a b : Decision (not_less less a b) :=
  bool_eq_dec _ _.

Class SortUnstable (A : Type) := {
  sort_unstable_by : (A → A → bool) → list A → list A;
  sort_unstable_perm less l : sort_unstable_by less l ≡ₚ l;
  sort_unstable_sorted less l :
    asymmetric less → negatively_transitive less →
    StronglySorted (not_less less) (sort_unstable_by less l)
}.

#[global] Program Instance merge_sort_unstable (A : Type) : SortUnstable A := {|
  sort_unstable_by less l := merge_sort (not_less less) l
|}.
Next Obligation. intros. apply merge_sort_Permutation. Qed.
Next Obligation.
  intros A less l Ha Ht. apply StronglySorted_merge_sort.
  - intros a b c. apply Ht.
  - intros a b. unfold not_less in *. destruct (less b a) eqn:E; [right; by apply Ha|by left].
Qed.

(** ** Tactics and hint databases *)
Create HintDb width.
Create HintDb runs.

Ltac unfold_width := unfold in_width, umax in *.

(** Case analysis on the boolean comparisons of the goal, as propositions. *)
Ltac zcase :=
  repeat match goal with
  | |- context [?a <=? ?b] => destruct (Z.leb_spec a b)
  | |- context [?a <? ?b] => destruct (Z.ltb_spec a b)
  | |- context [?a =? ?b] => destruct (Z.eqb_spec a b)
  end.

(** [b = bool_decide P] with [b] a constant and [P] arithmetic. *)
Ltac bool_lia :=
  simpl; symmetry; first [apply bool_decide_eq_true; lia | apply bool_decide_eq_false; lia].

Lemma bind_Ret {A B} (m : run A) (f : A → run B) (b : B) :
  m ≫= f = Ret b ↔ ∃ a, m = Ret a ∧ f a = Ret b.
Proof. destruct m; simpl; split; [naive_solver.. | done | naive_solver]. Qed.

Lemma bind_Panic {A B} (m : run A) (f : A → run B) (e : fault) :
  m ≫= f = Panic e ↔ m = Panic e ∨ ∃ a, m = Ret a ∧ f a = Panic e.
Proof. destruct m; simpl; naive_solver. Qed.

(** Inversion of a successful monadic sequence in a hypothesis. *)
Ltac run_inv :=
  repeat match goal with
  | H : _ ≫= _ = Ret _ |- _ =>
      let a := fresh "a" in let E := fresh "Hrun" in
      apply bind_Ret in H as (a & E & H)
  | H : Ret _ = Ret _ |- _ => injection H as H
  | H : Panic _ = Ret _ |- _ => discriminate H
  | H : Ret _ = Panic _ |- _ => discriminate H
  | H : rust_assert ?b = Ret _ |- _ =>
      unfold rust_assert in H; destruct b eqn:?; [clear H | discriminate H]
  | H : unwrap ?o = Ret _ |- _ =>
      unfold unwrap in H; destruct o eqn:?; [injection H as H | discriminate H]
  end; simplify_eq.

(** ** Generic lemmas: checked arithmetic *)
Lemma uadd_Ret w a b : a + b < 2 ^ w → uadd w a b = Ret (a + b).
Proof. unfold uadd. zcase; [done | lia]. Qed.
Lemma usub_Ret a b : b ≤ a → usub a b = Ret (a - b).
Proof. unfold usub. zcase; [done | lia]. Qed.
Lemma umul_Ret w a b : a * b < 2 ^ w → umul w a b = Ret (a * b).
Proof. unfold umul. zcase; [done | lia]. Qed.
Lemma uadd_Ret_inv w a b c : uadd w a b = Ret c → c = a + b ∧ a + b < 2 ^ w.
Proof. unfold uadd. zcase; naive_solver. Qed.
Lemma usub_Ret_inv a b c : usub a b = Ret c → c = a - b ∧ b ≤ a.
Proof. unfold usub. zcase; naive_solver. Qed.
Lemma umul_Ret_inv w a b c : umul w a b = Ret c → c = a * b ∧ a * b < 2 ^ w.
Proof. unfold umul. zcase; naive_solver. Qed.
Lemma checked_add_Some w a b c : checked_add w a b = Some c ↔ c = a + b ∧ a + b < 2 ^ w.
Proof. unfold checked_add. zcase; naive_solver lia. Qed.
#[export] Hint Resolve uadd_Ret usub_Ret umul_Ret : runs.

Lemma index_Ret {A} (l : list A) i a : index l i = Ret a ↔ l !! i = Some a.
Proof. unfold index. destruct (l !! i); naive_solver. Qed.
Lemma store_Ret {A} (l : list A) i a : (i < length l)%nat → store l i a = Ret (<[i := a]> l).
Proof. intros. unfold store. by rewrite decide_True. Qed.

Lemma for_each_app {A S} (f : A → S → run S) l1 l2 s :
  for_each f (l1 ++ l2) s = for_each f l1 s ≫= for_each f l2.
Proof. revert s. induction l1 as [|a l1 IH]; intros s; simpl; [done|]. by destruct (f a s); simpl. Qed.

Lemma mapM_Ret {A B} (f : A → run B) (g : A → B) l : (∀ x, x ∈ l → f x = Ret (g x)) → mapM f l = Ret (g <$> l).
Proof.
  induction l as [|x l IH]; intros Hf; simpl; [done|].
  rewrite Hf by (by left). simpl. by rewrite IH by (intros; apply Hf; by right).
Qed.

Lemma urem_Ret a b : b ≠ 0 → urem a b = Ret (a mod b).
Proof. unfold urem. zcase; [lia|done]. Qed.

Lemma elem_of_step_by s e n a :
  0 < n → a ∈ step_by s e n ↔ ∃ i, 0 ≤ i ∧ a = s + i * n ∧ a < e.
Proof.
  intros Hn. unfold step_by. rewrite list_elem_of_fmap. setoid_rewrite elem_of_seq. split.
  - intros (i & -> & Hi). exists (Z.of_nat i). split_and!; [lia|done|].
    assert (Z.of_nat i + 1 ≤ (e - s + (n - 1)) / n) as Hle by lia.
    pose proof (Z.mul_div_le (e - s + (n - 1)) n Hn). nia.
  - intros (i & Hi & -> & Hlt). exists (Z.to_nat i). split; [lia|]. split; [lia|].
    assert (i < (e - s + (n - 1)) / n); [|lia].
    assert (i + 1 ≤ (e - s + (n - 1)) / n); [|lia]. apply Z.div_le_lower_bound; lia.
Qed.

Lemma NoDup_step_by s e n : 0 < n → NoDup (step_by s e n).
Proof. intros. apply NoDup_fmap_2; [intros i j; nia|apply NoDup_seq]. Qed.

(** A loop invariant of a [for] loop. *)
Lemma for_each_inv {A S} (P : list A → S → Prop) (f : A → S → run S) l s :
  P [] s →
  (∀ done a rest s, l = done ++ a :: rest → P done s → ∃ s', f a s = Ret s' ∧ P (done ++ [a]) s') →
  ∃ s', for_each f l s = Ret s' ∧ P l s'.
Proof.
  intros H0 Hstep.
  assert (∀ pre suf s, l = pre ++ suf → P pre s → ∃ s', for_each f suf s = Ret s' ∧ P l s') as Hgen.
  { intros pre suf; revert pre. induction suf as [|a suf IH]; intros pre s1 Hl HP; simpl.
    - rewrite app_nil_r in Hl. subst. eauto.
    - destruct (Hstep pre a suf s1 Hl HP) as (s2 & -> & HP2). simpl.
      apply (IH (pre ++ [a])); [|done]. by rewrite <- app_assoc. }
  by apply (Hgen [] l).
Qed.

(** ** Generic lemmas: masks and powers of two *)
Lemma pow2_pos k : 0 ≤ k → 0 < 2 ^ k.
Proof. intros. apply Z.pow_pos_nonneg; lia. Qed.
#[export] Hint Resolve pow2_pos : width.

Lemma pow2_divide i j : 0 ≤ i ≤ j → (2 ^ i | 2 ^ j).
Proof. intros. exists (2 ^ (j - i)). rewrite <- Z.pow_add_r by lia. f_equal; lia. Qed.

(** [a & (2^k - 1)] is [a mod 2^k]. *)
Lemma land_mask a k : 0 ≤ k → Z.land a (2 ^ k - 1) = a mod 2 ^ k.
Proof. intros. rewrite <- Z.land_ones by done. rewrite Z.ones_equiv. f_equal; lia. Qed.

Lemma testbit_above w a n : in_width w a → 0 ≤ w ≤ n → Z.testbit a n = false.
Proof.
  intros Ha Hn. destruct (decide (a = 0)) as [->|]; [apply Z.testbit_0_l|].
  apply Z.bits_above_log2; [unfold_width; lia|].
  apply Z.log2_lt_pow2; unfold_width; [lia|].
  pose proof (Z.pow_le_mono_r 2 w n). lia.
Qed.

Lemma shiftr_shiftl_mod a k : 0 ≤ k → Z.shiftl (Z.shiftr a k) k = a - a mod 2 ^ k.
Proof.
  intros. rewrite Z.shiftl_mul_pow2, Z.shiftr_div_pow2 by done.
  pose proof (Z.div_mod a (2 ^ k)). pose proof (pow2_pos k). lia.
Qed.

(** [a & !(2^k - 1)] clears the low [k] bits. *)
Lemma land_not_mask w a k :
  0 ≤ k ≤ w → in_width w a → Z.land a (unot w (2 ^ k - 1)) = a - a mod 2 ^ k.
Proof.
  intros Hk Ha. rewrite <- shiftr_shiftl_mod by lia.
  assert (unot w (2 ^ k - 1) = Z.shiftl (Z.ones (w - k)) k) as ->.
  { rewrite Z.shiftl_mul_pow2, Z.ones_equiv by lia. unfold unot, umax.
    replace (2 ^ w) with (2 ^ (w - k) * 2 ^ k); [lia|].
    rewrite <- Z.pow_add_r by lia. f_equal; lia. }
  apply Z.bits_inj'. intros n Hn. rewrite Z.land_spec.
  destruct (decide (n < k)).
  - rewrite !Z.shiftl_spec_low by lia. by rewrite andb_false_r.
  - rewrite !Z.shiftl_spec, Z.shiftr_spec by lia. replace (n - k + k) with n by lia.
    destruct (decide (n < w)).
    + rewrite Z.ones_spec_low by lia. by rewrite andb_true_r.
    + rewrite (testbit_above w a n) by (auto; lia). done.
Qed.

(** Disjoint bit sets: [|] is [+]. *)
Lemma lor_disjoint a b k : 0 ≤ k → a mod 2 ^ k = 0 → in_width k b → Z.lor a b = a + b.
Proof.
  intros Hk Ha Hb. symmetry. rewrite Z.add_nocarry_lxor; [apply Z.lxor_lor|];
    apply Z.bits_inj'; intros n Hn; rewrite Z.land_spec, Z.testbit_0_l;
    (destruct (decide (n < k));
     [ replace (Z.testbit a n) with false; [done|];
       symmetry; rewrite <- (Z.mod_pow2_bits_low a k) by lia; rewrite Ha; apply Z.testbit_0_l
     | rewrite (testbit_above k b n) by (auto; lia); apply andb_false_r ]).
Qed.

Lemma pos_count_ones_pos p : 1 ≤ pos_count_ones p.
Proof. induction p; simpl; lia. Qed.

Lemma is_power_of_two_spec a : is_power_of_two a = true ↔ ∃ k, 0 ≤ k ∧ a = 2 ^ k.
Proof.
  unfold is_power_of_two. rewrite Z.eqb_eq. split.
  - destruct a as [|p|p]; simpl; [lia| |lia].
    induction p as [q _|q IH|]; simpl; intros H.
    + pose proof (pos_count_ones_pos q). lia.
    + destruct (IH H) as (k & ? & Hk). exists (k + 1). split; [lia|].
      rewrite Z.pow_add_r, <- Hk by lia. lia.
    + by exists 0.
  - intros (k & Hk & ->). rewrite <- (Z2Nat.id k) by done.
    induction (Z.to_nat k) as [|n IH]; [done|].
    rewrite Nat2Z.inj_succ, Z.pow_succ_r by lia.
    destruct (2 ^ Z.of_nat n) eqn:E; simpl in *; done.
Qed.

(** A power of two below [2^w] is [2^k] with [k < w]. *)
Lemma power_of_two_width w a :
  is_power_of_two a = true → in_width w a → ∃ k, 0 ≤ k < w ∧ a = 2 ^ k.
Proof.
  intros (k & Hk & ->)%is_power_of_two_spec [_ Hw]. exists k. split; [|done].
  split; [done|]. destruct (decide (0 ≤ w)) as [Hw0|Hw0].
  - by apply (Z.pow_lt_mono_r_iff 2).
  - rewrite (Z.pow_neg_r 2 w) in Hw by lia. pose proof (pow2_pos k). lia.
Qed.
