(* ===== verification/RangeSet.v ===== *)
(** * crates/rangeset: a fixed-capacity set of inclusive u64 ranges

    Model of [crates/rangeset/src/lib.rs].  The backing array [ranges] is a list
    of 256 ranges of which the first [in_use] are live; loops with labels
    ('try_merges, 'try_subtractions) are fuelled, one unit of fuel per pass, and
    the specifications show that [S in_use] passes are enough. *)
From S2P Require Import Prelude.

Module RangeSet.

Record Range := mkRange { start : Z; end_ : Z }.
Record RangeSet := mkRangeSet { ranges : list Range; in_use : nat }.

#[global] Instance Range_eq_dec : EqDecision Range.
Proof. solve_decision. Defined.
#[global] Instance RangeSet_eq_dec : EqDecision RangeSet.
Proof. solve_decision. Defined.

Definition usize_MAX : Z := umax 64.

Definition new : RangeSet := {| ranges := replicate 256 (mkRange 0 0); in_use := 0 |}.

Definition entries (rs : RangeSet) : list Range := take (in_use rs) (ranges rs).

(** [Display]: the pairs printed between the brackets. *)
Definition display (rs : RangeSet) : list (Z * Z) :=
  (λ r, (start r, end_ r)) <$> filter (λ r, start r < end_ r) (ranges rs).

(** [core::mem::swap] of the two ends when they are out of order. *)
Definition ordered (a : Range) : Range :=
  if end_ a <? start a then mkRange (end_ a) (start a) else a.

Definition overlaps (a b : Range) : option Range :=
  let a := ordered a in
  let b := ordered b in
  if (start a <=? end_ b) && (start b <=? end_ a)
  then Some (mkRange (Z.max (start a) (start b)) (Z.min (end_ a) (end_ b)))
  else None.

Definition contains (a b : Range) : bool :=
  let a := ordered a in
  let b := ordered b in
  (start b <=? start a) && (end_ a <=? end_ b).

(** [slice::swap]. *)
Definition swap {A} (l : list A) (i j : nat) : run (list A) :=
  a ← index l i; b ← index l j; Ret (<[i := b]> (<[j := a]> l)).

Definition delete (rs : RangeSet) (idx : nat) : run RangeSet :=
  _ ← rust_assert (Nat.ltb idx (in_use rs));
  l ← for_each (λ ii l, swap l ii (S ii)) (seq idx (in_use rs - 1 - idx)) (ranges rs);
  Ret {| ranges := l; in_use := in_use rs - 1 |}.

(** One pass of the [for] loop of [insert]: the first live range that overlaps
    or touches [range] is merged into it and deleted. *)
Fixpoint insert_pass (rs : RangeSet) (range : Range) (iis : list nat)
    : run (option (Range * RangeSet)) :=
  match iis with
  | [] => Ret None
  | ii :: iis' =>
      ent ← index (ranges rs) ii;
      match overlaps (mkRange (start range) (saturating_add 64 (end_ range) 1))
                     (mkRange (start ent) (saturating_add 64 (end_ ent) 1)) with
      | None => insert_pass rs range iis'
      | Some _ =>
          let range' := mkRange (Z.min (start range) (start ent)) (Z.max (end_ range) (end_ ent)) in
          rs' ← delete rs ii;
          Ret (Some (range', rs'))
      end
  end.

Fixpoint try_merges (fuel : nat) (rs : RangeSet) (range : Range) : run (Range * RangeSet) :=
  match fuel with
  | O => Panic NoFuel
  | S fuel' =>
      r ← insert_pass rs range (seq 0 (in_use rs));
      match r with
      | Some (range', rs') => try_merges fuel' rs' range'
      | None => Ret (range, rs)
      end
  end.

Definition insert (rs : RangeSet) (range : Range) : run RangeSet :=
  _ ← rust_assert (start range <=? end_ range);
  '(range', rs') ← try_merges (S (in_use rs)) rs range;
  _ ← rust_assert (Nat.ltb (in_use rs') (length (ranges rs')));
  l ← store (ranges rs') (in_use rs') range';
  Ret {| ranges := l; in_use := in_use rs' + 1 |}.

(** One pass of the [for] loop of [remove]; the flag says whether the pass ended
    in [continue 'try_subtractions]. *)
Fixpoint remove_pass (rs : RangeSet) (range : Range) (iis : list nat) : run (bool * RangeSet) :=
  match iis with
  | [] => Ret (false, rs)
  | ii :: iis' =>
      ent ← index (ranges rs) ii;
      match overlaps range ent with
      | None => remove_pass rs range iis'
      | Some _ =>
          if contains ent range then rs' ← delete rs ii; Ret (true, rs')
          else if start range <=? start ent then
            l ← store (ranges rs) ii (mkRange (saturating_add 64 (end_ range) 1) (end_ ent));
            remove_pass {| ranges := l; in_use := in_use rs |} range iis'
          else if end_ ent <=? end_ range then
            l ← store (ranges rs) ii (mkRange (start ent) (saturating_sub (start range) 1));
            remove_pass {| ranges := l; in_use := in_use rs |} range iis'
          else
            l ← store (ranges rs) ii (mkRange (saturating_add 64 (end_ range) 1) (end_ ent));
            _ ← rust_assert (Nat.ltb (in_use rs) (length l));
            l ← store l (in_use rs) (mkRange (start ent) (saturating_sub (start range) 1));
            Ret (true, {| ranges := l; in_use := in_use rs + 1 |})
      end
  end.

Fixpoint try_subtractions (fuel : nat) (rs : RangeSet) (range : Range) : run RangeSet :=
  match fuel with
  | O => Panic NoFuel
  | S fuel' =>
      '(again, rs') ← remove_pass rs range (seq 0 (in_use rs));
      if (again : bool) then try_subtractions fuel' rs' range else Ret rs'
  end.

Definition remove (rs : RangeSet) (range : Range) : run RangeSet :=
  _ ← rust_assert (start range <=? end_ range);
  try_subtractions (S (in_use rs)) rs range.

Definition subtract (self rs : RangeSet) : run RangeSet :=
  for_each (λ ent self, remove self ent) (entries rs) self.

(** [sum]: [try_fold] stops with [None] at a range of length 2^64. *)
Fixpoint sum_entries (l : list Range) (acc : Z) : run (option Z) :=
  match l with
  | [] => Ret (Some acc)
  | x :: l' =>
      len ← usub (end_ x) (start x);
      match checked_add 64 len 1 with
      | None => Ret None
      | Some n => acc' ← uadd 64 acc n; sum_entries l' acc'
      end
  end.

Definition sum (rs : RangeSet) : run (option Z) := sum_entries (entries rs) 0.

(** The candidate allocation [(base, end, ptr)]. *)
Definition candidate : Type := Z * Z * Z.

Inductive search : Type :=
  | Found (c : candidate)     (* break 'allocation_search *)
  | NextEntry                 (* continue 'allocation_search *)
  | NoPreference.             (* the regions loop ran to its end *)

(** The loop over [regions.entries()] for one entry of the set. *)
Fixpoint prefer_region (ent : Range) (size alignmask : Z) (regions : list Range) : run search :=
  match regions with
  | [] => Ret NoPreference
  | region :: regions' =>
      match overlaps ent region with
      | None => prefer_region ent size alignmask regions'
      | Some overlap =>
          let align_overlap :=
            Z.land (wrapping_add 64 (start overlap) alignmask) (unot 64 alignmask) in
          if (start overlap <=? align_overlap) && (align_overlap <=? end_ overlap)
             && (size - 1 <=? end_ overlap - align_overlap)
          then
            overlap_alc_end ← uadd 64 align_overlap (size - 1);
            if (usize_MAX <? align_overlap) || (usize_MAX <? overlap_alc_end)
            then Ret NextEntry
            else Ret (Found (align_overlap, overlap_alc_end, align_overlap))
          else prefer_region ent size alignmask regions'
      end
  end.

(** 'allocation_search.  [None] is the early return of the [?] operator. *)
Fixpoint allocation_search (size align : Z) (regions : option (list Range))
    (ents : list Range) (allocation : option candidate) : run (option (option candidate)) :=
  match ents with
  | [] => Ret (Some allocation)
  | ent :: ents' =>
      let alignmask := align - 1 in
      fix_ ← usub align (Z.land (start ent) alignmask);
      let align_fix := Z.land fix_ alignmask in
      let base := start ent in
      match checked_add 64 base (size - 1) ≫= λ e, checked_add 64 e align_fix with
      | None => Ret None
      | Some end' =>
          if (usize_MAX <? base) || (usize_MAX <? end') then
            allocation_search size align regions ents' allocation
          else if end_ ent <? end' then
            allocation_search size align regions ents' allocation
          else
            pref ← match regions with
                   | Some rg => prefer_region ent size alignmask rg
                   | None => Ret NoPreference
                   end;
            match pref with
            | Found c => Ret (Some (Some c))
            | NextEntry => allocation_search size align regions ents' allocation
            | NoPreference =>
                len ← usub end' base;
                if match allocation with
                   | None => true
                   | Some (b, e, _) => len <? e - b
                   end
                then
                  ptr ← uadd 64 base align_fix;
                  allocation_search size align regions ents' (Some (base, end', ptr))
                else allocation_search size align regions ents' allocation
            end
      end
  end.

Definition allocate_prefer (rs : RangeSet) (size align : Z) (regions : option RangeSet)
    : run (option Z * RangeSet) :=
  if size =? 0 then Ret (None, rs)
  else if negb (count_ones align =? 1) then Ret (None, rs)
  else
    found ← allocation_search size align (entries <$> regions) (entries rs) None;
    match found with
    | Some (Some (base, end', ptr)) =>
        rs' ← remove rs (mkRange base end');
        Ret (Some ptr, rs')
    | _ => Ret (None, rs)
    end.

Definition allocate (rs : RangeSet) (size align : Z) : run (option Z * RangeSet) :=
  allocate_prefer rs size align None.

(** ** Specification *)

Definition valid (r : Range) : Prop := 0 ≤ start r ≤ end_ r ∧ end_ r ≤ umax 64.
Definition inside (x : Z) (r : Range) : Prop := start r ≤ x ≤ end_ r.
Definition meets (a b : Range) : Prop := start a ≤ end_ b ∧ start b ≤ end_ a.
(** Two ranges are separated when at least one address lies between them. *)
Definition touch (a b : Range) : Prop := start a ≤ end_ b + 1 ∧ start b ≤ end_ a + 1.

(** The addresses a list of ranges covers, and those of the set. *)
Definition covers (l : list Range) (x : Z) : Prop := ∃ r, r ∈ l ∧ inside x r.
Definition member (rs : RangeSet) (x : Z) : Prop := covers (entries rs) x.

Definition shape (rs : RangeSet) : Prop := length (ranges rs) = 256%nat ∧ (in_use rs ≤ 256)%nat.
Definition separated (l : list Range) : Prop :=
  ∀ i j a b, l !! i = Some a → l !! j = Some b → i ≠ j → ¬ touch a b.

(** The invariant of the structure: capacity, well-formed ranges, and no two
    live ranges overlap or touch. *)
Definition wf (rs : RangeSet) : Prop :=
  shape rs ∧ Forall valid (entries rs) ∧ separated (entries rs).

#[global] Instance meets_dec a b : Decision (meets a b).
Proof. unfold meets. apply _. Defined.
#[global] Instance touch_dec a b : Decision (touch a b).
Proof. unfold touch. apply _. Defined.
#[global] Instance covers_proper : Proper ((≡ₚ) ==> eq ==> iff) covers.
Proof. intros l l' Hl x ? <-. unfold covers. by setoid_rewrite Hl. Qed.

(** The empty set. *)
Lemma rangeset_new_wf : wf new.
Proof.
  split; [|split].
  - split; [apply length_replicate|simpl; lia].
  - constructor.
  - by intros i j a b Ha.
Qed.
Lemma covers_cons r l x : covers (r :: l) x ↔ inside x r ∨ covers l x.
Proof. unfold covers. set_solver. Qed.
Lemma covers_nil x : ¬ covers [] x.
Proof. unfold covers. set_solver. Qed.
Lemma covers_app l l' x : covers (l ++ l') x ↔ covers l x ∨ covers l' x.
Proof. unfold covers. set_solver. Qed.
#[local] Hint Rewrite covers_cons covers_app : covers.

Lemma ordered_valid r : valid r → ordered r = r.
Proof. unfold valid, ordered. zcase; [lia|done]. Qed.

Lemma overlaps_None a b : valid a → valid b → overlaps a b = None ↔ ¬ meets a b.
Proof.
  intros Ha Hb. unfold overlaps, meets. rewrite !ordered_valid by done.
  zcase; simpl; split; try done; lia.
Qed.

Lemma overlaps_Some a b o :
  valid a → valid b → overlaps a b = Some o →
  meets a b ∧ valid o ∧ ∀ x, inside x o ↔ inside x a ∧ inside x b.
Proof.
  intros Ha Hb. unfold overlaps, meets. rewrite !ordered_valid by done.
  unfold valid, inside in *. zcase; simpl; intros; simplify_eq; simpl; repeat split; intros; lia.
Qed.

Lemma contains_spec a b : valid a → valid b → contains a b = true ↔ ∀ x, inside x a → inside x b.
Proof.
  intros Ha Hb. unfold contains, inside. rewrite !ordered_valid by done.
  rewrite andb_true_iff, !Z.leb_le. split; [lia|]. unfold valid in *. intros H.
  pose proof (H (start a)). pose proof (H (end_ a)). lia.
Qed.

(** The test of [insert], on both ranges widened by a saturating [+1]. *)
Definition merge_test (a b : Range) : option Range :=
  overlaps (mkRange (start a) (saturating_add 64 (end_ a) 1))
           (mkRange (start b) (saturating_add 64 (end_ b) 1)).

Lemma widened_valid r : valid r → valid (mkRange (start r) (saturating_add 64 (end_ r) 1)).
Proof. unfold valid, saturating_add, umax. simpl. lia. Qed.

Lemma merge_test_None a b : valid a → valid b → merge_test a b = None ↔ ¬ touch a b.
Proof.
  intros Ha Hb. unfold merge_test. rewrite overlaps_None by (by apply widened_valid).
  unfold meets, touch, valid, saturating_add, umax in *. simpl. lia.
Qed.

(** *** [delete] *)
Lemma swap_adjacent {A} (p q : list A) a b :
  swap (p ++ a :: b :: q) (length p) (S (length p)) = Ret (p ++ b :: a :: q).
Proof.
  unfold swap, index. induction p as [|x p IH]; simpl; [done|].
  destruct ((p ++ _) !! length p); simpl in *; [|done].
  destruct ((p ++ _) !! S (length p)); simpl in *; [|done]. by simplify_eq; rewrite IH.
Qed.

(** The swap loop carries the deleted element to the end of the live part. *)
Lemma swap_loop {A} (m p q : list A) a :
  for_each (λ ii l, swap l ii (S ii)) (seq (length p) (length m)) (p ++ a :: m ++ q)
  = Ret (p ++ m ++ a :: q).
Proof.
  revert p. induction m as [|b m IH]; intros p; simpl; [done|].
  rewrite swap_adjacent. simpl.
  replace (p ++ b :: a :: m ++ q) with ((p ++ [b]) ++ a :: m ++ q) by by rewrite <- app_assoc.
  replace (S (length p)) with (length (p ++ [b])) by (rewrite length_app; simpl; lia).
  rewrite IH. by rewrite <- app_assoc.
Qed.

Lemma entries_length rs : shape rs → length (entries rs) = in_use rs.
Proof. intros [Hl Hu]. unfold entries. rewrite length_take. lia. Qed.

Lemma delete_spec rs idx :
  shape rs → (idx < in_use rs)%nat →
  ∃ rs', delete rs idx = Ret rs' ∧ shape rs' ∧ in_use rs' = (in_use rs - 1)%nat
         ∧ entries rs' = base.delete idx (entries rs).
Proof.
  intros [Hl Hu] Hidx.
  set (p := take idx (ranges rs)).
  destruct (lookup_lt_is_Some_2 (ranges rs) idx ltac:(lia)) as [a Ha].
  set (m := take (in_use rs - 1 - idx) (drop (S idx) (ranges rs))).
  set (q := drop (in_use rs) (ranges rs)).
  assert (length p = idx) as Hp by (unfold p; rewrite length_take; lia).
  assert (length m = (in_use rs - 1 - idx)%nat) as Hm.
  { unfold m. rewrite length_take, length_drop. lia. }
  assert (ranges rs = p ++ a :: m ++ q) as Hr.
  { unfold p, m, q. rewrite <- (take_drop_middle (ranges rs) idx a Ha) at 1.
    do 2 f_equal. rewrite <- (take_drop (in_use rs - 1 - idx) (drop (S idx) (ranges rs))) at 1.
    f_equal. rewrite drop_drop. f_equal. lia. }
  unfold delete, rust_assert. rewrite (proj2 (Nat.ltb_lt _ _)) by done. simpl.
  pose proof (swap_loop m p q a) as Hloop. rewrite Hp, Hm, <- Hr in Hloop. rewrite Hloop. simpl.
  eexists. split; [done|]. unfold shape. simpl.
  assert (length (p ++ m ++ a :: q) = 256%nat) as Hlen.
  { rewrite <- Hl, Hr, !length_app. simpl. rewrite length_app. lia. }
  split; [lia|]. split; [done|].
  unfold entries. simpl. rewrite Hr.
  assert (take (in_use rs) (p ++ a :: m ++ q) = p ++ a :: m) as ->.
  { replace (p ++ a :: m ++ q) with ((p ++ a :: m) ++ q) by by rewrite <- app_assoc.
    rewrite take_app_length'; [done|]. rewrite length_app. simpl. lia. }
  rewrite app_assoc, take_app_length' by (rewrite length_app; lia).
  rewrite <- Hp. by rewrite delete_middle.
Qed.

Lemma live_index rs ii :
  shape rs → (ii < in_use rs)%nat →
  ∃ e, index (ranges rs) ii = Ret e ∧ entries rs !! ii = Some e.
Proof.
  intros [Hl Hu] Hii. destruct (lookup_lt_is_Some_2 (ranges rs) ii ltac:(lia)) as [e He].
  exists e. unfold index, entries. by rewrite lookup_take_lt, He by done.
Qed.

Lemma separated_delete i l : separated l → separated (base.delete i l).
Proof.
  intros Hs j k a b Ha Hb Hjk. rewrite list_lookup_delete in Ha, Hb.
  repeat case_decide; eapply Hs; eauto; lia.
Qed.

Lemma covers_delete i l e x :
  l !! i = Some e → covers l x ↔ inside x e ∨ covers (base.delete i l) x.
Proof.
  intros He. rewrite <- covers_cons. apply covers_proper; [|done]. by apply delete_Permutation.
Qed.

Lemma valid_lookup l i e : Forall valid l → l !! i = Some e → valid e.
Proof. intros Hv He. by eapply Forall_lookup_1. Qed.
#[local] Hint Resolve separated_delete Forall_delete valid_lookup : runs.

(** *** [insert] *)
Definition hull (a b : Range) : Range :=
  mkRange (Z.min (start a) (start b)) (Z.max (end_ a) (end_ b)).

Lemma hull_valid a b : valid a → valid b → valid (hull a b).
Proof. unfold valid, hull. simpl. lia. Qed.
Lemma hull_inside a b x :
  valid a → valid b → touch a b → inside x (hull a b) ↔ inside x a ∨ inside x b.
Proof. unfold valid, touch, inside, hull. simpl. lia. Qed.
#[local] Hint Resolve hull_valid : runs.

Lemma insert_pass_spec rs range iis :
  shape rs → Forall valid (entries rs) → valid range → Forall (λ ii, ii < in_use rs)%nat iis →
  (insert_pass rs range iis = Ret None
   ∧ ∀ ii e, ii ∈ iis → entries rs !! ii = Some e → ¬ touch range e)
  ∨ ∃ ii e rs', insert_pass rs range iis = Ret (Some (hull range e, rs'))
      ∧ entries rs !! ii = Some e ∧ touch range e
      ∧ shape rs' ∧ in_use rs = S (in_use rs') ∧ entries rs' = base.delete ii (entries rs).
Proof.
  intros Hsh Hv Hr Hiis. induction Hiis as [|ii iis Hii Hiis IH]; simpl.
  { left. split; [done|]. set_solver. }
  destruct (live_index rs ii Hsh Hii) as (e & -> & He). simpl.
  pose proof (valid_lookup _ _ _ Hv He) as Hve.
  destruct (overlaps _ _) as [o|] eqn:Ho.
  - right. destruct (delete_spec rs ii Hsh Hii) as (rs' & -> & Hsh' & Hu' & He').
    exists ii, e, rs'. repeat (split; [done|]). split; [|naive_solver lia].
    apply dec_stable. intros Hn. by rewrite <- merge_test_None, (Ho : merge_test _ _ = _) in Hn by done.
  - destruct IH as [[-> IH]|IH]; [left; split; [done|]|by right].
    intros jj e' [->|Hjj]%elem_of_cons He''; [|by eapply IH]. simplify_eq.
    by apply merge_test_None.
Qed.

Lemma seq_live n : Forall (λ ii, ii < n)%nat (seq 0 n).
Proof. apply Forall_seq. lia. Qed.

(** Merging ends within one pass per live range, and leaves a range that
    touches nothing that is still live. *)
Lemma try_merges_spec fuel rs range :
  wf rs → valid range → (in_use rs < fuel)%nat →
  ∃ range' rs', try_merges fuel rs range = Ret (range', rs')
    ∧ wf rs' ∧ valid range' ∧ (in_use rs' ≤ in_use rs)%nat
    ∧ (in_use rs' = in_use rs → ∀ e, e ∈ entries rs → ¬ touch range e)
    ∧ (in_use rs' = in_use rs ∨ ∃ e, e ∈ entries rs ∧ touch range e)
    ∧ (∀ e, e ∈ entries rs' → ¬ touch range' e)
    ∧ ∀ x, inside x range' ∨ member rs' x ↔ inside x range ∨ member rs x.
Proof.
  revert rs range. induction fuel as [|fuel IH]; intros rs range (Hsh & Hv & Hsep) Hr Hf; [lia|].
  simpl. destruct (insert_pass_spec rs range (seq 0 (in_use rs))) as [[-> Hno]|H]; eauto using seq_live.
  - simpl. exists range, rs. unfold wf. split_and!; try done.
    + intros _ e [ii He]%list_elem_of_lookup. eapply Hno; [|done].
      apply elem_of_seq. apply lookup_lt_Some in He. rewrite entries_length in He by done. lia.
    + by left.
    + intros e [ii He]%list_elem_of_lookup. eapply Hno; [|done].
      apply elem_of_seq. apply lookup_lt_Some in He. rewrite entries_length in He by done. lia.
  - destruct H as (ii & e & rs1 & -> & He & Ht & Hsh1 & Hu1 & He1). simpl.
    destruct (IH rs1 (hull range e)) as (range' & rs' & -> & Hwf' & Hv' & Hle & _ & _ & Hno & Hmem).
    { unfold wf. rewrite He1. auto with runs. }
    { eauto with runs. } { lia. }
    exists range', rs'. split_and!; try done; [lia|lia| |].
    { right. eauto using list_elem_of_lookup_2. }
    intros x. rewrite Hmem, hull_inside by eauto with runs.
    unfold member. rewrite He1, (covers_delete ii (entries rs) e) by done. tauto.
Qed.

#[local] Arguments try_merges : simpl never.

Lemma entries_push (l : list Range) n r :
  (n < length l)%nat → take (n + 1) (<[n := r]> l) = take n l ++ [r].
Proof.
  intros Hn. replace (n + 1)%nat with (S n) by lia.
  rewrite (take_S_r _ _ r) by (apply list_lookup_insert_eq; lia).
  by rewrite take_insert_ge by lia.
Qed.

Lemma separated_snoc l r :
  separated l → (∀ e, e ∈ l → ¬ touch r e) → separated (l ++ [r]).
Proof.
  intros Hs Hr i j a b Ha Hb Hij.
  apply lookup_app_Some in Ha as [Ha|[? Ha]], Hb as [Hb|[? Hb]]; try by eapply Hs.
  - apply list_lookup_singleton_Some in Hb as [? <-]. intros Ht.
    apply (Hr a); [by eapply list_elem_of_lookup_2|]. unfold touch in *; lia.
  - apply list_lookup_singleton_Some in Ha as [? <-].
    apply Hr. by eapply list_elem_of_lookup_2.
  - apply list_lookup_singleton_Some in Ha as [? _], Hb as [? _]. lia.
Qed.

(** Pushing a range at the end of the live part. *)
Lemma push_wf rs r :
  wf rs → (in_use rs < 256)%nat → valid r → (∀ e, e ∈ entries rs → ¬ touch r e) →
  let rs' := {| ranges := <[in_use rs := r]> (ranges rs); in_use := in_use rs + 1 |} in
  wf rs' ∧ ∀ x, member rs' x ↔ inside x r ∨ member rs x.
Proof.
  intros ([Hl Hu] & Hv & Hs) Hroom Hr Hno rs'. unfold wf, shape, member, entries, rs'. simpl.
  rewrite length_insert, entries_push by lia. split_and!; [done|lia| | |].
  - apply Forall_app_2; [done|by apply Forall_singleton].
  - by apply separated_snoc.
  - intros x. rewrite covers_app, covers_cons. pose proof (covers_nil x). unfold entries. tauto.
Qed.

(** [insert] on a well-formed set: the result is well-formed and covers exactly
    the old addresses and the new ones; the only panic is a full set with
    nothing to merge. *)
Lemma insert_cases rs range :
  wf rs → valid range →
  (∃ rs', insert rs range = Ret rs' ∧ wf rs'
     ∧ (in_use rs < 256 ∨ ∃ e, e ∈ entries rs ∧ touch range e)%nat
     ∧ ∀ x, member rs' x ↔ member rs x ∨ inside x range)
  ∨ (insert rs range = Panic AssertFailed ∧ in_use rs = 256%nat
     ∧ ∀ e, e ∈ entries rs → ¬ touch range e).
Proof.
  intros Hwf Hr. unfold insert, rust_assert.
  rewrite (proj2 (Z.leb_le _ _)) by apply Hr. simpl.
  destruct (try_merges_spec (S (in_use rs)) rs range) as
    (range' & rs' & -> & Hwf' & Hv' & Hle & Hsame & Hmerged & Hno & Hmem); [done..|lia|]. simpl.
  pose proof Hwf as ([Hl Hu] & _). pose proof Hwf' as ([Hl' Hu'] & _). rewrite Hl'.
  destruct (Nat.ltb_spec (in_use rs') 256) as [Hroom|Hfull]; simpl.
  - left. rewrite store_Ret by lia. simpl.
    destruct (push_wf rs' range') as [Hwf2 Hmem2]; [done..|].
    eexists. split_and!; [done|done| |intros x; rewrite Hmem2, Hmem; tauto].
    destruct Hmerged as [Hu2|?]; [left; lia|by right].
  - right. split; [done|]. split; [lia|]. apply Hsame. lia.
Qed.

(** A set grows by at most one live range. *)
Lemma insert_in_use rs range rs' :
  wf rs → valid range → insert rs range = Ret rs' → (in_use rs' ≤ in_use rs + 1)%nat.
Proof.
  intros Hwf Hr. unfold insert, rust_assert. rewrite (proj2 (Z.leb_le _ _)) by apply Hr. simpl.
  destruct (try_merges_spec (S (in_use rs)) rs range) as
    (range' & rs1 & -> & _ & _ & Hle & _); [done..|lia|]. simpl.
  destruct (Nat.ltb _ _); simpl; [|done]. destruct (store _ _ _); simpl; [|done]. intros [= <-]. simpl. lia.
Qed.

(** *** [remove] *)
(** [l'] keeps what [l] covers outside [range] and adds nothing. *)
Definition trims (range : Range) (l l' : list Range) : Prop :=
  (∀ x, covers l' x → covers l x) ∧ (∀ x, covers l x → ¬ inside x range → covers l' x).

Lemma trims_refl range l : trims range l l.
Proof. unfold trims. naive_solver. Qed.
Lemma trims_trans range l1 l2 l3 : trims range l1 l2 → trims range l2 l3 → trims range l1 l3.
Proof. unfold trims. naive_solver. Qed.

Lemma covers_lookup l x : covers l x ↔ ∃ i r, l !! i = Some r ∧ inside x r.
Proof. unfold covers. setoid_rewrite list_elem_of_lookup. naive_solver. Qed.

Lemma delete_replace (l : list Range) i new : base.delete i (<[i := new]> l) = base.delete i l.
Proof.
  apply list_eq. intros j. rewrite !list_lookup_delete.
  case_decide; by rewrite list_lookup_insert_ne by lia.
Qed.

Lemma covers_replace l i new x :
  (i < length l)%nat → covers (<[i := new]> l) x ↔ inside x new ∨ covers (base.delete i l) x.
Proof.
  intros Hi. rewrite <- (delete_replace l i new). apply covers_delete.
  by apply list_lookup_insert_eq.
Qed.

Lemma trims_delete range l i e :
  l !! i = Some e → (∀ x, inside x e → inside x range) → trims range l (base.delete i l).
Proof. intros He Hin. split; intros x; rewrite (covers_delete i l e) by done; naive_solver. Qed.

Lemma trims_replace range l i e new :
  l !! i = Some e → (∀ x, inside x new → inside x e) →
  (∀ x, inside x e → ¬ inside x range → inside x new) → trims range l (<[i := new]> l).
Proof.
  intros He H1 H2. pose proof (lookup_lt_Some _ _ _ He).
  split; intros x; rewrite covers_replace, (covers_delete i l e) by done; naive_solver.
Qed.

Lemma trims_split range l i e lo hi :
  l !! i = Some e → (∀ x, inside x lo ∨ inside x hi → inside x e) →
  (∀ x, inside x e → ¬ inside x range → inside x lo ∨ inside x hi) →
  trims range l (<[i := hi]> l ++ [lo]).
Proof.
  intros He H1 H2. pose proof (lookup_lt_Some _ _ _ He). pose proof covers_nil.
  split; intros x; rewrite covers_app, covers_cons, covers_replace, (covers_delete i l e) by done;
    naive_solver.
Qed.

Lemma separated_replace l i e new :
  l !! i = Some e → (∀ r, touch new r → touch e r) → separated l → separated (<[i := new]> l).
Proof.
  intros He Ht Hs. pose proof (lookup_lt_Some _ _ _ He).
  assert (∀ r r', touch r r' → touch r' r) as Hsym by (unfold touch; tauto).
  intros j k a b Ha Hb Hjk.
  destruct (decide (i = j)) as [<-|], (decide (i = k)) as [<-|]; [done|..];
    rewrite ?list_lookup_insert_eq in Ha by done; rewrite ?list_lookup_insert_eq in Hb by done;
    rewrite ?list_lookup_insert_ne in Ha by done; rewrite ?list_lookup_insert_ne in Hb by done;
    simplify_eq; eauto.
  - intros Hab. apply (Hs i k e b); auto.
  - intros Hab. apply (Hs i j e a); auto.
Qed.

(** Shrinking one live range in place. *)
Lemma replace_wf rs ii e new :
  wf rs → entries rs !! ii = Some e → valid new → start e ≤ start new → end_ new ≤ end_ e →
  let rs' := {| ranges := <[ii := new]> (ranges rs); in_use := in_use rs |} in
  wf rs' ∧ entries rs' = <[ii := new]> (entries rs).
Proof.
  intros ([Hl Hu] & Hv & Hs) He Hnew H1 H2 rs'.
  assert (ii < in_use rs)%nat as Hii.
  { apply lookup_lt_Some in He. unfold entries in He. rewrite length_take in He. lia. }
  assert (entries rs' = <[ii := new]> (entries rs)) as Hent.
  { unfold rs', entries. simpl. by rewrite take_insert_lt. }
  split; [|done]. unfold wf, shape. rewrite Hent. simpl. rewrite length_insert.
  split; [done|]. split; [by apply Forall_insert|].
  eapply separated_replace; [done| |done]. intros r. unfold touch, valid in *. lia.
Qed.

(** Splitting the live range [e] around [range]. *)
Lemma split_wf rs ii e range :
  wf rs → (in_use rs < 256)%nat → entries rs !! ii = Some e → valid range →
  start e < start range → end_ range < end_ e →
  let hi := mkRange (end_ range + 1) (end_ e) in
  let lo := mkRange (start e) (start range - 1) in
  let rs' := {| ranges := <[in_use rs := lo]> (<[ii := hi]> (ranges rs)); in_use := in_use rs + 1 |} in
  wf rs' ∧ entries rs' = <[ii := hi]> (entries rs) ++ [lo].
Proof.
  intros Hwf Hroom He Hr H1 H2 hi lo rs'.
  pose proof Hwf as (_ & Hv & Hs). pose proof (valid_lookup _ _ _ Hv He) as Hve.
  assert (valid hi ∧ valid lo) as [Hhi Hlo] by (unfold valid in *; simpl; lia).
  destruct (replace_wf rs ii e hi) as [Hwf1 Hent1]; [done..|unfold valid in *; simpl; lia|simpl; lia|].
  destruct (push_wf _ lo Hwf1) as [Hwf2 _]; [done|done| |].
  - rewrite Hent1. intros r [j Hj]%list_elem_of_lookup Ht.
    destruct (decide (ii = j)) as [<-|Hne].
    + rewrite list_lookup_insert_eq in Hj by (by eapply lookup_lt_Some).
      simplify_eq. unfold touch, valid in *. simpl in *. lia.
    + rewrite list_lookup_insert_ne in Hj by done. apply (Hs ii j e r); [done..|].
      unfold touch, valid in *. simpl in *. lia.
  - split; [done|]. rewrite <- Hent1. unfold rs', entries. simpl.
    rewrite entries_push; [done|]. rewrite length_insert. destruct Hwf as ([-> _] & _). lia.
Qed.

(** A strict enclosing range is the only live range that meets [range]. *)
Lemma enclosing_unique rs ii e range j r :
  separated (entries rs) → Forall valid (entries rs) → entries rs !! ii = Some e → entries rs !! j = Some r →
  valid range → start e < start range → end_ range < end_ e → meets range r → j = ii.
Proof.
  intros Hs Hv He Hj Hr H1 H2 Hm. destruct (decide (j = ii)); [done|]. exfalso.
  pose proof (valid_lookup _ _ _ Hv He). pose proof (valid_lookup _ _ _ Hv Hj).
  apply (Hs ii j e r); [done..|]. unfold touch, meets, valid in *. lia.
Qed.

(** The three ways a pass over the indices [iis] can end, and its one panic. *)
Inductive pass_result (rs : RangeSet) (range : Range) (iis : list nat) : run (bool * RangeSet) → Prop :=
  | pass_end rs' :
      wf rs' → in_use rs' = in_use rs → trims range (entries rs) (entries rs') →
      (∀ j, j ∉ iis → entries rs' !! j = entries rs !! j) →
      (∀ j r, j ∈ iis → entries rs' !! j = Some r → ¬ meets range r) →
      pass_result rs range iis (Ret (false, rs'))
  | pass_deleted rs' :
      wf rs' → in_use rs = S (in_use rs') → trims range (entries rs) (entries rs') →
      pass_result rs range iis (Ret (true, rs'))
  | pass_split rs' :
      wf rs' → (0 < in_use rs)%nat → in_use rs' = (in_use rs + 1)%nat →
      trims range (entries rs) (entries rs') → (∀ r, r ∈ entries rs' → ¬ meets range r) →
      pass_result rs range iis (Ret (true, rs'))
  | pass_full e :
      in_use rs = 256%nat → e ∈ entries rs → start e < start range → end_ range < end_ e →
      pass_result rs range iis (Panic AssertFailed).

(** A pass that shrinks the range at [ii] and goes on. *)
Lemma pass_result_shrink rs range ii iis e new m :
  let rs1 := {| ranges := <[ii := new]> (ranges rs); in_use := in_use rs |} in
  wf rs → entries rs !! ii = Some e → ii ∉ iis → valid new → valid range →
  start e ≤ start new → end_ new ≤ end_ e → ¬ meets range new →
  (∀ x, inside x e → ¬ inside x range → inside x new) →
  pass_result rs1 range iis m → pass_result rs range (ii :: iis) m.
Proof.
  intros rs1 Hwf He Hii Hnew Hr H1 H2 Hm Hx HP.
  destruct (replace_wf rs ii e new) as [Hwf1 Hent1]; [done..|]. fold rs1 in Hwf1, Hent1.
  assert (trims range (entries rs) (entries rs1)) as Ht.
  { rewrite Hent1. eapply trims_replace; [done| |done]. intros x. unfold inside, valid in *. lia. }
  pose proof (lookup_lt_Some _ _ _ He).
  destruct HP as [rs' ??? Hout Hin|rs' ???|rs' ?????|e' ? He' ??].
  - constructor; [done..|by eapply trims_trans| |].
    + intros j Hj. rewrite Hout by set_solver. rewrite Hent1, list_lookup_insert_ne; [done|set_solver].
    + intros j r Hj Hl. destruct (decide (j ∈ iis)); [by eapply Hin|].
      rewrite Hout, Hent1 in Hl by done. assert (j = ii) as -> by set_solver.
      rewrite list_lookup_insert_eq in Hl by done. by simplify_eq.
  - apply pass_deleted; [done..|by eapply trims_trans].
  - apply pass_split; [done..|by eapply trims_trans|done].
  - apply (pass_full _ _ _ e'); [done| |done..]. rewrite Hent1 in He'.
    apply list_elem_of_lookup in He' as [j Hj]. destruct (decide (ii = j)) as [<-|].
    + rewrite list_lookup_insert_eq in Hj by done. simplify_eq. unfold meets, valid in *. lia.
    + rewrite list_lookup_insert_ne in Hj by done. by eapply list_elem_of_lookup_2.
Qed.

Lemma remove_pass_spec rs range iis :
  wf rs → valid range → NoDup iis → Forall (λ ii, ii < in_use rs)%nat iis →
  pass_result rs range iis (remove_pass rs range iis).
Proof.
  intros Hwf Hr. revert rs Hwf. induction iis as [|ii iis IH]; intros rs Hwf Hnd Hiis; simpl.
  { constructor; [done..|by apply trims_refl|done|set_solver]. }
  apply NoDup_cons in Hnd as [Hni Hnd]. apply Forall_cons in Hiis as [Hii Hiis].
  pose proof Hwf as (Hsh & Hv & Hs).
  destruct (live_index rs ii Hsh Hii) as (e & -> & He). simpl.
  pose proof (valid_lookup _ _ _ Hv He) as Hve.
  assert (Hlen : (ii < length (ranges rs))%nat) by (destruct Hsh; lia).
  destruct (overlaps range e) as [o|] eqn:Ho.
  2:{ rewrite overlaps_None in Ho by done.
      destruct (IH rs Hwf Hnd Hiis) as [rs' ??? Hout Hin|rs' ???|rs' ?????|e' ????].
      - constructor; [done..| |].
        + intros j Hj. apply Hout. set_solver.
        + intros j r [->|Hj]%elem_of_cons Hl; [|by eapply Hin].
          rewrite Hout in Hl by done. by simplify_eq.
      - by apply pass_deleted.
      - by apply pass_split.
      - by eapply pass_full. }
  apply overlaps_Some in Ho as (Hm & _ & _); [|done..].
  destruct (contains e range) eqn:Hc.
  { destruct (delete_spec rs ii Hsh Hii) as (rs' & -> & Hsh' & Hu' & He'). simpl.
    rewrite contains_spec in Hc by done.
    apply pass_deleted; [unfold wf; rewrite He'; auto with runs|lia|].
    rewrite He'. by eapply trims_delete. }
  assert (¬ (start range ≤ start e ∧ end_ e ≤ end_ range)) as Hnc.
  { intros ?. apply not_true_iff_false in Hc. apply Hc. rewrite contains_spec by done.
    intros x. unfold inside. lia. }
  unfold saturating_add, saturating_sub. rewrite !store_Ret by done. simpl.
  assert (0 ≤ start range ≤ end_ range ∧ end_ range ≤ umax 64) as Hr' by done.
  assert (0 ≤ start e ≤ end_ e ∧ end_ e ≤ umax 64) as Hve' by done. unfold meets in Hm.
  destruct (Z.leb_spec (start range) (start e)) as [Hlo|Hlo];
    [|destruct (Z.leb_spec (end_ e) (end_ range)) as [Hhi|Hhi]];
    rewrite ?(Z.min_l (end_ range + 1)), ?(Z.max_r 0 (start range - 1)) by lia.
  - apply (pass_result_shrink rs range ii iis e (mkRange (end_ range + 1) (end_ e)));
      unfold valid, meets, inside; simpl; try done; try lia.
    apply IH; [|done..]. apply (replace_wf rs ii e); unfold valid; simpl; try done; lia.
  - apply (pass_result_shrink rs range ii iis e (mkRange (start e) (start range - 1)));
      unfold valid, meets, inside; simpl; try done; try lia.
    apply IH; [|done..]. apply (replace_wf rs ii e); unfold valid; simpl; try done; lia.
  - unfold rust_assert. rewrite length_insert. destruct Hsh as [Hl Hu]. rewrite Hl.
    destruct (Nat.ltb_spec (in_use rs) 256); simpl.
    + rewrite store_Ret by (rewrite length_insert; lia). simpl.
      destruct (split_wf rs ii e range) as [Hwf' Hent']; [done..|lia|lia|].
      apply pass_split; [done|lia|done|rewrite Hent'; eapply trims_split; [done|..]|];
        try (unfold inside; simpl; lia).
      rewrite Hent'. intros r [Hrl|Hrl]%elem_of_app;
        [|apply list_elem_of_singleton in Hrl as ->; unfold meets; simpl; lia].
      apply list_elem_of_lookup in Hrl as [j Hj]. destruct (decide (ii = j)) as [<-|].
      * rewrite list_lookup_insert_eq in Hj by (by eapply lookup_lt_Some).
        simplify_eq. unfold meets; simpl; lia.
      * rewrite list_lookup_insert_ne in Hj by done. intros Hm'.
        eapply (enclosing_unique rs ii e range j r) in Hm'; try done; lia.
    + apply (pass_full _ _ _ e); [lia|by eapply list_elem_of_lookup_2|lia|lia].
Qed.

Lemma seq_live_iff rs i r : shape rs → entries rs !! i = Some r → i ∈ seq 0 (in_use rs).
Proof.
  intros Hsh Hi%lookup_lt_Some. rewrite entries_length in Hi by done. apply elem_of_seq. lia.
Qed.

Lemma trims_clean range l l' x :
  trims range l l' → (∀ r, r ∈ l' → ¬ meets range r) → valid range →
  covers l' x ↔ covers l x ∧ ¬ inside x range.
Proof.
  intros [H1 H2] Hno Hr. split.
  - intros Hx. split; [by apply H1|]. destruct Hx as (r & Hrl & Hrx). intros Hxr.
    apply (Hno r Hrl). unfold inside, meets, valid in *. lia.
  - intros [Hx Hn]. by apply H2.
Qed.

Lemma try_subtractions_spec fuel rs range :
  wf rs → valid range → (in_use rs < fuel)%nat →
  (∃ rs', try_subtractions fuel rs range = Ret rs' ∧ wf rs' ∧ (in_use rs' ≤ in_use rs + 1)%nat
     ∧ trims range (entries rs) (entries rs') ∧ ∀ r, r ∈ entries rs' → ¬ meets range r)
  ∨ (try_subtractions fuel rs range = Panic AssertFailed ∧ in_use rs = 256%nat
     ∧ ∃ e, e ∈ entries rs ∧ start e < start range ∧ end_ range < end_ e).
Proof.
  revert rs. induction fuel as [|fuel IH]; intros rs Hwf Hr Hf; [lia|]. simpl.
  assert (∀ rs0, wf rs0 → (∀ r, r ∈ entries rs0 → ¬ meets range r) → (0 < fuel)%nat →
    try_subtractions fuel rs0 range = Ret rs0) as Hidle.
  { intros rs0 (Hsh0 & Hv0 & _) Hno Hpos. destruct fuel as [|fuel']; [lia|]. simpl.
    assert (∀ iis, Forall (λ ii, ii < in_use rs0)%nat iis → remove_pass rs0 range iis = Ret (false, rs0)) as ->.
    { induction 1 as [|ii iis Hii _ IHi]; simpl; [done|].
      destruct (live_index rs0 ii Hsh0 Hii) as (e & -> & He). simpl.
      rewrite (proj2 (overlaps_None range e Hr (valid_lookup _ _ _ Hv0 He))); [done|].
      apply Hno. by eapply list_elem_of_lookup_2. }
    - done.
    - apply seq_live. }
  destruct (remove_pass_spec rs range (seq 0 (in_use rs))) as
    [rs' Hwf' Hu' Ht' Hout Hin|rs' Hwf' Hu' Ht'|rs' Hwf' Hpos Hu' Ht' Hno|e Hu He H1 H2];
    auto using NoDup_seq, seq_live; simpl.
  - left. exists rs'. split_and!; [done..|lia|done|].
    intros r [j Hj]%list_elem_of_lookup. apply (Hin j); [|done].
    rewrite <- Hu'. eapply seq_live_iff; [apply Hwf'|done].
  - destruct (IH rs') as [(rs2 & -> & Hwf2 & Hu2 & Ht2 & Hno2)|(-> & Hu2 & _)]; [done..|lia| |].
    + left. exists rs2. split_and!; [done..|lia|by eapply trims_trans|done].
    + pose proof Hwf as ([_ ?] & _). lia.
  - left. exists rs'. rewrite Hidle by (auto; lia). split_and!; [done..|lia|done|done].
  - right. eauto 10.
Qed.
#[local] Arguments try_subtractions : simpl never.

Lemma remove_cases rs range :
  wf rs → valid range →
  (∃ rs', remove rs range = Ret rs' ∧ wf rs' ∧ (in_use rs' ≤ in_use rs + 1)%nat
     ∧ ∀ x, member rs' x ↔ member rs x ∧ ¬ inside x range)
  ∨ (remove rs range = Panic AssertFailed ∧ in_use rs = 256%nat
     ∧ ∃ e, e ∈ entries rs ∧ start e < start range ∧ end_ range < end_ e).
Proof.
  intros Hwf Hr. unfold remove, rust_assert. rewrite (proj2 (Z.leb_le _ _)) by apply Hr. simpl.
  destruct (try_subtractions_spec (S (in_use rs)) rs range)
    as [(rs' & -> & Hwf' & Hu & Ht & Hno)|]; [done..|lia| |by right].
  left. exists rs'. split_and!; [done..|]. intros x. by apply trims_clean.
Qed.

Lemma remove_room rs range :
  wf rs → valid range → (in_use rs < 256)%nat →
  ∃ rs', remove rs range = Ret rs' ∧ wf rs' ∧ (in_use rs' ≤ in_use rs + 1)%nat
     ∧ ∀ x, member rs' x ↔ member rs x ∧ ¬ inside x range.
Proof. intros Hwf Hr Hu. destruct (remove_cases rs range) as [?|(_ & ? & _)]; [done..|lia]. Qed.

(** *** [subtract] *)
Lemma subtract_loop l rs :
  wf rs → Forall valid l → (in_use rs + length l ≤ 256)%nat →
  ∃ rs', for_each (λ ent self, remove self ent) l rs = Ret rs' ∧ wf rs'
    ∧ ∀ x, member rs' x ↔ member rs x ∧ ¬ covers l x.
Proof.
  revert rs. induction l as [|r l IH]; intros rs Hwf Hl Hu; simpl in *.
  { exists rs. split_and!; [done..|]. pose proof covers_nil. naive_solver. }
  apply Forall_cons in Hl as [Hr Hl].
  destruct (remove_room rs r) as (rs1 & -> & Hwf1 & Hu1 & Hm1); [done..|lia|]. simpl.
  destruct (IH rs1) as (rs2 & -> & Hwf2 & Hm2); [done..|lia|].
  exists rs2. split_and!; [done..|]. intros x. rewrite Hm2, Hm1, covers_cons. tauto.
Qed.

(** *** [sum] *)
Definition size_of (r : Range) : Z := end_ r - start r + 1.
Definition total (l : list Range) : Z := foldr (λ r n, size_of r + n) 0 l.

Lemma separated_elem l a b : separated l → a ∈ l → b ∈ l → touch a b → a = b.
Proof.
  intros Hs [i Hi]%list_elem_of_lookup [j Hj]%list_elem_of_lookup Ht.
  destruct (decide (i = j)) as [<-|]; [naive_solver|]. by destruct (Hs i j a b).
Qed.

Lemma separated_NoDup l : Forall valid l → separated l → NoDup l.
Proof.
  intros Hv Hs. apply NoDup_alt. intros i j a Hi Hj.
  destruct (decide (i = j)); [done|]. destruct (Hs i j a a); [done..|].
  pose proof (valid_lookup _ _ _ Hv Hi). unfold touch, valid in *. lia.
Qed.

Lemma total_filter_split P `{!∀ r, Decision (P r)} l :
  total l = total (filter P l) + total (filter (λ r, ¬ P r) l).
Proof.
  induction l as [|r l IH]; simpl; [done|].
  rewrite !filter_cons. destruct (decide (P r)); destruct (decide (¬ P r)); simpl; try tauto; lia.
Qed.

(** Disjoint ranges inside [lo, hi) have at most [hi - lo] addresses. *)
Lemma total_bound n l lo hi :
  (length l ≤ n)%nat → lo ≤ hi → NoDup l →
  (∀ r, r ∈ l → lo ≤ start r ≤ end_ r ∧ end_ r < hi) →
  (∀ a b, a ∈ l → b ∈ l → meets a b → a = b) → total l ≤ hi - lo.
Proof.
  revert l lo hi. induction n as [|n IH]; intros [|r l] lo hi Hn Hlh Hnd Hin Hd; simpl in *; try lia.
  apply NoDup_cons in Hnd as [Hni Hnd].
  rewrite (total_filter_split (λ a, end_ a < start r) l).
  pose proof (Hin r ltac:(set_solver)) as Hr.
  assert (∀ P `{!∀ r, Decision (P r)}, length (filter P l) ≤ n)%nat as Hlen.
  { intros P ?. pose proof (length_filter P l). lia. }
  assert (total (filter (λ a, end_ a < start r) l) ≤ start r - lo).
  { apply IH; [apply Hlen|lia|by apply NoDup_filter| |].
    - intros a [? Ha]%list_elem_of_filter. pose proof (Hin a ltac:(set_solver)). lia.
    - intros a b [? Ha]%list_elem_of_filter [? Hb]%list_elem_of_filter. apply Hd; set_solver. }
  assert (total (filter (λ a, ¬ end_ a < start r) l) ≤ hi - (end_ r + 1)).
  { apply IH; [apply Hlen|lia|by apply NoDup_filter| |].
    - intros a [? Ha]%list_elem_of_filter. pose proof (Hin a ltac:(set_solver)).
      destruct (decide (start a ≤ end_ r)); [|lia]. exfalso.
      assert (a = r) by (apply Hd; [set_solver..|unfold meets; lia]). congruence.
    - intros a b [? Ha]%list_elem_of_filter [? Hb]%list_elem_of_filter. apply Hd; set_solver. }
  unfold size_of. lia.
Qed.

Lemma total_wf rs : wf rs → total (entries rs) ≤ 2 ^ 64.
Proof.
  intros (Hsh & Hv & Hs). replace (2 ^ 64) with (2 ^ 64 - 0) by lia.
  apply (total_bound (length (entries rs))); [done|done|by apply separated_NoDup| |].
  - intros r Hr. eapply Forall_forall in Hv as Hvr; [|done]. unfold valid, umax in Hvr. lia.
  - intros a b Ha Hb Hm. eapply separated_elem; [done..|]. unfold touch, meets in *. lia.
Qed.

Lemma total_nonneg l : Forall valid l → 0 ≤ total l.
Proof. induction 1; simpl; [lia|]. unfold size_of, valid in *. lia. Qed.

Lemma sum_entries_spec l acc :
  Forall valid l → 0 ≤ acc → acc + total l < 2 ^ 64 → sum_entries l acc = Ret (Some (acc + total l)).
Proof.
  intros Hv. revert acc. induction Hv as [|r l Hr Hv IH]; intros acc Ha Ht; simpl in *.
  { do 2 f_equal. lia. }
  pose proof (total_nonneg l Hv). unfold size_of, valid, umax in *.
  rewrite usub_Ret by lia. simpl. unfold checked_add. zcase; [|lia].
  rewrite uadd_Ret by lia. simpl. rewrite IH by lia. do 2 f_equal. lia.
Qed.

(** A set of 2^64 addresses is the single range [0, u64::MAX]. *)
Lemma total_full rs :
  wf rs → total (entries rs) = 2 ^ 64 → entries rs = [mkRange 0 (umax 64)].
Proof.
  intros (Hsh & Hv & Hs) Ht. destruct (entries rs) as [|r l] eqn:El; [done|].
  pose proof (separated_NoDup _ Hv Hs) as Hnd. apply NoDup_cons in Hnd as [Hni Hnd].
  apply Forall_cons in Hv as [Hr Hv]. simpl in Ht.
  assert (∀ a, a ∈ l → ¬ touch a r) as Hfar.
  { intros a Ha Htch. assert (a = r) by (eapply separated_elem; [exact Hs|set_solver..]). congruence. }
  assert (∀ a, a ∈ l → valid a) as Hva by (by apply Forall_forall).
  assert (∀ P `{!∀ r, Decision (P r)} lo hi, lo ≤ hi → (∀ a, a ∈ l → P a → lo ≤ start a ≤ end_ a ∧ end_ a < hi) →
    total (filter P l) ≤ hi - lo) as Hb.
  { intros P ? lo hi Hlh HP. apply (total_bound (length (filter P l))); [done|done|by apply NoDup_filter| |].
    - intros a [? Ha]%list_elem_of_filter. auto.
    - intros a b [? Ha]%list_elem_of_filter [? Hb]%list_elem_of_filter Hm.
      eapply separated_elem; [exact Hs|set_solver..|unfold touch, meets in *; lia]. }
  rewrite (total_filter_split (λ a, end_ a < start r) l) in Ht.
  unfold size_of, valid, umax in Hr, Ht.
  pose proof (Hb (λ a, end_ a < start r) _ 0 (Z.max 0 (start r - 1)) ltac:(lia)) as Hlow.
  pose proof (Hb (λ a, ¬ end_ a < start r) _ (Z.min (2 ^ 64) (end_ r + 2)) (2 ^ 64) ltac:(lia)) as Hhigh.
  destruct r as [st en]; simpl in *.
  assert (st = 0 ∧ en = 2 ^ 64 - 1) as [-> ->].
  { assert (total (filter (λ a, end_ a < st) l) ≤ Z.max 0 (st - 1) - 0).
    { apply Hlow. intros a Ha ?. specialize (Hfar a Ha). specialize (Hva a Ha).
      unfold touch, valid, umax in *. simpl in *. lia. }
    assert (total (filter (λ a, ¬ end_ a < st) l) ≤ 2 ^ 64 - Z.min (2 ^ 64) (en + 2)).
    { apply Hhigh. intros a Ha ?. specialize (Hfar a Ha). specialize (Hva a Ha).
      unfold touch, valid, umax in *. simpl in *. lia. }
    lia. }
  destruct l as [|a l]; [done|]. exfalso.
  specialize (Hfar a ltac:(set_solver)). specialize (Hva a ltac:(set_solver)).
  unfold touch, valid, umax in *. simpl in *. lia.
Qed.

(** *** [allocate_prefer] *)
Section allocation.
Context (ents : list Range) (size k : Z).
Context (Hv : Forall valid ents) (Hsize : 1 ≤ size) (Hk : 0 ≤ k < 64).

(** What the search may return: [size] bytes from the aligned [ptr] on lie in
    [base, end], which lies in one range of the set. *)
Definition good_candidate (c : candidate) : Prop :=
  let '(base, end', ptr) := c in
  ∃ e, e ∈ ents ∧ start e ≤ base ∧ base ≤ ptr ∧ ptr + size - 1 ≤ end' ∧ end' ≤ end_ e
       ∧ ptr mod 2 ^ k = 0.

Lemma front_padding a : 0 ≤ a →
  let fix_ := (2 ^ k - a mod 2 ^ k) mod 2 ^ k in
  0 ≤ fix_ ∧ (a + fix_) mod 2 ^ k = 0.
Proof.
  intros Ha fix_. pose proof (pow2_pos k ltac:(lia)). split; [by apply Z.mod_pos_bound|].
  unfold fix_. rewrite Zplus_mod_idemp_r. replace (a + (2 ^ k - a mod 2 ^ k)) with
    (a / 2 ^ k * 2 ^ k + 1 * 2 ^ k) by (pose proof (Z.div_mod a (2 ^ k)); lia).
  rewrite Z_mod_plus_full. apply Z_mod_mult.
Qed.

Lemma prefer_region_spec e regions :
  e ∈ ents → Forall valid regions →
  ∃ s, prefer_region e size (2 ^ k - 1) regions = Ret s
    ∧ ∀ c, s = Found c → good_candidate c.
Proof.
  intros He Hreg. induction Hreg as [|r regions Hr Hreg IH]; simpl; [by eexists|].
  assert (valid e) as Hve by (rewrite Forall_forall in Hv; by apply Hv).
  destruct (overlaps e r) as [o|] eqn:Ho; [|done].
  apply overlaps_Some in Ho as (_ & Hvo & Hin); [|done..].
  set (a := Z.land _ _). destruct ((start o <=? a) && _ && _) eqn:Hc; [|done].
  rewrite !andb_true_iff, !Z.leb_le in Hc. destruct Hc as [[Ho1 Ho2] Ho3].
  assert (a mod 2 ^ k = 0) as Ha.
  { unfold a. rewrite land_not_mask by (try lia; unfold wrapping_add, in_width; apply Z.mod_pos_bound; lia).
    set (b := wrapping_add _ _ _). pose proof (pow2_pos k ltac:(lia)).
    replace (b - b mod 2 ^ k) with (b / 2 ^ k * 2 ^ k) by (pose proof (Z.div_mod b (2 ^ k)); lia).
    apply Z_mod_mult. }
  unfold valid, umax in Hvo. rewrite uadd_Ret by lia. simpl.
  destruct ((usize_MAX <? a) || _); [by eexists|]. eexists. split; [done|]. intros c [= <-].
  exists e. pose proof (Hin (start o)) as H1. pose proof (Hin (end_ o)) as H2.
  unfold inside in H1, H2. split_and!; [done|lia|lia|lia|lia|done].
Qed.

Lemma allocation_search_spec regions l allocation :
  (∀ e, e ∈ l → e ∈ ents) → (∀ rg, regions = Some rg → Forall valid rg) →
  (∀ c, allocation = Some c → good_candidate c) →
  ∃ r, allocation_search size (2 ^ k) regions l allocation = Ret r
    ∧ ∀ c, r = Some (Some c) → good_candidate c.
Proof.
  intros Hl Hreg. revert allocation. induction l as [|e l IH]; intros allocation Hal; simpl.
  { eexists. split; [done|]. naive_solver. }
  specialize (IH ltac:(set_solver)). pose proof (Hl e ltac:(set_solver)) as He.
  assert (valid e) as Hve by (rewrite Forall_forall in Hv; by apply Hv). unfold valid, umax in Hve.
  pose proof (pow2_pos k ltac:(lia)). pose proof (Z.mod_pos_bound (start e) (2 ^ k) ltac:(lia)).
  rewrite !land_mask by lia. rewrite usub_Ret by lia. simpl. rewrite land_mask by lia.
  destruct (front_padding (start e)) as [Hf1 Hf2]; [lia|].
  set (fix_ := (2 ^ k - start e mod 2 ^ k) mod 2 ^ k) in *.
  destruct (checked_add 64 (start e) (size - 1)) as [e1|] eqn:He1; simpl; [|by eexists].
  destruct (checked_add 64 e1 fix_) as [e2|] eqn:He2; [|by eexists].
  apply checked_add_Some in He1 as [-> ?]. apply checked_add_Some in He2 as [-> ?].
  destruct (_ || _); [by apply IH|].
  destruct (Z.ltb_spec (end_ e) (start e + (size - 1) + fix_)); [by apply IH|].
  assert (∃ s, match regions with
               | Some rg => prefer_region e size (2 ^ k - 1) rg
               | None => Ret NoPreference
               end = Ret s ∧ ∀ c, s = Found c → good_candidate c) as (s & -> & Hs).
  { destruct regions as [rg|]; [by apply prefer_region_spec; [|apply Hreg]|by eexists]. }
  simpl. destruct s as [c| |]; [|by apply IH|].
  { eexists. split; [done|]. intros c' [= <-]. by apply Hs. }
  rewrite usub_Ret by lia. simpl.
  destruct (match allocation with None => true | Some _ => _ end); [|by apply IH].
  rewrite uadd_Ret by lia. simpl. apply IH. intros c [= <-]. exists e. split_and!; [done|lia..|done].
Qed.
End allocation.

(** An entry that holds [size] aligned bytes, when no entry's end overflows. *)
Definition padding (align : Z) (e : Range) : Z := (align - start e mod align) mod align.
Definition fits (size align : Z) (e : Range) : Prop := start e + (size - 1) + padding align e ≤ end_ e.

Lemma allocation_search_complete size k l allocation :
  Forall valid l → 1 ≤ size → 0 ≤ k < 64 →
  (∀ e, e ∈ l → start e + (size - 1) + padding (2 ^ k) e < 2 ^ 64) →
  allocation ≠ None ∨ (∃ e, e ∈ l ∧ fits size (2 ^ k) e) →
  ∃ c, allocation_search size (2 ^ k) None l allocation = Ret (Some (Some c)).
Proof.
  intros Hv Hs Hk. revert allocation. induction l as [|e l IH]; intros allocation Hno Hsome; simpl.
  { destruct allocation; [by eexists|]. destruct Hsome as [?|(e & He & _)]; [done|set_solver]. }
  apply Forall_cons in Hv as [Hve Hv].
  specialize (λ al, IH Hv al ltac:(set_solver)). pose proof (Hno e ltac:(set_solver)) as Hne.
  unfold padding, fits in *. unfold valid, umax in Hve.
  pose proof (pow2_pos k ltac:(lia)). pose proof (Z.mod_pos_bound (start e) (2 ^ k) ltac:(lia)).
  rewrite !land_mask by lia. rewrite usub_Ret by lia. simpl. rewrite land_mask by lia.
  set (fix_ := (2 ^ k - start e mod 2 ^ k) mod 2 ^ k) in *.
  assert (0 ≤ fix_) by (by apply Z.mod_pos_bound).
  assert (checked_add 64 (start e) (size - 1) = Some (start e + (size - 1))) as ->
    by (apply checked_add_Some; lia). simpl.
  assert (checked_add 64 (start e + (size - 1)) fix_ = Some (start e + (size - 1) + fix_)) as ->
    by (apply checked_add_Some; lia). simpl.
  unfold usize_MAX, umax. rewrite !(proj2 (Z.ltb_ge (2 ^ 64 - 1) _)) by lia. simpl.
  destruct (Z.ltb_spec (end_ e) (start e + (size - 1) + fix_)) as [Hsmall|Hbig].
  { apply IH. destruct Hsome as [?|(e' & He' & Hf)]; [by left|]. right.
    apply elem_of_cons in He' as [->|?]; [|by eauto]. exfalso. unfold padding in Hf. fold fix_ in Hf. lia. }
  simpl. rewrite usub_Ret by lia. simpl.
  destruct allocation as [[[b e'] p]|]; [destruct (_ <? _)|];
    [rewrite uadd_Ret by lia; simpl| |rewrite uadd_Ret by lia; simpl]; apply IH; by left.
Qed.

(** What [allocate_prefer] does to a well-formed set with room for a split. *)
Lemma allocate_prefer_cases rs size align regions :
  wf rs → (in_use rs < 256)%nat → in_width 64 size → in_width 64 align →
  (∀ rg, regions = Some rg → wf rg) →
  allocate_prefer rs size align regions = Ret (None, rs)
  ∨ ∃ ptr rs' k, allocate_prefer rs size align regions = Ret (Some ptr, rs') ∧ wf rs'
      ∧ 0 < size ∧ 0 ≤ k < 64 ∧ align = 2 ^ k ∧ ptr mod align = 0
      ∧ (∀ x, ptr ≤ x < ptr + size → member rs x ∧ ¬ member rs' x)
      ∧ (∀ x, member rs' x → member rs x).
Proof.
  intros Hwf Hu Hsz Hal Hrg. unfold allocate_prefer.
  destruct (Z.eqb_spec size 0) as [|Hs0]; [by left|].
  destruct (count_ones align =? 1) eqn:Hc; simpl; [|by left].
  destruct (power_of_two_width 64 align Hc Hal) as (k & Hk & ->).
  pose proof Hwf as (Hsh & Hv & _). unfold_width.
  destruct (allocation_search_spec (entries rs) size k Hv ltac:(lia) Hk (entries <$> regions) (entries rs) None)
    as (r & -> & Hr); [done| |done|].
  { intros rg. destruct regions as [rg'|]; simpl; [|done]. intros [= <-]. by apply Hrg. }
  simpl. destruct r as [[[[b e'] ptr]|]|]; [|by left..].
  destruct (Hr _ eq_refl) as (e & He & H1 & H2 & H3 & H4 & H5).
  assert (valid e) as Hve by (rewrite Forall_forall in Hv; by apply Hv).
  destruct (remove_room rs (mkRange b e')) as (rs' & -> & Hwf' & _ & Hm); [done| |done|].
  { unfold valid, umax in *. simpl. lia. }
  right. exists ptr, rs', k. split_and!; try done; try lia.
  - intros x Hx. rewrite Hm. unfold member, covers, inside. simpl. split; [exists e|]; [split; [done|]|]; lia.
  - intros x Hx. by apply Hm.
Qed.

(** A concrete set the witnesses use: [0x1000, 0x8fff]. *)
Definition sample : RangeSet :=
  {| ranges := <[0%nat := mkRange 0x1000 0x8fff]> (replicate 256 (mkRange 0 0)); in_use := 1 |}.

Lemma sample_set_wf : wf sample.
Proof.
  unfold wf, shape, valid, separated, umax. split_and!; [done|simpl; lia| |].
  - repeat constructor; simpl; lia.
  - intros [|i] [|j] a b Ha Hb ?; simplify_eq/=; done.
Qed.

(** C27: On a well-formed set, [insert] of a well-shaped range is set
    union: it keeps the invariant (capacity, valid ranges, no two live ranges
    overlap or touch) and covers exactly the old addresses and the new ones.
    It panics in exactly one case: all 256 slots are live and no live range
    overlaps or touches the new one. *)
Theorem insert_refines_union rs range :
  wf rs → valid range →
  (∃ rs', insert rs range = Ret rs' ∧ wf rs'
     ∧ (in_use rs < 256 ∨ ∃ e, e ∈ entries rs ∧ touch range e)%nat
     ∧ ∀ x, member rs' x ↔ member rs x ∨ inside x range)
  ∨ (insert rs range = Panic AssertFailed ∧ in_use rs = 256%nat
     ∧ ∀ e, e ∈ entries rs → ¬ touch range e).
Proof. apply insert_cases. Qed.

Lemma insert_refines_union_witness :
  ∃ rs', insert sample (mkRange 0x9000 0x9fff) = Ret rs' ∧ entries rs' = [mkRange 0x1000 0x9fff]
    ∧ ∀ x, member rs' x ↔ member sample x ∨ inside x (mkRange 0x9000 0x9fff).
Proof.
  destruct (insert_refines_union sample (mkRange 0x9000 0x9fff)) as [(rs' & H & _ & _ & Hm)|[H _]].
  - exact sample_set_wf.
  - by vm_compute.
  - exists rs'. vm_compute in H. injection H as <-. by split_and!.
  - by vm_compute in H.
Defined.

(** On a well-formed set, [remove] of a well-shaped range is set
    difference: it keeps the invariant, uses at most one more slot, and covers
    exactly the old addresses outside the range.  It can only panic when all
    256 slots are live and one live range strictly encloses the removed one, so
    that it has to be split. *)
Theorem remove_refines_difference rs range :
  wf rs → valid range →
  (∃ rs', remove rs range = Ret rs' ∧ wf rs' ∧ (in_use rs' ≤ in_use rs + 1)%nat
     ∧ ∀ x, member rs' x ↔ member rs x ∧ ¬ inside x range)
  ∨ (remove rs range = Panic AssertFailed ∧ in_use rs = 256%nat
     ∧ ∃ e, e ∈ entries rs ∧ start e < start range ∧ end_ range < end_ e).
Proof. apply remove_cases. Qed.

Lemma remove_refines_difference_witness :
  ∃ rs', remove sample (mkRange 0x3000 0x3fff) = Ret rs'
    ∧ entries rs' = [mkRange 0x4000 0x8fff; mkRange 0x1000 0x2fff] ∧ wf rs'.
Proof.
  destruct (remove_refines_difference sample (mkRange 0x3000 0x3fff)) as [(rs' & H & Hwf & _)|[H _]].
  - exact sample_set_wf.
  - by vm_compute.
  - exists rs'. split; [done|]. split; [|done]. vm_compute in H. by injection H as <-.
  - by vm_compute in H.
Defined.

(** [subtract] of one well-formed set from another whose live
    ranges fit the capacity together never panics, keeps the invariant and
    leaves exactly the addresses of the first set that are not in the second. *)
Theorem subtract_refines_difference self rs :
  wf self → wf rs → (in_use self + in_use rs ≤ 256)%nat →
  ∃ self', subtract self rs = Ret self' ∧ wf self'
    ∧ ∀ x, member self' x ↔ member self x ∧ ¬ member rs x.
Proof.
  intros Hs (Hsh & Hv & _) Hu. apply (subtract_loop (entries rs) self Hs Hv).
  by rewrite entries_length.
Qed.

Lemma subtract_refines_difference_witness :
  ∃ self', subtract sample sample = Ret self' ∧ ∀ x, ¬ member self' x.
Proof.
  destruct (subtract_refines_difference sample sample) as (s & H & _ & Hm);
    [exact sample_set_wf..|simpl; lia|].
  exists s. split; [done|]. intros x. rewrite Hm. tauto.
Defined.

(** [sum] never overflows on a well-formed set: it returns the
    number of covered addresses, or [None] exactly for the set [0, u64::MAX],
    whose 2^64 addresses do not fit a u64. *)
Theorem sum_counts_addresses rs :
  wf rs →
  (sum rs = Ret (Some (total (entries rs))) ∧ total (entries rs) < 2 ^ 64)
  ∨ (sum rs = Ret None ∧ entries rs = [mkRange 0 (umax 64)]).
Proof.
  intros Hwf. pose proof (total_wf rs Hwf). unfold sum.
  destruct (decide (total (entries rs) = 2 ^ 64)) as [Hf|Hn].
  - right. rewrite (total_full rs Hwf Hf). done.
  - left. split; [|lia]. by rewrite sum_entries_spec by (try apply Hwf; lia).
Qed.

Lemma sum_counts_addresses_witness : sum sample = Ret (Some 0x8000).
Proof.
  destruct (sum_counts_addresses sample sample_set_wf) as [[-> _]|[H _]]; [done|by vm_compute in H].
Defined.

(** [allocate_prefer] on a well-formed set with a free slot never
    panics.  Either it returns [None] and leaves the set as it is, or it
    returns an aligned pointer to [size] addresses that were all in the set and
    are all gone from it afterwards; nothing is added and the invariant holds. *)
Theorem allocate_prefer_sound rs size align regions :
  wf rs → (in_use rs < 256)%nat → in_width 64 size → in_width 64 align →
  (∀ rg, regions = Some rg → wf rg) →
  allocate_prefer rs size align regions = Ret (None, rs)
  ∨ ∃ ptr rs' k, allocate_prefer rs size align regions = Ret (Some ptr, rs') ∧ wf rs'
      ∧ 0 < size ∧ 0 ≤ k < 64 ∧ align = 2 ^ k ∧ ptr mod align = 0
      ∧ (∀ x, ptr ≤ x < ptr + size → member rs x ∧ ¬ member rs' x)
      ∧ (∀ x, member rs' x → member rs x).
Proof. apply allocate_prefer_cases. Qed.

Lemma allocate_prefer_sound_witness :
  ∃ rs', allocate_prefer sample 0x1000 0x2000 None = Ret (Some 0x2000, rs')
    ∧ ∀ x, 0x2000 ≤ x < 0x3000 → ¬ member rs' x.
Proof.
  destruct (allocate_prefer_sound sample 0x1000 0x2000 None)
    as [H|(ptr & rs' & k & H & _ & _ & _ & _ & _ & Hx & _)].
  - exact sample_set_wf.
  - simpl. lia.
  - by vm_compute.
  - by vm_compute.
  - done.
  - by vm_compute in H.
  - exists rs'. vm_compute in H. injection H as <- <-. split; [done|]. intros x ?. by apply Hx.
Defined.

(** When no live range is so high that [base + size - 1 + padding]
    overflows, [allocate] succeeds as soon as one live range holds [size]
    aligned bytes. *)
Theorem allocate_complete rs size k :
  wf rs → (in_use rs < 256)%nat → 1 ≤ size < 2 ^ 64 → 0 ≤ k < 64 →
  (∀ e, e ∈ entries rs → start e + (size - 1) + padding (2 ^ k) e < 2 ^ 64) →
  (∃ e, e ∈ entries rs ∧ fits size (2 ^ k) e) →
  ∃ ptr rs', allocate rs size (2 ^ k) = Ret (Some ptr, rs').
Proof.
  intros Hwf Hu Hs Hk Hno Hfit. pose proof Hwf as (_ & Hv & _).
  assert (is_power_of_two (2 ^ k) = true) as Hp by (apply is_power_of_two_spec; exists k; lia).
  pose proof (Z.pow_lt_mono_r 2 k 64 ltac:(lia) ltac:(lia) ltac:(lia)). pose proof (pow2_pos k).
  destruct (allocate_prefer_cases rs size (2 ^ k) None) as [H'|(ptr & rs' & _ & Heq & _)];
    [done..|unfold_width; lia|unfold_width; lia|done| |by exists ptr, rs'].
  exfalso. revert H'. unfold allocate_prefer. rewrite (proj2 (Z.eqb_neq size 0)) by lia.
  unfold is_power_of_two in Hp. rewrite Hp. simpl.
  destruct (allocation_search_complete size k (entries rs) None) as ([[b e'] p] & ->);
    [done|lia|lia|done|by right|]. simpl. destruct (remove rs _); simpl; congruence.
Qed.

Lemma allocate_complete_witness :
  ∃ ptr rs', allocate sample 0x1000 (2 ^ 13) = Ret (Some ptr, rs').
Proof.
  apply (allocate_complete sample 0x1000 13).
  - exact sample_set_wf.
  - simpl. lia.
  - lia.
  - lia.
  - intros e He. apply list_elem_of_singleton in He as ->. by vm_compute.
  - exists (mkRange 0x1000 0x8fff). split; [by left|by vm_compute].
Defined.

(** The [?] in the search gives up on the whole set as soon as the end of one
    candidate overflows, although another live range fits. *)
Definition high_and_low : RangeSet :=
  {| ranges := <[0%nat := mkRange 0xfffffffffffff000 (umax 64)]>
                 (<[1%nat := mkRange 0x1000 0x8fff]> (replicate 256 (mkRange 0 0)));
     in_use := 2 |}.
Lemma allocate_gives_up :
  allocate high_and_low 0x2000 0x1000 = Ret (None, high_and_low)
  ∧ fits 0x2000 0x1000 (mkRange 0x1000 0x8fff) ∧ mkRange 0x1000 0x8fff ∈ entries high_and_low.
Proof. split_and!; [by vm_compute|by vm_compute|]. right. by left. Qed.

(** [Display] walks the whole backing array, so it prints what [delete] left
    behind: after removing everything the set is empty and one range is shown. *)
Lemma display_shows_deleted :
  ∃ rs', remove sample (mkRange 0x1000 0x8fff) = Ret rs' ∧ entries rs' = []
    ∧ display rs' = [(0x1000, 0x8fff)].
Proof. eexists. split_and!; [by vm_compute|done|done]. Qed.

End RangeSet.
