(* ===== verification/MemoryMap.v ===== *)
(** * crates/bootloader/src/bootinfo/memory_map.rs: the map of physical memory

    The bootloader records what every range of 4 KiB frames is used for in a
    [MemoryMap], an array of [MAX_MEMORY_MAP_SIZE] regions of which the first
    [next_entry_index] are live and the others are empty.  [sort] sorts the array
    with an unstable sort, a parameter of the model ([SortUnstable]). *)
From S2P Require Import Prelude.

Module MemoryMap.

Definition PAGE_SIZE : Z := 4096.
Definition MAX_MEMORY_MAP_SIZE : nat := 3840.

Inductive MemoryRegionType : Set :=
  | Usable | InUse | UsableButDangerous | Reserved | AcpiReclaimable | AcpiNvs | BadMemory
  | Kernel | KernelStack | PageTable | Bootloader | SmpTrampoline | FrameZero | Empty
  | BootInfo | Package | GuardPage | TSSstack | NonExhaustive.
#[global] Instance MemoryRegionType_eq_dec : EqDecision MemoryRegionType.
Proof. solve_decision. Defined.

(** ** [FrameRange]: frame numbers, with an exclusive upper bound *)
Record FrameRange := mkFrameRange { start_frame_number : Z; end_frame_number : Z }.
#[global] Instance FrameRange_eq_dec : EqDecision FrameRange.
Proof. solve_decision. Defined.

Definition new_range (start_addr end_addr : Z) : run FrameRange :=
  last_byte ← usub end_addr 1;
  end_frame ← uadd 64 (last_byte / PAGE_SIZE) 1;
  Ret (mkFrameRange (start_addr / PAGE_SIZE) end_frame).

Definition size (r : FrameRange) : run Z :=
  n ← usub (end_frame_number r) (start_frame_number r);
  umul 64 n PAGE_SIZE.
Definition is_empty (r : FrameRange) : bool := start_frame_number r =? end_frame_number r.
Definition start_addr (r : FrameRange) : run Z := umul 64 (start_frame_number r) PAGE_SIZE.
Definition end_addr (r : FrameRange) : run Z := umul 64 (end_frame_number r) PAGE_SIZE.

(** [&&] does not evaluate its right operand when the left one is false. *)
Definition intersects (r : FrameRange) (addr : Z) : run bool :=
  s ← start_addr r;
  if s <=? addr then e ← end_addr r; Ret (addr <? e) else Ret false.

Definition set_start_addr (r : FrameRange) (addr : Z) : FrameRange :=
  mkFrameRange (addr / PAGE_SIZE) (end_frame_number r).
Definition set_end_addr (r : FrameRange) (addr : Z) : FrameRange :=
  mkFrameRange (start_frame_number r) (addr / PAGE_SIZE).

(** ** [MemoryRegion] *)
Record MemoryRegion := mkRegion { range : FrameRange; region_type : MemoryRegionType }.
#[global] Instance MemoryRegion_eq_dec : EqDecision MemoryRegion.
Proof. solve_decision. Defined.

Definition empty : MemoryRegion := mkRegion (mkFrameRange 0 0) Empty.

Definition with_start (r : MemoryRegion) (addr : Z) : MemoryRegion :=
  mkRegion (set_start_addr (range r) addr) (region_type r).
Definition with_end (r : MemoryRegion) (addr : Z) : MemoryRegion :=
  mkRegion (set_end_addr (range r) addr) (region_type r).
Definition with_type (r : MemoryRegion) (t : MemoryRegionType) : MemoryRegion :=
  mkRegion (range r) t.

Record E820MemoryRegion := mkE820 { e820_start_addr : Z; e820_len : Z; e820_region_type : Z;
  acpi_extended_attributes : Z }.

Definition from_e820 (region : E820MemoryRegion) : run MemoryRegion :=
  t ← match e820_region_type region with
      | 1 => Ret Usable
      | 2 => Ret Reserved
      | 3 => Ret AcpiReclaimable
      | 4 => Ret AcpiNvs
      | 5 => Ret BadMemory
      | _ => Panic Explicit
      end;
  e ← uadd 64 (e820_start_addr region) (e820_len region);
  r ← new_range (e820_start_addr region) e;
  Ret (mkRegion r t).

(** ** [MemoryMap] *)
Record MemoryMap := mkMap { entries : list MemoryRegion; next_entry_index : nat }.

Inductive PartitionError :=
  | NotSameRegion (a b : MemoryRegion)
  | AddrDoesNotExist
  | InvalidRegionType
  | AddrIsNotAligned (addr : Z)
  | RegionTypeIsNotUsable (r : MemoryRegion).
Inductive RemoveError := RegionDoesNotExist.

Definition new : MemoryMap :=
  {| entries := replicate MAX_MEMORY_MAP_SIZE empty; next_entry_index := 0 |}.

(** [Deref] to the live slice. *)
Definition deref (m : MemoryMap) : run (list MemoryRegion) :=
  slice_to (entries m) (next_entry_index m).

Fixpoint find_region (l : list MemoryRegion) (addr : Z) : run (option MemoryRegion) :=
  match l with
  | [] => Ret None
  | i :: l' => hit ← intersects (range i) addr;
               if (hit : bool) then Ret (Some i) else find_region l' addr
  end.
Definition get_region_by_addr (m : MemoryMap) (addr : Z) : run (option MemoryRegion) :=
  l ← slice_to (entries m) (next_entry_index m); find_region l addr.

(** The comparison closure of [sort]. *)
Definition compare_regions (r1 r2 : MemoryRegion) : comparison :=
  if is_empty (range r1) then Gt
  else if is_empty (range r2) then Lt
  else match start_frame_number (range r1) ?= start_frame_number (range r2) with
       | Eq => end_frame_number (range r1) ?= end_frame_number (range r2)
       | o => o
       end.
Definition is_less (r1 r2 : MemoryRegion) : bool :=
  match compare_regions r1 r2 with Lt => true | _ => false end.

Definition nonempty (r : MemoryRegion) : Prop := is_empty (range r) = false.
Definition vacant (r : MemoryRegion) : Prop := is_empty (range r) = true.
#[global] Instance nonempty_dec r : Decision (nonempty r) := bool_eq_dec _ _.
#[global] Instance vacant_dec r : Decision (vacant r) := bool_eq_dec _ _.

Section operations.
Context `{!SortUnstable MemoryRegion}.

Definition sort (m : MemoryMap) : MemoryMap :=
  let l := sort_unstable_by is_less (entries m) in
  {| entries := l;
     next_entry_index := match list_find vacant l with
                         | Some (first_zero_index, _) => first_zero_index
                         | None => next_entry_index m
                         end |}.

Definition add_region (m : MemoryMap) (region : MemoryRegion) : run MemoryMap :=
  _ ← rust_assert (Nat.ltb (next_entry_index m) MAX_MEMORY_MAP_SIZE);
  l ← store (entries m) (next_entry_index m) region;
  Ret (sort {| entries := l; next_entry_index := next_entry_index m + 1 |}).

(** The first live entry equal to [region] is overwritten by the empty region. *)
Fixpoint clear_first (l : list MemoryRegion) (region : MemoryRegion) : option (list MemoryRegion) :=
  match l with
  | [] => None
  | i :: l' => if decide (i = region) then Some (empty :: l') else cons i <$> clear_first l' region
  end.

Definition remove_region (m : MemoryMap) (region : MemoryRegion)
    : run (MemoryMap * result unit RemoveError) :=
  live ← slice_to (entries m) (next_entry_index m);
  match clear_first live region with
  | Some live' =>
      Ret (sort {| entries := live' ++ drop (next_entry_index m) (entries m);
                   next_entry_index := next_entry_index m - 1 |}, Ok tt)
  | None => Ret (m, Err RegionDoesNotExist)
  end.

(** The three regions [partition_memory_region] computes from [region]. *)
Definition split_region (region : MemoryRegion) (start_addr' end_addr' : Z) (t : MemoryRegionType)
    : run (list MemoryRegion) :=
  let mem_type := region_type region in
  rs ← start_addr (range region);
  re ← end_addr (range region);
  start_diff ← usub (Z.max rs start_addr') (Z.min rs start_addr');
  end_diff ← usub (Z.max re end_addr') (Z.min re end_addr');
  let r1 := with_type empty t in
  let '(r0, r1) :=
    if start_diff <? PAGE_SIZE then (with_type empty Empty, with_start r1 rs)
    else (with_end (with_start (with_type empty mem_type) rs) start_addr', with_start r1 start_addr') in
  let '(r2, r1) :=
    if end_diff <? PAGE_SIZE then (with_type empty Empty, with_end r1 re)
    else (with_end (with_start (with_type empty mem_type) end_addr') re, with_end r1 end_addr') in
  Ret [r0; r1; r2].

Definition is_usable (t : MemoryRegionType) : bool :=
  bool_decide (t = Usable ∨ t = UsableButDangerous).

Definition partition_memory_region (m : MemoryMap) (start_addr' end_addr' : Z) (t : MemoryRegionType)
    : run (MemoryMap * result (list MemoryRegion) PartitionError) :=
  if decide (t = Empty) then Ret (m, Err InvalidRegionType)
  else if negb (start_addr' mod PAGE_SIZE =? 0) then Ret (m, Err (AddrIsNotAligned start_addr'))
  else if negb (end_addr' mod PAGE_SIZE =? 0) then Ret (m, Err (AddrIsNotAligned end_addr'))
  else
    last ← usub end_addr' 1;
    oe ← get_region_by_addr m last;
    match oe with
    | None => Ret (m, Err AddrDoesNotExist)
    | Some end_region =>
        os ← get_region_by_addr m start_addr';
        match os with
        | None => Ret (m, Err AddrDoesNotExist)
        | Some region =>
            if decide (region ≠ end_region) then Ret (m, Err (NotSameRegion region end_region))
            else if negb (is_usable (region_type region))
            then Ret (m, Err (RegionTypeIsNotUsable region))
            else
              regions ← split_region region start_addr' end_addr' t;
              '(m1, removed) ← remove_region m region;
              _ ← unwrap (match removed with Ok u => Some u | Err _ => None end);
              m2 ← for_each (λ i m, if decide (region_type i ≠ Empty) then add_region m i else Ret m)
                            regions m1;
              Ret (m2, Ok regions)
        end
    end.
End operations.

(** ** Specification *)
#[local] Opaque MAX_MEMORY_MAP_SIZE.

(** Frames are in order and every address of the region fits a u64. *)
Definition proper (r : MemoryRegion) : Prop :=
  0 ≤ start_frame_number (range r) < end_frame_number (range r) ∧ end_frame_number (range r) < 2 ^ 52.

Definition hits (a : Z) (r : MemoryRegion) : Prop :=
  start_frame_number (range r) * PAGE_SIZE ≤ a < end_frame_number (range r) * PAGE_SIZE.
#[global] Instance hits_dec a r : Decision (hits a r).
Proof. unfold hits. apply _. Defined.

(** The types of the regions that hold address [a]. *)
Definition owners (l : list MemoryRegion) (a : Z) : list MemoryRegionType :=
  region_type <$> filter (hits a) l.
Definition live (m : MemoryMap) : list MemoryRegion := take (next_entry_index m) (entries m).
Definition in_order (l : list MemoryRegion) : Prop := StronglySorted (not_less is_less) l.

(** The invariant: the live regions are a sorted prefix of proper regions, and
    everything after them is empty. *)
Definition wf (m : MemoryMap) : Prop :=
  length (entries m) = MAX_MEMORY_MAP_SIZE ∧ (next_entry_index m ≤ MAX_MEMORY_MAP_SIZE)%nat
  ∧ Forall proper (live m) ∧ Forall vacant (drop (next_entry_index m) (entries m))
  ∧ in_order (live m).

(** No address has two owners. *)
Definition disjoint (l : list MemoryRegion) : Prop := ∀ a, (length (owners l a) ≤ 1)%nat.

#[global] Instance owners_proper : Proper ((≡ₚ) ==> eq ==> (≡ₚ)) owners.
Proof. intros l l' Hl a ? <-. unfold owners. by rewrite Hl. Qed.
Lemma owners_cons r l a :
  owners (r :: l) a = if decide (hits a r) then region_type r :: owners l a else owners l a.
Proof. unfold owners. rewrite filter_cons. by destruct (decide (hits a r)). Qed.
Lemma owners_app l l' a : owners (l ++ l') a = owners l a ++ owners l' a.
Proof. unfold owners. by rewrite filter_app, fmap_app. Qed.

(** *** The order of [sort] *)
Lemma is_less_spec a b :
  is_less a b = true ↔
  nonempty a ∧ (vacant b ∨ start_frame_number (range a) < start_frame_number (range b)
     ∨ start_frame_number (range a) = start_frame_number (range b)
       ∧ end_frame_number (range a) < end_frame_number (range b)).
Proof.
  unfold is_less, compare_regions, nonempty, vacant.
  destruct (is_empty (range a)), (is_empty (range b)); [intuition congruence..|intuition|].
  destruct (Z.compare_spec (start_frame_number (range a)) (start_frame_number (range b))),
    (Z.compare_spec (end_frame_number (range a)) (end_frame_number (range b)));
    intuition (lia || congruence).
Qed.

Lemma nonempty_vacant r : nonempty r ↔ ¬ vacant r.
Proof. unfold nonempty, vacant. by destruct (is_empty _). Qed.
Lemma empty_vacant : ¬ nonempty empty.
Proof. done. Qed.
Lemma is_less_false a b : is_less a b = false ↔ ¬ is_less a b = true.
Proof. by destruct (is_less a b). Qed.

Lemma is_less_asymmetric : asymmetric is_less.
Proof.
  intros a b. rewrite is_less_false, !is_less_spec, !nonempty_vacant.
  unfold vacant. destruct (is_empty (range b)); naive_solver lia.
Qed.
Lemma is_less_negatively_transitive : negatively_transitive is_less.
Proof.
  intros a b c. rewrite !is_less_false, !is_less_spec, !nonempty_vacant. unfold vacant.
  destruct (is_empty (range a)), (is_empty (range b)), (is_empty (range c)); lia.
Qed.

(** A sorted array is its non-empty regions followed by the empty ones. *)
Lemma in_order_split l : in_order l → l = filter nonempty l ++ filter vacant l.
Proof.
  induction 1 as [|r l Hs IH Hr]; [done|]. rewrite !filter_cons.
  destruct (decide (nonempty r)) as [Hn|Hn].
  - rewrite (decide_False (P := vacant r)) by (by apply nonempty_vacant). simpl. by f_equal.
  - rewrite (decide_True (P := vacant r)) by (apply dec_stable; by rewrite <- nonempty_vacant).
    assert (filter nonempty l = []) as Hnil.
    { apply length_zero_iff_nil. destruct (filter nonempty l) as [|x l'] eqn:E; [done|].
      assert (x ∈ filter nonempty l) as [Hx Hxl]%list_elem_of_filter by (rewrite E; by left).
      rewrite Forall_forall in Hr. specialize (Hr x Hxl). unfold not_less in Hr.
      rewrite is_less_false, is_less_spec in Hr. destruct Hr. split; [done|]. left.
      apply dec_stable. by rewrite <- nonempty_vacant. }
    rewrite Hnil in *. simpl in *. by f_equal.
Qed.

Lemma find_vacant l1 l2 :
  Forall nonempty l1 → Forall vacant l2 →
  list_find vacant (l1 ++ l2)
  = match l2 with [] => None | r :: _ => Some (length l1, r) end.
Proof.
  induction 1 as [|r l1 Hr _ IH]; intros H2; simpl.
  - destruct H2 as [|r l2 Hr H2]; [done|]. simpl. by rewrite decide_True.
  - rewrite decide_False by (by apply nonempty_vacant). rewrite IH by done.
    by destruct l2.
Qed.

Section proofs.
Context `{!SortUnstable MemoryRegion}.

(** [sort] moves the non-empty regions to the front and finds their number. *)
Lemma sort_spec m :
  length (entries m) = MAX_MEMORY_MAP_SIZE →
  (next_entry_index m = MAX_MEMORY_MAP_SIZE ∨ ∃ r, r ∈ entries m ∧ vacant r) →
  Forall proper (filter nonempty (entries m)) →
  wf (sort m) ∧ live (sort m) ≡ₚ filter nonempty (entries m).
Proof.
  intros Hl Hfull Hp. unfold wf, live, sort. simpl.
  pose proof (sort_unstable_perm is_less (entries m)) as Hperm.
  pose proof (sort_unstable_sorted is_less (entries m) is_less_asymmetric
                is_less_negatively_transitive) as Hs.
  set (l := sort_unstable_by is_less (entries m)) in *.
  pose proof (in_order_split l Hs) as Hsplit.
  assert (Forall nonempty (filter nonempty l)) as Hn by (apply Forall_forall; by intros ? [? _]%list_elem_of_filter).
  assert (Forall vacant (filter vacant l)) as Hv by (apply Forall_forall; by intros ? [? _]%list_elem_of_filter).
  pose proof (find_vacant _ _ Hn Hv) as Hf. rewrite <- Hsplit in Hf. rewrite Hf.
  set (n := match _ with Some _ => _ | None => _ end).
  assert (n = length (filter nonempty l)) as ->.
  { unfold n. destruct (filter vacant l) eqn:Ev; [|done].
    destruct Hfull as [->|(r & Hr & Hvr)].
    - rewrite <- Hl, <- Hperm, Hsplit at 1. by rewrite app_nil_r.
    - assert (r ∈ filter vacant l) as Hin by (apply list_elem_of_filter; by rewrite Hperm).
      rewrite Ev in Hin. by apply elem_of_nil in Hin. }
  assert (take (length (filter nonempty l)) l = filter nonempty l) as Ht
    by (rewrite Hsplit at 2; by apply take_app_length).
  assert (drop (length (filter nonempty l)) l = filter vacant l) as Hd
    by (rewrite Hsplit at 2; by apply drop_app_length).
  rewrite Ht, Hd. split; [split_and!|]; try done.
  - by rewrite Hperm.
  - pose proof (length_filter nonempty l). rewrite <- Hl, <- Hperm. done.
  - by rewrite Hperm.
  - red. rewrite Hsplit in Hs. by apply StronglySorted_app_1_l in Hs.
  - by rewrite Hperm.
Qed.
Lemma proper_nonempty r : proper r → nonempty r.
Proof. unfold proper, nonempty, is_empty. intros. apply Z.eqb_neq. lia. Qed.
Lemma filter_nonempty_proper l : Forall proper l → filter nonempty l = l.
Proof.
  induction 1 as [|r l Hr _ IH]; [done|]. rewrite filter_cons, decide_True by (by apply proper_nonempty).
  by rewrite IH.
Qed.
Lemma filter_nonempty_vacant l : Forall vacant l → filter nonempty l = [].
Proof.
  induction 1 as [|r l Hr _ IH]; [done|]. rewrite filter_cons, decide_False; [done|].
  rewrite nonempty_vacant. tauto.
Qed.

Lemma wf_entries m : wf m → entries m = live m ++ drop (next_entry_index m) (entries m).
Proof. intros _. symmetry. apply take_drop. Qed.
Lemma live_length m : wf m → length (live m) = next_entry_index m.
Proof. intros (Hl & Hn & _). unfold live. rewrite length_take. lia. Qed.
Lemma deref_live m : wf m → slice_to (entries m) (next_entry_index m) = Ret (live m).
Proof. intros (Hl & Hn & _). unfold slice_to. by rewrite decide_True by lia. Qed.

Lemma new_wf : wf new.
Proof.
  split; [apply (length_replicate MAX_MEMORY_MAP_SIZE)|].
  split; [apply Nat.le_0_l|]. split; [constructor|]. split; [|constructor].
  by apply (Forall_replicate _ MAX_MEMORY_MAP_SIZE).
Qed.

(** [add_region] of a proper or empty region. *)
Lemma add_region_spec m r :
  wf m → (next_entry_index m < MAX_MEMORY_MAP_SIZE)%nat → proper r ∨ vacant r →
  ∃ m', add_region m r = Ret m' ∧ wf m'
    ∧ live m' ≡ₚ (if decide (nonempty r) then r :: live m else live m).
Proof.
  intros Hwf Hn Hr. pose proof Hwf as (Hl & _ & Hp & Hv & _). pose proof (live_length m Hwf) as Hll.
  unfold add_region, rust_assert. rewrite (proj2 (Nat.ltb_lt _ _) Hn). simpl.
  rewrite store_Ret by lia. simpl.
  destruct (drop (next_entry_index m) (entries m)) as [|e0 tl] eqn:Ed.
  { exfalso. assert (length (drop (next_entry_index m) (entries m)) = 0%nat) as H0 by by rewrite Ed.
    rewrite length_drop in H0. lia. }
  assert (<[next_entry_index m := r]> (entries m) = live m ++ r :: tl) as ->.
  { rewrite (wf_entries m Hwf), Ed. rewrite <- Hll at 1. rewrite insert_app_r_alt by lia.
    by rewrite Nat.sub_diag. }
  apply Forall_cons in Hv as [_ Hv].
  assert (filter nonempty (live m ++ r :: tl) = live m ++ (if decide (nonempty r) then [r] else [])) as Hf.
  { rewrite filter_app, filter_nonempty_proper by done. rewrite filter_cons, (filter_nonempty_vacant tl Hv). done. }
  eexists. split; [done|].
  destruct (sort_spec {| entries := live m ++ r :: tl; next_entry_index := next_entry_index m + 1 |})
    as [Hwf' Hlive]; simpl.
  - assert (length (entries m) = length (live m ++ e0 :: tl)) as H1 by (by rewrite <- Ed, <- wf_entries).
    rewrite length_app in *. simpl in *. lia.
  - destruct (decide (vacant r)); [right; exists r; split; [|done]; apply elem_of_app; right; by left|].
    destruct tl as [|e1 tl]; [left|right].
    + assert (length (entries m) = length (live m ++ [e0])) as H1 by (by rewrite <- Ed, <- wf_entries).
      rewrite length_app in H1. simpl in H1. lia.
    + exists e1. apply Forall_cons in Hv as [Hv1 _]. split; [|done].
      apply elem_of_app. right. right. by left.
  - rewrite Hf. apply Forall_app_2; [done|]. destruct (decide (nonempty r)) as [Hne|]; [|done].
    apply Forall_singleton. destruct Hr as [?|Hr]; [done|]. by apply nonempty_vacant in Hne.
  - split; [done|]. simpl in Hlive. rewrite Hf in Hlive. rewrite Hlive.
    destruct (decide _); [|by rewrite app_nil_r]. by rewrite Permutation_app_comm.
Qed.

Lemma clear_first_Some l r l' :
  clear_first l r = Some l' → ∃ p q, l = p ++ r :: q ∧ l' = p ++ empty :: q.
Proof.
  revert l'. induction l as [|i l IH]; intros l'; simpl; [done|]. destruct (decide (i = r)) as [->|].
  - intros [= <-]. by exists [], l.
  - intros (l1 & H1 & ->)%fmap_Some_1. destruct (IH l1 H1) as (p & q & -> & ->). by exists (i :: p), q.
Qed.
Lemma clear_first_None l r : clear_first l r = None ↔ r ∉ l.
Proof.
  induction l as [|i l IH]; simpl; [split; [set_solver|done]|].
  destruct (decide (i = r)) as [->|]; [set_solver|]. rewrite fmap_None, IH. set_solver.
Qed.

(** [remove_region] removes one copy of a live region, or fails without effect. *)
Lemma remove_region_spec m r :
  wf m →
  (r ∉ live m ∧ remove_region m r = Ret (m, Err RegionDoesNotExist))
  ∨ ∃ m', remove_region m r = Ret (m', Ok tt) ∧ wf m' ∧ live m ≡ₚ r :: live m'.
Proof.
  intros Hwf. pose proof Hwf as (Hl & Hn & Hp & Hv & _). pose proof (live_length m Hwf) as Hll.
  unfold remove_region. rewrite deref_live by done. simpl.
  destruct (clear_first (live m) r) as [l'|] eqn:Ec.
  - right. apply clear_first_Some in Ec as (p & q & Hpq & ->).
    rewrite Hpq in Hp. apply Forall_app in Hp as [Hpp [Hpr Hpq']%Forall_cons].
    set (tl := drop (next_entry_index m) (entries m)) in *.
    assert (filter nonempty ((p ++ empty :: q) ++ tl) = p ++ q) as Hf.
    { rewrite !filter_app, filter_cons, !filter_nonempty_proper, filter_nonempty_vacant by done.
      rewrite decide_False by exact empty_vacant. by rewrite app_nil_r. }
    destruct (sort_spec {| entries := (p ++ empty :: q) ++ tl; next_entry_index := next_entry_index m - 1 |})
      as [Hwf' Hlive]; simpl.
    + rewrite (wf_entries m Hwf), Hpq in Hl. fold tl in Hl. rewrite !length_app in *. simpl in *. lia.
    + right. exists empty. split; [|done]. apply elem_of_app. left. apply elem_of_app. right. by left.
    + rewrite Hf. by apply Forall_app_2.
    + eexists. split; [done|]. split; [done|]. simpl in Hlive. rewrite Hf in Hlive.
      rewrite Hlive, Hpq. by rewrite Permutation_middle.
  - left. split; [by apply clear_first_None|done].
Qed.

(** *** Lookup *)
Lemma intersects_spec r a :
  proper r → intersects (range r) a = Ret (bool_decide (hits a r)).
Proof.
  intros Hp. unfold intersects, start_addr, end_addr, hits, proper, PAGE_SIZE in *.
  rewrite !umul_Ret by lia. simpl.
  zcase; f_equal; symmetry; [apply bool_decide_eq_true|apply bool_decide_eq_false..]; lia.
Qed.

Lemma find_region_spec l a :
  Forall proper l →
  ∃ o, find_region l a = Ret o
    ∧ match o with Some r => r ∈ l ∧ hits a r | None => ∀ r, r ∈ l → ¬ hits a r end.
Proof.
  induction 1 as [|r l Hr _ (o & IH & Ho)]; simpl.
  { exists None. split; [done|]. by intros r Hr%elem_of_nil. }
  rewrite intersects_spec by done. simpl. case_bool_decide as Hh.
  - exists (Some r). split; [done|]. split; [by left|done].
  - exists o. split; [done|]. destruct o as [r'|].
    + destruct Ho. split; [by right|done].
    + intros r' [->|?]%elem_of_cons; auto.
Qed.

Lemma get_region_by_addr_spec m a :
  wf m →
  ∃ o, get_region_by_addr m a = Ret o
    ∧ match o with Some r => r ∈ live m ∧ hits a r | None => owners (live m) a = [] end.
Proof.
  intros Hwf. unfold get_region_by_addr. rewrite deref_live by done. simpl.
  destruct (find_region_spec (live m) a) as (o & -> & Ho); [apply Hwf|]. exists o. split; [done|].
  destruct o; [done|]. unfold owners. destruct (filter (hits a) (live m)) as [|r l] eqn:E; [done|].
  assert (r ∈ filter (hits a) (live m)) as [? ?]%list_elem_of_filter by (rewrite E; by left).
  by destruct (Ho r).
Qed.
(** The region that is found is the first one that holds the address. *)
Lemma find_region_first l a :
  Forall proper l → ∃ o, find_region l a = Ret o ∧ region_type <$> o = head (owners l a).
Proof.
  induction 1 as [|r l Hr _ (o & IH & Ho)]; cbn [find_region]; [by exists None|].
  rewrite intersects_spec by done. cbn [mbind run_bind]. rewrite owners_cons. destruct (decide (hits a r)) as [Hh|Hh].
  - rewrite bool_decide_eq_true_2 by done. by exists (Some r).
  - rewrite bool_decide_eq_false_2 by done. by exists o.
Qed.
Lemma get_region_by_addr_first m a :
  wf m → ∃ o, get_region_by_addr m a = Ret o ∧ region_type <$> o = head (owners (live m) a).
Proof.
  intros Hwf. unfold get_region_by_addr. rewrite deref_live by done. cbn [mbind run_bind]. apply find_region_first, Hwf.
Qed.
(** *** Partitioning *)
(** The pieces of a region that hold [s, e) together keep the old type outside
    [s, e) and have the new one inside. *)
Lemma split_region_spec r s e t :
  proper r → s mod PAGE_SIZE = 0 → e mod PAGE_SIZE = 0 → s < e → hits s r → hits (e - 1) r →
  t ≠ Empty → region_type r ≠ Empty →
  ∃ l, split_region r s e t = Ret l ∧ length l = 3%nat
    ∧ Forall (λ i, region_type i ≠ Empty → proper i) l
    ∧ ∀ a, owners (filter (λ i, region_type i ≠ Empty) l) a
           = if decide (hits a r) then [if decide (s ≤ a < e) then t else region_type r] else [].
Proof.
  unfold PAGE_SIZE. intros Hp Hs He Hse Hh1 Hh2 Ht Hrt.
  pose proof (Z.div_mod s 4096). pose proof (Z.div_mod e 4096).
  unfold split_region, start_addr, end_addr, hits, proper, PAGE_SIZE in *.
  rewrite !umul_Ret by lia. simpl. rewrite !usub_Ret by lia. simpl.
  set (fs := start_frame_number (range r)) in *. set (fe := end_frame_number (range r)) in *.
  assert (fs * 4096 / 4096 = fs) as Hfs by (apply Z.div_mul; lia).
  assert (fe * 4096 / 4096 = fe) as Hfe by (apply Z.div_mul; lia).
  destruct (Z.ltb_spec (Z.max (fs * 4096) s - Z.min (fs * 4096) s) 4096);
    destruct (Z.ltb_spec (Z.max (fe * 4096) e - Z.min (fe * 4096) e) 4096);
    (eexists; split; [reflexivity|]; split; [done|]);
    unfold with_start, with_end, with_type, set_start_addr, set_end_addr, empty, PAGE_SIZE; simpl;
    rewrite ?Hfs, ?Hfe; split.
  all: try (repeat apply Forall_cons_2; try apply Forall_nil_2; simpl; (done || (intros _; lia))).
  all: intros a; rewrite !filter_cons; simpl;
    repeat first [rewrite (decide_False (P := Empty ≠ Empty)) by tauto | rewrite decide_True by done];
    unfold owners; rewrite !filter_cons; simpl; unfold hits, PAGE_SIZE; simpl.
  all: repeat case_decide; simpl; try done; exfalso; lia.
Qed.

Lemma add_all m l :
  wf m → (next_entry_index m + length l ≤ MAX_MEMORY_MAP_SIZE)%nat →
  Forall (λ i, region_type i ≠ Empty → proper i) l →
  ∃ m', for_each (λ i m, if decide (region_type i ≠ Empty) then add_region m i else Ret m) l m = Ret m'
    ∧ wf m' ∧ live m' ≡ₚ filter (λ i, region_type i ≠ Empty) l ++ live m.
Proof.
  intros Hwf Hn Hl. revert m Hwf Hn. induction Hl as [|i l Hi Hl IH]; intros m Hwf Hn; simpl; [by exists m|].
  rewrite filter_cons. simpl in Hn. destruct (decide (region_type i ≠ Empty)) as [Ht|Ht].
  - specialize (Hi Ht).
    destruct (add_region_spec m i) as (m1 & -> & Hwf1 & Hlive1); [done|lia|by left|].
    rewrite decide_True in Hlive1 by (by apply proper_nonempty). simpl.
    destruct (IH m1) as (m2 & -> & Hwf2 & Hlive2); [done| |].
    { apply Permutation_length in Hlive1. simpl in Hlive1. rewrite !live_length in Hlive1 by done. lia. }
    exists m2. split_and!; [done..|]. rewrite Hlive2, Hlive1. by rewrite Permutation_middle.
  - simpl. apply IH; [done|lia].
Qed.

(** A region with a hit that is alone at each address owns every address it hits. *)
Lemma disjoint_owner l r l' a :
  disjoint l → l ≡ₚ r :: l' → hits a r → owners l' a = [].
Proof.
  intros Hd Hl Ha. specialize (Hd a). rewrite Hl, owners_cons, decide_True in Hd by done.
  simpl in Hd. destruct (owners l' a); [done|]. simpl in Hd. lia.
Qed.

Lemma partition_ok m s e t r :
  wf m → disjoint (live m) → (next_entry_index m + 2 ≤ MAX_MEMORY_MAP_SIZE)%nat →
  s mod PAGE_SIZE = 0 → e mod PAGE_SIZE = 0 → 0 < e → s < e → t ≠ Empty →
  get_region_by_addr m s = Ret (Some r) → get_region_by_addr m (e - 1) = Ret (Some r) →
  is_usable (region_type r) = true →
  ∃ m' l, partition_memory_region m s e t = Ret (m', Ok l) ∧ wf m' ∧ disjoint (live m')
    ∧ (next_entry_index m ≤ next_entry_index m' ≤ next_entry_index m + 2)%nat
    ∧ ∀ a, owners (live m') a ≡ₚ if decide (s ≤ a < e) then [t] else owners (live m) a.
Proof.
  intros Hwf Hd Hn Hs He He0 Hse Ht Hgs Hge Hu. unfold partition_memory_region.
  rewrite decide_False by done. rewrite Hs, He. simpl. rewrite usub_Ret by lia. simpl.
  rewrite Hge. simpl. rewrite Hgs. simpl. rewrite decide_False by tauto. rewrite Hu. simpl.
  destruct (get_region_by_addr_spec m s Hwf) as (o & Ho & Hin). rewrite Hgs in Ho. injection Ho as <-.
  destruct (get_region_by_addr_spec m (e - 1) Hwf) as (o & Ho & Hin'). rewrite Hge in Ho. injection Ho as <-.
  destruct Hin as [Hin Hh1], Hin' as [_ Hh2].
  assert (proper r) as Hp by (destruct Hwf as (_ & _ & Hp & _); rewrite Forall_forall in Hp; by apply Hp).
  assert (region_type r ≠ Empty) as Hrt
    by (unfold is_usable in Hu; apply bool_decide_eq_true in Hu; intros E; rewrite E in Hu; naive_solver).
  destruct (split_region_spec r s e t) as (l & -> & Hl3 & Hl & Hown); [done..|]. simpl.
  destruct (remove_region_spec m r Hwf) as [[? _]|(m1 & -> & Hwf1 & Hlive1)]; [done|]. simpl.
  destruct (add_all m1 l) as (m2 & -> & Hwf2 & Hlive2); [done| |done|].
  { apply Permutation_length in Hlive1. simpl in Hlive1. rewrite !live_length in Hlive1 by done. lia. }
  simpl. exists m2, l.
  assert (∀ a, owners (live m2) a ≡ₚ if decide (s ≤ a < e) then [t] else owners (live m) a) as Hfin.
  { intros a. rewrite Hlive2, owners_app, Hown.
    assert (owners (live m) a ≡ₚ owners (r :: live m1) a) as Hm by by rewrite Hlive1.
    rewrite owners_cons in Hm. destruct (decide (hits a r)) as [Ha|Ha].
    - rewrite (disjoint_owner _ _ _ a Hd Hlive1 Ha) in *. by case_decide.
    - rewrite (decide_False (P := s ≤ a < e)); [by rewrite Hm|]. unfold hits in *. lia. }
  assert (next_entry_index m ≤ next_entry_index m2 ≤ next_entry_index m + 2)%nat as Hnext.
  { apply Permutation_length in Hlive1, Hlive2. rewrite length_app in Hlive2. simpl in Hlive1.
    rewrite !live_length in * by done. pose proof (length_filter (λ i, region_type i ≠ Empty) l).
    specialize (Hown s). destruct (filter (λ i, region_type i ≠ Empty) l) as [|x lx].
    - rewrite !decide_True in Hown by (done || lia). done.
    - simpl in *. lia. }
  split; [done|]. split; [done|]. split; [|done]. intros a. rewrite Hfin. case_decide; [simpl; lia|apply Hd].
Qed.

(** Every failure of a call with an ordered range leaves the map as it was. *)
Lemma partition_err m s e t :
  wf m → 0 < e → 
  (∃ err, partition_memory_region m s e t = Ret (m, Err err)) ∨
  (t ≠ Empty ∧ s mod PAGE_SIZE = 0 ∧ e mod PAGE_SIZE = 0 ∧ ∃ r, get_region_by_addr m s = Ret (Some r)
     ∧ get_region_by_addr m (e - 1) = Ret (Some r) ∧ is_usable (region_type r) = true).
Proof.
  intros Hwf He. unfold partition_memory_region.
  destruct (decide (t = Empty)); [by left; eexists|].
  destruct (Z.eqb_spec (s mod PAGE_SIZE) 0); simpl; [|by left; eexists].
  destruct (Z.eqb_spec (e mod PAGE_SIZE) 0); simpl; [|by left; eexists].
  rewrite usub_Ret by lia. simpl.
  destruct (get_region_by_addr_spec m (e - 1) Hwf) as ([re|] & Hge & _); rewrite Hge; simpl; [|by left; eexists].
  destruct (get_region_by_addr_spec m s Hwf) as ([rs|] & Hgs & _); rewrite Hgs; simpl; [|by left; eexists].
  destruct (decide (rs ≠ re)) as [|Heq]; [by left; eexists|]. apply dec_stable in Heq as <-.
  destruct (is_usable (region_type rs)) eqn:Hu; simpl; [|by left; eexists].
  right. eauto 10.
Qed.
Lemma partition_cases m s e t :
  wf m → disjoint (live m) → (next_entry_index m + 2 ≤ MAX_MEMORY_MAP_SIZE)%nat → 0 ≤ s < e →
  (∃ err, partition_memory_region m s e t = Ret (m, Err err))
  ∨ ∃ m' l u, partition_memory_region m s e t = Ret (m', Ok l) ∧ wf m' ∧ disjoint (live m')
      ∧ (next_entry_index m ≤ next_entry_index m' ≤ next_entry_index m + 2)%nat
      ∧ is_usable u = true ∧ (∀ a, s ≤ a < e → owners (live m) a ≡ₚ [u])
      ∧ ∀ a, owners (live m') a ≡ₚ if decide (s ≤ a < e) then [t] else owners (live m) a.
Proof.
  intros Hwf Hd Hn Hse. destruct (partition_err m s e t Hwf) as [?|(Ht & Hs & He & r & Hgs & Hge & Hu)];
    [lia|by left|right].
  destruct (partition_ok m s e t r) as (m' & l & Hrun & Hwf' & Hd' & Hn' & Hown); [done..|lia|lia|done|done|done|done|].
  exists m', l, (region_type r). split; [done|]. split; [done|]. split; [done|]. split; [done|]. split; [done|]. split; [|done]. intros a Ha.
  destruct (get_region_by_addr_spec m s Hwf) as (o & Ho & Hin). rewrite Hgs in Ho. injection Ho as <-.
  destruct (get_region_by_addr_spec m (e - 1) Hwf) as (o & Ho & Hin'). rewrite Hge in Ho. injection Ho as <-.
  destruct Hin as [Hin Hh1], Hin' as [_ Hh2].
  apply elem_of_Permutation in Hin as (l' & Hl'). rewrite Hl', owners_cons.
  assert (hits a r) as Hha by (unfold hits in *; lia).
  rewrite decide_True, (disjoint_owner _ _ _ a Hd Hl' Hha) by done. done.
Qed.

(** C24: [partition_memory_region] on a well-formed map of
    disjoint regions with two free slots, for a non-empty range [s, e), never
    panics.  If it fails the map is unchanged; if it succeeds, every address of
    [s, e) was usable before and has exactly the new type after, every other
    address keeps its owner, and the map is again well-formed and disjoint. *)
Theorem partition_retypes_exactly m s e t :
  wf m → disjoint (live m) → (next_entry_index m + 2 ≤ MAX_MEMORY_MAP_SIZE)%nat → 0 ≤ s < e →
  (∃ err, partition_memory_region m s e t = Ret (m, Err err))
  ∨ ∃ m' l u, partition_memory_region m s e t = Ret (m', Ok l) ∧ wf m' ∧ disjoint (live m')
      ∧ is_usable u = true ∧ (∀ a, s ≤ a < e → owners (live m) a ≡ₚ [u])
      ∧ ∀ a, owners (live m') a ≡ₚ if decide (s ≤ a < e) then [t] else owners (live m) a.
Proof.
  intros Hwf Hd Hn Hse. destruct (partition_cases m s e t) as [?|(m' & l & u & ? & ? & ? & _ & ? & ? & ?)]; [done..|by left|].
  right. by exists m', l, u.
Qed.

(** Adding a proper region to a map with a free slot and removing it
    again succeeds, keeps the invariant and restores the live regions. *)
Theorem add_remove_roundtrip m r :
  wf m → proper r → (next_entry_index m < MAX_MEMORY_MAP_SIZE)%nat →
  ∃ m1 m2, add_region m r = Ret m1 ∧ wf m1 ∧ live m1 ≡ₚ r :: live m
    ∧ remove_region m1 r = Ret (m2, Ok tt) ∧ wf m2 ∧ live m2 ≡ₚ live m.
Proof.
  intros Hwf Hp Hn. destruct (add_region_spec m r) as (m1 & Ha & Hwf1 & Hl1); [done..|by left|].
  rewrite decide_True in Hl1 by (by apply proper_nonempty).
  destruct (remove_region_spec m1 r Hwf1) as [[Hni _]|(m2 & Hr & Hwf2 & Hl2)].
  { destruct Hni. rewrite Hl1. by left. }
  exists m1, m2. split_and!; try done. apply (Permutation_cons_inv (a := r)). by rewrite <- Hl2.
Qed.
End proofs.

(** [FrameRange::new] of a non-empty byte range never panics and yields
    the smallest range of whole frames that holds it. *)
Theorem new_range_is_page_hull s e :
  0 ≤ s < e → e < 2 ^ 64 →
  ∃ r, new_range s e = Ret r ∧ start_frame_number r < end_frame_number r
    ∧ (∀ f, (∃ a, s ≤ a < e ∧ a / PAGE_SIZE = f) ↔ start_frame_number r ≤ f < end_frame_number r).
Proof.
  intros Hs He. unfold new_range, PAGE_SIZE. rewrite usub_Ret by lia. simpl.
  assert ((e - 1) / 4096 < 2 ^ 64 - 1) by (apply Z.div_lt_upper_bound; lia).
  rewrite uadd_Ret by lia. simpl. eexists. split; [done|]. simpl.
  assert (s / 4096 ≤ (e - 1) / 4096) by (apply Z.div_le_mono; lia). split; [lia|].
  intros f. split.
  - intros (a & Ha & <-). split; [apply Z.div_le_mono; lia|].
    assert (a / 4096 ≤ (e - 1) / 4096) by (apply Z.div_le_mono; lia). lia.
  - intros Hf. exists (Z.max s (f * 4096)). pose proof (Z.div_mod s 4096). pose proof (Z.mod_pos_bound s 4096).
    pose proof (Z.div_mod (e - 1) 4096). pose proof (Z.mod_pos_bound (e - 1) 4096).
    split; [lia|]. symmetry. apply (Z.div_unique_pos _ _ _ (Z.max s (f * 4096) - f * 4096)); lia.
Qed.

Lemma new_range_is_page_hull_witness :
  ∃ r, new_range 0x1800 0x3001 = Ret r ∧ start_frame_number r = 1 ∧ end_frame_number r = 4.
Proof.
  destruct (new_range_is_page_hull 0x1800 0x3001) as (r & H & _); [lia|lia|].
  exists r. split; [done|]. vm_compute in H. by injection H as <-.
Defined.

(** Concrete maps with one region; [sample] has usable memory from 1 MiB to 4 MiB. *)
Definition single (r : MemoryRegion) : MemoryMap :=
  {| entries := r :: replicate 3839 empty; next_entry_index := 1 |}.
Definition sample : MemoryMap := single (mkRegion (mkFrameRange 0x100 0x400) Usable).

Lemma single_live r : live (single r) = [r].
Proof. reflexivity. Qed.
Lemma single_wf r : proper r → wf (single r).
Proof.
  intros Hr. split; [by vm_compute|]. split; [by apply Nat.leb_le; vm_compute|].
  rewrite single_live. split; [by apply Forall_singleton|].
  split; [|repeat constructor]. apply (Forall_replicate _ 3839). done.
Qed.
Lemma single_disjoint r : disjoint (live (single r)).
Proof. intros a. rewrite single_live, owners_cons. case_decide; simpl; lia. Qed.

Lemma partition_retypes_exactly_witness :
  ∃ m' l, partition_memory_region sample 0x200000 0x300000 Kernel = Ret (m', Ok l)
    ∧ live m' = [mkRegion (mkFrameRange 0x100 0x200) Usable; mkRegion (mkFrameRange 0x200 0x300) Kernel;
                 mkRegion (mkFrameRange 0x300 0x400) Usable]
    ∧ disjoint (live m').
Proof.
  destruct (partition_retypes_exactly sample 0x200000 0x300000 Kernel)
    as [(err & H)|(m' & l & u & H & _ & Hd & _)].
  - by apply single_wf; vm_compute.
  - apply single_disjoint.
  - by apply Nat.leb_le; vm_compute.
  - lia.
  - by vm_compute in H.
  - exists m', l. split; [done|]. split; [|done]. vm_compute in H. by injection H as <- <-.
Defined.

Lemma add_remove_roundtrip_witness :
  ∃ m1 m2, add_region sample (mkRegion (mkFrameRange 0 1) FrameZero) = Ret m1
    ∧ remove_region m1 (mkRegion (mkFrameRange 0 1) FrameZero) = Ret (m2, Ok tt)
    ∧ live m2 ≡ₚ live sample.
Proof.
  destruct (add_remove_roundtrip sample (mkRegion (mkFrameRange 0 1) FrameZero))
    as (m1 & m2 & H1 & _ & _ & H2 & _ & H3).
  - by apply single_wf; vm_compute.
  - by vm_compute.
  - by apply Nat.ltb_lt; vm_compute.
  - by exists m1, m2.
Defined.

(** [partition_memory_region] does not check [start_addr < end_addr]: with the two
    swapped it succeeds and leaves an inverted region and two usable regions that
    overlap. *)
Lemma partition_inverted_range :
  ∃ m' l, partition_memory_region sample 0x300000 0x200000 Kernel = Ret (m', Ok l)
    ∧ owners (live m') 0x280000 = [Usable; Usable].
Proof. do 2 eexists. split; [by vm_compute|by vm_compute]. Qed.

End MemoryMap.
