(* ===== verification/FrameAlloc.v ===== *)
(** * Frame iterators over the memory map

    [BootInfoFrameAllocator::usable_frames] of [kernel/src/memory.rs], its two
    [FrameAllocator] instances, and [usable_xsize_frames] of
    [crates/bootloader/src/pagetable.rs].  Both iterators trim a usable region and
    cut it into frames of the requested size.  [FrameAllocator] is the interface the
    page-table code is verified against. *)
From S2P Require Import Prelude MemoryMap.
Import MemoryMap.

(** The contract of the trait [FrameAllocator<Size4KiB>]: [allocate_frame] hands out
    aligned frames it owned, and gives up ownership of what it hands out. *)
Class FrameAllocator (S : Type) := {
  allocate_frame : S → run (option Z * S);
  allocator_inv : S → Prop;
  free_frame : S → Z → Prop;
  allocate_frame_law s :
    allocator_inv s →
    ∃ o s', allocate_frame s = Ret (o, s') ∧ allocator_inv s'
      ∧ (∀ f, free_frame s' f → free_frame s f)
      ∧ match o with
        | Some f => free_frame s f ∧ ¬ free_frame s' f ∧ f mod PAGE_SIZE = 0 ∧ 0 ≤ f < 2 ^ 52
        | None => True
        end
}.

(** An allocator of 2 MiB frames beside it ([FrameAllocator<Size2MiB>]): the frames are
    aligned.  Nothing is promised about overlap with the 4 KiB frames. *)
Class FrameAllocator2M (S : Type) `{!FrameAllocator S} := {
  allocate_frame_2m : S → run (option Z * S);
  allocator_inv_2m : S → Prop;
  allocate_frame_2m_law s :
    allocator_inv s → allocator_inv_2m s →
    ∃ o s', allocate_frame_2m s = Ret (o, s') ∧ allocator_inv s'
      ∧ (∀ f, free_frame s' f → free_frame s f)
      ∧ ∀ f, o = Some f → f mod (4096 * 512) = 0 ∧ 0 ≤ f < 2 ^ 52
}.

Module FrameAlloc.

Definition Size4KiB : Z := 4096.
Definition Size2MiB : Z := 4096 * 512.

(** "Reduce the end of frame range to fit into xsize". *)
Definition adjust_end (xsize : Z) (r : MemoryRegion) : run MemoryRegion :=
  sz ← size (range r);
  diff ← urem sz xsize;
  if negb (diff =? 0) then
    e ← end_addr (range r);
    new ← usub e diff;
    s ← start_addr (range r);
    rg ← new_range s new;
    Ret (mkRegion rg (region_type r))
  else Ret r.

(** "Increase the start of frame range to fit into alignment". *)
Definition adjust_start (alignment : Z) (r : MemoryRegion) : run MemoryRegion :=
  s ← start_addr (range r);
  rest ← urem s alignment;
  if negb (rest =? 0) then
    new ← uadd 64 s (alignment - rest);
    e ← end_addr (range r);
    if e <? new then Ret empty
    else rg ← new_range new e; Ret (mkRegion rg (region_type r))
  else Ret r.

(** The frame addresses of one usable region. *)
Definition region_frames (xsize alignment : Z) (r : MemoryRegion) : run (list Z) :=
  r1 ← adjust_end xsize r;
  r2 ← adjust_start alignment r1;
  sz ← size (range r2);
  if xsize <=? sz then
    s ← start_addr (range r2);
    e ← end_addr (range r2);
    Ret (step_by s e xsize)
  else Ret [].

(** [PhysFrame::containing_address(PhysAddr::new(addr))]. *)
Definition phys_frame (size addr : Z) : run Z :=
  if addr <? 2 ^ 52 then Ret (addr - addr mod size) else Panic AssertFailed.

(** All the frames of [usable_frames::<T>()], in order. *)
Fixpoint usable_frames (size : Z) (regions : list MemoryRegion) : run (list Z) :=
  match regions with
  | [] => Ret []
  | r :: regions' =>
      if decide (region_type r = Usable) then
        addrs ← region_frames size size r;
        fs ← mapM (phys_frame size) addrs;
        rest ← usable_frames size regions';
        Ret (fs ++ rest)
      else usable_frames size regions'
  end.

(** [usable_frames::<T>().nth(n)]: lazy, regions after the hit are not looked at. *)
Fixpoint nth_frame (size : Z) (regions : list MemoryRegion) (n : nat) : run (option Z) :=
  match regions with
  | [] => Ret None
  | r :: regions' =>
      if decide (region_type r = Usable) then
        addrs ← region_frames size size r;
        fs ← mapM (phys_frame size) (take (S n) addrs);
        match fs !! n with
        | Some f => Ret (Some f)
        | None => nth_frame size regions' (n - length fs)
        end
      else nth_frame size regions' n
  end.

Record BootInfoFrameAllocator := mkAllocator { memory_map : MemoryMap; next : nat }.

Definition new (m : MemoryMap) : BootInfoFrameAllocator :=
  {| memory_map := m; next := 0 |}.

Definition allocate_4k (a : BootInfoFrameAllocator) : run (option Z * BootInfoFrameAllocator) :=
  regions ← deref (memory_map a);
  frame ← nth_frame Size4KiB regions (next a);
  Ret (frame, {| memory_map := memory_map a; next := next a + 1 |}).

Definition allocate_2m (a : BootInfoFrameAllocator) : run (option Z * BootInfoFrameAllocator) :=
  regions ← deref (memory_map a);
  frame ← nth_frame Size2MiB regions (next a);
  Ret (frame, {| memory_map := memory_map a;
                 next := next a + Z.to_nat (Size2MiB / Size4KiB) |}).

(** ** [usable_xsize_frames] of the bootloader

    The iterator borrows the slice of live regions when it is created, but the
    caller keeps changing the map while it iterates; [next_frame] reads the current
    entries, as the pointer-based slice iterator does.  [stop] is the number of
    entries of the slice. *)
Record frame_iter := mkIter { xsize : Z; alignment : Z; idx : nat; stop : nat; pending : list Z }.

Definition usable_xsize_frames (m : MemoryMap) (xsize alignment : Z) : run frame_iter :=
  rest ← urem alignment 4096;
  if negb (rest =? 0) then Panic Explicit
  else
    live ← deref m;
    Ret {| xsize := xsize; alignment := alignment; idx := 0; stop := length live; pending := [] |}.

Fixpoint next_frame (fuel : nat) (m : MemoryMap) (it : frame_iter) : run (option Z * frame_iter) :=
  match pending it with
  | a :: rest => Ret (Some a, {| xsize := xsize it; alignment := alignment it; idx := idx it;
                                 stop := stop it; pending := rest |})
  | [] =>
      match fuel with
      | O => Panic NoFuel
      | S fuel' =>
          if decide (idx it < stop it)%nat then
            r ← index (entries m) (idx it);
            frames ← (if decide (region_type r = Usable)
                      then region_frames (xsize it) (alignment it) r else Ret []);
            next_frame fuel' m {| xsize := xsize it; alignment := alignment it; idx := S (idx it);
                                  stop := stop it; pending := frames |}
          else Ret (None, it)
      end
  end.

(** Advance, and look at the next element without consuming it ([Peekable]). *)
Definition iter_next (m : MemoryMap) (it : frame_iter) : run (option Z * frame_iter) :=
  next_frame (S (stop it - idx it)) m it.

(** [PageTableAllocator]: consecutive 4 KiB tables between two linker symbols.  The
    bootloader is 32-bit code; [Layout::from_size_align(addr, 16)] fails when
    [addr] rounded up to 16 exceeds [usize::MAX]. *)
Record PageTableAllocator := mkPTA { pt_index : Z; pt_start : Z; pt_end : Z }.
Definition page_table_next (p : PageTableAllocator) : run (option Z * PageTableAllocator) :=
  off ← umul 32 4096 (pt_index p);
  addr ← uadd 32 (pt_start p) off;
  _ ← unwrap (if addr <=? umax 32 - 15 then Some tt else None);
  if pt_end p <? addr then Ret (None, p)
  else i ← uadd 32 (pt_index p) 1;
       Ret (Some addr, {| pt_index := i; pt_start := pt_start p; pt_end := pt_end p |}).

(** ** Specification *)
Definition base (r : MemoryRegion) : Z := start_frame_number (range r) * PAGE_SIZE.
Definition limit (r : MemoryRegion) : Z := end_frame_number (range r) * PAGE_SIZE.
(** Regions of the 52-bit physical address space. *)
Definition physical (r : MemoryRegion) : Prop := proper r ∧ limit r ≤ 2 ^ 52.

Lemma new_range_aligned s e :
  0 ≤ s → 0 < e < 2 ^ 64 → e mod PAGE_SIZE = 0 →
  new_range s e = Ret (mkFrameRange (s / PAGE_SIZE) (e / PAGE_SIZE)).
Proof.
  unfold new_range, PAGE_SIZE. intros Hs He Hm. rewrite usub_Ret by lia. simpl.
  pose proof (Z.div_mod e 4096 ltac:(lia)).
  assert ((e - 1) / 4096 = e / 4096 - 1) as ->.
  { symmetry. apply (Z.div_unique_pos _ _ _ 4095); lia. }
  rewrite uadd_Ret by lia. simpl. do 2 f_equal; lia.
Qed.

(** A region that starts aligned is cut into all the frames that fit in it. *)
Lemma region_frames_aligned r xs al :
  proper r → 0 < xs → xs mod PAGE_SIZE = 0 → 0 < al → base r mod al = 0 →
  (0 < base r ∨ xs ≤ limit r - base r) →
  region_frames xs al r = Ret (step_by (base r) (base r + (limit r - base r) / xs * xs) xs).
Proof.
  unfold base, limit, proper. intros Hp Hxs Hxm Hal Hb Hz.
  set (s := start_frame_number (range r)) in *. set (e := end_frame_number (range r)) in *.
  pose proof (Z.div_mod ((e - s) * 4096) xs ltac:(lia)) as Hdm.
  pose proof (Z.mod_pos_bound ((e - s) * 4096) xs ltac:(lia)) as Hmb.
  pose proof (Z.div_mod xs 4096 ltac:(lia)) as Hx. unfold PAGE_SIZE in *.
  replace (e * 4096 - s * 4096) with ((e - s) * 4096) in * by lia.
  set (n := (e - s) * 4096 / xs) in *. set (d := ((e - s) * 4096) mod xs) in *.
  unfold region_frames, adjust_end, size, end_addr, start_addr. fold s e. unfold PAGE_SIZE.
  rewrite usub_Ret by lia. simpl. rewrite !umul_Ret by lia. simpl. rewrite urem_Ret by lia. simpl.
  fold d. assert (0 ≤ n) by (apply Z.div_pos; lia).
  destruct (Z.eqb_spec d 0) as [Hd|Hd]; simpl.
  - unfold adjust_start, start_addr. fold s. unfold PAGE_SIZE. rewrite umul_Ret by lia. simpl.
    rewrite urem_Ret by lia. simpl. rewrite Hb. simpl. fold s e. rewrite usub_Ret by lia. simpl.
    rewrite (umul_Ret 64 (e - s)) by lia. simpl.
    assert (1 ≤ n) by (apply Z.lt_succ_r; unfold Z.succ; nia).
    assert (xs * 1 ≤ xs * n) by (apply Z.mul_le_mono_nonneg_l; lia).
    destruct (Z.leb_spec xs ((e - s) * 4096)); [|lia].
    rewrite (umul_Ret 64 s) by lia. simpl. replace (s * 4096 + n * xs) with (e * 4096) by lia. by rewrite umul_Ret by lia.
  - assert (xs * n mod 4096 = 0) as Hnm.
    { rewrite Hx, Hxm, Z.add_0_r, <- Z.mul_assoc, Z.mul_comm. apply Z_mod_mult. }
    rewrite usub_Ret by lia. simpl. rewrite new_range_aligned; unfold PAGE_SIZE; [|lia|nia|].
    2:{ replace (e * 4096 - d) with (xs * n + s * 4096) by lia. by rewrite Z_mod_plus_full. }
    simpl. unfold adjust_start, start_addr. simpl. unfold PAGE_SIZE. rewrite Z.div_mul by lia.
    rewrite umul_Ret by lia. simpl. rewrite urem_Ret by lia. simpl. rewrite Hb. simpl.
    assert ((e * 4096 - d) / 4096 * 4096 = s * 4096 + n * xs) as Hne.
    { replace (e * 4096 - d) with (xs * n + s * 4096) by lia.
      pose proof (Z.div_mod (xs * n + s * 4096) 4096 ltac:(lia)) as Hq.
      rewrite Z_mod_plus_full, Hnm in Hq. lia. }
    rewrite usub_Ret by nia. simpl. rewrite (umul_Ret 64 (_ - s)) by nia. simpl.
    destruct (Z.leb_spec xs (((e * 4096 - d) / 4096 - s) * 4096)).
    + rewrite !umul_Ret by lia. simpl. by rewrite Hne.
    + f_equal. unfold step_by. assert (n = 0) as -> by nia.
      replace ((s * 4096 + 0 * xs - s * 4096 + (xs - 1)) / xs) with 0; [done|].
      symmetry. apply Z.div_small. lia.
Qed.

(** The pages of the usable regions, in the order of the map. *)
Definition pages (r : MemoryRegion) : list Z := step_by (base r) (limit r) Size4KiB.
Fixpoint usable_pages (regions : list MemoryRegion) : list Z :=
  match regions with
  | [] => []
  | r :: regions' => if decide (region_type r = Usable) then pages r ++ usable_pages regions'
                     else usable_pages regions'
  end.

Lemma region_frames_4k r : proper r → region_frames Size4KiB Size4KiB r = Ret (pages r).
Proof.
  intros Hp. pose proof Hp as Hp'. unfold proper, pages, base, limit, Size4KiB, PAGE_SIZE in *.
  rewrite region_frames_aligned; unfold base, limit, PAGE_SIZE; [|done|lia|done|lia|apply Z_mod_mult|lia].
  rewrite <- Z.mul_sub_distr_r, Z.div_mul by lia. do 2 f_equal. lia.
Qed.

Lemma elem_of_pages r a : proper r → a ∈ pages r ↔ hits a r ∧ a mod PAGE_SIZE = 0.
Proof.
  intros Hp. unfold pages. rewrite elem_of_step_by by (unfold Size4KiB; lia).
  unfold hits, base, limit, Size4KiB, PAGE_SIZE, proper in *. split.
  - intros (i & Hi & -> & Hlt). split; [lia|]. rewrite <- Z.mul_add_distr_r. apply Z_mod_mult.
  - intros [Ha Hm]. exists (a / 4096 - start_frame_number (range r)).
    pose proof (Z.div_mod a 4096). split_and!; lia.
Qed.

Lemma mapM_phys_frame xs l :
  Forall (λ f, f mod xs = 0 ∧ f < 2 ^ 52) l → mapM (phys_frame xs) l = Ret l.
Proof.
  induction 1 as [|f l [Hf1 Hf2] _ IH]; simpl; [done|].
  assert (phys_frame xs f = Ret f) as -> by (unfold phys_frame; destruct (Z.ltb_spec f (2 ^ 52)); [f_equal|]; lia).
  by rewrite IH.
Qed.

Lemma pages_frames r : physical r → Forall (λ f, f mod PAGE_SIZE = 0 ∧ f < 2 ^ 52) (pages r).
Proof.
  intros [Hp Hl]. apply Forall_forall. intros f. rewrite elem_of_pages by done.
  unfold hits, limit in *. intros. split; [tauto|lia].
Qed.

Lemma usable_frames_4k l : Forall physical l → usable_frames Size4KiB l = Ret (usable_pages l).
Proof.
  induction 1 as [|r l Hr _ IH]; simpl; [done|]. case_decide; [|done].
  rewrite region_frames_4k by apply Hr. simpl. rewrite mapM_phys_frame by (by apply pages_frames).
  simpl. by rewrite IH.
Qed.

(** The lazy [nth] finds the [n]-th page. *)
Lemma nth_frame_4k l n : Forall physical l → nth_frame Size4KiB l n = Ret (usable_pages l !! n).
Proof.
  intros Hl. revert n. induction Hl as [|r l Hr _ IH]; intros n; simpl; [done|]. case_decide; [|done].
  rewrite region_frames_4k by apply Hr. simpl.
  rewrite mapM_phys_frame by (by apply Forall_take, pages_frames). simpl.
  destruct (take (S n) (pages r) !! n) as [f|] eqn:E.
  - rewrite lookup_take in E by lia. case_decide; [|done]. by rewrite (lookup_app_l_Some _ _ _ _ E).
  - apply lookup_ge_None in E. rewrite length_take in *.
    assert (length (pages r) ≤ n)%nat by lia. rewrite lookup_app_r by done. rewrite IH.
    do 2 f_equal. lia.
Qed.

Lemma elem_of_usable_pages l a :
  Forall proper l →
  a ∈ usable_pages l ↔ a mod PAGE_SIZE = 0 ∧ ∃ r, r ∈ l ∧ region_type r = Usable ∧ hits a r.
Proof.
  induction 1 as [|r l Hr _ IH]; simpl; [set_solver|].
  case_decide; [rewrite elem_of_app, elem_of_pages by done|]; rewrite IH; set_solver.
Qed.

Lemma NoDup_usable_pages l : Forall proper l → disjoint l → NoDup (usable_pages l).
Proof.
  induction 1 as [|r l Hr Hl IH]; simpl; intros Hd; [constructor|].
  assert (disjoint l) as Hd'.
  { intros a. specialize (Hd a). rewrite owners_cons in Hd. case_decide; simpl in Hd; lia. }
  case_decide as Hu; [|by apply IH]. apply NoDup_app. split_and!.
  - apply NoDup_step_by. unfold Size4KiB. lia.
  - intros a [Ha _]%elem_of_pages (_ & r' & Hr' & _ & Ha')%elem_of_usable_pages; [|done..].
    apply elem_of_Permutation in Hr' as (l' & Hl'). specialize (Hd a).
    rewrite owners_cons, decide_True in Hd by done. rewrite Hl', owners_cons, decide_True in Hd by done.
    simpl in Hd. lia.
  - by apply IH.
Qed.

(** The invariant under which the kernel creates the allocator: the memory map the
    bootloader hands over is well-formed, disjoint and below 2^52. *)
Definition map_ok (m : MemoryMap) : Prop :=
  wf m ∧ disjoint (live m) ∧ Forall physical (live m).

Lemma allocate_4k_spec a :
  map_ok (memory_map a) →
  allocate_4k a = Ret (usable_pages (live (memory_map a)) !! next a,
                       {| memory_map := memory_map a; next := next a + 1 |}).
Proof.
  intros (Hwf & _ & Hp). unfold allocate_4k, deref. rewrite deref_live by done. simpl.
  by rewrite nth_frame_4k.
Qed.

#[global] Program Instance boot_info_frame_allocator : FrameAllocator BootInfoFrameAllocator := {|
  allocate_frame := allocate_4k;
  allocator_inv a := map_ok (memory_map a);
  free_frame a f := ∃ i, (next a ≤ i)%nat ∧ usable_pages (live (memory_map a)) !! i = Some f
|}.
Next Obligation.
  intros a Hok. pose proof Hok as (Hwf & Hd & Hp). rewrite allocate_4k_spec by done.
  do 2 eexists. split; [done|]. simpl. split; [done|]. split.
  { intros f (i & Hi & Hf). exists i. split; [lia|done]. }
  destruct (usable_pages _ !! next a) as [f|] eqn:E; [|done].
  assert (Forall proper (live (memory_map a))) as Hpr by (eapply Forall_impl; [exact Hp|by intros ? []]).
  apply list_elem_of_lookup_2 in E as Hin. rewrite elem_of_usable_pages in Hin by done.
  destruct Hin as (Hm & r & Hr & _ & Hh). split_and!; [by exists (next a)| |done|..].
  - intros (j & Hj & Hf). pose proof (NoDup_usable_pages _ Hpr Hd) as Hnd.
    assert (j = next a) by (by eapply NoDup_lookup). lia.
  - rewrite Forall_forall in Hpr. specialize (Hpr r Hr). unfold hits, proper, PAGE_SIZE in *. lia.
  - rewrite Forall_forall in Hp. destruct (Hp r Hr) as [_ Hl]. unfold hits, limit in *. lia.
Qed.

(** *** Frames of any size: aligned, and their start is in a usable region *)
Lemma adjust_end_spec xs r :
  proper r → 0 < xs → xs mod PAGE_SIZE = 0 → 0 < base r →
  ∃ e, adjust_end xs r = Ret (mkRegion (mkFrameRange (start_frame_number (range r)) e) (region_type r))
    ∧ start_frame_number (range r) ≤ e ≤ end_frame_number (range r).
Proof.
  unfold proper, base, adjust_end, size, start_addr, end_addr, PAGE_SIZE. intros Hp Hxs Hxm Hb.
  destruct r as [[s e] t]. simpl in *. rewrite usub_Ret by lia. simpl. rewrite !umul_Ret by lia. simpl.
  rewrite urem_Ret by lia. simpl. set (d := ((e - s) * 4096) mod xs).
  pose proof (Z.mod_pos_bound ((e - s) * 4096) xs ltac:(lia)) as Hd. fold d in Hd.
  pose proof (Z.mod_le ((e - s) * 4096) xs ltac:(lia) ltac:(lia)) as Hle. fold d in Hle.
  destruct (Z.eqb_spec d 0); simpl; [exists e; split; [done|lia]|].
  rewrite usub_Ret by lia. simpl.
  assert (d mod 4096 = 0) as Hdm.
  { unfold d. rewrite (Z.mod_eq _ xs) by lia. apply Z.mod_divide; [lia|]. apply Z.divide_sub_r; [apply Z.divide_factor_r|].
    apply Z.divide_mul_l. by apply Z.mod_divide. }
  apply Z.mod_divide in Hdm as [k Hk]; [|lia]. rewrite Hk.
  rewrite new_range_aligned; unfold PAGE_SIZE; [|lia|lia|].
  2:{ replace (e * 4096 - k * 4096) with ((e - k) * 4096) by lia. apply Z.mod_mul. lia. }
  simpl. replace (e * 4096 - k * 4096) with ((e - k) * 4096) by lia. rewrite !Z.div_mul by lia.
  exists (e - k). split; [done|lia].
Qed.

Lemma adjust_start_spec al s e t :
  0 < s ≤ e → e * PAGE_SIZE ≤ 2 ^ 52 → 0 < al < 2 ^ 52 → al mod PAGE_SIZE = 0 →
  ∃ r, adjust_start al (mkRegion (mkFrameRange s e) t) = Ret r
    ∧ (r = empty ∨ ∃ s', r = mkRegion (mkFrameRange s' e) t ∧ s ≤ s' ≤ e ∧ (s' * PAGE_SIZE) mod al = 0).
Proof.
  unfold adjust_start, start_addr, end_addr, PAGE_SIZE. simpl. intros Hs He Ha Ham.
  rewrite !umul_Ret by lia. simpl. rewrite urem_Ret by lia. simpl.
  pose proof (Z.mod_pos_bound (s * 4096) al ltac:(lia)) as Hb. pose proof (Z.div_mod (s * 4096) al ltac:(lia)) as Hdm.
  set (d := (s * 4096) mod al) in *. set (n := s * 4096 / al) in *.
  destruct (Z.eqb_spec d 0) as [Hd|Hd]; simpl.
  { eexists. split; [done|]. right. exists s. split_and!; [done|lia|lia|done]. }
  rewrite uadd_Ret by lia. simpl.
  destruct (Z.ltb_spec (e * 4096) (s * 4096 + (al - d))); [eexists; split; [done|by left]|].
  apply Z.mod_divide in Ham as [k Hk]; [|lia].
  replace (s * 4096 + (al - d)) with ((n + 1) * k * 4096) in * by nia.
  rewrite new_range_aligned; unfold PAGE_SIZE; [|lia|lia|apply Z.mod_mul; lia]. simpl. rewrite !Z.div_mul by lia.
  eexists. split; [done|]. right. exists ((n + 1) * k). split_and!; [done|lia|lia|].
  replace ((n + 1) * k * 4096) with ((n + 1) * al) by lia. apply Z.mod_mul. lia.
Qed.

Lemma region_frames_in xs r :
  physical r → 0 < base r → 0 < xs < 2 ^ 52 → xs mod PAGE_SIZE = 0 →
  ∃ l, region_frames xs xs r = Ret l ∧ ∀ a, a ∈ l → a mod xs = 0 ∧ base r ≤ a < limit r.
Proof.
  intros [Hp Hl] Hb Hxs Hxm. unfold region_frames. destruct (adjust_end_spec xs r) as (e & -> & He); [done|lia|done|done|]. simpl.
  unfold proper, base, limit, PAGE_SIZE in *.
  destruct (adjust_start_spec xs (start_frame_number (range r)) e (region_type r)) as (r2 & -> & Hr2);
    [lia|unfold PAGE_SIZE; lia|lia|done|]. simpl.
  destruct Hr2 as [->|(s' & -> & Hs & Hm)]; simpl.
  - exists []. split; [|by intros ? ?%elem_of_nil].
    change ((0 - 0) * PAGE_SIZE) with 0. destruct (Z.leb_spec xs 0); [lia|done].
  - unfold size, start_addr, end_addr, PAGE_SIZE in *. simpl. rewrite usub_Ret by lia. simpl. rewrite umul_Ret by lia. simpl.
    rewrite !umul_Ret by lia. simpl.
    destruct (Z.leb_spec xs ((e - s') * 4096)); [|exists []; split; [done|]; by intros ? ?%elem_of_nil].
    eexists. split; [done|]. intros a Ha. apply elem_of_step_by in Ha as (i & Hi & -> & Hlt); [|lia].
    split; [by rewrite Z_mod_plus_full|nia].
Qed.

Lemma nth_frame_in xs regions n :
  0 < xs < 2 ^ 52 → xs mod PAGE_SIZE = 0 → Forall physical regions →
  (∀ r, r ∈ regions → region_type r = Usable → 0 < base r) →
  ∃ o, nth_frame xs regions n = Ret o
    ∧ ∀ f, o = Some f → f mod xs = 0 ∧ ∃ r, r ∈ regions ∧ region_type r = Usable ∧ hits f r.
Proof.
  intros Hxs Hxm. revert n. induction regions as [|r regions IH]; intros n Hp Hb; simpl; [by exists None|].
  apply Forall_cons in Hp as [Hpr Hp].
  assert (∀ n, ∃ o, nth_frame xs regions n = Ret o
    ∧ ∀ f, o = Some f → f mod xs = 0 ∧ ∃ r', r' ∈ r :: regions ∧ region_type r' = Usable ∧ hits f r') as IH'.
  { intros k. destruct (IH k) as (o & -> & Ho); [done|intros; apply Hb; [by right|done]|].
    exists o. split; [done|]. intros f Hf. destruct (Ho f Hf) as (? & r' & ? & ?). split; [done|]. exists r'. split; [by right|done]. }
  case_decide as Ht; [|apply IH'].
  destruct (region_frames_in xs r) as (l & -> & Hl); [done|apply Hb; [by left|done]|done|done|]. simpl.
  assert (mapM (phys_frame xs) (take (S n) l) = Ret (take (S n) l)) as ->.
  { apply mapM_phys_frame, Forall_take, Forall_forall. intros a Ha.
    destruct (Hl a Ha) as [Hm Hr]. destruct Hpr as [_ Hlim]. split; [done|lia]. }
  simpl. destruct (take (S n) l !! n) as [f|] eqn:E; [|apply IH'].
  eexists. split; [done|]. intros ? [= <-]. apply list_elem_of_lookup_2, elem_of_take in E as (j & E & _).
  apply list_elem_of_lookup_2 in E. destruct (Hl f E) as [Hm Hr]. split; [done|]. exists r. split_and!; [by left|done|].
  unfold hits. unfold base, limit in Hr. lia.
Qed.

(** The bootloader turns frame zero into a region of its own, so no usable region
    starts at address 0. *)
#[global] Program Instance boot_info_frame_allocator_2m : FrameAllocator2M BootInfoFrameAllocator := {|
  allocate_frame_2m := allocate_2m;
  allocator_inv_2m a := ∀ r, r ∈ live (memory_map a) → region_type r = Usable → 0 < base r
|}.
Next Obligation.
  intros a (Hwf & Hd & Hp) Hb. unfold allocate_2m, deref. rewrite deref_live by done. cbn [mbind run_bind].
  destruct (nth_frame_in Size2MiB (live (memory_map a)) (next a)) as (o & -> & Ho); [done|done|done|done|].
  cbn [mbind run_bind]. do 2 eexists. split; [done|]. split; [done|]. split.
  { intros f (i & Hi & Hf). exists i. simpl in *. split; [lia|done]. }
  intros f Hf. destruct (Ho f Hf) as (Hm & r & Hr & _ & Hh). split; [done|].
  rewrite Forall_forall in Hp. destruct (Hp r Hr) as [Hpr Hl]. unfold hits, proper, limit, PAGE_SIZE in *. lia.
Qed.

(** [n] calls of [allocate_frame] in a row. *)
Fixpoint allocate_many (n : nat) (a : BootInfoFrameAllocator)
    : run (list (option Z) * BootInfoFrameAllocator) :=
  match n with
  | O => Ret ([], a)
  | S n' => '(f, a1) ← allocate_4k a; '(fs, a2) ← allocate_many n' a1; Ret (f :: fs, a2)
  end.

Lemma allocate_many_spec n a :
  map_ok (memory_map a) →
  allocate_many n a = Ret ((λ i, usable_pages (live (memory_map a)) !! i) <$> seq (next a) n,
                           {| memory_map := memory_map a; next := next a + n |}).
Proof.
  revert a. induction n as [|n IH]; intros a Hok; simpl.
  { destruct a. simpl. do 3 f_equal. lia. }
  rewrite allocate_4k_spec by done. simpl. rewrite IH by done. simpl.
  rewrite Nat.add_1_r. do 3 f_equal. lia.
Qed.

(** C25: Over a well-formed, disjoint memory map below 2^52, [n] calls of the
    kernel's 4 KiB [allocate_frame] never panic and return the first [n] entries
    of one duplicate-free list that holds exactly the page-aligned addresses of
    usable regions, then [None]: every usable page is handed out once. *)
Theorem frames_4k_once_each m n :
  map_ok m →
  ∃ l a', allocate_many n (new m) = Ret ((λ i, l !! i) <$> seq 0 n, a') ∧ NoDup l
    ∧ ∀ f, f ∈ l ↔ f mod PAGE_SIZE = 0 ∧ ∃ r, r ∈ live m ∧ region_type r = Usable ∧ hits f r.
Proof.
  intros Hok. pose proof Hok as (Hwf & Hd & Hp).
  assert (Forall proper (live m)) as Hpr by apply Hwf.
  exists (usable_pages (live m)). eexists. split; [by apply (allocate_many_spec n (new m))|].
  split; [by apply NoDup_usable_pages|]. intros f. by apply elem_of_usable_pages.
Qed.

Lemma single_map_ok r : physical r → map_ok (single r).
Proof.
  intros Hr. split; [by apply single_wf, Hr|]. split; [apply single_disjoint|].
  rewrite single_live. by apply Forall_singleton.
Qed.

Lemma frames_4k_once_each_witness :
  ∃ (l : list Z) a', allocate_many 2 (new sample) = Ret ((λ i, l !! i) <$> seq 0 2, a')
    ∧ NoDup l ∧ l !! 1%nat = Some 0x101000.
Proof.
  destruct (frames_4k_once_each sample 2) as (l & a' & H & Hnd & _).
  - by apply single_map_ok; vm_compute.
  - exists l, a'. split_and!; [done..|].
    assert (allocate_many 2 (new sample)
            = Ret ([Some 0x100000; Some 0x101000], mkAllocator sample 2)) as H2 by by vm_compute.
    rewrite H in H2. by injection H2.
Defined.

(** For a usable region whose start is a multiple of the alignment,
    [usable_xsize_frames] yields exactly [size / xsize] frames, back to back from
    the start of the region: each lies in the region and no two overlap. *)
Theorem xsize_frames_fit r xs al :
  proper r → 0 < xs → xs mod PAGE_SIZE = 0 → 0 < al → base r mod al = 0 → 0 < base r →
  ∃ l, region_frames xs al r = Ret l
    ∧ length l = Z.to_nat ((limit r - base r) / xs)
    ∧ (∀ i a, l !! i = Some a → a = base r + Z.of_nat i * xs)
    ∧ ∀ a, a ∈ l → base r ≤ a ∧ a + xs ≤ limit r.
Proof.
  intros Hp Hxs Hxm Hal Hb Hz. rewrite region_frames_aligned by (auto; lia).
  eexists. split; [done|]. set (n := (limit r - base r) / xs).
  assert (0 ≤ n) by (apply Z.div_pos; unfold limit, base, proper, PAGE_SIZE in *; lia).
  split_and!.
  - unfold step_by. rewrite length_fmap, length_seq. f_equal.
    symmetry. apply (Z.div_unique_pos _ _ _ (xs - 1)); lia.
  - intros i a. unfold step_by. rewrite list_lookup_fmap. intros (j & Hj & ->)%fmap_Some_1.
    apply lookup_seq in Hj as [-> _]. f_equal.
  - intros a. rewrite elem_of_step_by by done. intros (i & Hi & -> & Hlt).
    pose proof (Z.mul_div_le (limit r - base r) xs Hxs). fold n in H0.
    assert (i + 1 ≤ n) by nia. nia.
Qed.

Lemma xsize_frames_fit_witness :
  region_frames 0xa00000 0x200000 (mkRegion (mkFrameRange 0x400 0x2000) Usable)
  = Ret [0x400000; 0xe00000].
Proof.
  destruct (xsize_frames_fit (mkRegion (mkFrameRange 0x400 0x2000) Usable) 0xa00000 0x200000)
    as (l & H & _); [by vm_compute..|]. rewrite H. vm_compute in H. by injection H as <-.
Defined.

(** *** Regions whose start is not aligned

    The end is trimmed to a multiple of the size counted from the unaligned start, so
    after the start is raised the last frame can leave the region. *)
Definition one_to_five_mib : MemoryRegion := mkRegion (mkFrameRange 0x100 0x500) Usable.
Lemma frame_2m_leaves_region :
  usable_frames Size2MiB [one_to_five_mib] = Ret [0x200000; 0x400000] ∧ limit one_to_five_mib = 0x500000.
Proof. split; [by vm_compute|done]. Qed.

Definition one_to_21_mib : MemoryRegion := mkRegion (mkFrameRange 0x100 0x1500) Usable.
Lemma kernel_stack_leaves_region :
  region_frames 0xa00000 0x200000 one_to_21_mib = Ret [0x200000; 0xc00000]
  ∧ limit one_to_21_mib < 0xc00000 + 0xa00000.
Proof. split; [by vm_compute|by vm_compute]. Qed.

(** The two [FrameAllocator] instances share [next] but index different lists: after a
    2 MiB frame, a 4 KiB frame inside it is handed out. *)
Definition three_mib_up : MemoryMap :=
  single (mkRegion (mkFrameRange 0x300 0x1300) Usable).
Lemma frame_sizes_overlap :
  ∃ a1 a2, allocate_2m (new three_mib_up) = Ret (Some 0x400000, a1)
    ∧ allocate_4k a1 = Ret (Some 0x500000, a2).
Proof.
  exists (mkAllocator three_mib_up 512), (mkAllocator three_mib_up 513). split; by vm_compute.
Qed.

(** [PageTableAllocator] compares with [>]: it hands out one table past the end. *)
Lemma page_table_past_end s n :
  0 ≤ s → 0 ≤ n → s + 4096 * n < 2 ^ 32 - 16 →
  page_table_next {| pt_index := n; pt_start := s; pt_end := s + 4096 * n |}
  = Ret (Some (s + 4096 * n), {| pt_index := n + 1; pt_start := s; pt_end := s + 4096 * n |}).
Proof.
  intros. unfold page_table_next, umax. rewrite umul_Ret by (simpl; lia).
  cbn [mbind run_bind pt_index pt_start pt_end]. rewrite (uadd_Ret 32 s) by lia. cbn [mbind run_bind].
  rewrite (proj2 (Z.leb_le _ _)) by lia. cbn [unwrap mbind run_bind]. rewrite Z.ltb_irrefl.
  by rewrite uadd_Ret by lia.
Qed.
End FrameAlloc.
