(* ===== verification/Heap.v ===== *)
(** * kernel/src/allocator/fixed_size_block.rs: the kernel heap

    The allocator keeps one [Option<u16>] per 16-byte step of the heap: [Some n] at
    the first step of a block of [n] steps, [None] everywhere else.  Memory is a
    finite map from addresses to bytes. *)
From S2P Require Import Prelude.

Module Heap.

Definition ALLOC_STEPS : Z := 16.
Definition HEAP_START : Z := 0x444444440000.
Definition HEAP_SIZE : Z := 1000 * 1024.
Definition STEPS : nat := Z.to_nat (HEAP_SIZE / ALLOC_STEPS).

Record FixedSizeBlockAllocator := mkHeap { arr : list (option Z); heap_start : Z }.
Record Layout := mkLayout { l_size : Z; l_align : Z }.
Abbreviation memory := (gmap Z Z).

Definition new (start : Z) : FixedSizeBlockAllocator :=
  {| arr := replicate STEPS None; heap_start := start |}.

Definition num_non_empty (h : FixedSizeBlockAllocator) : Z :=
  foldl (λ count val, match val with Some _ => count + 1 | None => count end) 0 (arr h).
Definition num_bytes_allocated (h : FixedSizeBlockAllocator) : Z :=
  foldl (λ count val, match val with Some v => count + v | None => count end) 0 (arr h).

(** [Layout::from_size_align(size, align).unwrap().pad_to_align().size()]. *)
Definition padded (size align : Z) : run Z :=
  if is_power_of_two align && (size <=? umax 64 - (align - 1))
  then Ret ((size + align - 1) / align * align) else Panic Unwrap.
(** [layout.align_to(ALLOC_STEPS).unwrap().pad_to_align().size()]. *)
Definition needed_size (l : Layout) : run Z := padded (l_size l) (Z.max (l_align l) ALLOC_STEPS).

(** The [while] loop of [alloc]; the result is [spot]. *)
Fixpoint scan (fuel : nat) (a : list (option Z)) (needed : Z) (i spot : nat) (accumulator : Z)
    : run (option nat) :=
  if decide (i < length a)%nat then
    match fuel with
    | O => Panic NoFuel
    | S fuel' =>
        cell ← index a i;
        match cell with
        | Some offset =>
            let i' := (i + Z.to_nat offset)%nat in
            scan fuel' a needed i' i' 0
        | None =>
            acc ← uadd 64 accumulator ALLOC_STEPS;
            if needed =? acc then Ret (Some spot)
            else scan fuel' a needed (S i) spot acc
        end
    end
  else Ret None.

(** A null pointer is 0. *)
Definition alloc (h : FixedSizeBlockAllocator) (l : Layout) : run (Z * FixedSizeBlockAllocator) :=
  needed ← needed_size l;
  found ← scan (S (length (arr h))) (arr h) needed 0 0 0;
  match found with
  | Some spot =>
      arr_data ← unwrap (if needed / ALLOC_STEPS <? 2 ^ 16 then Some (needed / ALLOC_STEPS) else None);
      a ← store (arr h) spot (Some arr_data);
      off ← umul 64 (Z.of_nat spot) ALLOC_STEPS;
      mem_ptr ← uadd 64 off (heap_start h);
      Ret (mem_ptr, {| arr := a; heap_start := heap_start h |})
  | None => Ret (0, h)
  end.

Definition dealloc (h : FixedSizeBlockAllocator) (ptr : Z) : run FixedSizeBlockAllocator :=
  off ← usub ptr (heap_start h);
  let i := Z.to_nat (off / ALLOC_STEPS) in
  cell ← index (arr h) i;
  match cell with
  | None => Panic Explicit
  | Some _ => a ← store (arr h) i None; Ret {| arr := a; heap_start := heap_start h |}
  end.

(** [write_bytes(ptr, 0, n)] and [copy_nonoverlapping(src, dst, n)]: undefined on
    null, and on overlapping ranges. *)
Definition write_zero (m : memory) (ptr n : Z) : run memory :=
  if ptr =? 0 then Panic Undefined
  else Ret (foldr (λ i m, <[ptr + Z.of_nat i := 0]> m) m (seq 0 (Z.to_nat n))).
Definition copy_nonoverlapping (m : memory) (src dst n : Z) : run memory :=
  if (src =? 0) || (dst =? 0) || ((src <? dst + n) && (dst <? src + n)) then Panic Undefined
  else Ret (foldr (λ i m', partial_alter (λ _, m !! (src + Z.of_nat i)) (dst + Z.of_nat i) m')
                  m (seq 0 (Z.to_nat n))).

Definition alloc_zeroed (h : FixedSizeBlockAllocator) (m : memory) (l : Layout)
    : run (Z * FixedSizeBlockAllocator * memory) :=
  '(ptr, h') ← alloc h l;
  n ← needed_size l;
  m' ← write_zero m ptr n;
  Ret (ptr, h', m').

Definition realloc (h : FixedSizeBlockAllocator) (m : memory) (ptr : Z) (l : Layout) (new_size : Z)
    : run (Z * FixedSizeBlockAllocator * memory) :=
  off ← usub ptr (heap_start h);
  let i := Z.to_nat (off / ALLOC_STEPS) in
  new_sz ← padded new_size ALLOC_STEPS;
  old_sz ← needed_size l;
  match old_sz ?= new_sz with
  | Eq => Ret (ptr, h, m)
  | Gt =>
      arr_data ← unwrap (if new_sz / ALLOC_STEPS <? 2 ^ 16 then Some (new_sz / ALLOC_STEPS) else None);
      a ← store (arr h) i (Some arr_data);
      Ret (ptr, {| arr := a; heap_start := heap_start h |}, m)
  | Lt =>
      h1 ← dealloc h ptr;
      '(new_ptr, h2) ← alloc h1 (mkLayout new_sz ALLOC_STEPS);
      if new_ptr =? ptr then Ret (new_ptr, h2, m)
      else m' ← copy_nonoverlapping m ptr new_ptr (l_size l); Ret (new_ptr, h2, m')
  end.

Lemma STEPS_val : Z.of_nat STEPS = 64000.
Proof. by vm_compute. Qed.
#[local] Opaque STEPS.

(** ** Abstract heap: a sequence of free steps and blocks *)
Inductive seg := Free | Used (n : nat).
Definition cells (s : seg) : list (option Z) :=
  match s with Free => [None] | Used n => Some (Z.of_nat n) :: replicate (n - 1) None end.
Fixpoint render (l : list seg) : list (option Z) :=
  match l with [] => [] | s :: l' => cells s ++ render l' end.
Definition seg_ok (s : seg) : Prop := match s with Free => True | Used n => 1 ≤ Z.of_nat n < 2 ^ 16 end.

(** The blocks of the heap: first step and number of steps. *)
Fixpoint blocks (pos : nat) (l : list seg) : list (nat * nat) :=
  match l with
  | [] => []
  | Free :: l' => blocks (S pos) l'
  | Used n :: l' => (pos, n) :: blocks (pos + n) l'
  end.

(** [h] is the concrete form of [l]. *)
Definition repr (h : FixedSizeBlockAllocator) (l : list seg) : Prop :=
  arr h = render l ∧ Forall seg_ok l ∧ length (arr h) = STEPS ∧ heap_start h = HEAP_START.

Definition free_run (k : nat) : list seg := replicate k Free.
Definition has_room (k : nat) (l : list seg) : Prop := ∃ p q, l = p ++ free_run k ++ q.

Lemma render_app l l' : render (l ++ l') = render l ++ render l'.
Proof. induction l; simpl; [done|]. by rewrite IHl, app_assoc. Qed.
Lemma render_free k : render (free_run k) = replicate k None.
Proof. induction k; simpl; [done|]. by f_equal. Qed.
Lemma length_cells n : (1 ≤ n)%nat → length (cells (Used n)) = n.
Proof. intros. simpl. rewrite length_replicate. lia. Qed.
Lemma blocks_app pos l l' :
  Forall seg_ok l → blocks pos (l ++ l') = blocks pos l ++ blocks (pos + length (render l)) l'.
Proof.
  intros Hl. revert pos. induction Hl as [|s l Hs _ IH]; intros pos; simpl; [by rewrite Nat.add_0_r|].
  destruct s as [|n]; simpl.
  - rewrite IH. do 2 f_equal. lia.
  - rewrite IH. simpl in Hs. rewrite length_app, length_replicate. do 3 f_equal. lia.
Qed.
Lemma blocks_free pos k : blocks pos (free_run k) = [].
Proof. revert pos. induction k; intros; simpl; [done|apply IHk]. Qed.


(** *** The scan *)
Lemma length_free k : length (free_run k) = k.
Proof. apply length_replicate. Qed.
Lemma length_render_free k : length (render (free_run k)) = k.
Proof. rewrite render_free. apply length_replicate. Qed.
Lemma free_run_S k : free_run (S k) = free_run k ++ [Free].
Proof. unfold free_run. rewrite <- Nat.add_1_r, replicate_add. done. Qed.

(** The scanned part: [p], which does not end in a free step, then [j] free steps. *)
Definition closed (p : list seg) : Prop := p = [] ∨ ∃ p0 n, p = p0 ++ [Used n].

Lemma free_suffix p j p' k : closed p → p ++ free_run j = p' ++ free_run k → (k ≤ j)%nat.
Proof.
  intros Hp. revert k. induction j as [|j IH]; intros [|k]; simpl; try lia.
  - rewrite app_nil_r, free_run_S, app_assoc. destruct Hp as [->|(p0 & n & ->)].
    + intros H. by destruct (app_eq_nil _ _ (eq_sym H)).
    + by intros [_ [=]]%app_inj_tail.
  - rewrite !free_run_S, !app_assoc. intros [H _]%app_inj_tail. apply IH in H. lia.
Qed.

Lemma no_room_free p j k :
  closed p → (S j < k)%nat → ¬ has_room k (p ++ free_run j) → ¬ has_room k (p ++ free_run (S j)).
Proof.
  intros Hp Hk Hno (p' & q' & H). destruct q' as [|x q' _] using rev_ind.
  - rewrite app_nil_r in H. apply free_suffix in H; [lia|done].
  - rewrite free_run_S, !app_assoc in H. apply app_inj_tail in H as [H _].
    apply Hno. exists p', q'. by rewrite H, <- app_assoc.
Qed.

Lemma no_room_used p k n :
  (0 < k)%nat → ¬ has_room k p → ¬ has_room k (p ++ [Used n]).
Proof.
  intros Hk Hno (p' & q' & H). destruct q' as [|x q' _] using rev_ind.
  - destruct k as [|k]; [lia|]. rewrite app_nil_r, free_run_S, app_assoc in H.
    by apply app_inj_tail in H as [_ [=]].
  - rewrite !app_assoc in H. apply app_inj_tail in H as [H _].
    apply Hno. exists p', q'. by rewrite H, <- app_assoc.
Qed.

Lemma lookup_render p s q :
  render (p ++ s :: q) !! length (render p) = head (cells s).
Proof.
  rewrite render_app, lookup_app_r by lia. rewrite Nat.sub_diag. by destruct s.
Qed.

(** The first fit for [k] steps, or none: the loop ends within one turn per step. *)
Lemma scan_spec fuel p j q k :
  Forall seg_ok (p ++ free_run j ++ q) → closed p → (j < k)%nat → ¬ has_room k (p ++ free_run j) →
  (length (render q) < fuel)%nat → Z.of_nat (length (render (p ++ free_run j ++ q))) * 16 < 2 ^ 63 →
  let r := scan fuel (render (p ++ free_run j ++ q)) (Z.of_nat k * ALLOC_STEPS)
             (length (render p) + j) (length (render p)) (Z.of_nat j * ALLOC_STEPS) in
  (r = Ret None ∧ ¬ has_room k (p ++ free_run j ++ q))
  ∨ ∃ p' q', r = Ret (Some (length (render p'))) ∧ p ++ free_run j ++ q = p' ++ free_run k ++ q'.
Proof.
  intros Hok Hp Hj Hno Hf Hlen. revert fuel p j Hok Hp Hj Hno Hf Hlen.
  induction q as [|s q IH]; intros fuel p j Hok Hp Hj Hno Hf Hlen r; unfold r; clear r.
  { rewrite app_nil_r. left. split; [|done]. rewrite render_app. destruct fuel; simpl;
      rewrite decide_False; try done; rewrite length_app, length_render_free; lia. }
  destruct fuel as [|fuel]; [lia|].
  assert (p ++ free_run j ++ s :: q = (p ++ free_run j) ++ s :: q) as Hassoc by by rewrite <- app_assoc.
  assert (length (render p) + j = length (render (p ++ free_run j)))%nat as Hi
    by (rewrite render_app, length_app, length_render_free; lia).
  simpl scan. rewrite decide_True.
  2:{ rewrite Hassoc, render_app, length_app, Hi. destruct s; simpl; lia. }
  unfold index. rewrite Hassoc, Hi, lookup_render. rewrite <- Hassoc.
  apply Forall_app in Hok as Hok2. destruct Hok2 as [Hokp [_ Hoksq]%Forall_app].
  apply Forall_cons in Hoksq as [Hoks Hokq].
  assert (Forall seg_ok (free_run j)) as Hokf by (apply Forall_replicate; done).
  destruct s as [|n]; simpl.
  - rewrite uadd_Ret.
    2:{ unfold ALLOC_STEPS. rewrite Hassoc, render_app, length_app, <- Hi in Hlen. lia. }
    simpl. unfold ALLOC_STEPS.
    replace (Z.of_nat j * 16 + 16) with (Z.of_nat (S j) * 16) by lia.
    assert (p ++ free_run j ++ Free :: q = p ++ free_run (S j) ++ q) as Hstep
      by (by rewrite free_run_S, <- !app_assoc).
    rewrite Hstep in *. destruct (Z.eqb_spec (Z.of_nat k * 16) (Z.of_nat (S j) * 16)).
    + right. exists p, q. split; [done|]. by replace k with (S j) by lia.
    + rewrite <- Hi. replace (S (length (render p) + j)) with (length (render p) + S j)%nat by lia.
      apply IH; try done; [lia| |simpl in Hf; lia]. apply no_room_free; [done|lia|done].
  - rewrite Nat2Z.id. simpl in Hoks, Hf. rewrite length_app, length_replicate in Hf.
    assert (p ++ free_run j ++ Used n :: q = ((p ++ free_run j) ++ [Used n]) ++ free_run 0 ++ q) as Hstep
      by (by rewrite <- !app_assoc).
    rewrite Hstep in *.
    pose proof (IH fuel ((p ++ free_run j) ++ [Used n]) 0%nat) as HIH. cbn zeta in HIH.
    rewrite Nat.add_0_r in HIH.
    assert (length (render (p ++ free_run j)) + n
            = length (render ((p ++ free_run j) ++ [Used n])))%nat as ->.
    { rewrite (render_app (p ++ free_run j) [Used n]), length_app. cbn [render].
      rewrite app_nil_r, length_cells by lia. lia. }
    apply HIH; try done; [right; by eexists _, _|lia| |lia].
    simpl. rewrite app_nil_r. apply no_room_used; [lia|done].
Qed.

#[local] Arguments scan : simpl never.
#[local] Opaque scan.

(** *** [alloc] and [dealloc] on the abstract heap *)
Definition address (p : list seg) : Z := HEAP_START + Z.of_nat (length (render p)) * ALLOC_STEPS.

Lemma render_middle p k q : (1 ≤ k)%nat →
  <[length (render p) := Some (Z.of_nat k)]> (render (p ++ free_run k ++ q)) = render (p ++ Used k :: q).
Proof.
  intros Hk. rewrite !render_app, render_free. rewrite insert_app_r_alt by lia.
  rewrite Nat.sub_diag. destruct k as [|k]; [lia|]. simpl. by rewrite Nat.sub_0_r.
Qed.

Lemma render_clear p n q : (1 ≤ n)%nat →
  <[length (render p) := None]> (render (p ++ Used n :: q)) = render (p ++ free_run n ++ q).
Proof.
  intros Hn. rewrite !render_app, render_free. rewrite insert_app_r_alt by lia.
  rewrite Nat.sub_diag. destruct n as [|n]; [lia|]. simpl. by rewrite Nat.sub_0_r.
Qed.

Lemma length_render_parts p k q :
  length (render (p ++ free_run k ++ q)) = (length (render p) + k + length (render q))%nat.
Proof. rewrite !render_app, !length_app, length_render_free. lia. Qed.

Lemma alloc_cases h l k segs :
  repr h segs → needed_size l = Ret (Z.of_nat k * ALLOC_STEPS) → (0 < k)%nat →
  (alloc h l = Ret (0, h) ∧ ¬ has_room k segs)
  ∨ ∃ p q h', segs = p ++ free_run k ++ q ∧ alloc h l = Ret (address p, h') ∧ repr h' (p ++ Used k :: q).
Proof.
  intros (Ha & Hok & Hl & Hs) Hn Hk. pose proof STEPS_val. unfold alloc. rewrite Hn. simpl mbind.
  pose proof (scan_spec (S (length (arr h))) [] 0 segs k) as Hscan.
  cbn [app free_run replicate render length Nat.add] in Hscan. rewrite <- Ha in Hscan.
  destruct Hscan as [[Hr Hno]|(p & q & Hr & Hsegs)]; [done|by left|done| |lia|lia| |].
  - intros (p' & q' & H'). destruct k; [lia|]. by destruct p'.
  - left. change (Z.of_nat 0 * ALLOC_STEPS) with 0 in Hr. rewrite Hr. by split.
  - right. exists p, q. change (Z.of_nat 0 * ALLOC_STEPS) with 0 in Hr. rewrite Hr. simpl.
    assert (length (render segs) = STEPS) as Hlen by (by rewrite <- Ha).
    rewrite Hsegs, length_render_parts in Hlen.
    unfold ALLOC_STEPS. rewrite Z.div_mul by lia. rewrite (proj2 (Z.ltb_lt _ _)) by lia. simpl.
    rewrite store_Ret by lia. simpl. rewrite umul_Ret by lia. simpl.
    rewrite Hs. rewrite uadd_Ret by (unfold HEAP_START; lia). simpl.
    eexists. split; [done|]. split; [by unfold address; rewrite Z.add_comm|].
    rewrite Ha, Hsegs, render_middle by lia. split; [done|]. rewrite Hsegs in Hok.
    apply Forall_app in Hok as [Hp [_ Hq]%Forall_app]. split_and!; simpl; [|  |done].
    + apply Forall_app. split; [done|]. apply Forall_cons. split; [simpl; lia|done].
    + rewrite render_app, length_app. cbn [render]. rewrite length_app, length_cells by lia. lia.
Qed.

Lemma block_index p r : 0 ≤ r < ALLOC_STEPS →
  usub (address p + r) HEAP_START = Ret (Z.of_nat (length (render p)) * ALLOC_STEPS + r)
  ∧ Z.to_nat ((Z.of_nat (length (render p)) * ALLOC_STEPS + r) / ALLOC_STEPS) = length (render p).
Proof.
  unfold address, ALLOC_STEPS. intros Hr. rewrite usub_Ret by lia. split; [f_equal; lia|].
  rewrite Z.div_add_l, Z.div_small by lia. lia.
Qed.

Lemma dealloc_block h p n q r :
  repr h (p ++ Used n :: q) → 0 ≤ r < ALLOC_STEPS →
  ∃ h', dealloc h (address p + r) = Ret h' ∧ repr h' (p ++ free_run n ++ q).
Proof.
  intros (Ha & Hok & Hl & Hs) Hr. unfold dealloc. rewrite Hs.
  destruct (block_index p r Hr) as [-> Hidx]. simpl mbind. rewrite Hidx.
  apply Forall_app in Hok as Hok2. destruct Hok2 as [Hp [Hn Hq]%Forall_cons]. simpl in Hn.
  unfold index. rewrite Ha, lookup_render. simpl mbind.
  rewrite <- Ha. rewrite store_Ret.
  2:{ rewrite Ha, render_app, length_app. simpl. lia. }
  simpl mbind. eexists. split; [done|]. rewrite Ha, render_clear by lia. split; [done|].
  split_and!; simpl; [| |done].
  - apply Forall_app. split; [done|]. apply Forall_app. split; [by apply Forall_replicate|done].
  - rewrite <- Hl, Ha, length_render_parts, render_app, length_app. cbn [render].
    rewrite length_app, length_cells by lia. lia.
Qed.

Lemma repr_inj h1 h2 segs : repr h1 segs → repr h2 segs → h1 = h2.
Proof. intros (? & _ & _ & ?) (? & _ & _ & ?). destruct h1, h2. simpl in *. congruence. Qed.

(** Blocks lie where their segments are. *)
Lemma blocks_bounds pos l b n :
  Forall seg_ok l → (b, n) ∈ blocks pos l → (pos ≤ b ∧ b + n ≤ pos + length (render l))%nat.
Proof.
  intros Hl. revert pos. induction Hl as [|s l Hs _ IH]; intros pos; simpl; [set_solver|].
  destruct s as [|m]; simpl.
  - intros H%IH. lia.
  - simpl in Hs. rewrite length_app, length_replicate. intros [[= -> ->]|H%IH]%elem_of_cons; lia.
Qed.

Lemma blocks_used p k q :
  Forall seg_ok p → 
  blocks 0 (p ++ Used k :: q) ≡ₚ (length (render p), k) :: blocks 0 (p ++ free_run k ++ q).
Proof.
  intros Hp. rewrite !blocks_app by done. simpl. rewrite blocks_app by (by apply Forall_replicate).
  rewrite blocks_free, length_render_free. simpl. by rewrite Permutation_middle.
Qed.

(** *** Copies *)
Lemma lookup_copy (m : memory) src dst n a :
  foldr (λ i m', partial_alter (λ _, m !! (src + Z.of_nat i)) (dst + Z.of_nat i) m') m (seq 0 n) !! a
  = if decide (dst ≤ a < dst + Z.of_nat n) then m !! (src + (a - dst)) else m !! a.
Proof.
  assert (∀ s, foldr (λ i m', partial_alter (λ _, m !! (src + Z.of_nat i)) (dst + Z.of_nat i) m') m (seq s n) !! a
    = if decide (dst + Z.of_nat s ≤ a < dst + Z.of_nat (s + n)) then m !! (src + (a - dst)) else m !! a) as H.
  { induction n as [|n IH]; intros s; simpl; [rewrite decide_False by lia; done|].
    destruct (decide (a = dst + Z.of_nat s)) as [->|Hne].
    - rewrite lookup_partial_alter_eq, decide_True by lia. do 2 f_equal. lia.
    - rewrite lookup_partial_alter_ne by done. rewrite IH.
      replace (S s + n)%nat with (s + S n)%nat by lia.
      destruct (decide (dst + Z.of_nat (S s) ≤ a < _)); [rewrite decide_True by lia; done|].
      rewrite decide_False by lia. done. }
  rewrite H. repeat case_decide; try done; lia.
Qed.

(** *** Layouts *)
Lemma padded_spec size k : 0 < size < 2 ^ 63 → 0 ≤ k < 63 →
  ∃ n, padded size (2 ^ k) = Ret (n * 2 ^ k) ∧ 0 < n ∧ size ≤ n * 2 ^ k < size + 2 ^ k.
Proof.
  intros Hs Hk. unfold padded, umax.
  assert (is_power_of_two (2 ^ k) = true) as -> by (apply is_power_of_two_spec; exists k; lia).
  pose proof (pow2_pos k ltac:(lia)). pose proof (Z.pow_lt_mono_r 2 k 63 ltac:(lia) ltac:(lia) ltac:(lia)).
  rewrite (proj2 (Z.leb_le _ _)) by lia. simpl. eexists. split; [done|].
  pose proof (Z.div_mod (size + 2 ^ k - 1) (2 ^ k) ltac:(lia)).
  pose proof (Z.mod_pos_bound (size + 2 ^ k - 1) (2 ^ k) ltac:(lia)).
  split; [apply Z.div_str_pos|]; lia.
Qed.

(** A valid layout needs a positive number of whole steps, enough for its size. *)
Lemma needed_size_spec l k :
  0 < l_size l < 2 ^ 63 → l_align l = 2 ^ k → 0 ≤ k < 63 →
  ∃ n, needed_size l = Ret (Z.of_nat n * ALLOC_STEPS) ∧ (0 < n)%nat ∧ l_size l ≤ Z.of_nat n * ALLOC_STEPS.
Proof.
  intros Hs Ha Hk. unfold needed_size. rewrite Ha.
  assert (Z.max (2 ^ k) ALLOC_STEPS = 2 ^ Z.max k 4) as ->.
  { unfold ALLOC_STEPS. change 16 with (2 ^ 4). destruct (Z.le_ge_cases k 4) as [H|H].
    - rewrite (Z.max_r k) by done. apply Z.max_r. apply Z.pow_le_mono_r; lia.
    - rewrite (Z.max_l k) by done. apply Z.max_l. apply Z.pow_le_mono_r; lia. }
  destruct (padded_spec (l_size l) (Z.max k 4)) as (n & -> & Hn & Hb); [lia|lia|].
  assert (2 ^ Z.max k 4 = 2 ^ (Z.max k 4 - 4) * 16) as Hp.
  { change 16 with (2 ^ 4). rewrite <- Z.pow_add_r by lia. f_equal. lia. }
  pose proof (pow2_pos (Z.max k 4 - 4) ltac:(lia)).
  exists (Z.to_nat (n * 2 ^ (Z.max k 4 - 4))). unfold ALLOC_STEPS.
  rewrite Z2Nat.id by nia. split_and!; [f_equal; lia|nia|lia].
Qed.

(** C26: On a well-formed heap and a valid layout, [alloc] never panics.
    It returns null and changes nothing exactly when no [k] consecutive steps are
    free, where [k] is the layout's size in steps.  Otherwise the block it returns
    lies in the heap, is large enough and overlaps no live block; it is added to
    the live blocks, which stay where they are, and the heap stays well-formed. *)
Theorem heap_alloc_first_fit h segs l a :
  repr h segs → 0 < l_size l < 2 ^ 63 → l_align l = 2 ^ a → 0 ≤ a < 63 →
  ∃ k, needed_size l = Ret (Z.of_nat k * ALLOC_STEPS) ∧ (0 < k)%nat ∧ l_size l ≤ Z.of_nat k * ALLOC_STEPS ∧
  ((alloc h l = Ret (0, h) ∧ ¬ has_room k segs)
   ∨ ∃ p h' segs', alloc h l = Ret (address p, h') ∧ repr h' segs' ∧ has_room k segs
       ∧ Z.of_nat (length (render p) + k) * ALLOC_STEPS ≤ HEAP_SIZE
       ∧ blocks 0 segs' ≡ₚ (length (render p), k) :: blocks 0 segs
       ∧ ∀ b n, (b, n) ∈ blocks 0 segs → (b + n ≤ length (render p) ∨ length (render p) + k ≤ b)%nat).
Proof.
  intros Hr Hs Ha Hk. destruct (needed_size_spec l a Hs Ha Hk) as (k & Hn & Hk0 & Hsz).
  exists k. split_and!; [done..|].
  destruct (alloc_cases h l k segs Hr Hn Hk0) as [?|(p & q & h' & Hsegs & Hal & Hr')]; [by left|right].
  pose proof Hr as (Hra & Hok & Hlen & _). pose proof STEPS_val.
  rewrite Hra, Hsegs, length_render_parts in Hlen. rewrite Hsegs in Hok.
  apply Forall_app in Hok as [Hp [Hf Hq]%Forall_app].
  exists p, h', (p ++ Used k :: q). split_and!; [done..|by exists p, q| | |].
  - unfold HEAP_SIZE, ALLOC_STEPS. lia.
  - rewrite Hsegs. by apply blocks_used.
  - intros b n. rewrite Hsegs, !blocks_app, blocks_free, length_render_free by done. simpl.
    rewrite elem_of_app. intros [H'|H']; apply blocks_bounds in H'; [lia|exact Hp|lia|exact Hq].
Qed.

Lemma new_repr : repr (new HEAP_START) (free_run STEPS).
Proof.
  split; [symmetry; apply render_free|]. split; [by apply Forall_replicate|].
  split; [apply length_replicate|done].
Qed.

Lemma room_in_new k : Z.of_nat k ≤ 64000 → has_room k (free_run STEPS).
Proof.
  intros Hk. pose proof STEPS_val. exists [], (free_run (STEPS - k)). simpl. unfold free_run.
  rewrite <- replicate_add. f_equal. lia.
Qed.

Lemma heap_alloc_first_fit_witness :
  ∃ p h' segs', alloc (new HEAP_START) (mkLayout 100 8) = Ret (address p, h') ∧ repr h' segs'.
Proof.
  destruct (heap_alloc_first_fit (new HEAP_START) (free_run STEPS) (mkLayout 100 8) 3)
    as (k & Hk & _ & _ & [[_ H]|(p & h' & segs' & H & Hr & _)]).
  - exact new_repr.
  - cbn. lia.
  - done.
  - lia.
  - destruct H. apply room_in_new. change (Ret 112 = Ret (Z.of_nat k * 16)) in Hk. injection Hk. lia.
  - by exists p, h', segs'.
Defined.

(** Deallocating what [alloc] just returned, through any pointer into
    its first step, never panics and restores the heap exactly. *)
Theorem heap_alloc_dealloc h segs l a ptr h' r :
  repr h segs → 0 < l_size l < 2 ^ 63 → l_align l = 2 ^ a → 0 ≤ a < 63 →
  alloc h l = Ret (ptr, h') → ptr ≠ 0 → 0 ≤ r < ALLOC_STEPS →
  dealloc h' (ptr + r) = Ret h.
Proof.
  intros Hr Hs Ha Hk Hal Hp0 Hr0. destruct (needed_size_spec l a Hs Ha Hk) as (k & Hn & Hk0 & _).
  destruct (alloc_cases h l k segs Hr Hn Hk0) as [[Hal' _]|(p & q & h1 & Hsegs & Hal' & Hr')];
    rewrite Hal in Hal'; injection Hal' as -> ->; [done|].
  destruct (dealloc_block h1 p k q r Hr' Hr0) as (h2 & -> & Hr2). f_equal.
  rewrite Hsegs in Hr. by eapply repr_inj.
Qed.

Lemma heap_alloc_dealloc_witness :
  ∃ ptr h', alloc (new HEAP_START) (mkLayout 24 8) = Ret (ptr, h') ∧ dealloc h' (ptr + 3) = Ret (new HEAP_START).
Proof.
  destruct (alloc_cases (new HEAP_START) (mkLayout 24 8) 2 (free_run STEPS) new_repr)
    as [[_ H]|(p & q & h' & _ & Hal & _)]; [done|lia|by destruct (H (room_in_new 2 ltac:(lia)))|].
  exists (address p), h'. split; [exact Hal|].
  apply (heap_alloc_dealloc (new HEAP_START) (free_run STEPS) (mkLayout 24 8) 3 (address p)).
  - exact new_repr.
  - cbn. lia.
  - done.
  - lia.
  - exact Hal.
  - unfold address, HEAP_START, ALLOC_STEPS. lia.
  - done.
Defined.

(** Every step of the heap is the first one of a block, or holds no block start. *)
Lemma locate i pos l :
  Forall seg_ok l → (pos ≤ i < pos + length (render l))%nat →
  (∃ p n q, l = p ++ Used n :: q ∧ (i = pos + length (render p))%nat ∧ (i, n) ∈ blocks pos l)
  ∨ ((∀ n, (i, n) ∉ blocks pos l) ∧ render l !! (i - pos)%nat = Some None).
Proof.
  intros Hl. revert pos. induction Hl as [|s l Hsg Hl IH]; intros pos Hpos; simpl in *; [lia|].
  destruct s as [|m]; simpl in *.
  - destruct (decide (i = pos)) as [->|Hne].
    + right. rewrite Nat.sub_diag. split; [|done]. intros n H%blocks_bounds; [lia|done].
    + destruct (IH (S pos) ltac:(lia)) as [(p & n & q & -> & Hip & Hin)|[Hno Hc]].
      * left. exists (Free :: p), n, q. simpl. split_and!; [done|lia|done].
      * right. split; [done|]. replace (i - pos)%nat with (S (i - S pos)) by lia. done.
  - rewrite length_app, length_replicate in Hpos. destruct (decide (i = pos)) as [->|Hne].
    + left. exists [], m, l. simpl. split_and!; [done|lia|by left].
    + destruct (decide (i < pos + m)%nat) as [Hlt|Hge].
      * right. split.
        { intros n [[= ? ?]|H%blocks_bounds]%elem_of_cons; [done| |done]. lia. }
        replace (i - pos)%nat with (S (i - pos - 1)) by lia. simpl.
        rewrite lookup_app_l by (rewrite length_replicate; lia). apply lookup_replicate_2. lia.
      * destruct (IH (pos + m)%nat ltac:(lia)) as [(p & n & q & -> & Hip & Hin)|[Hno Hc]].
        { left. exists (Used m :: p), n, q. simpl. rewrite length_app, length_replicate.
          split_and!; [done|lia|by right]. }
        right. split; [intros n [[= ? ?]|?]%elem_of_cons; [done|by eapply Hno]|].
        replace (i - pos)%nat with (S (i - pos - 1)) by lia. simpl.
        rewrite lookup_app_r by (rewrite length_replicate; lia). rewrite length_replicate.
        replace (i - pos - 1 - (m - 1))%nat with (i - (pos + m))%nat by lia. done.
Qed.

(** [dealloc] frees exactly the block whose first step the pointer hits:
    the live blocks lose it and nothing else.  On any other step of the heap it
    panics. *)
Theorem heap_dealloc_checks h segs i r :
  repr h segs → (i < STEPS)%nat → 0 ≤ r < ALLOC_STEPS →
  let ptr := HEAP_START + Z.of_nat i * ALLOC_STEPS + r in
  (∃ n h' segs', (i, n) ∈ blocks 0 segs ∧ dealloc h ptr = Ret h' ∧ repr h' segs'
     ∧ blocks 0 segs ≡ₚ (i, n) :: blocks 0 segs')
  ∨ ((∀ n, (i, n) ∉ blocks 0 segs) ∧ dealloc h ptr = Panic Explicit).
Proof.
  intros Hr Hi Hr0 ptr. pose proof Hr as (Ha & Hok & Hlen & Hs).
  rewrite Ha in Hlen.
  destruct (locate i 0%nat segs Hok ltac:(lia)) as [(p & n & q & Hsegs & Hip & Hin)|[Hno Hc]].
  - left. simpl in Hip. rewrite Hsegs in Hr. destruct (dealloc_block h p n q r Hr Hr0) as (h' & Hd & Hr').
    exists n, h', (p ++ free_run n ++ q). unfold ptr. rewrite Hip. split_and!; [by rewrite <- Hip|done..|].
    rewrite Hsegs. apply blocks_used. rewrite Hsegs in Hok. by apply Forall_app in Hok as [? _].
  - right. split; [done|]. rewrite Nat.sub_0_r in Hc. unfold dealloc, ptr. rewrite Hs.
    unfold ALLOC_STEPS in *. rewrite usub_Ret by lia. simpl mbind.
    replace (HEAP_START + Z.of_nat i * 16 + r - HEAP_START) with (Z.of_nat i * 16 + r) by lia.
    rewrite Z.div_add_l, Z.div_small, Z.add_0_r, Nat2Z.id by lia.
    unfold index. rewrite Ha, Hc. done.
Qed.

Lemma heap_dealloc_checks_witness : dealloc (new HEAP_START) (HEAP_START + Z.of_nat 5 * ALLOC_STEPS + 0) = Panic Explicit.
Proof.
  destruct (heap_dealloc_checks (new HEAP_START) (free_run STEPS) 5 0) as [(n & h' & s' & Hin & _)|[_ H]].
  - exact new_repr.
  - pose proof STEPS_val. lia.
  - done.
  - rewrite blocks_free in Hin. by apply elem_of_nil in Hin.
  - exact H.
Defined.

(** *** [realloc] *)
Lemma copy_cases m src dst n :
  src ≠ 0 → dst ≠ 0 → 0 ≤ n →
  if decide (src < dst + n ∧ dst < src + n) then copy_nonoverlapping m src dst n = Panic Undefined
  else ∃ m', copy_nonoverlapping m src dst n = Ret m'
    ∧ ∀ a, m' !! a = if decide (dst ≤ a < dst + n) then m !! (src + (a - dst)) else m !! a.
Proof.
  intros Hs Hd Hn. unfold copy_nonoverlapping.
  rewrite (proj2 (Z.eqb_neq src 0)), (proj2 (Z.eqb_neq dst 0)) by done. simpl.
  case_decide as Ho.
  - by rewrite !(proj2 (Z.ltb_lt _ _)) by lia.
  - assert ((src <? dst + n) && (dst <? src + n) = false) as -> by (zcase; simpl; lia).
    eexists. split; [done|]. intros a. rewrite lookup_copy, Z2Nat.id by done. done.
Qed.

Lemma shrink_block h p n k q :
  repr h (p ++ Used n :: q) → (1 ≤ k < n)%nat →
  repr {| arr := <[length (render p) := Some (Z.of_nat k)]> (arr h); heap_start := heap_start h |}
       (p ++ Used k :: free_run (n - k) ++ q).
Proof.
  intros (Ha & Hok & Hl & Hs) Hk. apply Forall_app in Hok as [Hp [Hn Hq]%Forall_cons]. simpl in Hn.
  assert (<[length (render p) := Some (Z.of_nat k)]> (arr h) = render (p ++ Used k :: free_run (n - k) ++ q)) as Hr.
  { rewrite Ha, !render_app. rewrite insert_app_r_alt by lia. rewrite Nat.sub_diag. f_equal.
    cbn [render cells]. rewrite render_app, render_free. simpl. f_equal.
    rewrite app_assoc, <- replicate_add. do 2 f_equal. lia. }
  split; [done|]. split_and!; simpl; [| |done].
  - apply Forall_app. split; [done|]. apply Forall_cons. split; [simpl; lia|].
    apply Forall_app. split; [by apply Forall_replicate|done].
  - by rewrite length_insert.
Qed.

(** A block of [n] steps at [address p] is reallocated to [k] steps. *)
Definition realloc_result (h : FixedSizeBlockAllocator) (m : memory) (l : Layout) (p q : list seg)
    (n k : nat) (r : run (Z * FixedSizeBlockAllocator * memory)) : Prop :=
  if decide (k ≤ n)%nat then
    ∃ h', r = Ret (address p, h', m) ∧ repr h' (p ++ Used k :: free_run (n - k) ++ q)
  else
    (¬ has_room k (p ++ free_run n ++ q) ∧ r = Panic Undefined)
    ∨ ∃ p' q' h', p ++ free_run n ++ q = p' ++ free_run k ++ q' ∧ repr h' (p' ++ Used k :: q')
        ∧ if decide (address p' = address p) then r = Ret (address p, h', m)
          else if decide (address p < address p' + l_size l ∧ address p' < address p + l_size l)
          then r = Panic Undefined
          else ∃ m', r = Ret (address p', h', m')
                 ∧ ∀ a, m' !! a = if decide (address p' ≤ a < address p' + l_size l)
                                  then m !! (address p + (a - address p')) else m !! a.

(** [realloc] of a live block of [n] steps whose layout matches it.
    Shrinking or keeping the size keeps the pointer and frees the tail.  Growing
    frees the block and takes the first fit: if that is the old place nothing is
    copied; if it does not overlap the old block, the old contents are at the new
    address and no other byte changes.  If it overlaps the old block, or if no
    place is found (the copy then goes to the null pointer), the call is undefined
    behaviour of [copy_nonoverlapping]. *)
Theorem heap_realloc_cases h m p n q l a new_size k :
  repr h (p ++ Used n :: q) → needed_size l = Ret (Z.of_nat n * ALLOC_STEPS) →
  0 < l_size l < 2 ^ 63 → l_align l = 2 ^ a →
  padded new_size ALLOC_STEPS = Ret (Z.of_nat k * ALLOC_STEPS) → (0 < k)%nat →
  Z.of_nat k * ALLOC_STEPS < 2 ^ 63 →
  realloc_result h m l p q n k (realloc h m (address p) l new_size).
Proof.
  intros Hr Hn Hsz Ha Hk Hk0 Hkb. pose proof Hr as (Har & Hok & Hl & Hs).
  assert (1 ≤ Z.of_nat n < 2 ^ 16) as Hnn.
  { apply Forall_app in Hok as [_ [Hn' _]%Forall_cons]. exact Hn'. }
  assert (usub (address p) (heap_start h) = Ret (Z.of_nat (length (render p)) * ALLOC_STEPS)) as Hoff.
  { rewrite Hs. destruct (block_index p 0 ltac:(done)) as [H _]. by rewrite !Z.add_0_r in H. }
  unfold realloc_result, realloc. rewrite Hoff. simpl mbind. rewrite Hk. simpl mbind. rewrite Hn. simpl mbind.
  rewrite Z.div_mul, Nat2Z.id by done.
  destruct (Z.compare_spec (Z.of_nat n * ALLOC_STEPS) (Z.of_nat k * ALLOC_STEPS)) as [He|Hlt|Hgt];
    unfold ALLOC_STEPS in *.
  - assert (k = n) as -> by lia. rewrite decide_True, Nat.sub_diag by lia. by exists h.
  - rewrite decide_False by lia.
    destruct (dealloc_block h p n q 0 Hr ltac:(done)) as (h1 & Hd & Hr1). rewrite Z.add_0_r in Hd.
    rewrite Hd. simpl mbind.
    assert (needed_size (mkLayout (Z.of_nat k * 16) 16) = Ret (Z.of_nat k * 16)) as Hnk.
    { unfold needed_size. cbn [l_size l_align]. change (Z.max 16 ALLOC_STEPS) with 16.
      unfold padded, umax. change (is_power_of_two 16) with true.
      rewrite (proj2 (Z.leb_le _ _)) by lia. simpl andb. cbn iota.
      f_equal. replace (Z.of_nat k * 16 + 16 - 1) with (Z.of_nat k * 16 + 15) by lia.
      by rewrite Z.div_add_l, Z.div_small, Z.add_0_r by lia. }
    destruct (alloc_cases h1 _ k _ Hr1 Hnk Hk0) as [[Hal Hno]|(p' & q' & h' & Hsegs & Hal & Hr')];
      rewrite Hal; cbn [mbind run_bind].
    + left. split; [done|]. rewrite (proj2 (Z.eqb_neq 0 (address p)))
        by (unfold address, HEAP_START, ALLOC_STEPS; lia).
      unfold copy_nonoverlapping. by rewrite orb_true_r.
    + right. exists p', q', h'. split_and!; [done..|].
      destruct (Z.eqb_spec (address p') (address p)) as [Heq|Hne].
      { rewrite decide_True by done. by rewrite Heq. }
      rewrite decide_False by done.
      pose proof (copy_cases m (address p) (address p') (l_size l)) as Hc.
      case_decide; simpl mbind.
      * rewrite Hc; [done|unfold address, HEAP_START, ALLOC_STEPS; lia..].
      * destruct Hc as (m' & -> & Hm'); [unfold address, HEAP_START, ALLOC_STEPS; lia..|].
        by exists m'.
  - rewrite decide_True by lia. rewrite Z.div_mul by lia.
    rewrite (proj2 (Z.ltb_lt _ _)) by lia. simpl mbind.
    rewrite store_Ret by (rewrite Har, render_app, length_app; simpl; lia). simpl mbind.
    eexists. split; [done|]. apply shrink_block; [done|lia].
Qed.

Lemma one_block_repr : ∃ h p q, alloc (new HEAP_START) (mkLayout 48 8) = Ret (address p, h) ∧ repr h (p ++ Used 3 :: q).
Proof.
  destruct (alloc_cases (new HEAP_START) (mkLayout 48 8) 3 (free_run STEPS) new_repr)
    as [[_ H]|(p & q & h' & _ & Hal & Hr)]; [done|lia|by destruct (H (room_in_new 3 ltac:(lia)))|].
  by exists h', p, q.
Qed.

Lemma heap_realloc_cases_witness :
  ∃ h p h' segs', realloc h ∅ (address p) (mkLayout 48 8) 10 = Ret (address p, h', ∅) ∧ repr h' segs'.
Proof.
  destruct one_block_repr as (h & p & q & _ & Hr).
  pose proof (heap_realloc_cases h ∅ p 3 q (mkLayout 48 8) 3 10 1 Hr) as H.
  unfold realloc_result in H. destruct H as (h' & H & Hr').
  - done.
  - cbn. lia.
  - done.
  - done.
  - lia.
  - done.
  - by eexists h, p, h', _.
Defined.

(** [num_bytes_allocated] adds up steps, not bytes. *)
Lemma num_bytes_counts_steps :
  ∀ l, num_bytes_allocated {| arr := render l; heap_start := HEAP_START |}
       = foldr (λ s c, match s with Free => c | Used n => Z.of_nat n + c end) 0 l.
Proof.
  intros l. unfold num_bytes_allocated. simpl.
  assert (∀ n (c : Z), foldl (λ count val, match val with Some v => count + v | None => count end) c
                       (replicate n (@None Z)) = c) as Hnone by (induction n; simpl; auto).
  assert (∀ c, foldl (λ count val, match val with Some v => count + v | None => count end) c (render l)
    = c + foldr (λ s c, match s with Free => c | Used n => Z.of_nat n + c end) 0 l) as H.
  { induction l as [|s l IH]; intros c; simpl; [lia|]. rewrite foldl_app.
    destruct s as [|n]; simpl; rewrite ?Hnone, IH; lia. }
  apply H.
Qed.

(** A block that can grow downwards is copied onto itself. *)
Definition grow_down : FixedSizeBlockAllocator :=
  {| arr := [None; Some 2; None; None; Some 1]; heap_start := HEAP_START |}.
Lemma realloc_overlaps : realloc grow_down ∅ (HEAP_START + 16) (mkLayout 32 8) 48 = Panic Undefined.
Proof. by vm_compute. Qed.

(** [alloc] pads the size to the alignment but does not align the block. *)
Lemma alloc_ignores_alignment :
  ∃ h, alloc {| arr := [Some 1; None; None; None; None]; heap_start := HEAP_START |} (mkLayout 64 64)
       = Ret (HEAP_START + 16, h) ∧ (HEAP_START + 16) mod 64 ≠ 0.
Proof.
  exists {| arr := [Some 1; Some 4; None; None; None]; heap_start := HEAP_START |}.
  split; [by vm_compute|done].
Qed.
End Heap.
