(* ===== verification/Bytes.v ===== *)
(** * Bytes in memory

    Little endian integers, the fields of packed structs, and memory that holds a list of
    bytes: what the parsers of the ACPI tables and of the multiboot2 information share. *)
From S2P Require Import Prelude.

Module Bytes.

(** [from_le_bytes]. *)
Fixpoint le (l : list Z) : Z := match l with [] => 0 | b :: l' => b + 256 * le l' end.
(** The [n]-byte field at offset [i] of a struct. *)
Definition field (b : list Z) (i n : nat) : Z := le (take n (drop i b)).

(** Memory is a function from addresses to bytes; [read_phys] of an integer type of [n] bytes. *)
Definition read_bytes (mem : Z → Z) (a : Z) (n : nat) : list Z := mem <$> seqZ a (Z.of_nat n).
Definition read_uint (mem : Z → Z) (a : Z) (n : nat) : Z := le (read_bytes mem a n).
(** The wrapping sum of bytes, as a fold. *)
Definition byte_sum (l : list Z) : Z := foldl (λ acc b, wrapping_add 8 acc b) 0 l.

(** ** Bytes in memory *)
Definition holds (mem : Z → Z) (a : Z) (bs : list Z) : Prop :=
  ∀ i b, bs !! i = Some b → mem (a + Z.of_nat i) = b.
Definition bytes (l : list Z) : Prop := Forall (λ b, 0 ≤ b < 256) l.
(** [v] as [n] bytes, little endian. *)
Fixpoint le_bytes (n : nat) (v : Z) : list Z :=
  match n with O => [] | S n' => v mod 256 :: le_bytes n' (v / 256) end.

Lemma length_le_bytes n v : length (le_bytes n v) = n.
Proof. revert v. induction n; intros v; simpl; [done|]. by rewrite IHn. Qed.
Lemma le_le_bytes n v : 0 ≤ v < 2 ^ (8 * Z.of_nat n) → le (le_bytes n v) = v.
Proof.
  revert v. induction n as [|n IH]; intros v Hv; simpl; [change (2 ^ (8 * Z.of_nat 0)) with 1 in Hv; lia|].
  replace (8 * Z.of_nat (S n)) with (8 + 8 * Z.of_nat n) in Hv by lia. rewrite Z.pow_add_r in Hv by lia.
  change (2 ^ 8) with 256 in Hv. rewrite IH.
  - pose proof (Z.div_mod v 256 ltac:(lia)). lia.
  - split; [apply Z.div_pos; lia|]. apply Z.div_lt_upper_bound; lia.
Qed.
Lemma field_take m b i n : (i + n ≤ m)%nat → field (take m b) i n = field b i n.
Proof.
  intros H. unfold field. f_equal. rewrite skipn_firstn_comm, take_take. f_equal. lia.
Qed.

Lemma length_read_bytes mem a n : length (read_bytes mem a n) = n.
Proof. unfold read_bytes. rewrite length_fmap, length_seqZ. lia. Qed.
Lemma read_bytes_holds mem a bs n : holds mem a bs → (n ≤ length bs)%nat → read_bytes mem a n = take n bs.
Proof.
  intros Hh Hn. apply list_eq_same_length with n; [by rewrite length_take_le|by rewrite length_read_bytes|].
  intros i x y Hi Hx Hy. unfold read_bytes in Hx. rewrite list_lookup_fmap, lookup_seqZ_lt in Hx by lia.
  injection Hx as <-. rewrite lookup_take_lt in Hy by lia. by apply Hh.
Qed.
Lemma holds_app mem a b1 b2 : holds mem a (b1 ++ b2) ↔ holds mem a b1 ∧ holds mem (a + Z.of_nat (length b1)) b2.
Proof.
  unfold holds. split.
  - intros H. split.
    + intros i b Hi. apply H. by apply lookup_app_l_Some.
    + intros i b Hi. replace (a + Z.of_nat (length b1) + Z.of_nat i) with (a + Z.of_nat (length b1 + i)) by lia.
      apply H. rewrite lookup_app_r by lia. by replace (length b1 + i - length b1)%nat with i by lia.
  - intros [H1 H2] i b [Hi|[Hi Hi']]%lookup_app_Some; [by apply H1|].
    apply H2 in Hi'. rewrite <- Hi'. f_equal. lia.
Qed.
Lemma read_uint_holds mem a bs i n :
  holds mem a bs → (i + n ≤ length bs)%nat → read_uint mem (a + Z.of_nat i) n = field bs i n.
Proof.
  intros Hh Hn. unfold read_uint, field. f_equal. rewrite <- (take_drop i bs), holds_app in Hh. destruct Hh as [_ Hh].
  rewrite length_take_le in Hh by lia. apply read_bytes_holds; [done|]. rewrite length_drop. lia.
Qed.

Lemma le_nonneg l : bytes l → 0 ≤ le l.
Proof. induction 1; simpl; lia. Qed.
Definition byte_memory (mem : Z → Z) : Prop := ∀ a, 0 ≤ mem a < 256.
Lemma read_uint_nonneg mem a n : byte_memory mem → 0 ≤ read_uint mem a n.
Proof.
  intros Hm. apply le_nonneg. unfold bytes, read_bytes. apply Forall_fmap, Forall_forall. intros i _. apply Hm.
Qed.
Lemma bytes_le_bytes n v : bytes (le_bytes n v).
Proof. revert v. induction n; intros v; simpl; constructor; [apply Z.mod_pos_bound; lia|apply IHn]. Qed.
(** The fields of an encoded struct. *)
Lemma field_byte (l : list Z) i b : l !! i = Some b → field l i 1 = b.
Proof.
  intros H. unfold field. rewrite (drop_S l b i H). simpl. lia.
Qed.
Lemma field_le_bytes pre n v post :
  0 ≤ v < 2 ^ (8 * Z.of_nat n) → field (pre ++ le_bytes n v ++ post) (length pre) n = v.
Proof.
  intros Hv. unfold field. rewrite drop_app_length, take_app_length'; [by apply le_le_bytes|by rewrite length_le_bytes].
Qed.

Lemma take_read_bytes mem a n k : (k ≤ n)%nat → take k (read_bytes mem a n) = read_bytes mem a k.
Proof.
  intros H. unfold read_bytes. rewrite <- fmap_take. f_equal. unfold seqZ. rewrite <- fmap_take, take_seq. do 2 f_equal. lia.
Qed.
(** Memory that holds [bs] at [a] and zeros elsewhere. *)
Definition mem_of (a : Z) (bs : list Z) (x : Z) : Z :=
  if (a <=? x) && (x <? a + Z.of_nat (length bs)) then default 0 (bs !! Z.to_nat (x - a)) else 0.
Lemma mem_of_holds a bs : holds (mem_of a bs) a bs.
Proof.
  intros i b Hi. unfold mem_of. pose proof (lookup_lt_Some _ _ _ Hi).
  rewrite (proj2 (Z.leb_le _ _)), (proj2 (Z.ltb_lt _ _)) by lia. simpl. replace (a + Z.of_nat i - a) with (Z.of_nat i) by lia.
  by rewrite Nat2Z.id, Hi.
Qed.
Lemma mem_of_bytes a bs : bytes bs → byte_memory (mem_of a bs).
Proof.
  intros Hb x. unfold mem_of. destruct ((a <=? x) && _); [|lia]. destruct (bs !! _) as [b|] eqn:E; simpl; [|lia].
  eapply Forall_lookup_1 in Hb; [|exact E]. done.
Qed.
(** [mem] with [bs] written at [a]. *)
Definition overlay (a : Z) (bs : list Z) (mem : Z → Z) (x : Z) : Z :=
  if (a <=? x) && (x <? a + Z.of_nat (length bs)) then default 0 (bs !! Z.to_nat (x - a)) else mem x.
Lemma overlay_bytes a bs mem : bytes bs → byte_memory mem → byte_memory (overlay a bs mem).
Proof.
  intros Hb Hm x. unfold overlay. destruct ((a <=? x) && _); [|apply Hm]. destruct (bs !! _) as [b|] eqn:E; simpl; [|lia].
  eapply Forall_lookup_1 in Hb; [|exact E]. done.
Qed.
End Bytes.
