(* ===== verification/Addr.v ===== *)
(** * crates/x86_64/src/addr.rs: virtual and physical addresses

    [VirtAddr] and [PhysAddr] wrap a u64; both are modelled by the u64 itself.
    [canonical] and [physical] are the invariants their documentation promises. *)
From S2P Require Import Prelude.

Module Addr.

(** The [BitField] trait of the bit_field crate, for u64, by its documentation: [get_bits(lo..hi)]
    returns the bits of the range, [set_bits(lo..hi, v)] replaces them and panics
    if [v] does not fit. *)
Class BitField := {
  get_bits : Z → Z → Z → Z;
  set_bits : Z → Z → Z → Z → run Z;
  get_bits_spec a lo hi :
    0 ≤ lo < hi ∧ hi ≤ 64 → in_width 64 a → get_bits a lo hi = a / 2 ^ lo mod 2 ^ (hi - lo);
  set_bits_spec a lo hi v :
    0 ≤ lo < hi ∧ hi ≤ 64 → in_width 64 a → 0 ≤ v →
    if decide (v < 2 ^ (hi - lo)) then
      ∃ b, set_bits a lo hi v = Ret b ∧ 0 ≤ b
        ∧ ∀ i, 0 ≤ i → Z.testbit b i = if decide (lo ≤ i < hi) then Z.testbit v (i - lo) else Z.testbit a i
    else set_bits a lo hi v = Panic AssertFailed
}.

Section bit_field.
Context {BF : BitField}.

(** ** [align_down] and [align_up] *)
Definition align_down (addr align : Z) : run Z :=
  _ ← rust_assert (is_power_of_two align);
  Ret (Z.land addr (unot 64 (align - 1))).

Definition align_up (addr align : Z) : run Z :=
  _ ← rust_assert (is_power_of_two align);
  let align_mask := align - 1 in
  if Z.land addr align_mask =? 0 then Ret addr
  else uadd 64 (Z.lor addr align_mask) 1.

Definition is_aligned (addr align : Z) : run bool :=
  d ← align_down addr align; Ret (d =? addr).

(** ** [VirtAddr] *)
(** [((addr << 16) as i64 >> 16) as u64]. *)
Definition virt_new_truncate (addr : Z) : Z :=
  let shifted := ushl 64 addr 16 in
  let signed := if shifted <? 2 ^ 63 then shifted else shifted - 2 ^ 64 in
  cast 64 (Z.shiftr signed 16).

Definition virt_try_new (addr : Z) : result Z Z :=
  let bits := get_bits addr 47 64 in
  if (bits =? 0) || (bits =? 0x1ffff) then Ok addr
  else if bits =? 1 then Ok (virt_new_truncate addr)
  else Err bits.

Definition virt_new (addr : Z) : run Z :=
  match virt_try_new addr with Ok v => Ret v | Err _ => Panic Unwrap end.
Definition virt_zero : Z := 0.
Definition virt_is_null (a : Z) : bool := a =? 0.
Definition virt_from_ptr (ptr : Z) : run Z := virt_new ptr.
Definition virt_align_up (a align : Z) : run Z := align_up a align.
Definition virt_align_down (a align : Z) : run Z := align_down a align.
Definition virt_is_aligned (a align : Z) : run bool := is_aligned a align.

Definition virt_add (a rhs : Z) : run Z := s ← uadd 64 a rhs; virt_new s.
Definition virt_sub (a rhs : Z) : run Z := d ← unwrap (checked_sub a rhs); virt_new d.
Definition virt_diff (a b : Z) : run Z := unwrap (checked_sub a b).

(** 9-bit table indices and the 12-bit offset: [index as u16 % 512], [offset % 4096]. *)
Definition index_new_truncate (i : Z) : Z := cast 16 i mod 512.
Definition offset_new_truncate (o : Z) : Z := cast 16 o mod 4096.
Definition index_new (i : Z) : run Z := _ ← rust_assert (i <? 512); Ret i.
Definition offset_new (o : Z) : run Z := _ ← rust_assert (o <? 4096); Ret o.

Definition page_offset (a : Z) : Z := offset_new_truncate a.
Definition p1_index (a : Z) : Z := index_new_truncate (Z.shiftr a 12).
Definition p2_index (a : Z) : Z := index_new_truncate (Z.shiftr (Z.shiftr a 12) 9).
Definition p3_index (a : Z) : Z := index_new_truncate (Z.shiftr (Z.shiftr (Z.shiftr a 12) 9) 9).
Definition p4_index (a : Z) : Z :=
  index_new_truncate (Z.shiftr (Z.shiftr (Z.shiftr (Z.shiftr a 12) 9) 9) 9).

Inductive PageTableLevel := One | Two | Three | Four.
Definition level_number (l : PageTableLevel) : Z :=
  match l with One => 1 | Two => 2 | Three => 3 | Four => 4 end.
Definition next_lower_level (l : PageTableLevel) : option PageTableLevel :=
  match l with Four => Some Three | Three => Some Two | Two => Some One | One => None end.
Definition table_address_space_alignment (l : PageTableLevel) : Z :=
  Z.shiftl 1 (level_number l * 9 + 12).
Definition entry_address_space_alignment (l : PageTableLevel) : Z :=
  Z.shiftl 1 ((level_number l - 1) * 9 + 12).
Definition page_table_index (a : Z) (l : PageTableLevel) : Z :=
  index_new_truncate (Z.shiftr (Z.shiftr a 12) ((level_number l - 1) * 9)).

(** ** [PhysAddr] *)
Definition phys_new (addr : Z) : run Z :=
  _ ← rust_assert (get_bits addr 52 64 =? 0); Ret addr.
Definition phys_new_truncate (addr : Z) : Z := addr mod Z.shiftl 1 52.
Definition phys_try_new (addr : Z) : result Z Z :=
  let bits := get_bits addr 52 64 in if bits =? 0 then Ok addr else Err bits.
Definition phys_is_null (a : Z) : bool := a =? 0.
Definition phys_align_up (a align : Z) : run Z := align_up a align.
Definition phys_align_down (a align : Z) : run Z := align_down a align.
Definition phys_is_aligned (a align : Z) : run bool := is_aligned a align.
Definition phys_add (a rhs : Z) : run Z := s ← uadd 64 a rhs; phys_new s.
Definition phys_sub (a rhs : Z) : run Z := d ← unwrap (checked_sub a rhs); phys_new d.
Definition phys_diff (a b : Z) : run Z := unwrap (checked_sub a b).

(** ** Specification *)
Definition canonical (a : Z) : Prop := 0 ≤ a < 2 ^ 47 ∨ 2 ^ 64 - 2 ^ 47 ≤ a < 2 ^ 64.
Definition physical (a : Z) : Prop := 0 ≤ a < 2 ^ 52.
#[global] Instance canonical_dec a : Decision (canonical a).
Proof. unfold canonical. apply _. Defined.

Lemma get_bits_top a lo : 0 ≤ lo < 64 → in_width 64 a → get_bits a lo 64 = a / 2 ^ lo.
Proof.
  intros Hlo Ha. rewrite get_bits_spec by (done || lia). apply Z.mod_small. pose proof (pow2_pos lo ltac:(lia)).
  unfold_width. split; [apply Z.div_pos; lia|]. apply Z.div_lt_upper_bound; [done|].
  rewrite <- Z.pow_add_r by lia. replace (lo + (64 - lo)) with 64 by lia. lia.
Qed.

(** Writing a field above which nothing is set yet. *)
Lemma set_bits_low a lo hi v :
  0 ≤ lo < hi → hi ≤ 64 → in_width 64 a → a mod 2 ^ hi = 0 → 0 ≤ v < 2 ^ (hi - lo) →
  set_bits a lo hi v = Ret (a + v * 2 ^ lo).
Proof.
  intros Hlo Hhi Ha Hm Hv. pose proof (set_bits_spec a lo hi v (conj Hlo Hhi) Ha (proj1 Hv)) as Hs.
  rewrite decide_True in Hs by lia. destruct Hs as (b & -> & Hb & Hbits). f_equal.
  assert (in_width hi (Z.shiftl v lo)) as Hw.
  { rewrite Z.shiftl_mul_pow2 by lia. unfold_width. pose proof (pow2_pos lo ltac:(lia)).
    replace (2 ^ hi) with (2 ^ (hi - lo) * 2 ^ lo) by (rewrite <- Z.pow_add_r by lia; f_equal; lia). nia. }
  rewrite <- Z.shiftl_mul_pow2, <- (lor_disjoint a (Z.shiftl v lo) hi) by (done || lia).
  apply Z.bits_inj'. intros i Hi. rewrite Hbits, Z.lor_spec, Z.shiftl_spec by done. case_decide as Hr.
  - rewrite <- (Z.mod_pow2_bits_low a hi), Hm, Z.testbit_0_l by lia. done.
  - destruct (decide (i < lo)); [rewrite (Z.testbit_neg_r v) by lia; by rewrite orb_false_r|].
    rewrite (testbit_above (hi - lo) v) by (done || lia). by rewrite orb_false_r.
Qed.

Lemma align_down_spec addr k :
  in_width 64 addr → 0 ≤ k < 64 → align_down addr (2 ^ k) = Ret (addr - addr mod 2 ^ k).
Proof.
  intros Ha Hk. unfold align_down, rust_assert.
  assert (is_power_of_two (2 ^ k) = true) as -> by (apply is_power_of_two_spec; exists k; lia).
  simpl. by rewrite land_not_mask by (unfold_width; auto; lia).
Qed.

Lemma align_down_bounds addr k : 0 ≤ k →
  let r := addr - addr mod 2 ^ k in r mod 2 ^ k = 0 ∧ r ≤ addr < r + 2 ^ k.
Proof.
  intros Hk r. pose proof (pow2_pos k Hk). pose proof (Z.mod_pos_bound addr (2 ^ k) ltac:(lia)).
  unfold r. split; [|lia]. rewrite Zminus_mod_idemp_r, Z.sub_diag. apply Z.mod_0_l. lia.
Qed.

Lemma lor_mask addr k : 0 ≤ k → 0 ≤ addr →
  Z.lor addr (2 ^ k - 1) = addr - addr mod 2 ^ k + (2 ^ k - 1).
Proof.
  intros Hk Ha. pose proof (align_down_bounds addr k Hk) as [Hm _]. pose proof (pow2_pos k Hk).
  rewrite <- (lor_disjoint (addr - addr mod 2 ^ k) (2 ^ k - 1) k) by (try done; unfold_width; lia).
  apply Z.bits_inj'. intros n Hn. rewrite !Z.lor_spec.
  replace (2 ^ k - 1) with (Z.ones k) by (rewrite Z.ones_equiv; lia).
  destruct (decide (n < k)).
  - rewrite Z.ones_spec_low by lia. by rewrite !orb_true_r.
  - rewrite Z.ones_spec_high by lia. rewrite !orb_false_r.
    rewrite <- shiftr_shiftl_mod by done. rewrite Z.shiftl_spec, Z.shiftr_spec by lia. f_equal. lia.
Qed.

Lemma align_up_spec addr k :
  in_width 64 addr → 0 ≤ k < 64 →
  align_up addr (2 ^ k) =
    if decide (addr mod 2 ^ k = 0) then Ret addr
    else if decide (addr - addr mod 2 ^ k + 2 ^ k < 2 ^ 64) then Ret (addr - addr mod 2 ^ k + 2 ^ k)
    else Panic Overflow.
Proof.
  intros Ha Hk. unfold align_up, rust_assert.
  assert (is_power_of_two (2 ^ k) = true) as -> by (apply is_power_of_two_spec; exists k; lia).
  simpl. rewrite land_mask by lia. unfold_width. rewrite lor_mask by lia.
  destruct (Z.eqb_spec (addr mod 2 ^ k) 0); case_decide; try done.
  unfold uadd. replace (addr - addr mod 2 ^ k + (2 ^ k - 1) + 1) with (addr - addr mod 2 ^ k + 2 ^ k) by lia.
  zcase; case_decide; try done; lia.
Qed.

(** Sign extension of the low 48 bits. *)
Definition sign_extend (a : Z) : Z :=
  let b := a mod 2 ^ 48 in if b <? 2 ^ 47 then b else b + (2 ^ 64 - 2 ^ 48).

Lemma virt_new_truncate_spec a : virt_new_truncate a = sign_extend a.
Proof.
  unfold virt_new_truncate, sign_extend, ushl, cast. rewrite Z.shiftl_mul_pow2 by lia.
  assert ((a * 2 ^ 16) mod 2 ^ 64 = a mod 2 ^ 48 * 2 ^ 16) as ->
    by (change (2 ^ 64) with (2 ^ 48 * 2 ^ 16); apply Zmult_mod_distr_r).
  pose proof (Z.mod_pos_bound a (2 ^ 48) ltac:(lia)). set (b := a mod 2 ^ 48) in *.
  destruct (Z.ltb_spec (b * 2 ^ 16) (2 ^ 63)), (Z.ltb_spec b (2 ^ 47)); try lia.
  - rewrite Z.shiftr_div_pow2, Z.div_mul by lia. apply Z.mod_small. lia.
  - replace (b * 2 ^ 16 - 2 ^ 64) with ((b - 2 ^ 48) * 2 ^ 16) by lia.
    rewrite Z.shiftr_div_pow2, Z.div_mul by lia.
    replace (b - 2 ^ 48) with (b + (2 ^ 64 - 2 ^ 48) + (-1) * 2 ^ 64) by lia.
    rewrite Z_mod_plus_full. apply Z.mod_small. lia.
Qed.

Lemma sign_extend_canonical a : canonical (sign_extend a).
Proof.
  unfold sign_extend, canonical. pose proof (Z.mod_pos_bound a (2 ^ 48) ltac:(lia)). zcase; lia.
Qed.
Lemma sign_extend_low a : sign_extend a mod 2 ^ 48 = a mod 2 ^ 48.
Proof.
  unfold sign_extend. zcase; [apply Z.mod_mod; lia|].
  replace (2 ^ 64 - 2 ^ 48) with ((2 ^ 16 - 1) * 2 ^ 48) by lia. rewrite Z_mod_plus_full. apply Z.mod_mod. lia.
Qed.
Lemma sign_extend_id a : canonical a → sign_extend a = a.
Proof.
  intros [Ha|Ha]; unfold sign_extend.
  - rewrite Z.mod_small by lia. zcase; lia.
  - assert (a mod 2 ^ 48 = a - (2 ^ 64 - 2 ^ 48)) as ->; [|zcase; lia].
    symmetry. apply (Z.mod_unique_pos _ _ (2 ^ 16 - 1)); lia.
Qed.

Lemma sign_extend_upper a : 2 ^ 47 ≤ a < 2 ^ 48 → sign_extend a = a + (2 ^ 64 - 2 ^ 48).
Proof. intros Ha. unfold sign_extend. rewrite Z.mod_small by lia. zcase; lia. Qed.

Lemma virt_try_new_spec a :
  in_width 64 a →
  virt_try_new a = if decide (canonical a ∨ 2 ^ 47 ≤ a < 2 ^ 48) then Ok (sign_extend a)
                   else Err (a / 2 ^ 47).
Proof.
  intros Ha. unfold virt_try_new. rewrite virt_new_truncate_spec.
  rewrite (get_bits_top a 47) by (try lia; done).
  pose proof (Z.div_mod a (2 ^ 47) ltac:(lia)). pose proof (Z.mod_pos_bound a (2 ^ 47) ltac:(lia)).
  unfold_width.
  destruct (Z.eqb_spec (a / 2 ^ 47) 0); [|destruct (Z.eqb_spec (a / 2 ^ 47) 0x1ffff)]; simpl.
  - rewrite decide_True by (unfold canonical; lia). by rewrite sign_extend_id by (unfold canonical; lia).
  - rewrite decide_True by (unfold canonical; lia). by rewrite sign_extend_id by (unfold canonical; lia).
  - destruct (Z.eqb_spec (a / 2 ^ 47) 1); [rewrite decide_True by lia; done|].
    rewrite decide_False; [done|]. unfold canonical. lia.
Qed.

Lemma virt_new_canonical a : in_width 64 a → canonical a → virt_new a = Ret a.
Proof.
  intros Hw Ha. unfold virt_new. rewrite virt_try_new_spec by done.
  rewrite decide_True by tauto. by rewrite sign_extend_id.
Qed.

Lemma canonical_width a : canonical a → in_width 64 a.
Proof. unfold canonical, in_width. lia. Qed.

Lemma phys_new_spec a : in_width 64 a → phys_new a = if decide (physical a) then Ret a else Panic AssertFailed.
Proof.
  intros Ha. unfold phys_new, rust_assert. rewrite get_bits_top by (try lia; done).
  pose proof (Z.div_mod a (2 ^ 52) ltac:(lia)). pose proof (Z.mod_pos_bound a (2 ^ 52) ltac:(lia)).
  unfold physical in *. unfold_width.
  destruct (Z.eqb_spec (a / 2 ^ 52) 0); simpl; case_decide; try done; lia.
Qed.
Lemma phys_new_Ret a : 0 ≤ a < 2 ^ 52 → phys_new a = Ret a.
Proof. intros Ha. rewrite phys_new_spec by (unfold in_width; lia). by rewrite decide_True. Qed.

(** *** Table indices *)
Lemma truncate_mod i k : 0 ≤ k ≤ 16 → cast 16 i mod 2 ^ k = i mod 2 ^ k.
Proof.
  intros Hk. unfold cast. pose proof (pow2_pos k ltac:(lia)).
  apply Z.mod_mod_divide, pow2_divide. lia.
Qed.

Lemma index_spec i : index_new_truncate i = i mod 512.
Proof. unfold index_new_truncate. apply (truncate_mod i 9). lia. Qed.
Lemma p1_index_spec a : p1_index a = a / 2 ^ 12 mod 512.
Proof. unfold p1_index. by rewrite index_spec, Z.shiftr_div_pow2. Qed.
Lemma p2_index_spec a : p2_index a = a / 2 ^ 21 mod 512.
Proof. unfold p2_index. by rewrite index_spec, Z.shiftr_shiftr, Z.shiftr_div_pow2. Qed.
Lemma p3_index_spec a : p3_index a = a / 2 ^ 30 mod 512.
Proof. unfold p3_index. by rewrite index_spec, !Z.shiftr_shiftr, Z.shiftr_div_pow2. Qed.
Lemma p4_index_spec a : p4_index a = a / 2 ^ 39 mod 512.
Proof. unfold p4_index. by rewrite index_spec, !Z.shiftr_shiftr, Z.shiftr_div_pow2. Qed.
Lemma page_offset_spec a : page_offset a = a mod 4096.
Proof. apply (truncate_mod a 12). lia. Qed.

Lemma index_range i : 0 ≤ index_new_truncate i < 512.
Proof. rewrite index_spec. apply Z.mod_pos_bound. lia. Qed.

(** [a / 2^k] split into its low 9 bits and the rest. *)
Lemma div_split a k : 0 ≤ k → a / 2 ^ k = 512 * (a / 2 ^ (k + 9)) + a / 2 ^ k mod 512.
Proof.
  intros Hk. pose proof (pow2_pos k Hk). rewrite Z.pow_add_r by lia.
  change (2 ^ 9) with 512. rewrite <- Z.div_div by lia. apply Z.div_mod. lia.
Qed.

(** The four indices and the offset are the digits of the low 48 bits. *)
Lemma index_digits a :
  a mod 2 ^ 48 = p4_index a * 2 ^ 39 + p3_index a * 2 ^ 30 + p2_index a * 2 ^ 21
                 + p1_index a * 2 ^ 12 + page_offset a.
Proof.
  rewrite p1_index_spec, p2_index_spec, p3_index_spec, p4_index_spec, page_offset_spec.
  pose proof (Z.div_mod a (2 ^ 48) ltac:(lia)) as H48. pose proof (Z.div_mod a 4096 ltac:(lia)) as H12.
  pose proof (div_split a 12 ltac:(lia)) as H1. pose proof (div_split a 21 ltac:(lia)) as H2.
  pose proof (div_split a 30 ltac:(lia)) as H3. pose proof (div_split a 39 ltac:(lia)) as H4.
  change (2 ^ (12 + 9)) with (2 ^ 21) in *. change (2 ^ (21 + 9)) with (2 ^ 30) in *.
  change (2 ^ (30 + 9)) with (2 ^ 39) in *. change (2 ^ (39 + 9)) with (2 ^ 48) in *.
  change 4096 with (2 ^ 12) in *. lia.
Qed.

(** C33: Every safe constructor of [VirtAddr], for every u64.  [try_new] returns a
    canonical address as it is, extends the sign of an address between 2^47 and 2^48,
    and otherwise reports bits 47 to 63; [new] and [from_ptr] do the same and panic
    instead of the error; [new_truncate] extends the sign of the low 48 bits of any
    input; [zero] is the address 0.  Whatever one of them returns is canonical and has
    the low 48 bits of the input. *)
Theorem virt_addr_canonical a :
  in_width 64 a →
  virt_try_new a = (if decide (canonical a) then Ok a
                    else if decide (2 ^ 47 ≤ a < 2 ^ 48) then Ok (a + (2 ^ 64 - 2 ^ 48)) else Err (a / 2 ^ 47))
  ∧ virt_new a = (if decide (canonical a) then Ret a
                  else if decide (2 ^ 47 ≤ a < 2 ^ 48) then Ret (a + (2 ^ 64 - 2 ^ 48)) else Panic Unwrap)
  ∧ virt_from_ptr a = virt_new a
  ∧ virt_new_truncate a = (if decide (a mod 2 ^ 48 < 2 ^ 47) then a mod 2 ^ 48 else a mod 2 ^ 48 + (2 ^ 64 - 2 ^ 48))
  ∧ virt_zero = 0 ∧ canonical virt_zero
  ∧ ∀ v, virt_try_new a = Ok v ∨ virt_new a = Ret v ∨ virt_from_ptr a = Ret v ∨ virt_new_truncate a = v →
      canonical v ∧ v mod 2 ^ 48 = a mod 2 ^ 48.
Proof.
  intros Ha. pose proof (virt_try_new_spec a Ha) as Ht. pose proof (sign_extend_upper a) as Hu. pose proof (sign_extend_id a) as Hi.
  assert (virt_try_new a = (if decide (canonical a) then Ok a
     else if decide (2 ^ 47 ≤ a < 2 ^ 48) then Ok (a + (2 ^ 64 - 2 ^ 48)) else Err (a / 2 ^ 47))) as Ht'.
  { rewrite Ht. destruct (decide (canonical a)); [rewrite decide_True, Hi by tauto; done|].
    destruct (decide (2 ^ 47 ≤ a < 2 ^ 48)); [by rewrite decide_True, Hu by tauto|by rewrite decide_False by tauto]. }
  split; [done|]. split; [unfold virt_new; rewrite Ht'; by repeat case_match|]. split; [done|].
  split; [rewrite virt_new_truncate_spec; unfold sign_extend; cbv zeta; destruct (Z.ltb_spec (a mod 2 ^ 48) (2 ^ 47)); [by rewrite decide_True|by rewrite decide_False by lia]|].
  split; [done|]. split; [by left|].
  intros v Hv. assert (v = sign_extend a) as ->; [|auto using sign_extend_canonical, sign_extend_low].
  unfold virt_from_ptr, virt_new in Hv. rewrite virt_new_truncate_spec, Ht in Hv. case_decide; destruct Hv as [|[|[|]]]; congruence.
Qed.

(** For a power-of-two alignment, [align_down] returns the greatest
    aligned address not above its argument; [align_up] returns the least one not
    below it, and overflows exactly when that one is not a u64. *)
Theorem align_is_nearest addr k :
  in_width 64 addr → 0 ≤ k < 64 →
  (∃ r, align_down addr (2 ^ k) = Ret r ∧ r mod 2 ^ k = 0 ∧ r ≤ addr
     ∧ ∀ x, x mod 2 ^ k = 0 → x ≤ addr → x ≤ r)
  ∧ (∃ r, r mod 2 ^ k = 0 ∧ addr ≤ r ∧ (∀ x, x mod 2 ^ k = 0 → addr ≤ x → r ≤ x)
     ∧ align_up addr (2 ^ k) = if decide (r < 2 ^ 64) then Ret r else Panic Overflow).
Proof.
  intros Ha Hk. destruct (align_down_bounds addr k) as [Hm Hb]; [lia|].
  pose proof (pow2_pos k ltac:(lia)) as Hp.
  assert (∀ x y, x mod 2 ^ k = 0 → y mod 2 ^ k = 0 → x < y → x + 2 ^ k ≤ y) as Hgap.
  { intros x y Hx Hy Hlt. pose proof (Z.div_mod x (2 ^ k) ltac:(lia)) as Ex.
    pose proof (Z.div_mod y (2 ^ k) ltac:(lia)) as Ey. rewrite Hx in Ex. rewrite Hy in Ey.
    assert (x / 2 ^ k < y / 2 ^ k) by (apply (Z.mul_lt_mono_pos_l (2 ^ k)); lia).
    assert (2 ^ k * (x / 2 ^ k + 1) ≤ 2 ^ k * (y / 2 ^ k)) by (apply Z.mul_le_mono_nonneg_l; lia). lia. }
  split.
  - exists (addr - addr mod 2 ^ k). rewrite align_down_spec by done. split_and!; [done..|lia|].
    intros x Hx Hle. destruct (decide (x ≤ addr - addr mod 2 ^ k)); [done|].
    pose proof (Hgap _ x Hm Hx ltac:(lia)). lia.
  - rewrite align_up_spec by done. destruct (decide (addr mod 2 ^ k = 0)) as [H0|H0].
    + exists addr. split_and!; [done|lia|auto|]. by rewrite decide_True by (unfold_width; lia).
    + exists (addr - addr mod 2 ^ k + 2 ^ k). split_and!; [|lia| |done].
      * rewrite <- (Z.mul_1_l (2 ^ k)) at 2. by rewrite Z_mod_plus_full.
      * intros x Hx Hle. destruct (decide (x = addr - addr mod 2 ^ k)); [subst; lia|].
        apply Hgap; [done..|]. lia.
Qed.


(** The four table indices and the page offset of an address are in
    range, spell out its low 48 bits, and agree with [page_table_index]; together
    with canonicity they determine the address. *)
Theorem page_table_digits a b :
  (∀ l, page_table_index a l = match l with One => p1_index a | Two => p2_index a
                                          | Three => p3_index a | Four => p4_index a end)
  ∧ (∀ l, 0 ≤ page_table_index a l < 512) ∧ 0 ≤ page_offset a < 4096
  ∧ a mod 2 ^ 48 = p4_index a * 2 ^ 39 + p3_index a * 2 ^ 30 + p2_index a * 2 ^ 21
                   + p1_index a * 2 ^ 12 + page_offset a
  ∧ (canonical a → canonical b → (∀ l, page_table_index a l = page_table_index b l) →
     page_offset a = page_offset b → a = b).
Proof.
  assert (∀ c l, page_table_index c l = match l with One => p1_index c | Two => p2_index c
                                          | Three => p3_index c | Four => p4_index c end) as Hl.
  { intros c l. unfold page_table_index, p1_index, p2_index, p3_index, p4_index.
    destruct l; simpl; by rewrite ?Z.shiftr_shiftr. }
  split_and!; auto using index_digits.
  - intros l. apply index_range.
  - rewrite page_offset_spec. apply Z.mod_pos_bound. lia.
  - rewrite page_offset_spec. apply Z.mod_pos_bound. lia.
  - intros Ha Hb Hi Ho. rewrite <- (sign_extend_id a), <- (sign_extend_id b) by done.
    unfold sign_extend. assert (a mod 2 ^ 48 = b mod 2 ^ 48) as ->; [|done].
    rewrite !index_digits, Ho.
    pose proof (Hi One) as H1. pose proof (Hi Two) as H2. pose proof (Hi Three) as H3. pose proof (Hi Four) as H4.
    rewrite !Hl in H1, H2, H3, H4. by rewrite H1, H2, H3, H4.
Qed.


(** [align_up] on a [VirtAddr] skips the sign extension: the last lower-half address
    rounds up to a non-canonical one. *)
Lemma align_up_not_canonical :
  canonical 0x7fffffffffff ∧ virt_align_up 0x7fffffffffff 0x1000 = Ret 0x800000000000
  ∧ ¬ canonical 0x800000000000.
Proof. split_and!; [left; by vm_compute|by vm_compute|]. unfold canonical. lia. Qed.
Lemma phys_align_up_not_physical :
  physical 0xfffffffffffff ∧ phys_align_up 0xfffffffffffff 0x1000 = Ret 0x10000000000000
  ∧ ¬ physical 0x10000000000000.
Proof. split_and!; [by vm_compute|by vm_compute|]. unfold physical. lia. Qed.
End bit_field.

(** The crate's functions as bit operations. *)
Definition get_bits_model (a lo hi : Z) : Z := Z.land (Z.shiftr a lo) (Z.ones (hi - lo)).
Definition set_bits_model (a lo hi v : Z) : run Z :=
  _ ← rust_assert (v <? 2 ^ (hi - lo));
  Ret (Z.lor (Z.ldiff a (Z.shiftl (Z.ones (hi - lo)) lo)) (Z.shiftl v lo)).
Lemma set_bits_model_spec a lo hi v :
  0 ≤ lo < hi ∧ hi ≤ 64 → in_width 64 a → 0 ≤ v →
  if decide (v < 2 ^ (hi - lo)) then
    ∃ b, set_bits_model a lo hi v = Ret b ∧ 0 ≤ b
      ∧ ∀ i, 0 ≤ i → Z.testbit b i = if decide (lo ≤ i < hi) then Z.testbit v (i - lo) else Z.testbit a i
  else set_bits_model a lo hi v = Panic AssertFailed.
Proof.
  intros Hlo Ha Hv. unfold set_bits_model, rust_assert.
  case_decide as Hf; [|by rewrite (proj2 (Z.ltb_ge _ _)) by lia].
  rewrite (proj2 (Z.ltb_lt _ _)) by lia. cbn [mbind run_bind]. eexists. split; [done|]. split.
  - apply Z.lor_nonneg. split; [apply Z.ldiff_nonneg; left; apply Ha|]. by apply Z.shiftl_nonneg.
  - intros i Hi. rewrite Z.lor_spec, Z.ldiff_spec, !Z.shiftl_spec by done. case_decide as Hr.
    + rewrite Z.ones_spec_low by lia. by rewrite andb_false_r.
    + destruct (decide (i < lo)).
      * rewrite (Z.testbit_neg_r (Z.ones _)), (Z.testbit_neg_r v) by lia. by rewrite andb_true_r, orb_false_r.
      * rewrite Z.ones_spec_high, (testbit_above (hi - lo) v) by (unfold in_width; lia).
        by rewrite andb_true_r, orb_false_r.
Qed.
Program Definition bit_field_model : BitField := {| get_bits := get_bits_model; set_bits := set_bits_model |}.
Next Obligation.
  intros a lo hi Hlo _. unfold get_bits_model. rewrite Z.land_ones, Z.shiftr_div_pow2 by lia. done.
Qed.
Next Obligation. exact set_bits_model_spec. Qed.

(** ** Instances *)
#[local] Existing Instance bit_field_model.
Lemma virt_addr_canonical_witness :
  virt_new 0x800000000000 = Ret 0xffff800000000000 ∧ virt_try_new 0x1000000000000 = Err 2.
Proof.
  split.
  - destruct (virt_addr_canonical 0x800000000000) as (_ & H & _); [by vm_compute|]. rewrite H. by vm_compute.
  - destruct (virt_addr_canonical 0x1000000000000) as (H & _); [by vm_compute|]. rewrite H. by vm_compute.
Defined.

Lemma align_is_nearest_witness :
  align_down 0x12345 0x1000 = Ret 0x12000 ∧ align_up 0xfffffffffffff001 0x1000 = Panic Overflow.
Proof.
  destruct (align_is_nearest 0x12345 12) as [(r & H & _) _]; [by vm_compute|lia|].
  destruct (align_is_nearest 0xfffffffffffff001 12) as [_ (r' & _ & _ & _ & H')]; [by vm_compute|lia|].
  change (2 ^ 12) with 0x1000 in *. split.
  - rewrite H. vm_compute in H. by injection H as <-.
  - by vm_compute.
Defined.

Lemma page_table_digits_witness :
  p4_index 0x444444440000 = 136 ∧ 0x444444440000 = virt_new_truncate 0x444444440000.
Proof.
  split; [by vm_compute|].
  destruct (page_table_digits 0x444444440000 (virt_new_truncate 0x444444440000)) as (_ & _ & _ & _ & H).
  apply H; [left; by vm_compute|left; by vm_compute| |by vm_compute]. by intros [].
Defined.
End Addr.
