(* ===== verification/Bits.v ===== *)
(** * Bit fields of descriptors and registers

    [field a lo hi] is the value of the bits [lo, hi) of a word.  The lemmas say what a
    sequence of [set_bits] leaves in each field: a write is read back, fields that do
    not overlap with it keep their values. *)
From S2P Require Import Prelude Addr.
Import Addr.

Module Bits.

Definition field (a lo hi : Z) : Z := a / 2 ^ lo mod 2 ^ (hi - lo).

Lemma field_testbit a lo hi i :
  0 ≤ lo < hi → 0 ≤ i → Z.testbit (field a lo hi) i = if decide (i < hi - lo) then Z.testbit a (i + lo) else false.
Proof.
  intros Hlo Hi. unfold field. case_decide.
  - rewrite Z.mod_pow2_bits_low, Z.div_pow2_bits by lia. done.
  - apply Z.mod_pow2_bits_high. lia.
Qed.
Lemma field_range a lo hi : 0 ≤ lo < hi → 0 ≤ field a lo hi < 2 ^ (hi - lo).
Proof. intros H. apply Z.mod_pos_bound, pow2_pos. lia. Qed.

(** A word is in width when it has no bits above. *)
Lemma width_of_bits w b : 0 ≤ w → 0 ≤ b → (∀ i, w ≤ i → Z.testbit b i = false) → in_width w b.
Proof.
  intros Hw Hb Hi. split; [done|]. destruct (decide (b = 0)) as [->|]; [by apply pow2_pos|].
  apply Z.log2_lt_pow2; [lia|]. destruct (decide (Z.log2 b < w)) as [|Hn]; [done|].
  specialize (Hi (Z.log2 b) ltac:(lia)). rewrite Z.bit_log2 in Hi by lia. done.
Qed.
Lemma field_id w a lo hi : in_width w a → lo = 0 → 0 ≤ w ≤ hi → 0 < hi → field a lo hi = a.
Proof.
  intros Ha -> Hw Hhi. unfold field. rewrite Z.div_1_r, Z.sub_0_r. apply Z.mod_small.
  pose proof (Z.pow_le_mono_r 2 w hi). unfold in_width in *. lia.
Qed.

Section fields.
Context {BF : BitField}.

Lemma get_bits_field a lo hi : 0 ≤ lo < hi → hi ≤ 64 → in_width 64 a → get_bits a lo hi = field a lo hi.
Proof. intros. by rewrite get_bits_spec. Qed.

(** What [set_bits] stored. *)
Definition stored (a lo hi v b : Z) : Prop :=
  in_width 64 b ∧ field b lo hi = v
  ∧ (∀ lo' hi', 0 ≤ lo' < hi' → hi' ≤ lo ∨ hi ≤ lo' → field b lo' hi' = field a lo' hi')
  ∧ ∀ w, hi ≤ w → in_width w a → in_width w b.

Lemma set_bits_stored a lo hi v :
  0 ≤ lo < hi → hi ≤ 64 → in_width 64 a → 0 ≤ v < 2 ^ (hi - lo) → ∃ b, set_bits a lo hi v = Ret b ∧ stored a lo hi v b.
Proof.
  intros Hlo Hhi Ha Hv. pose proof (set_bits_spec a lo hi v ltac:(lia) Ha ltac:(lia)) as H.
  rewrite decide_True in H by lia. destruct H as (b & Hb & Hpos & Hbits). exists b. split; [done|].
  assert (∀ w, hi ≤ w → in_width w a → in_width w b) as Hw.
  { intros w Hhw Hwa. apply width_of_bits; [lia|done|]. intros i Hi. rewrite Hbits by lia.
    rewrite decide_False by lia. apply (testbit_above w); [done|lia]. }
  split; [by apply Hw|]. split; [|split; [|done]].
  - apply Z.bits_inj'. intros i Hi. rewrite field_testbit by lia. case_decide.
    + rewrite Hbits, decide_True by lia. f_equal. lia.
    + symmetry. apply (testbit_above (hi - lo)); [done|lia].
  - intros lo' hi' Hlo' Hd. apply Z.bits_inj'. intros i Hi. rewrite !field_testbit by lia. case_decide; [|done].
    rewrite Hbits, decide_False by lia. done.
Qed.

(** The word [set_bits] returns. *)
Lemma set_bits_value a lo hi v :
  0 ≤ lo < hi → hi ≤ 64 → in_width 64 a → 0 ≤ v < 2 ^ (hi - lo) →
  set_bits a lo hi v = Ret (Z.lor (Z.ldiff a (Z.shiftl (Z.ones (hi - lo)) lo)) (Z.shiftl v lo)).
Proof.
  intros Hlo Hhi Ha Hv. pose proof (set_bits_spec a lo hi v ltac:(lia) Ha ltac:(lia)) as H.
  rewrite decide_True in H by lia. destruct H as (b & -> & _ & Hbits). f_equal. apply Z.bits_inj'. intros i Hi.
  rewrite Hbits, Z.lor_spec, Z.ldiff_spec by done. destruct (decide (i < lo)) as [|Hge].
  - rewrite decide_False, !Z.shiftl_spec_low by lia. by rewrite orb_false_r, andb_true_r.
  - rewrite !Z.shiftl_spec, Z.testbit_ones_nonneg by lia. case_decide.
    + rewrite (proj2 (Z.ltb_lt _ _)) by lia. by rewrite andb_false_r.
    + rewrite (proj2 (Z.ltb_ge _ _)) by lia. rewrite (testbit_above (hi - lo) v) by (done || lia).
      by rewrite orb_false_r, andb_true_r.
Qed.

(** A value that does not fit is refused. *)
Lemma set_bits_refused a lo hi v :
  0 ≤ lo < hi → hi ≤ 64 → in_width 64 a → 2 ^ (hi - lo) ≤ v → set_bits a lo hi v = Panic AssertFailed.
Proof.
  intros Hlo Hhi Ha Hv. pose proof (pow2_pos (hi - lo) ltac:(lia)) as Hp.
  pose proof (set_bits_spec a lo hi v ltac:(lia) Ha ltac:(lia)) as H. by rewrite decide_False in H by lia.
Qed.
End fields.

(** The [set_bits] of a range in the goal is replaced by what it stored. *)
Tactic Notation "set_bits_step" constr(lo) constr(hi) "as" ident(H) :=
  match goal with
  | |- context [set_bits ?a lo hi ?v] =>
      let b := fresh "b" in let E := fresh "E" in
      destruct (set_bits_stored a lo hi v) as (b & E & H);
      [lia | lia | | | rewrite E; clear E; cbn [mbind run_bind]]
  end.
End Bits.
