(* ===== verification/Paging.v ===== *)
(** * crates/x86_64/src/structures/paging: pages, frames, page table entries

    [page.rs], [frame.rs] and [page_table.rs].  A page or frame is its start address;
    the size parameter is an explicit argument. *)
From S2P Require Import Prelude Addr.
Import Addr.

Module Paging.

Inductive PageSize := Size4KiB | Size2MiB | Size1GiB.
Definition SIZE (s : PageSize) : Z :=
  match s with Size4KiB => 4096 | Size2MiB => 4096 * 512 | Size1GiB => 4096 * 512 * 512 end.
#[global] Instance PageSize_eq_dec : EqDecision PageSize.
Proof. solve_decision. Defined.

Inductive AddressNotAligned := NotAligned.

Section bit_field.
Context {BF : BitField}.

(** ** [Page<S>] *)
Definition page_containing_address (s : PageSize) (address : Z) : run Z :=
  virt_align_down address (SIZE s).
Definition page_from_start_address (s : PageSize) (address : Z) : run (result Z AddressNotAligned) :=
  ok ← virt_is_aligned address (SIZE s);
  if negb ok then Ret (Err NotAligned) else p ← page_containing_address s address; Ret (Ok p).

Definition page_add (s : PageSize) (p rhs : Z) : run Z :=
  n ← umul 64 rhs (SIZE s); a ← virt_add p n; page_containing_address s a.
Definition page_sub (s : PageSize) (p rhs : Z) : run Z :=
  n ← umul 64 rhs (SIZE s); a ← virt_sub p n; page_containing_address s a.
Definition page_diff (s : PageSize) (p q : Z) : run Z :=
  d ← virt_diff p q; Ret (d / SIZE s).

Definition from_page_table_indices_1gib (p4 p3 : Z) : run Z :=
  a ← set_bits 0 39 48 p4; a ← set_bits a 30 39 p3;
  v ← virt_new a; page_containing_address Size1GiB v.
Definition from_page_table_indices_2mib (p4 p3 p2 : Z) : run Z :=
  a ← set_bits 0 39 48 p4; a ← set_bits a 30 39 p3; a ← set_bits a 21 30 p2;
  v ← virt_new a; page_containing_address Size2MiB v.
Definition from_page_table_indices (p4 p3 p2 p1 : Z) : run Z :=
  a ← set_bits 0 39 48 p4; a ← set_bits a 30 39 p3; a ← set_bits a 21 30 p2;
  a ← set_bits a 12 21 p1;
  v ← virt_new a; page_containing_address Size4KiB v.

(** [PageRange] and [PageRangeInclusive] as iterators. *)
Record PageRange := mkPageRange { r_start : Z; r_end : Z }.
Definition page_range_is_empty (r : PageRange) : bool := r_end r <=? r_start r.
Definition page_range_next (s : PageSize) (r : PageRange) : run (option Z * PageRange) :=
  if r_start r <? r_end r then
    st ← page_add s (r_start r) 1;
    Ret (Some (r_start r), mkPageRange st (r_end r))
  else Ret (None, r).
Definition page_range_inclusive_is_empty (r : PageRange) : bool := r_end r <? r_start r.
Definition page_range_inclusive_next (s : PageSize) (r : PageRange) : run (option Z * PageRange) :=
  if r_start r <=? r_end r then
    st ← page_add s (r_start r) 1;
    Ret (Some (r_start r), mkPageRange st (r_end r))
  else Ret (None, r).
Definition as_4kib_page_range (r : PageRange) : run PageRange :=
  st ← page_containing_address Size4KiB (r_start r);
  en ← page_containing_address Size4KiB (r_end r);
  Ret (mkPageRange st en).

(** A [for] loop over an iterator, collecting what it yields. *)
Fixpoint collect (next : PageRange → run (option Z * PageRange)) (fuel : nat) (r : PageRange)
    : run (list Z) :=
  match fuel with
  | O => Panic NoFuel
  | S fuel' =>
      '(o, r') ← next r;
      match o with
      | None => Ret []
      | Some p => l ← collect next fuel' r'; Ret (p :: l)
      end
  end.

(** ** [PhysFrame<S>] *)
Definition frame_containing_address (s : PageSize) (address : Z) : run Z :=
  phys_align_down address (SIZE s).
Definition frame_from_start_address (s : PageSize) (address : Z) : run (result Z AddressNotAligned) :=
  ok ← phys_is_aligned address (SIZE s);
  if negb ok then Ret (Err NotAligned) else f ← frame_containing_address s address; Ret (Ok f).
Definition frame_add (s : PageSize) (f rhs : Z) : run Z :=
  n ← umul 64 rhs (SIZE s); a ← phys_add f n; frame_containing_address s a.
Definition frame_sub (s : PageSize) (f rhs : Z) : run Z :=
  n ← umul 64 rhs (SIZE s); a ← phys_sub f n; frame_containing_address s a.
Definition frame_diff (s : PageSize) (f g : Z) : run Z :=
  d ← phys_diff f g; Ret (d / SIZE s).
Definition frame_range_is_empty (r : PageRange) : bool := r_end r <=? r_start r.
Definition frame_range_next (s : PageSize) (r : PageRange) : run (option Z * PageRange) :=
  if r_start r <? r_end r then
    st ← frame_add s (r_start r) 1;
    Ret (Some (r_start r), mkPageRange st (r_end r))
  else Ret (None, r).
Definition frame_range_inclusive_is_empty (r : PageRange) : bool := r_end r <? r_start r.
Definition frame_range_inclusive_next (s : PageSize) (r : PageRange) : run (option Z * PageRange) :=
  if r_start r <=? r_end r then
    st ← frame_add s (r_start r) 1;
    Ret (Some (r_start r), mkPageRange st (r_end r))
  else Ret (None, r).

(** ** [PageTableFlags]: a subset of bits 0..11 and 52..63 *)
Definition PRESENT : Z := 1.
Definition WRITABLE : Z := Z.shiftl 1 1.
Definition USER_ACCESSIBLE : Z := Z.shiftl 1 2.
Definition WRITE_THROUGH : Z := Z.shiftl 1 3.
Definition NO_CACHE : Z := Z.shiftl 1 4.
Definition ACCESSED : Z := Z.shiftl 1 5.
Definition DIRTY : Z := Z.shiftl 1 6.
Definition HUGE_PAGE : Z := Z.shiftl 1 7.
Definition GLOBAL : Z := Z.shiftl 1 8.
Definition BITS_OS : list Z :=
  (λ k, Z.shiftl 1 k) <$> [9; 10; 11; 52; 53; 54; 55; 56; 57; 58; 59; 60; 61; 62].
Definition NO_EXECUTE : Z := Z.shiftl 1 63.
(** What an entry that maps a page says about it, by the bit numbers of the processor manual:
    present (0), writable (1), not cached (4), large page (7), not executable (63); no other bit. *)
Definition leaf_bits (writable no_cache large no_execute : bool) : Z :=
  1 + 2 * Z.b2z writable + 16 * Z.b2z no_cache + 128 * Z.b2z large + 2 ^ 63 * Z.b2z no_execute.
(** [PageTableFlags::all()]: the union of the constants. *)
Definition ALL_FLAGS : Z :=
  foldr Z.lor 0 ([PRESENT; WRITABLE; USER_ACCESSIBLE; WRITE_THROUGH; NO_CACHE; ACCESSED; DIRTY;
                  HUGE_PAGE; GLOBAL; NO_EXECUTE] ++ BITS_OS).
Definition from_bits_truncate (bits : Z) : Z := Z.land bits ALL_FLAGS.
(** [self.contains(other)]. *)
Definition contains (flags other : Z) : bool := Z.land flags other =? other.

(** ** [PageTableEntry] *)
Inductive FrameError := FrameNotPresent | HugeFrame.
Definition ADDR_MASK : Z := 0x000ffffffffff000.

Definition entry_new : Z := 0.
Definition is_unused (entry : Z) : bool := entry =? 0.
Definition set_unused (_ : Z) : Z := 0.
Definition flags (entry : Z) : Z := from_bits_truncate entry.
Definition addr (entry : Z) : run Z := phys_new (Z.land entry ADDR_MASK).
Definition frame (entry : Z) : run (result Z FrameError) :=
  if negb (contains (flags entry) PRESENT) then Ret (Err FrameNotPresent)
  else if contains (flags entry) HUGE_PAGE then Ret (Err HugeFrame)
  else a ← addr entry; f ← frame_containing_address Size4KiB a; Ret (Ok f).
Definition set_addr (_ : Z) (a fl : Z) : run Z :=
  ok ← phys_is_aligned a (SIZE Size4KiB);
  _ ← rust_assert ok;
  Ret (Z.lor a fl).
Definition set_frame (entry : Z) (f fl : Z) : run Z :=
  _ ← rust_assert (negb (contains fl HUGE_PAGE));
  set_addr entry f fl.
Definition set_flags (entry : Z) (fl : Z) : run Z :=
  a ← addr entry; Ret (Z.lor a fl).

(** ** [PageTable] *)
Definition ENTRY_COUNT : nat := 512.
Definition table_new : list Z := replicate ENTRY_COUNT entry_new.
Definition zero (t : list Z) : list Z := set_unused <$> t.

(** ** Specification *)
Definition valid_flags (fl : Z) : Prop := 0 ≤ fl ∧ Z.land fl ALL_FLAGS = fl.
Definition page_frame (f : Z) : Prop := physical f ∧ f mod 4096 = 0.

Lemma testbit_addr_mask n : 0 ≤ n → Z.testbit ADDR_MASK n = bool_decide (12 ≤ n < 52).
Proof.
  intros Hn. change ADDR_MASK with (Z.shiftl (Z.ones 40) 12). rewrite Z.shiftl_spec by done.
  destruct (decide (n < 12)).
  - rewrite Z.testbit_neg_r by lia. bool_lia.
  - rewrite Z.testbit_ones by lia. zcase; bool_lia.
Qed.

Lemma testbit_all_flags n :
  0 ≤ n → Z.testbit ALL_FLAGS n = bool_decide (n < 12 ∨ 52 ≤ n < 64).
Proof.
  intros Hn. change ALL_FLAGS with (Z.lor (Z.ones 12) (Z.shiftl (Z.ones 12) 52)).
  rewrite Z.lor_spec, Z.shiftl_spec by done. rewrite Z.testbit_ones by lia.
  destruct (decide (n < 52)).
  - rewrite (Z.testbit_neg_r _ (n - 52)) by lia. rewrite orb_false_r. zcase; bool_lia.
  - rewrite Z.testbit_ones by lia. zcase; bool_lia.
Qed.

Lemma SIZE_pow s : SIZE s = 2 ^ (match s with Size4KiB => 12 | Size2MiB => 21 | Size1GiB => 30 end).
Proof. by destruct s. Qed.

(** The address field and the flags of an entry are independent. *)
Lemma testbit_page_frame f n : page_frame f → 0 ≤ n → Z.testbit f n = true → 12 ≤ n < 52.
Proof.
  intros [Hf Hm] Hn Ht. unfold physical in Hf. destruct (decide (n < 12)).
  - change 4096 with (2 ^ 12) in Hm. rewrite <- (Z.mod_pow2_bits_low f 12) in Ht by lia.
    rewrite Hm, Z.testbit_0_l in Ht. done.
  - destruct (decide (n < 52)); [lia|]. rewrite (testbit_above 52 f n) in Ht; [done|unfold_width; lia|lia].
Qed.
Lemma testbit_valid_flags fl n : valid_flags fl → 0 ≤ n → Z.testbit fl n = true → n < 12 ∨ 52 ≤ n < 64.
Proof.
  intros [_ Hf] Hn Ht. rewrite <- Hf, Z.land_spec, testbit_all_flags in Ht by done.
  apply andb_true_iff in Ht as [_ Ht]. by apply bool_decide_eq_true in Ht.
Qed.

Lemma entry_fields f fl :
  page_frame f → valid_flags fl →
  Z.land (Z.lor f fl) ADDR_MASK = f ∧ Z.land (Z.lor f fl) ALL_FLAGS = fl.
Proof.
  intros Hf Hfl. split; apply Z.bits_inj'; intros n Hn;
    rewrite Z.land_spec, Z.lor_spec, ?testbit_addr_mask, ?testbit_all_flags by done;
    destruct (Z.testbit f n) eqn:Ef, (Z.testbit fl n) eqn:Efl; simpl; try done;
    try (apply testbit_page_frame in Ef; [|done..]); try (apply testbit_valid_flags in Efl; [|done..]);
    first [apply bool_decide_eq_true; lia|apply bool_decide_eq_false; lia].
Qed.

(** The address field of any entry is a page frame. *)
Definition entry_addr (e : Z) : Z := Z.land e ADDR_MASK.
Lemma entry_addr_page_frame e : page_frame (entry_addr e).
Proof.
  unfold entry_addr. assert (Z.land e ADDR_MASK = e / 2 ^ 12 mod 2 ^ 40 * 2 ^ 12) as ->.
  { rewrite <- Z.shiftr_div_pow2, <- Z.land_ones, <- Z.shiftl_mul_pow2 by lia.
    apply Z.bits_inj'. intros n Hn. rewrite Z.land_spec. change ADDR_MASK with (Z.shiftl (Z.ones 40) 12).
    destruct (decide (n < 12)).
    - rewrite !Z.shiftl_spec_low by lia. by rewrite andb_false_r.
    - rewrite !Z.shiftl_spec, Z.land_spec, Z.shiftr_spec by lia. do 2 f_equal. lia. }
  pose proof (Z.mod_pos_bound (e / 2 ^ 12) (2 ^ 40) ltac:(lia)).
  split; [unfold physical; lia|]. change 4096 with (2 ^ 12). apply Z_mod_mult.
Qed.
Lemma page_frame_width f : page_frame f → in_width 64 f.
Proof. unfold page_frame, physical, in_width. lia. Qed.
Lemma addr_spec e : addr e = Ret (entry_addr e).
Proof.
  pose proof (entry_addr_page_frame e) as Hf. unfold addr. fold (entry_addr e).
  rewrite phys_new_spec by (by apply page_frame_width). by rewrite decide_True by apply Hf.
Qed.

Lemma frame_containing_page f : page_frame f → frame_containing_address Size4KiB f = Ret f.
Proof.
  intros Hf. unfold frame_containing_address, phys_align_down. rewrite SIZE_pow.
  rewrite align_down_spec by (try lia; by apply page_frame_width).
  destruct Hf as [_ Hm]. change (2 ^ 12) with 4096. rewrite Hm. f_equal. lia.
Qed.

Definition present (e : Z) : bool := contains (flags e) PRESENT.
Definition huge (e : Z) : bool := contains (flags e) HUGE_PAGE.
Lemma frame_spec e :
  frame e = Ret (if negb (present e) then Err FrameNotPresent
                 else if huge e then Err HugeFrame else Ok (entry_addr e)).
Proof.
  unfold frame, present, huge. destruct (contains _ PRESENT); cbn [negb]; [|reflexivity].
  destruct (contains _ HUGE_PAGE); [reflexivity|].
  rewrite addr_spec. cbn [mbind run_bind]. by rewrite frame_containing_page by apply entry_addr_page_frame.
Qed.

Lemma is_aligned_spec a k :
  in_width 64 a → 0 ≤ k < 64 → is_aligned a (2 ^ k) = Ret (bool_decide (a mod 2 ^ k = 0)).
Proof.
  intros Ha Hk. unfold is_aligned. rewrite align_down_spec by done. simpl. f_equal.
  destruct (Z.eqb_spec (a - a mod 2 ^ k) a); bool_lia.
Qed.
Lemma set_addr_spec e f fl : page_frame f → set_addr e f fl = Ret (Z.lor f fl).
Proof.
  intros Hf. unfold set_addr, phys_is_aligned. rewrite SIZE_pow.
  rewrite is_aligned_spec by (try lia; by apply page_frame_width). simpl.
  by rewrite bool_decide_eq_true_2 by apply Hf.
Qed.
Lemma set_frame_spec e f fl :
  page_frame f → contains fl HUGE_PAGE = false → set_frame e f fl = Ret (Z.lor f fl).
Proof. intros Hf Hh. unfold set_frame. rewrite Hh. simpl. by apply set_addr_spec. Qed.
Lemma set_flags_spec e fl : set_flags e fl = Ret (Z.lor (entry_addr e) fl).
Proof. unfold set_flags. by rewrite addr_spec. Qed.

Lemma flags_valid e : valid_flags (flags e).
Proof.
  unfold valid_flags, flags, from_bits_truncate. split.
  - apply Z.land_nonneg. by right.
  - by rewrite <- Z.land_assoc, Z.land_diag.
Qed.
Lemma valid_flags_lor a b : valid_flags a → valid_flags b → valid_flags (Z.lor a b).
Proof.
  intros [Ha1 Ha2] [Hb1 Hb2]. split; [by apply Z.lor_nonneg|].
  by rewrite Z.land_lor_distr_l, Ha2, Hb2.
Qed.

(** Flags and address of a stored entry, and the tests on it. *)
Lemma stored_entry f fl :
  page_frame f → valid_flags fl →
  entry_addr (Z.lor f fl) = f ∧ flags (Z.lor f fl) = fl
  ∧ present (Z.lor f fl) = contains fl PRESENT ∧ huge (Z.lor f fl) = contains fl HUGE_PAGE.
Proof.
  intros Hf Hfl. destruct (entry_fields f fl Hf Hfl) as [H1 H2].
  unfold present, huge, flags, from_bits_truncate, entry_addr. by rewrite H1, H2.
Qed.

(** A page table entry stores an address and flags independently:
    for a page-aligned physical address and any flags, [set_addr] succeeds and
    [addr], [flags], [frame] read back what was stored; [set_flags] replaces the
    flags and keeps the address; an entry that is present is not [is_unused]. *)
Theorem entry_round_trip e f fl fl' :
  page_frame f → valid_flags fl → valid_flags fl' →
  ∃ e', set_addr e f fl = Ret e' ∧ addr e' = Ret f ∧ flags e' = fl
    ∧ frame e' = Ret (if negb (contains fl PRESENT) then Err FrameNotPresent
                      else if contains fl HUGE_PAGE then Err HugeFrame else Ok f)
    ∧ (contains fl PRESENT = true → is_unused e' = false)
    ∧ ∃ e'', set_flags e' fl' = Ret e'' ∧ addr e'' = Ret f ∧ flags e'' = fl'.
Proof.
  intros Hf Hfl Hfl'. exists (Z.lor f fl). rewrite set_addr_spec by done.
  destruct (stored_entry f fl Hf Hfl) as (Ha & Hflg & Hp & Hh).
  rewrite addr_spec, frame_spec, Ha, Hp, Hh. split_and!; try done.
  - intros Hc. unfold is_unused. apply Z.eqb_neq. intros H0. rewrite H0 in Hflg. unfold flags in Hflg.
    simpl in Hflg. subst fl. done.
  - exists (Z.lor f fl'). rewrite set_flags_spec, Ha, addr_spec.
    by destruct (stored_entry f fl' Hf Hfl') as (-> & -> & _).
Qed.


(** *** Pages from table indices *)
Lemma page_containing_spec s a : in_width 64 a →
  page_containing_address s a = Ret (a - a mod SIZE s).
Proof.
  intros Ha. unfold page_containing_address, virt_align_down. rewrite SIZE_pow.
  apply align_down_spec; [done|]. destruct s; lia.
Qed.

(** [from_page_table_indices] builds, from any four 9-bit indices, the
    page that has exactly these indices: it never panics, the result is canonical
    and page-aligned. *)
Theorem indices_round_trip p4 p3 p2 p1 :
  0 ≤ p4 < 512 → 0 ≤ p3 < 512 → 0 ≤ p2 < 512 → 0 ≤ p1 < 512 →
  ∃ page, from_page_table_indices p4 p3 p2 p1 = Ret page ∧ canonical page ∧ page_offset page = 0
    ∧ p4_index page = p4 ∧ p3_index page = p3 ∧ p2_index page = p2 ∧ p1_index page = p1.
Proof.
  intros H4 H3 H2 H1. unfold from_page_table_indices.
  rewrite (set_bits_low 0 39 48) by (unfold_width; try lia; done). cbn [mbind run_bind].
  rewrite set_bits_low by (unfold_width; try lia; apply Z_mod_mult). cbn [mbind run_bind].
  assert ((0 + p4 * 2 ^ 39 + p3 * 2 ^ 30) mod 2 ^ 30 = 0) as Hm3.
  { replace (0 + p4 * 2 ^ 39 + p3 * 2 ^ 30) with ((p4 * 2 ^ 9 + p3) * 2 ^ 30) by lia. apply Z_mod_mult. }
  rewrite set_bits_low by (unfold_width; try lia; done). cbn [mbind run_bind].
  assert ((0 + p4 * 2 ^ 39 + p3 * 2 ^ 30 + p2 * 2 ^ 21) mod 2 ^ 21 = 0) as Hm2.
  { replace (0 + p4 * 2 ^ 39 + p3 * 2 ^ 30 + p2 * 2 ^ 21) with ((p4 * 2 ^ 18 + p3 * 2 ^ 9 + p2) * 2 ^ 21) by lia.
    apply Z_mod_mult. }
  rewrite set_bits_low by (unfold_width; try lia; done). cbn [mbind run_bind].
  set (a := 0 + p4 * 2 ^ 39 + p3 * 2 ^ 30 + p2 * 2 ^ 21 + p1 * 2 ^ 12).
  assert (0 ≤ a < 2 ^ 48) as Ha by (unfold a; lia).
  assert (virt_new a = Ret (sign_extend a)) as ->.
  { unfold virt_new. rewrite virt_try_new_spec by (unfold_width; lia).
    rewrite decide_True; [done|]. unfold canonical. lia. }
  cbn [mbind run_bind].
  pose proof (sign_extend_canonical a) as Hc. pose proof (sign_extend_low a) as Hl.
  rewrite (Z.mod_small a) in Hl by done. set (v := sign_extend a) in *.
  pose proof (index_digits v) as Hd. rewrite Hl in Hd.
  assert (∀ i, 0 ≤ index_new_truncate i < 512) as Hr by apply index_range.
  pose proof (Hr (Z.shiftr v 12)) as R1. fold (p1_index v) in R1.
  pose proof (Hr (Z.shiftr (Z.shiftr v 12) 9)) as R2. fold (p2_index v) in R2.
  pose proof (Hr (Z.shiftr (Z.shiftr (Z.shiftr v 12) 9) 9)) as R3. fold (p3_index v) in R3.
  pose proof (Hr (Z.shiftr (Z.shiftr (Z.shiftr (Z.shiftr v 12) 9) 9) 9)) as R4. fold (p4_index v) in R4.
  pose proof (page_offset_spec v) as Ho. pose proof (Z.mod_pos_bound v 4096 ltac:(lia)).
  rewrite page_containing_spec by (by apply canonical_width). unfold a in Hd.
  assert (v mod SIZE Size4KiB = 0) as -> by (simpl; lia). rewrite Z.sub_0_r.
  exists v. split; [done|]. split_and!; [done|lia..].
Qed.


(** *** Page ranges *)
Lemma page_add_one s p :
  canonical p → canonical (p + SIZE s) → p mod SIZE s = 0 → page_add s p 1 = Ret (p + SIZE s).
Proof.
  intros Hp Hq Hm. unfold page_add. rewrite umul_Ret by (destruct s; simpl; lia).
  cbn [mbind run_bind]. rewrite Z.mul_1_l. unfold virt_add.
  rewrite uadd_Ret by (unfold canonical in Hq; lia). cbn [mbind run_bind].
  rewrite virt_new_canonical by (try done; by apply canonical_width). cbn [mbind run_bind].
  rewrite page_containing_spec by (by apply canonical_width). f_equal.
  rewrite <- (Z.mul_1_l (SIZE s)) at 2. rewrite Z_mod_plus_full, Hm. lia.
Qed.

Lemma collect_some next fuel r p r' :
  next r = Ret (Some p, r') → collect next (S fuel) r = (l ← collect next fuel r'; Ret (p :: l)).
Proof. intros H. simpl. by rewrite H. Qed.

Lemma page_range_next_some s p e :
  canonical p → canonical (p + SIZE s) → p mod SIZE s = 0 → p < e →
  page_range_next s (mkPageRange p e) = Ret (Some p, mkPageRange (p + SIZE s) e).
Proof.
  intros. unfold page_range_next. cbn [r_start r_end]. rewrite (proj2 (Z.ltb_lt _ _)) by done.
  by rewrite page_add_one.
Qed.

Lemma page_range_collect s n p :
  canonical p → canonical (p + Z.of_nat n * SIZE s) → (p < 2 ^ 47 → p + Z.of_nat n * SIZE s < 2 ^ 47) →
  p mod SIZE s = 0 →
  collect (page_range_next s) (S n) (mkPageRange p (p + Z.of_nat n * SIZE s))
  = Ret ((λ i, p + Z.of_nat i * SIZE s) <$> seq 0 n).
Proof.
  assert (0 < SIZE s < 2 ^ 31) as Hs by (destruct s; simpl; lia).
  revert p. induction n as [|n IH]; intros p Hp Hq Hh Hm.
  { simpl. unfold page_range_next. cbn [r_start r_end]. rewrite Z.add_0_r, Z.ltb_irrefl. done. }
  replace (p + Z.of_nat (S n) * SIZE s) with (p + SIZE s + Z.of_nat n * SIZE s) in * by lia.
  assert (canonical (p + SIZE s)) as Hp1 by (unfold canonical in *; nia).
  assert ((p + SIZE s) mod SIZE s = 0) as Hm1.
  { rewrite <- (Z.mul_1_l (SIZE s)) at 1. by rewrite Z_mod_plus_full. }
  rewrite (collect_some _ _ _ p (mkPageRange (p + SIZE s) (p + SIZE s + Z.of_nat n * SIZE s)))
    by (apply page_range_next_some; [done..|nia]).
  rewrite IH; [|done|done|lia|done]. cbn [mbind run_bind]. f_equal.
  cbn [seq fmap list_fmap]. rewrite <- fmap_S_seq, <- list_fmap_compose. f_equal; [lia|].
  apply list_fmap_ext. intros _ i _. simpl. lia.
Qed.

(** A loop over [Page::range(start, end)] of [n] pages that does not
    cross the canonical hole ends after [n] turns and visits exactly the pages
    [start], [start + 1], ..., each once and in order. *)
Theorem page_range_exact s n p :
  canonical p → canonical (p + Z.of_nat n * SIZE s) → (p < 2 ^ 47 → p + Z.of_nat n * SIZE s < 2 ^ 47) →
  p mod SIZE s = 0 →
  ∃ l, collect (page_range_next s) (S n) (mkPageRange p (p + Z.of_nat n * SIZE s)) = Ret l
    ∧ length l = n ∧ NoDup l
    ∧ ∀ q, q ∈ l ↔ q mod SIZE s = 0 ∧ p ≤ q < p + Z.of_nat n * SIZE s.
Proof.
  intros Hp Hq Hh Hm. rewrite page_range_collect by done. eexists. split; [done|].
  assert (0 < SIZE s) as Hs by (destruct s; simpl; lia). split_and!.
  - by rewrite length_fmap, length_seq.
  - apply NoDup_fmap_2; [intros i j; nia|apply NoDup_seq].
  - intros q. rewrite list_elem_of_fmap. setoid_rewrite elem_of_seq. split.
    + intros (i & -> & Hi). split; [by rewrite Z_mod_plus_full|nia].
    + intros [Hqm Hqb]. exists (Z.to_nat ((q - p) / SIZE s)).
      assert ((q - p) mod SIZE s = 0) as Hd by (rewrite Zminus_mod, Hqm, Hm; by rewrite Z.sub_diag, Z.mod_0_l by lia).
      pose proof (Z.div_mod (q - p) (SIZE s) ltac:(lia)).
      assert (0 ≤ (q - p) / SIZE s) by (apply Z.div_pos; lia). split; [lia|]. nia.
Qed.
End bit_field.

(** ** Instances *)
#[local] Existing Instance bit_field_model.
Lemma entry_round_trip_witness :
  ∃ e', set_addr 0 0x1234000 (Z.lor PRESENT NO_EXECUTE) = Ret e' ∧ addr e' = Ret 0x1234000
    ∧ flags e' = Z.lor PRESENT NO_EXECUTE.
Proof.
  destruct (entry_round_trip 0 0x1234000 (Z.lor PRESENT NO_EXECUTE) 0) as (e' & H1 & H2 & H3 & _);
    [by vm_compute..|]. by exists e'.
Defined.

Lemma indices_round_trip_witness :
  ∃ page, from_page_table_indices 256 1 2 3 = Ret page ∧ page = 0xffff800040403000.
Proof.
  destruct (indices_round_trip 256 1 2 3) as (page & H & _); [lia..|]. exists page. split; [done|].
  vm_compute in H. by injection H as <-.
Defined.

Lemma page_range_exact_witness :
  collect (page_range_next Size2MiB) 3 (mkPageRange 0x200000 0x600000) = Ret [0x200000; 0x400000].
Proof.
  destruct (page_range_exact Size2MiB 2 0x200000) as (l & H & _);
    [left; by vm_compute|left; by vm_compute|by vm_compute|done|].
  change (0x200000 + Z.of_nat 2 * SIZE Size2MiB) with 0x600000 in H. rewrite H.
  vm_compute in H. by injection H as <-.
Defined.

(** An inclusive range that ends at the last page of the address space overflows after
    its last page. *)
Lemma page_range_inclusive_last :
  collect (page_range_inclusive_next Size4KiB) 2 (mkPageRange 0xfffffffffffff000 0xfffffffffffff000)
  = Panic Overflow.
Proof. by vm_compute. Qed.
End Paging.
