(* ===== verification/Msr.v ===== *)
(** * crates/x86_64/src/registers/model_specific.rs: model specific registers

    The machine is the map of its model specific registers; [rdmsr] and [wrmsr] of
    an absent register fault.  Registers with flags have the same four operations
    each and are a [flag_register] (their number and the flags they define);
    [Efer] is one, the MTRRs of [Mtrr] are others.  [Syscfg] has 32-bit flags,
    the address registers hold a [VirtAddr], [Star] packs two selectors. *)
From S2P Require Import Prelude Addr.
Import Addr.

Module Msr.

(** ** [Msr::read] and [Msr::write] *)
Abbreviation machine := (gmap Z Z).
(** The instructions: [edx:eax] is the register named by [ecx]. *)
Definition rdmsr (m : machine) (ecx : Z) : run (Z * Z) :=
  match m !! ecx with Some v => Ret (v / 2 ^ 32, v mod 2 ^ 32) | None => Panic Undefined end.
Definition wrmsr (m : machine) (ecx eax edx : Z) : run machine :=
  match m !! ecx with Some _ => Ret (<[ecx := edx * 2 ^ 32 + eax]> m) | None => Panic Undefined end.

(** [((high as u64) << 32) | (low as u64)], and the halves of a u64. *)
Definition join (high low : Z) : Z := Z.lor (ushl 64 high 32) low.
Definition low_half (value : Z) : Z := cast 32 value.
Definition high_half (value : Z) : Z := cast 32 (Z.shiftr value 32).

Definition msr_read (m : machine) (r : Z) : run Z :=
  '(high, low) ← rdmsr m r;
  Ret (join high low).
Definition msr_write (m : machine) (r value : Z) : run machine :=
  wrmsr m r (low_half value) (high_half value).

(** ** Registers with flags *)
Record flag_register := mkFlagReg { MSR : Z; all : Z }.
#[global] Instance flag_register_eq_dec : EqDecision flag_register.
Proof. solve_decision. Defined.
Definition read_raw (m : machine) (r : flag_register) : run Z := msr_read m (MSR r).
Definition write_raw (m : machine) (r : flag_register) (flags : Z) : run machine := msr_write m (MSR r) flags.
Definition write (m : machine) (r : flag_register) (flags : Z) : run machine :=
  old_value ← read_raw m r;
  let reserved := Z.land old_value (unot 64 (all r)) in
  let new_value := Z.lor reserved flags in
  write_raw m r new_value.
Definition read (m : machine) (r : flag_register) : run Z :=
  v ← read_raw m r; Ret (Z.land v (all r)).
Definition update (m : machine) (r : flag_register) (f : Z → Z) : run machine :=
  flags ← read m r; write m r (f flags).

(** Flags as the bits they are. *)
Definition union_of (l : list Z) : Z := foldr Z.lor 0 l.
Definition EferFlags : Z :=
  union_of [1; Z.shiftl 1 8; Z.shiftl 1 10; Z.shiftl 1 11; Z.shiftl 1 12; Z.shiftl 1 13; Z.shiftl 1 14; Z.shiftl 1 15].
Definition Efer : flag_register := {| MSR := 0xc0000080; all := EferFlags |}.

(** ** [Syscfg]: 32-bit flags *)
Definition SyscfgFlags : Z := union_of ((λ k, Z.shiftl 1 k) <$> [18; 19; 20; 21; 22; 23; 24; 25]).
Definition Syscfg : Z := 0xc0010010.
Definition syscfg_read_raw (m : machine) : run Z := v ← msr_read m Syscfg; Ret (cast 32 v).
Definition syscfg_read (m : machine) : run Z := v ← syscfg_read_raw m; Ret (Z.land v SyscfgFlags).
Definition syscfg_write_raw (m : machine) (flags : Z) : run machine := msr_write m Syscfg flags.
Definition syscfg_write (m : machine) (flags : Z) : run machine :=
  old_value ← syscfg_read_raw m;
  let reserved := Z.land old_value (unot 32 SyscfgFlags) in
  let new_value := Z.lor reserved flags in
  syscfg_write_raw m new_value.
Definition syscfg_update (m : machine) (f : Z → Z) : run machine :=
  flags ← syscfg_read m; syscfg_write m (f flags).

(** ** Registers that hold an address *)
Definition FsBase : Z := 0xc0000100.
Definition GsBase : Z := 0xc0000101.
Definition KernelGsBase : Z := 0xc0000102.
Definition LStar : Z := 0xc0000082.
Definition CStar : Z := 0xc0000083.
Definition addr_read {BF : BitField} (m : machine) (r : Z) : run Z := v ← msr_read m r; virt_new v.
Definition addr_write (m : machine) (r address : Z) : run machine := msr_write m r address.

(** ** [SFMask] *)
Definition RFlags : Z :=
  union_of ((λ k, Z.shiftl 1 k) <$> [21; 20; 19; 18; 17; 16; 14; 13; 12; 11; 10; 9; 8; 7; 6; 4; 2; 0]).
Definition rflags_from_bits (bits : Z) : option Z := if Z.land bits (unot 64 RFlags) =? 0 then Some bits else None.
Definition SFMask : Z := 0xc0000084.
Definition sfmask_read (m : machine) : run Z := v ← msr_read m SFMask; unwrap (rflags_from_bits v).
Definition sfmask_write (m : machine) (value : Z) : run machine := msr_write m SFMask value.

(** ** Segment selectors *)
Inductive PrivilegeLevel := Ring0 | Ring1 | Ring2 | Ring3.
#[global] Instance PrivilegeLevel_eq_dec : EqDecision PrivilegeLevel.
Proof. solve_decision. Defined.
Definition ring_number (p : PrivilegeLevel) : Z := match p with Ring0 => 0 | Ring1 => 1 | Ring2 => 2 | Ring3 => 3 end.
Definition privilege_from_u16 (value : Z) : run PrivilegeLevel :=
  if value =? 0 then Ret Ring0 else if value =? 1 then Ret Ring1
  else if value =? 2 then Ret Ring2 else if value =? 3 then Ret Ring3 else Panic Explicit.
Definition selector_new (index : Z) (rpl : PrivilegeLevel) : Z := Z.lor (ushl 16 index 3) (ring_number rpl).
Definition selector_index (s : Z) : Z := Z.shiftr s 3.
Definition selector_rpl {BF : BitField} (s : Z) : run PrivilegeLevel := privilege_from_u16 (get_bits s 0 2).
Definition selector_set_rpl {BF : BitField} (s : Z) (rpl : PrivilegeLevel) : run Z := set_bits s 0 2 (ring_number rpl).

(** ** [Star] *)
Section star.
Context {BF : BitField}.
Definition Star : Z := 0xc0000081.
(** The messages of [Star::write]. *)
Inductive StarError := SysretNotOffset | SyscallNotOffset | SysretNotRing3 | SyscallNotRing0.
#[global] Instance StarError_eq_dec : EqDecision StarError.
Proof. solve_decision. Defined.
(** [u64::try_into::<u16>().unwrap()]. *)
Definition to_u16 (v : Z) : run Z := if v <? 2 ^ 16 then Ret v else Panic Unwrap.
Definition star_read_raw (m : machine) : run (Z * Z) :=
  msr_value ← msr_read m Star;
  let sysret := get_bits msr_value 48 64 in
  let syscall := get_bits msr_value 32 48 in
  a ← to_u16 sysret; b ← to_u16 syscall; Ret (a, b).
Definition star_read (m : machine) : run (Z * Z * Z * Z) :=
  '(r0, r1) ← star_read_raw m;
  a ← uadd 16 r0 16; b ← uadd 16 r0 8; d ← uadd 16 r1 8;
  Ret (a, b, r1, d).
Definition star_write_raw (m : machine) (sysret syscall : Z) : run machine :=
  v ← set_bits 0 48 64 sysret;
  v ← set_bits v 32 48 syscall;
  msr_write m Star v.
Definition star_write (m : machine) (cs_sysret ss_sysret cs_syscall ss_syscall : Z) : run (machine * result unit StarError) :=
  a ← usub cs_sysret 16; b ← usub ss_sysret 8;
  if negb (a =? b) then Ret (m, Err SysretNotOffset) else
  c ← usub ss_syscall 8;
  if negb (cs_syscall =? c) then Ret (m, Err SyscallNotOffset) else
  r3 ← selector_rpl ss_sysret;
  if negb (bool_decide (r3 = Ring3)) then Ret (m, Err SysretNotRing3) else
  r0 ← selector_rpl ss_syscall;
  if negb (bool_decide (r0 = Ring0)) then Ret (m, Err SyscallNotRing0) else
  s ← usub ss_sysret 8;
  m' ← star_write_raw m s cs_syscall;
  Ret (m', Ok tt).
End star.

(** ** Whole registers *)
Lemma halves v : in_width 64 v → high_half v = v / 2 ^ 32 ∧ low_half v = v mod 2 ^ 32.
Proof.
  intros Hv. unfold high_half, low_half, cast, in_width in *. rewrite Z.shiftr_div_pow2 by lia. split; [|done].
  apply Z.mod_small. split; [apply Z.div_pos; lia|apply Z.div_lt_upper_bound; lia].
Qed.
Lemma join_halves v : in_width 64 v → join (v / 2 ^ 32) (v mod 2 ^ 32) = v.
Proof.
  unfold join, ushl, in_width. intros Hv.
  pose proof (Z.div_mod v (2 ^ 32) ltac:(lia)). pose proof (Z.mod_pos_bound v (2 ^ 32) ltac:(lia)).
  rewrite Z.shiftl_mul_pow2, Z.mod_small by lia.
  rewrite (lor_disjoint _ _ 32); [lia|lia|apply Z_mod_mult|done].
Qed.
Lemma msr_read_Ret m r v : m !! r = Some v → in_width 64 v → msr_read m r = Ret v.
Proof. intros Hm Hv. unfold msr_read, rdmsr. rewrite Hm. cbn [mbind run_bind]. by rewrite join_halves. Qed.
Lemma msr_write_Ret m r old v : m !! r = Some old → in_width 64 v → msr_write m r v = Ret (<[r := v]> m).
Proof.
  intros Hm Hv. unfold msr_write, wrmsr. rewrite Hm. destruct (halves v Hv) as [-> ->]. do 2 f_equal.
  pose proof (Z.div_mod v (2 ^ 32) ltac:(lia)). lia.
Qed.

(** A read depends on nothing but its own register. *)
Lemma msr_read_other m r q v : q ≠ r → msr_read (<[q := v]> m) r = msr_read m r.
Proof. intros Hq. unfold msr_read, rdmsr. by rewrite lookup_insert_ne. Qed.

(** ** Registers with flags: reserved bits *)
Lemma testbit_unot w a i : 0 ≤ w → in_width w a → 0 ≤ i < w → Z.testbit (unot w a) i = negb (Z.testbit a i).
Proof.
  intros Hw Ha Hi. unfold unot, umax. replace (2 ^ w - 1) with (Z.ones w) by (rewrite Z.ones_equiv; lia).
  rewrite Z.sub_nocarry_ldiff.
  - rewrite Z.ldiff_spec, Z.ones_spec_low by lia. done.
  - apply Z.bits_inj'. intros j Hj. rewrite Z.ldiff_spec, Z.bits_0. destruct (decide (j < w)).
    + rewrite Z.ones_spec_low by lia. by rewrite andb_false_r.
    + rewrite (testbit_above w a) by (done || lia). done.
Qed.

Lemma lor_width w a b : 0 ≤ w → in_width w a → in_width w b → in_width w (Z.lor a b).
Proof.
  intros Hw Ha Hb. assert (0 ≤ Z.lor a b) as Hn by (apply Z.lor_nonneg; unfold in_width in *; lia).
  split; [done|]. destruct (decide (Z.lor a b = 0)) as [->|]; [by apply pow2_pos|].
  apply Z.log2_lt_pow2; [lia|]. apply Z.nle_gt. intros Hle.
  pose proof (Z.bit_log2 (Z.lor a b) ltac:(lia)) as Hbit. rewrite Z.lor_spec in Hbit.
  by rewrite (testbit_above w a), (testbit_above w b) in Hbit by (done || lia).
Qed.
Lemma land_width w a b : 0 ≤ w → in_width w a → 0 ≤ b → in_width w (Z.land a b).
Proof.
  intros Hw Ha Hb. pose proof (Z.land_nonneg a b) as Hn. split; [apply Hn; left; apply Ha|].
  destruct (decide (Z.land a b = 0)) as [->|]; [by apply pow2_pos|].
  assert (0 < Z.land a b) by (assert (0 ≤ Z.land a b) by (apply Hn; left; apply Ha); lia).
  apply Z.log2_lt_pow2; [lia|]. apply Z.nle_gt. intros Hle.
  pose proof (Z.bit_log2 (Z.land a b) ltac:(lia)) as Hbit. rewrite Z.land_spec in Hbit.
  by rewrite (testbit_above w a) in Hbit by (done || lia).
Qed.

(** Flags a register defines. *)
Definition subset (fl al : Z) : Prop := 0 ≤ fl ∧ Z.land fl al = fl.
Lemma subset_width w fl al : 0 ≤ w → in_width w al → subset fl al → in_width w fl.
Proof. intros Hw Ha [Hf <-]. rewrite Z.land_comm. by apply land_width. Qed.

(** [reserved | flags] holds the flags and the reserved bits of the old value. *)
Lemma merge_bits w old fl al :
  0 ≤ w → in_width w old → in_width w al → subset fl al →
  let new := Z.lor (Z.land old (unot w al)) fl in
  in_width w new ∧ Z.land new al = fl
  ∧ ∀ i, 0 ≤ i < w → Z.testbit al i = false → Z.testbit new i = Z.testbit old i.
Proof.
  intros Hw Ho Ha Hs new. pose proof (subset_width w fl al Hw Ha Hs) as Hfw. destruct Hs as [Hf Hsub]. split; [|split].
  - apply lor_width; [done| |done]. apply land_width; [done..|]. unfold unot, umax, in_width in *. lia.
  - apply Z.bits_inj'. intros i Hi. unfold new. rewrite Z.land_spec, Z.lor_spec, Z.land_spec. rewrite <- Hsub at 2.
    rewrite Z.land_spec. destruct (Z.testbit al i) eqn:Hal; [|by rewrite !andb_false_r].
    destruct (decide (i < w)); [|by rewrite (testbit_above w al) in Hal by (done || lia)].
    rewrite testbit_unot, Hal by (done || lia). cbn [negb]. by rewrite andb_false_r, orb_false_l.
  - intros i Hi Hal. unfold new. rewrite Z.lor_spec, Z.land_spec, testbit_unot, Hal by (done || lia). cbn [negb].
    rewrite <- Hsub, Z.land_spec, Hal, andb_false_r, andb_true_r. apply orb_false_r.
Qed.

Lemma flag_write_spec m r old fl :
  m !! MSR r = Some old → in_width 64 old → in_width 64 (all r) → subset fl (all r) →
  ∃ new, write m r fl = Ret (<[MSR r := new]> m) ∧ in_width 64 new ∧ Z.land new (all r) = fl
    ∧ ∀ i, 0 ≤ i < 64 → Z.testbit (all r) i = false → Z.testbit new i = Z.testbit old i.
Proof.
  intros Hm Ho Ha Hs. destruct (merge_bits 64 old fl (all r)) as (Hw & Hread & Hres); [lia|done..|].
  unfold write, read_raw, write_raw. rewrite (msr_read_Ret m _ old) by done. cbn [mbind run_bind].
  eexists. split; [by eapply msr_write_Ret|]. done.
Qed.
Lemma flag_read_spec m r v : m !! MSR r = Some v → in_width 64 v → read m r = Ret (Z.land v (all r)).
Proof. intros Hm Hv. unfold read, read_raw. by rewrite (msr_read_Ret m _ v). Qed.

(** ** [Syscfg]: [write] keeps the reserved bits of the low half, and clears the high half *)
Lemma syscfg_write_spec m old fl :
  m !! Syscfg = Some old → in_width 64 old → subset fl SyscfgFlags →
  ∃ new, syscfg_write m fl = Ret (<[Syscfg := new]> m) ∧ in_width 32 new ∧ Z.land new SyscfgFlags = fl
    ∧ ∀ i, 0 ≤ i < 32 → Z.testbit SyscfgFlags i = false → Z.testbit new i = Z.testbit old i.
Proof.
  intros Hm Ho Hs. assert (in_width 32 (cast 32 old)) as Hc by (apply Z.mod_pos_bound; lia).
  destruct (merge_bits 32 (cast 32 old) fl SyscfgFlags) as (Hw & Hread & Hres); [lia|done|by vm_compute|done|].
  unfold syscfg_write, syscfg_read_raw, syscfg_write_raw. rewrite (msr_read_Ret m _ old) by done. cbn [mbind run_bind].
  eexists. split; [|split; [exact Hw|split; [exact Hread|]]].
  - eapply msr_write_Ret; [done|]. unfold in_width in *. lia.
  - intros i Hi Hn. rewrite Hres by done. unfold cast. by rewrite Z.mod_pow2_bits_low by lia.
Qed.

(** ** Address registers and [SFMask] *)
Lemma addr_round_trip {BF : BitField} m r old a :
  m !! r = Some old → canonical a → ∃ m', addr_write m r a = Ret m' ∧ addr_read m' r = Ret a.
Proof.
  intros Hm Ha. pose proof (canonical_width a Ha). exists (<[r := a]> m). split; [by eapply msr_write_Ret|].
  unfold addr_read. rewrite (msr_read_Ret _ r a) by (by rewrite ?lookup_insert_eq). by apply virt_new_canonical.
Qed.

(** ** [Star] *)
Section star_properties.
Context {BF : BitField}.

Lemma selector_rpl_spec s : in_width 16 s →
  ∃ p, selector_rpl s = Ret p ∧ ring_number p = s mod 4.
Proof.
  intros Hs. unfold selector_rpl. rewrite get_bits_spec by (unfold in_width in *; lia).
  change (2 ^ 0) with 1. rewrite Z.div_1_r. change (2 ^ (2 - 0)) with 4. pose proof (Z.mod_pos_bound s 4 ltac:(lia)) as Hb.
  unfold privilege_from_u16. zcase; try lia; eexists; (split; [done|]); simpl; lia.
Qed.

(** The packed register: nothing below bit 32. *)
Lemma star_write_raw_spec m old sysret syscall :
  m !! Star = Some old → in_width 16 sysret → in_width 16 syscall →
  star_write_raw m sysret syscall = Ret (<[Star := sysret * 2 ^ 48 + syscall * 2 ^ 32]> m).
Proof.
  intros Hm Hr Hc. unfold in_width in *. unfold star_write_raw.
  rewrite set_bits_low by (unfold in_width; lia || done). cbn [mbind run_bind]. rewrite Z.add_0_l.
  rewrite set_bits_low by (unfold in_width; lia || apply Z_mod_mult). cbn [mbind run_bind].
  eapply msr_write_Ret; [done|]. unfold in_width. lia.
Qed.
Lemma star_read_raw_spec m sysret syscall :
  m !! Star = Some (sysret * 2 ^ 48 + syscall * 2 ^ 32) → in_width 16 sysret → in_width 16 syscall →
  star_read_raw m = Ret (sysret, syscall).
Proof.
  intros Hm Hr Hc. unfold in_width in *. unfold star_read_raw. erewrite msr_read_Ret by (done || unfold in_width; lia).
  cbn [mbind run_bind]. rewrite !get_bits_spec by (unfold in_width; lia).
  replace ((sysret * 2 ^ 48 + syscall * 2 ^ 32) / 2 ^ 48) with sysret
    by (apply (Z.div_unique_pos _ _ _ (syscall * 2 ^ 32)); lia).
  replace ((sysret * 2 ^ 48 + syscall * 2 ^ 32) / 2 ^ 32) with (syscall + sysret * 2 ^ 16)
    by (apply (Z.div_unique_pos _ _ _ 0); lia).
  change (2 ^ (64 - 48)) with (2 ^ 16). change (2 ^ (48 - 32)) with (2 ^ 16).
  rewrite Z_mod_plus_full, !Z.mod_small by lia. unfold to_u16. by rewrite !(proj2 (Z.ltb_lt _ _)) by lia.
Qed.

(** What [sysret] and [syscall] need of the four selectors. *)
Definition star_valid (cs_sysret ss_sysret cs_syscall ss_syscall : Z) : Prop :=
  cs_sysret = ss_sysret + 8 ∧ ss_syscall = cs_syscall + 8 ∧ ss_sysret mod 4 = 3 ∧ ss_syscall mod 4 = 0.

(** [Star::write], for selectors large enough to subtract the offsets from,
    accepts exactly the selectors that are 8 apart with the privileges
    [sysret] and [syscall] need; then [Star::read] returns these four selectors and every
    other register is as before.  Otherwise it reports the first condition that fails and writes nothing. *)
Theorem star_round_trip m old cs_sysret ss_sysret cs_syscall ss_syscall :
  m !! Star = Some old →
  16 ≤ cs_sysret < 2 ^ 16 → 8 ≤ ss_sysret < 2 ^ 16 → 0 ≤ cs_syscall < 2 ^ 16 → 8 ≤ ss_syscall < 2 ^ 16 →
  ∃ m' r, star_write m cs_sysret ss_sysret cs_syscall ss_syscall = Ret (m', r) ∧
    match r with
    | Ok _ => star_valid cs_sysret ss_sysret cs_syscall ss_syscall
        ∧ star_read m' = Ret (cs_sysret, ss_sysret, cs_syscall, ss_syscall)
        ∧ ∀ q, q ≠ Star → m' !! q = m !! q
    | Err e => m' = m ∧
        match e with
        | SysretNotOffset => cs_sysret ≠ ss_sysret + 8
        | SyscallNotOffset => cs_sysret = ss_sysret + 8 ∧ ss_syscall ≠ cs_syscall + 8
        | SysretNotRing3 => cs_sysret = ss_sysret + 8 ∧ ss_syscall = cs_syscall + 8 ∧ ss_sysret mod 4 ≠ 3
        | SyscallNotRing0 => cs_sysret = ss_sysret + 8 ∧ ss_syscall = cs_syscall + 8 ∧ ss_sysret mod 4 = 3
                             ∧ ss_syscall mod 4 ≠ 0
        end
    end.
Proof.
  intros Hm H1 H2 H3 H4. unfold star_write. rewrite !usub_Ret by lia. cbn [mbind run_bind].
  destruct (Z.eqb_spec (cs_sysret - 16) (ss_sysret - 8)) as [E1|E1]; cbn [negb].
  2:{ exists m, (Err SysretNotOffset). split; [done|]. split; [done|lia]. }
  destruct (Z.eqb_spec cs_syscall (ss_syscall - 8)) as [E2|E2]; cbn [negb].
  2:{ exists m, (Err SyscallNotOffset). split; [done|]. split; [done|lia]. }
  destruct (selector_rpl_spec ss_sysret) as (p3 & -> & R3); [unfold in_width; lia|]. cbn [mbind run_bind].
  destruct (bool_decide_reflect (p3 = Ring3)) as [->|N3]; cbn [negb].
  2:{ exists m, (Err SysretNotRing3). split; [done|]. split; [done|]. split; [lia|]. split; [lia|]. destruct p3; simpl in R3; lia || done. }
  destruct (selector_rpl_spec ss_syscall) as (p0 & -> & R0); [unfold in_width; lia|]. cbn [mbind run_bind].
  simpl in R3. destruct (bool_decide_reflect (p0 = Ring0)) as [->|N0]; cbn [negb].
  2:{ exists m, (Err SyscallNotRing0). split; [done|]. split; [done|]. do 3 (split; [lia|]). destruct p0; simpl in R0; lia || done. }
  simpl in R0. rewrite (star_write_raw_spec m old) by (done || unfold in_width; lia). cbn [mbind run_bind].
  eexists _, (Ok tt). split; [done|]. split; [unfold star_valid; lia|]. split.
  - unfold star_read. rewrite (star_read_raw_spec _ (ss_sysret - 8) cs_syscall)
      by (rewrite ?lookup_insert_eq; done || unfold in_width; lia).
    cbn [mbind run_bind]. rewrite !uadd_Ret by lia. cbn [mbind run_bind]. repeat f_equal; lia.
  - intros q Hq. by rewrite lookup_insert_ne.
Qed.
End star_properties.

(** ** Instances *)
#[local] Existing Instance bit_field_model.
Definition star_machine : machine := {[ Star := 0 ]}.
Lemma star_round_trip_witness :
  ∃ m', star_write star_machine 0x2b 0x23 0x8 0x10 = Ret (m', Ok tt) ∧ star_read m' = Ret (0x2b, 0x23, 0x8, 0x10).
Proof.
  destruct (star_round_trip star_machine 0 0x2b 0x23 0x8 0x10) as (m' & r & H & Hr); [reflexivity|lia..|].
  exists m'. destruct r as [[]|e].
  - split; [exact H|apply Hr].
  - vm_compute in H. discriminate H.
Defined.

(** Selectors below the offsets panic instead of being refused. *)
Lemma star_write_underflow : star_write star_machine 0x8 0x0 0x8 0x10 = Panic Overflow.
Proof. by vm_compute. Qed.
(** Reserved bits of the high half are lost. *)
Lemma syscfg_write_clears_high :
  match syscfg_write {[ Syscfg := 0xffff00000001 ]} 0 with Ret m => m !! Syscfg = Some 1 | _ => False end.
Proof. by vm_compute. Qed.
End Msr.
