(* ===== verification/Mtrr.v ===== *)
(** * crates/x86_64/src/registers/mtrr.rs: the memory type range registers

    31 model specific registers with the same four operations each: registers with
    flags ([MTRRcap], [MTRRdefType], the variable ranges) are a [flag_register] of [Msr],
    the fixed ranges are a [fix_register] whose [read] decodes one memory type per byte. *)
From S2P Require Import Prelude Addr Paging Msr.
Import Addr Paging Msr.

Module Mtrr.

(** ** Memory types *)
Inductive MTRRtype := Uncachable | WriteCombining | Writethrough | WriteProtect | WriteBack.
#[global] Instance MTRRtype_eq_dec : EqDecision MTRRtype.
Proof. solve_decision. Defined.
(** [Into<u8>]. *)
Definition type_code (t : MTRRtype) : Z :=
  match t with
  | Uncachable => 0x0 | WriteCombining => 0x1 | Writethrough => 0x4 | WriteProtect => 0x5 | WriteBack => 0x6
  end.
(** [TryFrom<u64>] (and [TryFrom<u8>]). *)
Definition type_try_from (value : Z) : result MTRRtype Z :=
  if value =? 0x0 then Ok Uncachable
  else if value =? 0x1 then Ok WriteCombining
  else if value =? 0x4 then Ok Writethrough
  else if value =? 0x5 then Ok WriteProtect
  else if value =? 0x6 then Ok WriteBack
  else Err value.

Record FixMemRange := mkFixMemRange { fix_range : PageRange; memory_type : MTRRtype }.
#[global] Instance PageRange_eq_dec : EqDecision PageRange.
Proof. solve_decision. Defined.
#[global] Instance FixMemRange_eq_dec : EqDecision FixMemRange.
Proof. solve_decision. Defined.
Definition frame_at {BF : BitField} (a : Z) : run Z :=
  p ← phys_new a; f ← frame_from_start_address Size4KiB p;
  unwrap (match f with Ok f => Some f | Err _ => None end).
Definition fix_new {BF : BitField} (start end_ : Z) (t : MTRRtype) : run FixMemRange :=
  s ← frame_at start;
  e1 ← uadd 64 end_ 1;
  e ← frame_at e1;
  Ret {| fix_range := mkPageRange s e; memory_type := t |}.

(** ** Registers with flags *)
Definition VARIABLE_RANGE_REGISTER_COUNT : Z := 0xff.
Definition FIXED_RANGE_REGISTERS : Z := Z.shiftl 1 8.
Definition WRITE_COMBINING : Z := Z.shiftl 1 10.
Definition MTRRcapFlags : Z := Z.lor (Z.lor VARIABLE_RANGE_REGISTER_COUNT FIXED_RANGE_REGISTERS) WRITE_COMBINING.
Definition DEF_TYPE : Z := 0xff.
Definition FIXED_ENABLE : Z := Z.shiftl 1 10.
Definition MTRR_ENABLE : Z := Z.shiftl 1 11.
Definition MTRRdefTypeFlags : Z := Z.lor (Z.lor DEF_TYPE FIXED_ENABLE) MTRR_ENABLE.
Definition VALID : Z := Z.shiftl 1 11.
Definition PHYS_MASK : Z := Z.shiftl 0xffffffffff 12.
Definition MTRRphysMaskFlags : Z := Z.lor VALID PHYS_MASK.
Definition PHYS_BASE : Z := Z.shiftl 0xffffffffff 12.
Definition BASE_TYPE : Z := 0xff.
Definition MTRRphysBaseFlags : Z := Z.lor PHYS_BASE BASE_TYPE.

Definition MTRRcap : flag_register := {| MSR := 0x00fe; all := MTRRcapFlags |}.
Definition MTRRphysBase0 : flag_register := {| MSR := 0x0200; all := MTRRphysBaseFlags |}.
Definition MTRRphysBase1 : flag_register := {| MSR := 0x0202; all := MTRRphysBaseFlags |}.
Definition MTRRphysBase2 : flag_register := {| MSR := 0x204; all := MTRRphysBaseFlags |}.
Definition MTRRphysBase3 : flag_register := {| MSR := 0x206; all := MTRRphysBaseFlags |}.
Definition MTRRphysBase4 : flag_register := {| MSR := 0x208; all := MTRRphysBaseFlags |}.
Definition MTRRphysBase5 : flag_register := {| MSR := 0x20a; all := MTRRphysBaseFlags |}.
Definition MTRRphysBase6 : flag_register := {| MSR := 0x20c; all := MTRRphysBaseFlags |}.
Definition MTRRphysBase7 : flag_register := {| MSR := 0x20e; all := MTRRphysBaseFlags |}.
Definition MTRRphysMask0 : flag_register := {| MSR := 0x201; all := MTRRphysMaskFlags |}.
Definition MTRRphysMask1 : flag_register := {| MSR := 0x203; all := MTRRphysMaskFlags |}.
Definition MTRRphysMask2 : flag_register := {| MSR := 0x205; all := MTRRphysMaskFlags |}.
Definition MTRRphysMask3 : flag_register := {| MSR := 0x207; all := MTRRphysMaskFlags |}.
Definition MTRRphysMask4 : flag_register := {| MSR := 0x209; all := MTRRphysMaskFlags |}.
Definition MTRRphysMask5 : flag_register := {| MSR := 0x20b; all := MTRRphysMaskFlags |}.
Definition MTRRphysMask6 : flag_register := {| MSR := 0x20d; all := MTRRphysMaskFlags |}.
Definition MTRRphysMask7 : flag_register := {| MSR := 0x20f; all := MTRRphysMaskFlags |}.
Definition MTRRdefType : flag_register := {| MSR := 0x02ff; all := MTRRdefTypeFlags |}.
Definition flag_registers : list flag_register :=
  [MTRRcap; MTRRphysBase0; MTRRphysBase1; MTRRphysBase2; MTRRphysBase3; MTRRphysBase4;
   MTRRphysBase5; MTRRphysBase6; MTRRphysBase7; MTRRphysMask0; MTRRphysMask1; MTRRphysMask2;
   MTRRphysMask3; MTRRphysMask4; MTRRphysMask5; MTRRphysMask6; MTRRphysMask7; MTRRdefType].

(** ** Fixed ranges *)
Record fix_register := mkFixReg { fix_MSR : Z; fix_ranges : list (Z * Z) }.
#[global] Instance fix_register_eq_dec : EqDecision fix_register.
Proof. solve_decision. Defined.
Definition fix_read_raw (m : machine) (r : fix_register) : run Z := msr_read m (fix_MSR r).
Definition fix_write_raw (m : machine) (r : fix_register) (flags : Z) : run machine := msr_write m (fix_MSR r) flags.
(** [(r & (0xff << k)) >> k]. *)
Definition fix_field (r k : Z) : Z := Z.shiftr (Z.land r (ushl 64 0xff k)) k.
(** The ranges of a register, from the byte at bit [k] on. *)
Fixpoint fix_decode {BF : BitField} (r k : Z) (ranges : list (Z * Z)) : run (list FixMemRange) :=
  match ranges with
  | [] => Ret []
  | (s, e) :: ranges' =>
      t ← unwrap (match type_try_from (fix_field r k) with Ok t => Some t | Err _ => None end);
      f ← fix_new s e t;
      rest ← fix_decode r (k + 8) ranges';
      Ret (f :: rest)
  end.
Definition fix_read {BF : BitField} (m : machine) (reg : fix_register) : run (list FixMemRange) :=
  r ← fix_read_raw m reg; fix_decode r 0 (fix_ranges reg).

Definition MTRRfix64K00000 : fix_register := {| fix_MSR := 0x250; fix_ranges :=
  [(0x00000, 0x0ffff); (0x10000, 0x1ffff); (0x20000, 0x2ffff); (0x30000, 0x3ffff);
   (0x40000, 0x4ffff); (0x50000, 0x5ffff); (0x60000, 0x6ffff); (0x70000, 0x7ffff)] |}.
Definition MTRRfix16K80000 : fix_register := {| fix_MSR := 0x258; fix_ranges :=
  [(0x80000, 0x83fff); (0x84000, 0x87fff); (0x88000, 0x8bfff); (0x8c000, 0x8ffff);
   (0x90000, 0x93fff); (0x94000, 0x97fff); (0x98000, 0x9bfff); (0x9c000, 0x9ffff)] |}.
Definition MTRRfix16KA0000 : fix_register := {| fix_MSR := 0x259; fix_ranges :=
  [(0xa0000, 0xa3fff); (0xa4000, 0xa7fff); (0xa8000, 0xabfff); (0xac000, 0xaffff);
   (0xb0000, 0xb3fff); (0xb4000, 0xb7fff); (0xb8000, 0xbbfff); (0xbc000, 0xbffff)] |}.
Definition MTRRfix4KC0000 : fix_register := {| fix_MSR := 0x268; fix_ranges :=
  [(0xc0000, 0xc0fff); (0xc1000, 0xc1fff); (0xc2000, 0xc2fff); (0xc3000, 0xc3fff);
   (0xc4000, 0xc4fff); (0xc5000, 0xc5fff); (0xc6000, 0xcfff); (0xc7000, 0xc7fff)] |}.
Definition MTRRfix4KC8000 : fix_register := {| fix_MSR := 0x269; fix_ranges :=
  [(0xc8000, 0xc8fff); (0xc9000, 0xc9fff); (0xca000, 0xcafff); (0xcb000, 0xcbfff);
   (0xcc000, 0xccfff); (0xcd000, 0xcdfff); (0xce000, 0xcefff); (0xcf000, 0xcffff)] |}.
Definition MTRRfix4KD0000 : fix_register := {| fix_MSR := 0x26a; fix_ranges :=
  [(0xd0000, 0xd0fff); (0xd1000, 0xd1fff); (0xd2000, 0xd2fff); (0xd3000, 0xd3fff);
   (0xd4000, 0xd4fff); (0xd5000, 0xd5fff); (0xd6000, 0xd6fff); (0xd7000, 0xd7fff)] |}.
Definition MTRRfix4KD8000 : fix_register := {| fix_MSR := 0x26b; fix_ranges :=
  [(0xd8000, 0xd8fff); (0xd9000, 0xd9fff); (0xda000, 0xdafff); (0xdb000, 0xdbfff);
   (0xdc000, 0xdcfff); (0xdd000, 0xddfff); (0xde000, 0xdefff); (0xdf000, 0xdffff)] |}.
Definition MTRRfix4KE0000 : fix_register := {| fix_MSR := 0x26c; fix_ranges :=
  [(0xe0000, 0xe0fff); (0xe1000, 0xe1fff); (0xe2000, 0xe2fff); (0xe3000, 0xe3fff);
   (0xe4000, 0xe4fff); (0xe5000, 0xe5fff); (0xe6000, 0xe6fff); (0xe7000, 0xe7fff)] |}.
Definition MTRRfix4KE8000 : fix_register := {| fix_MSR := 0x26d; fix_ranges :=
  [(0xe8000, 0xe8fff); (0xe9000, 0xe9fff); (0xea000, 0xeafff); (0xea000, 0xeafff);
   (0xeb000, 0xebfff); (0xec000, 0xecfff); (0xed000, 0xedfff); (0xee000, 0xeefff)] |}.
Definition MTRRfix4KF0000 : fix_register := {| fix_MSR := 0x26e; fix_ranges :=
  [(0xf0000, 0xf0fff); (0xf1000, 0xf1fff); (0xf2000, 0xf2fff); (0xf3000, 0xf3fff);
   (0xf4000, 0xf4fff); (0xf5000, 0xf5fff); (0xf6000, 0xf6fff); (0xf7000, 0xf7fff)] |}.
Definition MTRRfix4KF8000 : fix_register := {| fix_MSR := 0x26f; fix_ranges :=
  [(0xf8000, 0xf8fff); (0xf9000, 0xf9fff); (0xfa000, 0xfafff); (0xfb000, 0xfbfff);
   (0xfc000, 0xfcfff); (0xfd000, 0xfdfff); (0xfe000, 0xfefff); (0xff000, 0xfffff)] |}.
Definition fix_registers : list fix_register :=
  [MTRRfix64K00000; MTRRfix16K80000; MTRRfix16KA0000; MTRRfix4KC0000;
   MTRRfix4KC8000; MTRRfix4KD0000; MTRRfix4KD8000; MTRRfix4KE0000;
   MTRRfix4KE8000; MTRRfix4KF0000; MTRRfix4KF8000].

(** ** Registers with flags: reserved bits *)
Definition known (r : flag_register) : Prop := in_width 64 (all r).
Lemma known_registers r : r ∈ Efer :: flag_registers → known r.
Proof. revert r. apply Forall_forall. unfold flag_registers, known. repeat constructor; by vm_compute. Qed.

(** Every register has a number of its own. *)
Lemma msr_numbers : NoDup ((MSR <$> Efer :: flag_registers) ++ (fix_MSR <$> fix_registers)).
Proof. apply (bool_decide_unpack _). by vm_compute. Qed.
Lemma MSR_inj r r' : r ∈ Efer :: flag_registers → r' ∈ Efer :: flag_registers → MSR r = MSR r' → r = r'.
Proof.
  pose proof msr_numbers as Hn. apply NoDup_app in Hn as (Hn & _ & _).
  intros Hr Hr' Heq. apply list_elem_of_lookup in Hr as [i Hi], Hr' as [j Hj].
  assert (i = j) as ->; [|congruence].
  eapply NoDup_lookup; [exact Hn|..]; rewrite list_lookup_fmap; [by rewrite Hi|by rewrite Hj, Heq].
Qed.

Lemma MSR_fix r x : r ∈ Efer :: flag_registers → x ∈ fix_registers → MSR r ≠ fix_MSR x.
Proof.
  intros Hr Hx Heq. pose proof msr_numbers as Hn. apply NoDup_app in Hn as (_ & Hn & _). apply (Hn (MSR r)).
  - by apply list_elem_of_fmap_2.
  - rewrite Heq. by apply list_elem_of_fmap_2.
Qed.

(** [write] of [Efer] or of any of the 18 MTRRs with flags, with bits the register
    has, succeeds; reading the register gives the written flags, its reserved
    bits are as before, and every other register reads as before. *)
Theorem mtrr_write_preserves {BF : BitField} m r old fl :
  r ∈ Efer :: flag_registers → m !! MSR r = Some old → in_width 64 old → subset fl (all r) →
  ∃ m' new, write m r fl = Ret m' ∧ read m' r = Ret fl
    ∧ m' !! MSR r = Some new ∧ (∀ i, 0 ≤ i < 64 → Z.testbit (all r) i = false → Z.testbit new i = Z.testbit old i)
    ∧ (∀ r', r' ∈ Efer :: flag_registers → r' ≠ r → read m' r' = read m r')
    ∧ ∀ x, x ∈ fix_registers → fix_read m' x = fix_read m x.
Proof.
  intros Hr Hm Ho Hs. destruct (flag_write_spec m r old fl Hm Ho (known_registers r Hr) Hs) as (new & -> & Hw & Hread & Hres).
  exists (<[MSR r := new]> m), new. split; [done|]. rewrite lookup_insert_eq.
  split; [by rewrite (flag_read_spec _ r new), Hread by (by rewrite ?lookup_insert_eq)|]. split; [done|]. split; [done|]. split.
  - intros r' Hr' Hne. unfold read, read_raw. rewrite msr_read_other; [done|]. intros Heq. apply Hne. symmetry. by apply MSR_inj.
  - intros x Hx. unfold fix_read, fix_read_raw. rewrite msr_read_other; [done|]. by apply MSR_fix.
Qed.


(** ** Fixed ranges *)
(** The register value that holds the types [ts], the first in the lowest byte. *)
Fixpoint pack (ts : list MTRRtype) : Z :=
  match ts with [] => 0 | t :: ts' => type_code t + 256 * pack ts' end.

Lemma type_code_range t : 0 ≤ type_code t < 256.
Proof. destruct t; simpl; lia. Qed.
Lemma pack_width ts : length ts = 8%nat → in_width 64 (pack ts).
Proof.
  intros Hts. assert (∀ l, 0 ≤ pack l < 2 ^ (8 * Z.of_nat (length l))) as H.
  { induction l as [|t l IH]; [done|]. cbn [pack length]. pose proof (type_code_range t).
    replace (8 * Z.of_nat (S (length l))) with (8 + 8 * Z.of_nat (length l)) by lia. rewrite Z.pow_add_r by lia. lia. }
  specialize (H ts). by rewrite Hts in H.
Qed.
Lemma type_try_from_code t : type_try_from (type_code t) = Ok t.
Proof. by destruct t. Qed.
Lemma type_try_from_Ok v t : type_try_from v = Ok t → v = type_code t.
Proof.
  unfold type_try_from. destruct (Z.eqb_spec v 0); [by intros [= <-]|]. destruct (Z.eqb_spec v 1); [by intros [= <-]|].
  destruct (Z.eqb_spec v 4); [by intros [= <-]|]. destruct (Z.eqb_spec v 5); [by intros [= <-]|].
  destruct (Z.eqb_spec v 6); [by intros [= <-]|done].
Qed.

Lemma fix_field_spec r k : 0 ≤ k ≤ 56 → fix_field r k = r / 2 ^ k mod 256.
Proof.
  intros Hk. unfold fix_field, ushl. rewrite Z.mod_small.
  2:{ rewrite Z.shiftl_mul_pow2 by lia. pose proof (pow2_pos k ltac:(lia)).
      pose proof (Z.pow_le_mono_r 2 k 56 ltac:(lia) ltac:(lia)). nia. }
  rewrite Z.shiftr_land, Z.shiftr_shiftl_l, Z.sub_diag by lia. change (Z.shiftl 0xff 0) with (2 ^ 8 - 1).
  rewrite land_mask by lia. by rewrite Z.shiftr_div_pow2 by lia.
Qed.

Lemma pack_byte ts : ∀ i t, ts !! i = Some t → pack ts / 2 ^ (8 * Z.of_nat i) mod 256 = type_code t.
Proof.
  induction ts as [|t0 ts IH]; intros i t Hi; [done|]. pose proof (type_code_range t0). cbn [pack]. destruct i as [|i]; simpl in Hi.
  - injection Hi as ->. change (2 ^ (8 * Z.of_nat 0)) with 1. rewrite Z.div_1_r, Z.mul_comm, Z_mod_plus_full.
    by apply Z.mod_small.
  - replace (8 * Z.of_nat (S i)) with (8 + 8 * Z.of_nat i) by lia. rewrite Z.pow_add_r by lia.
    rewrite <- Z.div_div by lia. change (2 ^ 8) with 256. rewrite (Z.mul_comm 256), Z.div_add by lia.
    rewrite (Z.div_small (type_code t0)) by lia. by apply IH.
Qed.

(** The ranges of a register are aligned physical frames. *)
Definition range_ok (p : Z * Z) : Prop := 0 ≤ p.1 < 2 ^ 52 ∧ p.1 mod 4096 = 0 ∧ 0 ≤ p.2 < 2 ^ 52 - 1 ∧ (p.2 + 1) mod 4096 = 0.
#[local] Instance range_ok_dec p : Decision (range_ok p).
Proof. unfold range_ok. apply _. Defined.
Lemma registers_ok x : x ∈ fix_registers → length (fix_ranges x) = 8%nat ∧ Forall range_ok (fix_ranges x).
Proof. revert x. apply Forall_forall. apply (bool_decide_unpack _). by vm_compute. Qed.

Definition decoded (p : Z * Z) (t : MTRRtype) : FixMemRange :=
  {| fix_range := mkPageRange p.1 (p.2 + 1); memory_type := t |}.
Lemma frame_at_spec {BF : BitField} a : 0 ≤ a < 2 ^ 52 → a mod 4096 = 0 → frame_at a = Ret a.
Proof.
  intros Ha Hm. unfold frame_at. rewrite phys_new_spec by (unfold in_width; lia). rewrite decide_True by done.
  cbn [mbind run_bind]. unfold frame_from_start_address, phys_is_aligned. rewrite SIZE_pow at 1.
  rewrite is_aligned_spec by (unfold in_width; lia). cbn [mbind run_bind]. change (2 ^ 12) with 4096.
  rewrite bool_decide_eq_true_2 by done. cbn [negb]. by rewrite frame_containing_page by done.
Qed.
Lemma fix_new_spec {BF : BitField} p t : range_ok p → fix_new p.1 p.2 t = Ret (decoded p t).
Proof.
  intros (H1 & H2 & H3 & H4). unfold fix_new. rewrite frame_at_spec by done. cbn [mbind run_bind].
  rewrite uadd_Ret by lia. cbn [mbind run_bind]. by rewrite frame_at_spec by (done || lia).
Qed.

(** Decoding from byte [n] on. *)
Lemma fix_decode_spec {BF : BitField} r ts : ∀ ranges n,
  (n + length ranges ≤ 8)%nat → Forall range_ok ranges → length ts = length ranges →
  (∀ i t, ts !! i = Some t → r / 2 ^ (8 * Z.of_nat (n + i)) mod 256 = type_code t) →
  fix_decode r (8 * Z.of_nat n) ranges = Ret (zip_with decoded ranges ts).
Proof.
  revert ts. intros ts ranges. revert ts. induction ranges as [|[s e] ranges IH]; intros ts n Hn Hok Hlen Hty.
  { by destruct ts. }
  destruct ts as [|t ts]; [done|]. apply Forall_cons in Hok as [Hse Hok]. simpl in Hn. cbn [fix_decode].
  rewrite fix_field_spec by lia. pose proof (Hty 0%nat t eq_refl) as H0. rewrite Nat.add_0_r in H0. rewrite H0.
  rewrite type_try_from_code. cbn [mbind run_bind unwrap]. rewrite (fix_new_spec (s, e)) by done. cbn [mbind run_bind].
  replace (8 * Z.of_nat n + 8) with (8 * Z.of_nat (S n)) by lia.
  rewrite (IH ts (S n)); [done|lia|done|by injection Hlen|]. intros i t' Hi. rewrite <- (Hty (S i) t' Hi). do 3 f_equal. lia.
Qed.

(** For each of the eleven fixed-range MTRRs, writing any eight memory types
    and reading the register back never panics and yields these types, one for
    each of its ranges, in order, and leaves every other register alone. *)
Theorem fix_round_trip {BF : BitField} m x old ts :
  x ∈ fix_registers → m !! fix_MSR x = Some old → length ts = 8%nat →
  ∃ m', fix_write_raw m x (pack ts) = Ret m' ∧ fix_read m' x = Ret (zip_with decoded (fix_ranges x) ts)
    ∧ ∀ q, q ≠ fix_MSR x → m' !! q = m !! q.
Proof.
  intros Hx Hm Hts. destruct (registers_ok x Hx) as [Hl Hok]. unfold fix_write_raw.
  assert (in_width 64 (pack ts)) as Hw by (by apply (pack_width ts)).
  eexists. split; [by eapply msr_write_Ret|]. split; [|intros q Hq; by rewrite lookup_insert_ne].
  unfold fix_read, fix_read_raw. rewrite (msr_read_Ret _ _ (pack ts)) by (by rewrite ?lookup_insert_eq). cbn [mbind run_bind].
  apply (fix_decode_spec (pack ts) ts (fix_ranges x) 0); [lia|done|congruence|]. intros i t Hi. by apply pack_byte.
Qed.

(** ** Instances *)
#[local] Existing Instance bit_field_model.
Definition sample_machine : machine := {[ 0x2ff := 0xf000000000000c06; 0x201 := 0 ]}.
Lemma mtrr_write_preserves_witness :
  ∃ m' new, write sample_machine MTRRdefType 0x800 = Ret m' ∧ m' !! 0x2ff = Some new ∧ new = 0xf000000000000800.
Proof.
  destruct (mtrr_write_preserves sample_machine MTRRdefType 0xf000000000000c06 0x800) as (m' & new & H & _ & Hn & _).
  - by apply (bool_decide_unpack _).
  - reflexivity.
  - by vm_compute.
  - by vm_compute.
  - exists m', new. split; [done|]. split; [done|]. vm_compute in H. injection H as <-. by vm_compute in Hn; injection Hn as <-.
Defined.

Lemma fix_round_trip_witness :
  ∃ m', fix_write_raw {[ 0x268 := 0 ]} MTRRfix4KC0000 (pack (replicate 8 WriteBack)) = Ret m'
    ∧ fix_read m' MTRRfix4KC0000 = Ret (zip_with decoded (fix_ranges MTRRfix4KC0000) (replicate 8 WriteBack)).
Proof.
  destruct (fix_round_trip {[ 0x268 := 0 ]} MTRRfix4KC0000 0 (replicate 8 WriteBack)) as (m' & H & Hr & _).
  - by apply (bool_decide_unpack _).
  - reflexivity.
  - reflexivity.
  - by exists m'.
Defined.

(** ** The layout of the fixed ranges

    The ranges of a register should follow each other without a gap from the
    address in its name.  Two tables do not. *)
Definition contiguous (l : list (Z * Z)) : Prop :=
  Forall (λ p, p.1 ≤ p.2) l ∧ Forall (λ p : (Z * Z) * (Z * Z), p.1.2 + 1 = p.2.1) (zip l (tail l)).
#[local] Instance contiguous_dec l : Decision (contiguous l).
Proof. unfold contiguous. apply _. Defined.
Lemma fixed_ranges_contiguous x :
  x ∈ fix_registers → x ≠ MTRRfix4KC0000 → x ≠ MTRRfix4KE8000 → contiguous (fix_ranges x).
Proof.
  intros Hx H1 H2. assert (Forall (λ x, x = MTRRfix4KC0000 ∨ x = MTRRfix4KE8000 ∨ contiguous (fix_ranges x)) fix_registers) as Hall
    by (apply (bool_decide_unpack _); by vm_compute).
  rewrite Forall_forall in Hall. destruct (Hall x Hx) as [?|[?|?]]; done.
Qed.
Lemma fix4KC0000_inverted : fix_ranges MTRRfix4KC0000 !! 6%nat = Some (0xc6000, 0xcfff).
Proof. reflexivity. Qed.
Lemma fix4KE8000_repeats :
  fix_ranges MTRRfix4KE8000 !! 2%nat = fix_ranges MTRRfix4KE8000 !! 3%nat
  ∧ Forall (λ p, p.2 < 0xef000) (fix_ranges MTRRfix4KE8000).
Proof. split; [reflexivity|]. apply (bool_decide_unpack _). by vm_compute. Qed.
End Mtrr.
