(* ===== verification/Control.v ===== *)
(** * crates/x86_64/src/registers/{control,xcontrol,rflags}.rs and instructions/tlb.rs

    The control registers of a core.  [Cr0], [Cr4], [Cr8] and [RFLAGS] have the same
    operations and are a [control_register]: where the value is kept and which flags it
    defines.  [XCr0] checks the flags before it writes, [Cr3] holds a frame and either
    flags or a process context identifier. *)
From S2P Require Import Prelude Addr Paging Msr.
Import Addr Paging Msr.

Module Control.

(** ** A core *)
Record DescriptorTablePointer := mkPointer { limit : Z; base : Z }.
Record cpu := mkCpu {
  msrs : machine;
  cr0 : Z; cr2 : Z; cr3 : Z; cr4 : Z; cr8 : Z;
  xcr0 : Z;
  rflags : Z;
  gdtr : DescriptorTablePointer; idtr : DescriptorTablePointer
}.
Definition set_cr0 (c : cpu) (v : Z) : cpu := mkCpu (msrs c) v (cr2 c) (cr3 c) (cr4 c) (cr8 c) (xcr0 c) (rflags c) (gdtr c) (idtr c).
Definition set_cr3 (c : cpu) (v : Z) : cpu := mkCpu (msrs c) (cr0 c) (cr2 c) v (cr4 c) (cr8 c) (xcr0 c) (rflags c) (gdtr c) (idtr c).
Definition set_cr4 (c : cpu) (v : Z) : cpu := mkCpu (msrs c) (cr0 c) (cr2 c) (cr3 c) v (cr8 c) (xcr0 c) (rflags c) (gdtr c) (idtr c).
Definition set_cr8 (c : cpu) (v : Z) : cpu := mkCpu (msrs c) (cr0 c) (cr2 c) (cr3 c) (cr4 c) v (xcr0 c) (rflags c) (gdtr c) (idtr c).
Definition set_xcr0 (c : cpu) (v : Z) : cpu := mkCpu (msrs c) (cr0 c) (cr2 c) (cr3 c) (cr4 c) (cr8 c) v (rflags c) (gdtr c) (idtr c).
Definition set_rflags (c : cpu) (v : Z) : cpu := mkCpu (msrs c) (cr0 c) (cr2 c) (cr3 c) (cr4 c) (cr8 c) (xcr0 c) v (gdtr c) (idtr c).

(** ** [Cr0], [Cr4], [Cr8] and [RFLAGS] *)
Record control_register := mkControl { get : cpu → Z; set : cpu → Z → cpu; defined : Z }.
Definition ctl_read_raw (r : control_register) (c : cpu) : Z := get r c.
Definition ctl_write_raw (r : control_register) (c : cpu) (value : Z) : cpu := set r c value.
Definition ctl_read (r : control_register) (c : cpu) : Z := Z.land (ctl_read_raw r c) (defined r).
Definition ctl_write (r : control_register) (c : cpu) (flags : Z) : cpu :=
  let old_value := ctl_read_raw r c in
  let reserved := Z.land old_value (unot 64 (defined r)) in
  let new_value := Z.lor reserved flags in
  ctl_write_raw r c new_value.
Definition ctl_update (r : control_register) (c : cpu) (f : Z → Z) : cpu :=
  let flags := ctl_read r c in ctl_write r c (f flags).

Definition bits_of (l : list Z) : Z := union_of ((λ k, Z.shiftl 1 k) <$> l).
Definition Cr8Flags : Z := 0xf.
Definition Cr0Flags : Z := bits_of [0; 1; 2; 3; 4; 5; 16; 18; 29; 30; 31].
Definition Cr3Flags : Z := bits_of [3; 4].
Definition Cr4Flags : Z :=
  bits_of [0; 1; 2; 3; 4; 5; 6; 7; 8; 9; 10; 11; 12; 13; 14; 16; 17; 18; 19; 20; 21; 22; 22; 23; 24].
Definition Cr8 : control_register := mkControl cr8 set_cr8 Cr8Flags.
Definition Cr0 : control_register := mkControl cr0 set_cr0 Cr0Flags.
Definition Cr4 : control_register := mkControl cr4 set_cr4 Cr4Flags.
Definition RFLAGS : control_register := mkControl rflags set_rflags RFlags.

(** ** [XCr0] *)
Definition X87 : Z := 1.
Definition SSE : Z := Z.shiftl 1 1.
Definition AVX : Z := Z.shiftl 1 2.
Definition BNDREG : Z := Z.shiftl 1 3.
Definition BNDCSR : Z := Z.shiftl 1 4.
Definition OPMASK : Z := Z.shiftl 1 5.
Definition ZMM_HI256 : Z := Z.shiftl 1 6.
Definition HI16_ZMM : Z := Z.shiftl 1 7.
Definition MPK : Z := Z.shiftl 1 9.
Definition LWP : Z := Z.shiftl 1 62.
Definition XCr0Flags : Z := union_of [X87; SSE; AVX; BNDREG; BNDCSR; OPMASK; ZMM_HI256; HI16_ZMM; MPK; LWP].
Definition intersects (flags other : Z) : bool := negb (Z.land flags other =? 0).
(** [xgetbv] and [xsetbv] move the halves. *)
Definition xcr0_read_raw (c : cpu) : Z := join (xcr0 c / 2 ^ 32) (xcr0 c mod 2 ^ 32).
Definition xcr0_read (c : cpu) : Z := Z.land (xcr0_read_raw c) XCr0Flags.
Definition xcr0_write_raw (c : cpu) (value : Z) : cpu := set_xcr0 c (high_half value * 2 ^ 32 + low_half value).
Definition xcr0_write (c : cpu) (flags : Z) : run cpu :=
  let old_value := xcr0_read_raw c in
  let reserved := Z.land old_value (unot 64 XCr0Flags) in
  let new_value := Z.lor reserved flags in
  _ ← rust_assert (contains flags X87);
  _ ← (if contains flags AVX then rust_assert (contains flags SSE) else Ret tt);
  let mpx := Z.lor BNDREG BNDCSR in
  _ ← (if intersects flags mpx then rust_assert (contains flags mpx) else Ret tt);
  let avx512 := Z.lor (Z.lor OPMASK ZMM_HI256) HI16_ZMM in
  _ ← (if intersects flags avx512 then
         _ ← rust_assert (contains flags AVX); rust_assert (contains flags avx512)
       else Ret tt);
  Ret (xcr0_write_raw c new_value).

(** ** [Cr2] and [Cr3] *)
Section addresses.
Context {BF : BitField}.
Definition cr2_read (c : cpu) : run Z := virt_new (cr2 c).
Definition cr3_read_raw (c : cpu) : run (Z * Z) :=
  let value := cr3 c in
  a ← phys_new (Z.land value 0x000ffffffffff000);
  f ← frame_containing_address Size4KiB a;
  Ret (f, cast 16 (Z.land value 0xfff)).
Definition cr3_read (c : cpu) : run (Z * Z) :=
  '(f, value) ← cr3_read_raw c; Ret (f, Z.land value Cr3Flags).
(** [Pcid::new]. *)
Definition pcid_new (pcid : Z) : option Z := if 4096 <=? pcid then None else Some pcid.
Definition cr3_read_pcid (c : cpu) : run (Z * Z) :=
  '(f, value) ← cr3_read_raw c; p ← unwrap (pcid_new value); Ret (f, p).
Definition cr3_write_raw (c : cpu) (f val : Z) : cpu := set_cr3 c (Z.lor f val).
Definition cr3_write (c : cpu) (f flags : Z) : cpu := cr3_write_raw c f (cast 16 flags).
Definition cr3_write_pcid (c : cpu) (f pcid : Z) : cpu := cr3_write_raw c f pcid.
(** [tlb::flush_all]. *)
Definition flush_all (c : cpu) : run cpu := '(f, flags) ← cr3_read c; Ret (cr3_write c f flags).
End addresses.

(** ** [Cr0], [Cr4], [Cr8] and [RFLAGS]: reserved bits *)
Inductive name := NCr0 | NCr4 | NCr8 | NRflags.
#[global] Instance name_eq_dec : EqDecision name.
Proof. solve_decision. Defined.
Definition register (n : name) : control_register :=
  match n with NCr0 => Cr0 | NCr4 => Cr4 | NCr8 => Cr8 | NRflags => RFLAGS end.

Lemma register_laws n c v :
  in_width 64 (defined (register n)) ∧ get (register n) (set (register n) c v) = v
  ∧ (∀ n', n' ≠ n → get (register n') (set (register n) c v) = get (register n') c)
  ∧ cr2 (set (register n) c v) = cr2 c ∧ cr3 (set (register n) c v) = cr3 c
  ∧ xcr0 (set (register n) c v) = xcr0 c ∧ msrs (set (register n) c v) = msrs c.
Proof.
  split; [destruct n; by vm_compute|]. split; [by destruct n|]. split; [|by destruct n].
  intros n' Hn. by destruct n, n'.
Qed.

(** [update] of [Cr0], [Cr4] or [Cr8], and a read, modify and
    [write] of [RFLAGS], with a function that yields flags the register defines:
    reading the register returns these flags, its reserved bits are as before and
    so is every other register of the core. *)
Theorem control_update_preserves n c f :
  in_width 64 (get (register n) c) → subset (f (ctl_read (register n) c)) (defined (register n)) →
  ∃ c', ctl_update (register n) c f = c' ∧ ctl_read (register n) c' = f (ctl_read (register n) c)
    ∧ (∀ i, 0 ≤ i < 64 → Z.testbit (defined (register n)) i = false →
         Z.testbit (get (register n) c') i = Z.testbit (get (register n) c) i)
    ∧ (∀ n', n' ≠ n → get (register n') c' = get (register n') c)
    ∧ cr2 c' = cr2 c ∧ cr3 c' = cr3 c ∧ xcr0 c' = xcr0 c ∧ msrs c' = msrs c.
Proof.
  intros Hw Hs. eexists. split; [done|]. unfold ctl_update, ctl_write, ctl_write_raw, ctl_read_raw.
  set (new := Z.lor _ _). destruct (register_laws n c new) as (Hd & Hg & Hother).
  destruct (merge_bits 64 (get (register n) c) (f (ctl_read (register n) c)) (defined (register n)))
    as (_ & Hread & Hres); [lia|done..|].
  split; [|split; [|done]].
  - unfold ctl_read at 1, ctl_read_raw. by rewrite Hg.
  - intros i Hi Hn. rewrite Hg. by apply Hres.
Qed.

(** ** [XCr0] *)
Lemma has_all_spec f o : contains f o = true ↔ ∀ i, 0 ≤ i → Z.testbit o i = true → Z.testbit f i = true.
Proof.
  unfold contains. rewrite Z.eqb_eq. split.
  - intros <- i Hi. rewrite Z.land_spec. by intros [? _]%andb_true_iff.
  - intros H. apply Z.bits_inj'. intros i Hi. rewrite Z.land_spec. destruct (Z.testbit o i) eqn:Ho; [|apply andb_false_r].
    by rewrite H.
Qed.
Lemma has_all_lor f a b : contains f (Z.lor a b) = contains f a && contains f b.
Proof.
  apply eq_true_iff_eq. rewrite andb_true_iff, !has_all_spec. split.
  - intros H. split; intros i Hi Hb; apply H; [done| |done|]; rewrite Z.lor_spec, Hb; [done|apply orb_true_r].
  - intros [H1 H2] i Hi. rewrite Z.lor_spec. intros [?|?]%orb_true_iff; auto.
Qed.
Lemma testbit_bit k i : 0 ≤ k → 0 ≤ i → Z.testbit (Z.shiftl 1 k) i = bool_decide (i = k).
Proof.
  intros Hk Hi. rewrite Z.shiftl_1_l, Z.pow2_bits_eqb by done. case_bool_decide; [by apply Z.eqb_eq|apply Z.eqb_neq; lia].
Qed.
Lemma has_bit f k : 0 ≤ k → contains f (Z.shiftl 1 k) = Z.testbit f k.
Proof.
  intros Hk. apply eq_true_iff_eq. rewrite has_all_spec. split.
  - intros H. apply H; [done|]. rewrite testbit_bit by done. by apply bool_decide_eq_true.
  - intros H i Hi. rewrite testbit_bit by done. by intros ->%bool_decide_eq_true.
Qed.
Lemma intersects_lor f a b : intersects f (Z.lor a b) = intersects f a || intersects f b.
Proof.
  unfold intersects. rewrite Z.land_lor_distr_r. rewrite <- negb_andb. f_equal. apply eq_true_iff_eq.
  rewrite andb_true_iff, !Z.eqb_eq. apply Z.lor_eq_0_iff.
Qed.
Lemma intersects_bit f k : 0 ≤ k → intersects f (Z.shiftl 1 k) = Z.testbit f k.
Proof.
  intros Hk. rewrite <- has_bit by done. unfold intersects, contains. rewrite Z.shiftl_1_l.
  destruct (Z.testbit f k) eqn:Hb.
  - assert (Z.land f (2 ^ k) = 2 ^ k) as ->; [|pose proof (pow2_pos k Hk); zcase; lia || done].
    apply Z.bits_inj'. intros i Hi. rewrite Z.land_spec, Z.pow2_bits_eqb by done.
    destruct (Z.eqb_spec k i) as [<-|]; [by rewrite Hb|apply andb_false_r].
  - assert (Z.land f (2 ^ k) = 0) as ->; [|pose proof (pow2_pos k Hk); zcase; lia || done].
    apply Z.bits_inj'. intros i Hi. rewrite Z.land_spec, Z.pow2_bits_eqb, Z.bits_0 by done.
    destruct (Z.eqb_spec k i) as [<-|]; [by rewrite Hb|apply andb_false_r].
Qed.

(** The combinations of state components the processor accepts. *)
Definition xcr0_valid (flags : Z) : bool :=
  let b := Z.testbit flags in
  b 0 && implb (b 2) (b 1) && eqb (b 3) (b 4) && eqb (b 5) (b 6) && eqb (b 6) (b 7) && implb (b 5) (b 2).

Lemma xcr0_write_cases c flags :
  xcr0_write c flags =
  if xcr0_valid flags
  then Ret (xcr0_write_raw c (Z.lor (Z.land (xcr0_read_raw c) (unot 64 XCr0Flags)) flags))
  else Panic AssertFailed.
Proof.
  unfold xcr0_write, xcr0_valid. change X87 with (Z.shiftl 1 0).
  unfold SSE, AVX, BNDREG, BNDCSR, OPMASK, ZMM_HI256, HI16_ZMM.
  rewrite !intersects_lor, !has_all_lor, !intersects_bit, !has_bit by lia. unfold rust_assert.
  destruct (Z.testbit flags 0), (Z.testbit flags 1), (Z.testbit flags 2), (Z.testbit flags 3), (Z.testbit flags 4),
    (Z.testbit flags 5), (Z.testbit flags 6), (Z.testbit flags 7); reflexivity.
Qed.

Lemma xcr0_raw_round_trip c v : in_width 64 v → xcr0 (xcr0_write_raw c v) = v.
Proof.
  intros Hv. unfold xcr0_write_raw. cbn [xcr0 set_xcr0]. destruct (halves v Hv) as [-> ->].
  pose proof (Z.div_mod v (2 ^ 32) ltac:(lia)). lia.
Qed.

(** [XCr0::write] returns exactly for the combinations of flags the processor
    accepts; then reading [XCr0] gives these flags, its reserved bits and all other
    registers are as before.  Any other combination panics before the register is written. *)
Theorem xcr0_write_valid c flags :
  in_width 64 (xcr0 c) → subset flags XCr0Flags →
  if xcr0_valid flags then
    ∃ c', xcr0_write c flags = Ret c' ∧ xcr0_read c' = flags
      ∧ (∀ i, 0 ≤ i < 64 → Z.testbit XCr0Flags i = false → Z.testbit (xcr0 c') i = Z.testbit (xcr0 c) i)
      ∧ c' = set_xcr0 c (xcr0 c')
  else xcr0_write c flags = Panic AssertFailed.
Proof.
  intros Hw Hs. rewrite xcr0_write_cases. destruct (xcr0_valid flags); [|done].
  unfold xcr0_read_raw. rewrite join_halves by done.
  destruct (merge_bits 64 (xcr0 c) flags XCr0Flags) as (Hnew & Hread & Hres); [lia|done|by vm_compute|done|].
  eexists. split; [done|]. unfold xcr0_read, xcr0_read_raw. rewrite xcr0_raw_round_trip, join_halves by done.
  split; [done|]. split; [done|]. unfold xcr0_write_raw. destruct (halves _ Hnew) as [-> ->]. unfold set_xcr0. f_equal.
  pose proof (Z.div_mod (Z.lor (Z.land (xcr0 c) (unot 64 XCr0Flags)) flags) (2 ^ 32) ltac:(lia)). lia.
Qed.

(** ** [Cr3] *)
Section cr3.
Context {BF : BitField}.

(** The low 12 bits are page table entry flags as far as the mask is concerned. *)
Lemma low_bits_valid val : 0 ≤ val < 4096 → valid_flags val.
Proof.
  intros Hv. split; [lia|]. apply Z.bits_inj'. intros i Hi. rewrite Z.land_spec, testbit_all_flags by done.
  destruct (decide (i < 12)); [rewrite bool_decide_eq_true_2 by lia; apply andb_true_r|].
  by rewrite (testbit_above 12 val) by (unfold in_width; lia).
Qed.
Lemma cr3_raw_round_trip c f val :
  page_frame f → 0 ≤ val < 4096 → cr3_read_raw (cr3_write_raw c f val) = Ret (f, val).
Proof.
  intros Hf Hv. unfold cr3_read_raw, cr3_write_raw. cbn [cr3 set_cr3]. change 0x000ffffffffff000 with ADDR_MASK.
  rewrite (proj1 (entry_fields f val Hf (low_bits_valid val Hv))).
  rewrite phys_new_spec by (by apply page_frame_width). rewrite decide_True by apply Hf. cbn [mbind run_bind].
  rewrite frame_containing_page by done. cbn [mbind run_bind]. do 2 f_equal.
  destruct Hf as [_ Hf]. rewrite (lor_disjoint f val 12) by (first [exact Hf | unfold in_width; lia]).
  change 0xfff with (2 ^ 12 - 1). rewrite land_mask by lia. change (2 ^ 12) with 4096.
  rewrite <- Z.add_mod_idemp_l, Hf, Z.add_0_l by lia. unfold cast.
  rewrite (Z.mod_small val 4096), Z.mod_small by lia. done.
Qed.

(** [Cr3::write] with a frame and flags, and [Cr3::write_pcid] with a frame and a
    process context identifier, are read back exactly by [Cr3::read] and
    [Cr3::read_pcid]; no other register changes; [flush_all] returns with the same [Cr3] after
    the former. *)
Theorem cr3_round_trip c f flags pcid :
  page_frame f → subset flags Cr3Flags → 0 ≤ pcid < 4096 →
  cr3_read (cr3_write c f flags) = Ret (f, flags)
  ∧ cr3_write c f flags = set_cr3 c (f + flags)
  ∧ flush_all (cr3_write c f flags) = Ret (cr3_write c f flags)
  ∧ cr3_read_pcid (cr3_write_pcid c f pcid) = Ret (f, pcid)
  ∧ cr3_write_pcid c f pcid = set_cr3 c (f + pcid).
Proof.
  intros Hf Hs Hp. assert (in_width 5 flags) as Hfl by (apply (subset_width 5 flags Cr3Flags); [lia|by vm_compute|done]).
  change (2 ^ 5) with 32 in Hfl. unfold in_width in Hfl.
  assert (cast 16 flags = flags) as Hc by (apply Z.mod_small; lia).
  assert (cr3_read (cr3_write c f flags) = Ret (f, flags)) as Hr.
  { unfold cr3_read, cr3_write. rewrite Hc, cr3_raw_round_trip by (done || lia). cbn [mbind run_bind]. by rewrite (proj2 Hs). }
  split; [done|]. split; [|split; [|split]].
  - unfold cr3_write, cr3_write_raw. rewrite Hc. f_equal. destruct Hf as [_ Hf].
    by rewrite (lor_disjoint f flags 12) by (first [exact Hf | unfold in_width; lia]).
  - unfold flush_all. rewrite Hr. cbn [mbind run_bind]. done.
  - unfold cr3_read_pcid, cr3_write_pcid. rewrite cr3_raw_round_trip by done. cbn [mbind run_bind].
    unfold pcid_new. rewrite (proj2 (Z.leb_gt _ _)) by lia. done.
  - unfold cr3_write_pcid, cr3_write_raw. f_equal. destruct Hf as [_ Hf].
    by rewrite (lor_disjoint f pcid 12) by (first [exact Hf | unfold in_width; lia]).
Qed.
End cr3.

(** ** Instances *)
#[local] Existing Instance bit_field_model.
Definition sample_cpu : cpu := mkCpu ∅ 0x80000011 0 0x1000 0x20 0 0x100000001 0x202 (mkPointer 0 0) (mkPointer 0 0).
Lemma control_update_preserves_witness :
  ∃ c', ctl_update Cr0 sample_cpu (λ fl, Z.lor fl (Z.shiftl 1 16)) = c' ∧ cr0 c' = 0x80010011.
Proof.
  destruct (control_update_preserves NCr0 sample_cpu (λ fl, Z.lor fl (Z.shiftl 1 16))) as (c' & H & _); [by vm_compute..|].
  exists c'. split; [exact H|]. rewrite <- H. by vm_compute.
Defined.
Lemma xcr0_write_valid_witness :
  (∃ c', xcr0_write sample_cpu 0x7 = Ret c' ∧ xcr0 c' = 0x100000007) ∧ xcr0_write sample_cpu 0x4 = Panic AssertFailed.
Proof.
  pose proof (xcr0_write_valid sample_cpu 0x7) as H. pose proof (xcr0_write_valid sample_cpu 0x4) as H'. split.
  - destruct H as (c' & Hw & _); [by vm_compute..|]. exists c'. split; [exact Hw|]. vm_compute in Hw. by injection Hw as <-.
  - apply H'; by vm_compute.
Defined.
Lemma cr3_round_trip_witness :
  cr3_read (cr3_write sample_cpu 0x5000 0x18) = Ret (0x5000, 0x18)
  ∧ cr3_read_pcid (cr3_write_pcid sample_cpu 0x5000 0x123) = Ret (0x5000, 0x123).
Proof.
  destruct (cr3_round_trip sample_cpu 0x5000 0x18 0x123) as (H1 & _ & _ & H2 & _); [by vm_compute..|].
  split; [exact H1|exact H2].
Defined.

(** With a process context identifier in [Cr3], [flush_all] reloads [Cr3] without it:
    [Cr3::read] keeps bits 3 and 4 only. *)
Lemma flush_all_drops_pcid :
  match flush_all (cr3_write_pcid sample_cpu 0x5000 0x123) with Ret c' => cr3 c' = 0x5000 | _ => False end.
Proof. by vm_compute. Qed.
End Control.
