(* ===== verification/Mapper.v ===== *)
(** * crates/x86_64/src/structures/paging/mapper: the page table mapper

    [mapped_page_table.rs] (the walker and the three [Mapper] instances, [translate]),
    the provided methods of [mapper/mod.rs] and [OffsetPageTable].  Page tables live in
    a store from pointers to tables of 512 entries; a pointer outside the store is not
    a page table, and following it is undefined behaviour.  [PageTableFrameMapping] is
    the trait of the same name with the contract its documentation states. *)
From S2P Require Import Prelude Addr Paging MemoryMap FrameAlloc.
Import Addr Paging.

(** [frame_to_pointer] is defined and injective on the frames it covers. *)
Class PageTableFrameMapping := {
  frame_to_pointer : Z → run Z;
  covered : Z → Prop;
  pointer_of : Z → Z;
  frame_to_pointer_covered f : covered f → frame_to_pointer f = Ret (pointer_of f);
  pointer_of_inj f g : covered f → covered g → pointer_of f = pointer_of g → f = g
}.

Module Mapper.

Abbreviation tables := (gmap Z (list Z)).

Inductive PageTableWalkError := WalkNotMapped | WalkMappedToHugePage.
Inductive PageTableCreateError := CreateMappedToHugePage | CreateFrameAllocationFailed.
Inductive MapToError := FrameAllocationFailed | ParentEntryHugePage | PageAlreadyMapped (f : Z).
Inductive UnmapError := UnmapParentEntryHugePage | UnmapPageNotMapped | UnmapInvalidFrameAddress (a : Z).
Inductive FlagUpdateError := FlagPageNotMapped | FlagParentEntryHugePage.
Inductive TranslateError := TrPageNotMapped | TrParentEntryHugePage | TrInvalidFrameAddress (a : Z).
Inductive MappedFrame := Frame (s : PageSize) (f : Z).
Inductive TranslateResult :=
  | Mapped (f : MappedFrame) (offset fl : Z)
  | NotMapped
  | InvalidFrameAddress (a : Z).

Definition mapped_start_address (m : MappedFrame) : Z := match m with Frame _ f => f end.
Definition mapped_size (m : MappedFrame) : Z := match m with Frame s _ => SIZE s end.

(** The [From] conversions between the error types. *)
Definition create_to_map (e : PageTableCreateError) : MapToError :=
  match e with
  | CreateMappedToHugePage => ParentEntryHugePage
  | CreateFrameAllocationFailed => FrameAllocationFailed
  end.
Definition frame_to_walk (e : FrameError) : PageTableWalkError :=
  match e with HugeFrame => WalkMappedToHugePage | FrameNotPresent => WalkNotMapped end.
Definition walk_to_unmap (e : PageTableWalkError) : UnmapError :=
  match e with WalkMappedToHugePage => UnmapParentEntryHugePage | WalkNotMapped => UnmapPageNotMapped end.
Definition walk_to_flag (e : PageTableWalkError) : FlagUpdateError :=
  match e with WalkMappedToHugePage => FlagParentEntryHugePage | WalkNotMapped => FlagPageNotMapped end.
Definition walk_to_translate (e : PageTableWalkError) : TranslateError :=
  match e with WalkMappedToHugePage => TrParentEntryHugePage | WalkNotMapped => TrPageNotMapped end.

(** [table[index]] through a pointer. *)
Definition read_entry (t : tables) (ptr i : Z) : run Z :=
  match t !! ptr with Some es => index es (Z.to_nat i) | None => Panic Undefined end.
Definition write_entry (t : tables) (ptr i e : Z) : run tables :=
  match t !! ptr with
  | Some es => es' ← store es (Z.to_nat i) e; Ret (<[ptr := es']> t)
  | None => Panic Undefined
  end.

Section walker.
Context {BF : BitField} `{!PageTableFrameMapping}.

(** [next_table] and [next_table_mut]. *)
Definition next_table (entry : Z) : run (result Z PageTableWalkError) :=
  r ← frame entry;
  match r with
  | Ok f => p ← frame_to_pointer f; Ret (Ok p)
  | Err e => Ret (Err (frame_to_walk e))
  end.

Context {A : Type} `{!FrameAllocator A}.

Definition create_next_table (t : tables) (a : A) (ptr i insert_flags : Z)
    : run (tables * A * result Z PageTableCreateError) :=
  entry ← read_entry t ptr i;
  if is_unused entry then
    '(o, a') ← allocate_frame a;
    match o with
    | Some f =>
        entry' ← set_frame entry f insert_flags;
        t1 ← write_entry t ptr i entry';
        n ← next_table entry';
        match n with
        | Err WalkMappedToHugePage => Ret (t1, a', Err CreateMappedToHugePage)
        | Err WalkNotMapped => Panic Explicit
        | Ok p => Ret (<[p := table_new]> t1, a', Ok p)   (* created: [page_table.zero()] *)
        end
    | None => Ret (t, a', Err CreateFrameAllocationFailed)
    end
  else
    '(entry', t1) ←
      (if negb (insert_flags =? 0) && negb (contains (flags entry) insert_flags) then
         e ← set_flags entry (Z.lor (flags entry) insert_flags);
         t1 ← write_entry t ptr i e; Ret (e, t1)
       else Ret (entry, t));
    n ← next_table entry';
    match n with
    | Err WalkMappedToHugePage => Ret (t1, a, Err CreateMappedToHugePage)
    | Err WalkNotMapped => Panic Explicit
    | Ok p => Ret (t1, a, Ok p)
    end.

(** [create_next_table(...)?] along a list of indices. *)
Fixpoint create_path (t : tables) (a : A) (ptr : Z) (path : list Z) (insert_flags : Z)
    : run (tables * A * result Z MapToError) :=
  match path with
  | [] => Ret (t, a, Ok ptr)
  | i :: path' =>
      '(t1, a1, r) ← create_next_table t a ptr i insert_flags;
      match r with
      | Ok p => create_path t1 a1 p path' insert_flags
      | Err e => Ret (t1, a1, Err (create_to_map e))
      end
  end.

(** [next_table(...)?] along a list of indices. *)
Fixpoint descend (t : tables) (ptr : Z) (path : list Z) : run (result Z PageTableWalkError) :=
  match path with
  | [] => Ret (Ok ptr)
  | i :: path' =>
      entry ← read_entry t ptr i;
      n ← next_table entry;
      match n with Ok p => descend t p path' | Err e => Ret (Err e) end
  end.

(** *** [map_to_with_table_flags] for the three sizes *)
Definition map_to_1gib (t : tables) (a : A) (p4 page f fl parent : Z)
    : run (tables * A * result Z MapToError) :=
  '(t1, a1, r) ← create_path t a p4 [p4_index page] parent;
  match r with
  | Err e => Ret (t1, a1, Err e)
  | Ok p3 =>
      entry ← read_entry t1 p3 (p3_index page);
      if negb (is_unused entry) then Ret (t1, a1, Err (PageAlreadyMapped f))
      else e ← set_addr entry f (Z.lor fl HUGE_PAGE);
           t2 ← write_entry t1 p3 (p3_index page) e; Ret (t2, a1, Ok page)
  end.
Definition map_to_2mib (t : tables) (a : A) (p4 page f fl parent : Z)
    : run (tables * A * result Z MapToError) :=
  '(t1, a1, r) ← create_path t a p4 [p4_index page; p3_index page] parent;
  match r with
  | Err e => Ret (t1, a1, Err e)
  | Ok p2 =>
      entry ← read_entry t1 p2 (p2_index page);
      if negb (is_unused entry) then Ret (t1, a1, Err (PageAlreadyMapped f))
      else e ← set_addr entry f (Z.lor fl HUGE_PAGE);
           t2 ← write_entry t1 p2 (p2_index page) e; Ret (t2, a1, Ok page)
  end.
Definition map_to_4kib (t : tables) (a : A) (p4 page f fl parent : Z)
    : run (tables * A * result Z MapToError) :=
  '(t1, a1, r) ← create_path t a p4 [p4_index page; p3_index page; p2_index page] parent;
  match r with
  | Err e => Ret (t1, a1, Err e)
  | Ok p1 =>
      entry ← read_entry t1 p1 (p1_index page);
      if negb (is_unused entry) then Ret (t1, a1, Err (PageAlreadyMapped f))
      else e ← set_frame entry f fl;
           t2 ← write_entry t1 p1 (p1_index page) e; Ret (t2, a1, Ok page)
  end.

(** The provided methods [map_to] and [identity_map]. *)
Definition map_to_with_table_flags (s : PageSize) :=
  match s with Size4KiB => map_to_4kib | Size2MiB => map_to_2mib | Size1GiB => map_to_1gib end.
Definition map_to (s : PageSize) (t : tables) (a : A) (p4 page f fl : Z) :=
  let parent := Z.land fl (Z.lor (Z.lor PRESENT WRITABLE) USER_ACCESSIBLE) in
  map_to_with_table_flags s t a p4 page f fl parent.
Definition identity_map (s : PageSize) (t : tables) (a : A) (p4 f fl : Z)
    : run (tables * A * result Z MapToError) :=
  v ← virt_new f; page ← page_containing_address s v; map_to s t a p4 page f fl.
End walker.

Section operations.
Context {BF : BitField} `{!PageTableFrameMapping}.

(** *** [unmap] *)
Definition unmap_huge (s : PageSize) (t : tables) (p4 : Z) (path : list Z) (i page : Z)
    : run (tables * result (Z * Z) UnmapError) :=
  r ← descend t p4 path;
  match r with
  | Err e => Ret (t, Err (walk_to_unmap e))
  | Ok p =>
      entry ← read_entry t p i;
      if negb (contains (flags entry) PRESENT) then Ret (t, Err UnmapPageNotMapped)
      else if negb (contains (flags entry) HUGE_PAGE) then Ret (t, Err UnmapParentEntryHugePage)
      else
        a ← addr entry;
        fr ← frame_from_start_address s a;
        match fr with
        | Err _ => Ret (t, Err (UnmapInvalidFrameAddress a))
        | Ok f => t1 ← write_entry t p i (set_unused entry); Ret (t1, Ok (f, page))
        end
  end.
Definition unmap_1gib (t : tables) (p4 page : Z) :=
  unmap_huge Size1GiB t p4 [p4_index page] (p3_index page) page.
Definition unmap_2mib (t : tables) (p4 page : Z) :=
  unmap_huge Size2MiB t p4 [p4_index page; p3_index page] (p2_index page) page.
Definition unmap_4kib (t : tables) (p4 page : Z) : run (tables * result (Z * Z) UnmapError) :=
  r ← descend t p4 [p4_index page; p3_index page; p2_index page];
  match r with
  | Err e => Ret (t, Err (walk_to_unmap e))
  | Ok p1 =>
      entry ← read_entry t p1 (p1_index page);
      fr ← frame entry;
      match fr with
      | Err FrameNotPresent => Ret (t, Err UnmapPageNotMapped)
      | Err HugeFrame => Ret (t, Err UnmapParentEntryHugePage)
      | Ok f => t1 ← write_entry t p1 (p1_index page) (set_unused entry); Ret (t1, Ok (f, page))
      end
  end.

Definition unmap (s : PageSize) :=
  match s with Size4KiB => unmap_4kib | Size2MiB => unmap_2mib | Size1GiB => unmap_1gib end.

(** *** [update_flags] and the [set_flags_*_entry] methods *)
Definition set_flags_at (t : tables) (p4 : Z) (path : list Z) (i fl : Z)
    : run (tables * result unit FlagUpdateError) :=
  r ← descend t p4 path;
  match r with
  | Err e => Ret (t, Err (walk_to_flag e))
  | Ok p =>
      entry ← read_entry t p i;
      if is_unused entry then Ret (t, Err FlagPageNotMapped)
      else e ← set_flags entry fl; t1 ← write_entry t p i e; Ret (t1, Ok tt)
  end.
Definition update_flags_1gib (t : tables) (p4 page fl : Z) :=
  set_flags_at t p4 [p4_index page] (p3_index page) (Z.lor fl HUGE_PAGE).
Definition update_flags_2mib (t : tables) (p4 page fl : Z) :=
  set_flags_at t p4 [p4_index page; p3_index page] (p2_index page) (Z.lor fl HUGE_PAGE).
Definition update_flags_4kib (t : tables) (p4 page fl : Z) :=
  set_flags_at t p4 [p4_index page; p3_index page; p2_index page] (p1_index page) fl.
Definition update_flags (s : PageSize) :=
  match s with Size4KiB => update_flags_4kib | Size2MiB => update_flags_2mib | Size1GiB => update_flags_1gib end.

Definition set_flags_p4_entry (t : tables) (p4 page fl : Z) := set_flags_at t p4 [] (p4_index page) fl.
Definition set_flags_p3_entry (s : PageSize) (t : tables) (p4 page fl : Z) :=
  match s with
  | Size1GiB => Ret (t, Err FlagParentEntryHugePage)
  | _ => set_flags_at t p4 [p4_index page] (p3_index page) fl
  end.
Definition set_flags_p2_entry (s : PageSize) (t : tables) (p4 page fl : Z) :=
  match s with
  | Size4KiB => set_flags_at t p4 [p4_index page; p3_index page] (p2_index page) fl
  | _ => Ret (t, Err FlagParentEntryHugePage)
  end.

(** *** [translate_page] and [translate] *)
Definition translate_at (s : PageSize) (t : tables) (p4 : Z) (path : list Z) (i : Z)
    : run (result Z TranslateError) :=
  r ← descend t p4 path;
  match r with
  | Err e => Ret (Err (walk_to_translate e))
  | Ok p =>
      entry ← read_entry t p i;
      if is_unused entry then Ret (Err TrPageNotMapped)
      else a ← addr entry; fr ← frame_from_start_address s a;
           Ret (match fr with Ok f => Ok f | Err _ => Err (TrInvalidFrameAddress a) end)
  end.
Definition translate_page (s : PageSize) (t : tables) (p4 page : Z) : run (result Z TranslateError) :=
  match s with
  | Size1GiB => translate_at Size1GiB t p4 [p4_index page] (p3_index page)
  | Size2MiB => translate_at Size2MiB t p4 [p4_index page; p3_index page] (p2_index page)
  | Size4KiB => translate_at Size4KiB t p4 [p4_index page; p3_index page; p2_index page] (p1_index page)
  end.

Definition translate (t : tables) (p4 v : Z) : run TranslateResult :=
  e4 ← read_entry t p4 (p4_index v);
  n3 ← next_table e4;
  match n3 with
  | Err WalkNotMapped => Ret NotMapped
  | Err WalkMappedToHugePage => Panic Explicit
  | Ok p3 =>
      e3 ← read_entry t p3 (p3_index v);
      n2 ← next_table e3;
      match n2 with
      | Err WalkNotMapped => Ret NotMapped
      | Err WalkMappedToHugePage =>
          a ← addr e3; f ← frame_containing_address Size1GiB a;
          Ret (Mapped (Frame Size1GiB f) (Z.land v 0x3fffffff) (flags e3))
      | Ok p2 =>
          e2 ← read_entry t p2 (p2_index v);
          n1 ← next_table e2;
          match n1 with
          | Err WalkNotMapped => Ret NotMapped
          | Err WalkMappedToHugePage =>
              a ← addr e2; f ← frame_containing_address Size2MiB a;
              Ret (Mapped (Frame Size2MiB f) (Z.land v 0x1fffff) (flags e2))
          | Ok p1 =>
              e1 ← read_entry t p1 (p1_index v);
              if is_unused e1 then Ret NotMapped
              else
                a ← addr e1;
                fr ← frame_from_start_address Size4KiB a;
                match fr with
                | Err _ => Ret (InvalidFrameAddress a)
                | Ok f => Ret (Mapped (Frame Size4KiB f) (page_offset v) (flags e1))
                end
          end
      end
  end.

(** [translate_addr], provided by the trait [Translate]. *)
Definition translate_addr (t : tables) (p4 v : Z) : run (option Z) :=
  r ← translate t p4 v;
  match r with
  | Mapped f offset _ => a ← phys_add (mapped_start_address f) offset; Ret (Some a)
  | _ => Ret None
  end.
End operations.

(** ** [OffsetPageTable]: all of physical memory at an offset *)
Definition offset_frame_to_pointer {BF : BitField} (offset f : Z) : run Z := virt_add offset f.

#[global] Program Instance identity_mapping {BF : BitField} : PageTableFrameMapping := {|
  frame_to_pointer := offset_frame_to_pointer 0;
  covered f := 0 ≤ f < 2 ^ 47;
  pointer_of f := f
|}.
Next Obligation.
  intros BF f Hf. cbn in Hf. unfold offset_frame_to_pointer, virt_add. rewrite uadd_Ret by lia.
  cbn [mbind run_bind]. rewrite Z.add_0_l. apply virt_new_canonical; unfold_width; [lia|by left].
Qed.
Next Obligation. done. Qed.

(** ** Specification

    [mapping t p4 ix] follows the indices [ix] from the table at [p4]: the entry that
    maps the address and the number of indices left (0 for 4 KiB, 1 for 2 MiB, 2 for
    1 GiB), or nothing. *)
Section spec.
Context {BF : BitField} `{!PageTableFrameMapping}.

Definition entry_at (t : tables) (ptr i : Z) : option Z := t !! ptr ≫= λ es, es !! Z.to_nat i.
Definition is_table (e : Z) : bool := present e && negb (huge e).
Definition target (e : Z) : Z := pointer_of (entry_addr e).

Fixpoint mapping (t : tables) (ptr : Z) (ix : list Z) : option (nat * Z) :=
  match ix with
  | [] => None
  | i :: ix' =>
      match entry_at t ptr i with
      | None => None
      | Some e =>
          if negb (present e) then None
          else match ix' with
               | [] => Some (0%nat, e)
               | _ => if huge e then Some (length ix', e) else mapping t (target e) ix'
               end
      end
  end.
Definition idxs (v : Z) : list Z := [p4_index v; p3_index v; p2_index v; p1_index v].
Definition good_idx (i : Z) : Prop := 0 ≤ i < 512.
Definition walk_of (ix : list Z) : Prop := length ix = 4%nat ∧ Forall good_idx ix.

(** The tables form a tree: [path] gives for each table the indices that lead to it,
    so no table is shared.  Entries are zero or present; level 4 has no huge pages. *)
Record tree (t : tables) (p4 : Z) (path : Z → list Z) : Prop := {
  tree_root : path p4 = [];
  tree_root_in : is_Some (t !! p4);
  tree_shape ptr es : t !! ptr = Some es → length es = ENTRY_COUNT;
  tree_entry ptr i e : entry_at t ptr i = Some e → 0 ≤ i → e = 0 ∨ present e = true;
  tree_child ptr i e : entry_at t ptr i = Some e → 0 ≤ i → is_table e = true →
    (length (path ptr) < 3)%nat →
    covered (entry_addr e) ∧ path (target e) = path ptr ++ [i] ∧ is_Some (t !! target e);
  tree_top i e : entry_at t p4 i = Some e → 0 ≤ i → huge e = false
}.

(** Writing one entry. *)
Definition upd (t : tables) (ptr i e : Z) : tables := alter (λ es, <[Z.to_nat i := e]> es) ptr t.

Lemma entry_at_upd t p4 path ptr i e q j :
  tree t p4 path → is_Some (t !! ptr) → good_idx i → 0 ≤ j →
  entry_at (upd t ptr i e) q j = if decide (q = ptr ∧ j = i) then Some e else entry_at t q j.
Proof.
  intros Ht [es Hes] Hi Hj. unfold entry_at, upd, good_idx in *.
  pose proof (tree_shape _ _ _ Ht _ _ Hes) as Hl. unfold ENTRY_COUNT in Hl.
  destruct (decide (q = ptr)) as [->|Hne].
  - rewrite lookup_alter_eq, Hes. simpl. destruct (decide (j = i)) as [->|Hji].
    + rewrite decide_True by done. apply list_lookup_insert_eq. lia.
    + rewrite decide_False by tauto. apply list_lookup_insert_ne. lia.
  - rewrite decide_False by tauto. by rewrite lookup_alter_ne by congruence.
Qed.
Lemma upd_is_Some t ptr i e q : is_Some (upd t ptr i e !! q) ↔ is_Some (t !! q).
Proof.
  unfold upd. destruct (decide (q = ptr)) as [->|]; [rewrite lookup_alter_eq|by rewrite lookup_alter_ne by congruence].
  by rewrite fmap_is_Some.
Qed.
Lemma entry_at_Some t p4 path ptr i :
  tree t p4 path → is_Some (t !! ptr) → good_idx i → ∃ e, entry_at t ptr i = Some e.
Proof.
  intros Ht [es Hes] Hi. unfold entry_at. rewrite Hes. simpl.
  pose proof (tree_shape _ _ _ Ht _ _ Hes) as Hl. unfold ENTRY_COUNT, good_idx in *.
  destruct (lookup_lt_is_Some_2 es (Z.to_nat i)) as [e ->]; [lia|by exists e].
Qed.
Lemma read_entry_spec t ptr i e : entry_at t ptr i = Some e → read_entry t ptr i = Ret e.
Proof.
  unfold entry_at, read_entry. destruct (t !! ptr) as [es|]; simpl; [|done]. intros Hx. by apply index_Ret.
Qed.
Lemma write_entry_spec t p4 path ptr i e :
  tree t p4 path → is_Some (t !! ptr) → good_idx i → write_entry t ptr i e = Ret (upd t ptr i e).
Proof.
  intros Ht [es Hes] Hi. unfold write_entry, upd. rewrite Hes.
  pose proof (tree_shape _ _ _ Ht _ _ Hes) as Hl. unfold ENTRY_COUNT, good_idx in *.
  rewrite store_Ret by lia. simpl. f_equal. apply map_eq. intros q.
  destruct (decide (q = ptr)) as [->|]; [by rewrite lookup_insert_eq, lookup_alter_eq, Hes|].
  by rewrite lookup_insert_ne, lookup_alter_ne by congruence.
Qed.

(** The walker on one entry. *)
Lemma next_table_spec e :
  next_table e = if negb (present e) then Ret (Err WalkNotMapped)
                 else if huge e then Ret (Err WalkMappedToHugePage)
                 else p ← frame_to_pointer (entry_addr e); Ret (Ok p).
Proof.
  unfold next_table. rewrite frame_spec. cbn [mbind run_bind].
  destruct (present e); cbn [negb]; [|done]. by destruct (huge e).
Qed.
Lemma next_table_child t p4 path ptr i e :
  tree t p4 path → entry_at t ptr i = Some e → 0 ≤ i → is_table e = true → (length (path ptr) < 3)%nat →
  next_table e = Ret (Ok (target e)).
Proof.
  intros Ht He Hi Htab Hd. destruct (tree_child _ _ _ Ht _ _ _ He Hi Htab Hd) as (Hc & _).
  unfold is_table in Htab. apply andb_true_iff in Htab as [Hp Hh]. apply negb_true_iff in Hh.
  rewrite next_table_spec, Hp, Hh. cbn [negb]. by rewrite frame_to_pointer_covered.
Qed.

(** Unchanged entries along the way: an unchanged mapping. *)
Lemma mapping_frame t t' p4 path ix q :
  tree t p4 path → is_Some (t !! q) → (length (path q) + length ix = 4)%nat → Forall good_idx ix →
  (∀ q' j, is_Some (t !! q') → 0 ≤ j → entry_at t' q' j ≠ entry_at t q' j →
     ¬ (path q' ++ [j]) `prefix_of` (path q ++ ix)) →
  mapping t' q ix = mapping t q ix.
Proof.
  intros Ht. revert q. induction ix as [|i ix IH]; intros q Hq Hlen Hg Hdiff; [done|].
  apply Forall_cons in Hg as [Hi Hg]. unfold good_idx in Hi.
  assert (entry_at t' q i = entry_at t q i) as Heq.
  { destruct (decide (entry_at t' q i = entry_at t q i)) as [|Hne]; [done|]. exfalso.
    apply (Hdiff q i Hq ltac:(lia) Hne). exists ix. by rewrite <- app_assoc. }
  simpl. rewrite Heq. destruct (entry_at t q i) as [e|] eqn:He; [|done].
  destruct (present e) eqn:Hp; cbn [negb]; [|done]. destruct ix as [|i' ix]; [done|].
  destruct (huge e) eqn:Hh; [done|]. simpl in Hlen.
  destruct (tree_child _ _ _ Ht q i e He) as (_ & Hpath & Hin); [lia|unfold is_table; by rewrite Hp, Hh|lia|].
  apply IH; [done|rewrite Hpath, length_app; simpl; lia|done|].
  intros q' j Hq' Hj Hne Hpre. apply (Hdiff q' j Hq' Hj Hne). rewrite Hpath, <- app_assoc in Hpre. done.
Qed.

(** Every table entry of [t] still leads to the same table in [t']. *)
Definition extends (t t' : tables) : Prop :=
  ∀ q j e, entry_at t q j = Some e → 0 ≤ j → is_table e = true →
    ∃ e', entry_at t' q j = Some e' ∧ is_table e' = true ∧ entry_addr e' = entry_addr e.
#[global] Instance extends_preorder : PreOrder extends.
Proof.
  split.
  - intros t q j e He _ Ht. by exists e.
  - intros t1 t2 t3 H12 H23 q j e He Hj Ht. destruct (H12 q j e He Hj Ht) as (e2 & He2 & Ht2 & Ha2).
    destruct (H23 q j e2 He2 Hj Ht2) as (e3 & He3 & Ht3 & Ha3). exists e3. by rewrite Ha3, Ha2.
Qed.

(** The table that the indices [ix] lead to. *)
Fixpoint reach (t : tables) (ptr : Z) (ix : list Z) : option Z :=
  match ix with
  | [] => Some ptr
  | i :: ix' => e ← entry_at t ptr i; if is_table e then reach t (target e) ix' else None
  end.
Lemma reach_extends t t' ptr ix q :
  extends t t' → Forall good_idx ix → reach t ptr ix = Some q → reach t' ptr ix = Some q.
Proof.
  intros Hext. revert ptr. induction ix as [|i ix IH]; intros ptr Hg Hr; [done|].
  apply Forall_cons in Hg as [Hi Hg]. simpl in *. destruct (entry_at t ptr i) as [e|] eqn:He; simpl in Hr; [|done].
  destruct (is_table e) eqn:Ht; [|done].
  destruct (Hext ptr i e He ltac:(unfold good_idx in Hi; lia) Ht) as (e' & -> & Ht' & Ha). simpl.
  rewrite Ht'. apply IH; [done|]. unfold target in *. by rewrite Ha.
Qed.
Lemma mapping_reach t ptr ix q rest :
  reach t ptr ix = Some q → rest ≠ [] → mapping t ptr (ix ++ rest) = mapping t q rest.
Proof.
  revert ptr. induction ix as [|i ix IH]; intros ptr Hr Hrest; simpl in *; [by injection Hr as ->|].
  destruct (entry_at t ptr i) as [e|]; simpl in Hr; [|done]. destruct (is_table e) eqn:Ht; [|done].
  unfold is_table in Ht. apply andb_true_iff in Ht as [-> Hh]. apply negb_true_iff in Hh. cbn [negb].
  rewrite Hh. rewrite (IH _ Hr Hrest). destruct (ix ++ rest) as [|x l] eqn:E; [|done].
  apply app_eq_nil in E as [_ E]. done.
Qed.
Lemma reach_snoc t ptr ix q i e :
  reach t ptr ix = Some q → entry_at t q i = Some e → is_table e = true →
  reach t ptr (ix ++ [i]) = Some (target e).
Proof.
  revert ptr. induction ix as [|j ix IH]; intros ptr Hr He Ht; simpl in *.
  - injection Hr as ->. rewrite He. simpl. by rewrite Ht.
  - destruct (entry_at t ptr j) as [e'|]; simpl in *; [|done]. destruct (is_table e'); [|done]. by apply IH.
Qed.

(** *** One table entry replaced by another with the same target *)
Definition same_table (e e' : Z) : Prop :=
  is_table e = true ∧ is_table e' = true ∧ entry_addr e' = entry_addr e.

Lemma is_table_inv e : is_table e = true → present e = true ∧ huge e = false.
Proof. unfold is_table. intros [? ?%negb_true_iff]%andb_true_iff. done. Qed.

Lemma mapping_retarget t p4 path ptr i e e' ix q :
  tree t p4 path → is_Some (t !! ptr) → good_idx i → entry_at t ptr i = Some e → same_table e e' →
  (length (path ptr) < 3)%nat → is_Some (t !! q) → (length (path q) + length ix = 4)%nat → Forall good_idx ix →
  mapping (upd t ptr i e') q ix = mapping t q ix.
Proof.
  intros Ht Hptr Hi He (Ht1 & Ht2 & Ha) Hd. revert q.
  apply is_table_inv in Ht1 as Hx1. apply is_table_inv in Ht2 as Hx2.
  destruct Hx1 as [Hp1 Hh1], Hx2 as [Hp2 Hh2].
  induction ix as [|j ix IH]; intros q Hq Hlen Hg; [done|].
  apply Forall_cons in Hg as [Hj Hg]. simpl in *. unfold good_idx in Hj.
  rewrite (entry_at_upd t p4 path) by (auto; lia).
  destruct (decide (q = ptr ∧ j = i)) as [[-> ->]|Hne].
  - rewrite He, Hp1, Hp2, Hh1, Hh2. cbn [negb]. destruct ix as [|j' ix]; [simpl in Hlen; lia|].
    destruct (tree_child _ _ _ Ht ptr i e He) as (_ & Hpath & Hin); [lia|done|done|].
    unfold target in *. rewrite Ha. apply IH; [done|rewrite Hpath, length_app; simpl in *; lia|done].
  - destruct (entry_at t q j) as [e1|] eqn:He1; [|done]. destruct (present e1) eqn:Hp; cbn [negb]; [|done].
    destruct ix as [|j' ix]; [done|]. destruct (huge e1) eqn:Hh; [done|].
    destruct (tree_child _ _ _ Ht q j e1 He1) as (_ & Hpath & Hin);
      [lia|unfold is_table; by rewrite Hp, Hh|simpl in Hlen; lia|].
    apply IH; [done|rewrite Hpath, length_app; simpl in *; lia|done].
Qed.

Lemma upd_tree t p4 path ptr i e e' :
  tree t p4 path → is_Some (t !! ptr) → good_idx i → entry_at t ptr i = Some e →
  (e' = 0 ∨ present e' = true) → (ptr = p4 → huge e' = false) →
  (is_table e' = true → (length (path ptr) < 3)%nat → same_table e e') →
  tree (upd t ptr i e') p4 path.
Proof.
  intros Ht Hptr Hi He Hp Htop Hst. split.
  - apply Ht.
  - apply upd_is_Some, Ht.
  - intros q es. unfold upd. destruct (decide (q = ptr)) as [->|].
    + rewrite lookup_alter_eq. intros (es0 & H0 & ->)%fmap_Some_1. rewrite length_insert. by eapply tree_shape.
    + rewrite lookup_alter_ne by congruence. by apply Ht.
  - intros q j e1 H1 Hj. rewrite (entry_at_upd t p4 path) in H1 by done.
    case_decide; [by injection H1 as <-|by eapply tree_entry].
  - intros q j e1 H1 Hj Htab Hd. rewrite upd_is_Some.
    rewrite (entry_at_upd t p4 path) in H1 by done. case_decide as Hc; [|by apply Ht].
    destruct Hc as [-> ->]. injection H1 as <-. destruct (Hst Htab Hd) as (Ht1 & _ & Ha).
    unfold target. rewrite Ha. by apply Ht.
  - intros j e1 H1 Hj. rewrite (entry_at_upd t p4 path) in H1 by done.
    case_decide as Hc; [|by eapply tree_top]. destruct Hc as [-> ->]. injection H1 as <-. by apply Htop.
Qed.

(** *** A new, empty table *)
Lemma zero_entry : present 0 = false ∧ huge 0 = false.
Proof. by vm_compute. Qed.
Lemma not_table_zero : is_table 0 = false.
Proof. unfold is_table. by rewrite (proj1 zero_entry). Qed.

Section new_table.
Context (t : tables) (p4 : Z) (path : Z → list Z) (ptr i e' : Z).
Hypothesis Ht : tree t p4 path.
Hypothesis Hptr : is_Some (t !! ptr).
Hypothesis Hi : good_idx i.
Hypothesis He : entry_at t ptr i = Some 0.
Hypothesis Htab : is_table e' = true.
Hypothesis Hcov : covered (entry_addr e').
Hypothesis Hfresh : t !! target e' = None.
Hypothesis Hdepth : (length (path ptr) < 3)%nat.

Definition with_table : tables := <[target e' := table_new]> (upd t ptr i e').
Definition new_path (q : Z) : list Z := if decide (q = target e') then path ptr ++ [i] else path q.

Lemma old_not_new q : is_Some (t !! q) → q ≠ target e'.
Proof. intros [es Hes] ->. congruence. Qed.
Lemma entry_at_old q j :
  is_Some (t !! q) → 0 ≤ j →
  entry_at with_table q j = if decide (q = ptr ∧ j = i) then Some e' else entry_at t q j.
Proof.
  intros Hq Hj. rewrite <- (entry_at_upd t p4 path) by done. unfold entry_at, with_table.
  rewrite lookup_insert_ne; [done|]. intros <-. by apply (old_not_new (target e')).
Qed.
Lemma entry_at_new j e : entry_at with_table (target e') j = Some e → e = 0.
Proof.
  unfold entry_at, with_table. rewrite lookup_insert_eq. simpl. unfold table_new.
  intros Hx. by apply lookup_replicate_1 in Hx as [-> _].
Qed.
Lemma mapping_new ix : mapping with_table (target e') ix = None.
Proof.
  destruct ix as [|j ix]; simpl; [done|]. destruct (entry_at with_table (target e') j) as [e|] eqn:E; [|done].
  apply entry_at_new in E as ->. by rewrite (proj1 zero_entry).
Qed.
Lemma with_table_is_Some q : is_Some (with_table !! q) ↔ q = target e' ∨ is_Some (t !! q).
Proof.
  unfold with_table. destruct (decide (q = target e')) as [->|Hne].
  - rewrite lookup_insert_eq. naive_solver.
  - rewrite lookup_insert_ne, upd_is_Some by congruence. tauto.
Qed.
Lemma new_path_old q : is_Some (t !! q) → new_path q = path q.
Proof. intros Hq. unfold new_path. by rewrite decide_False by (by apply old_not_new). Qed.
Lemma entry_at_dom (t0 : tables) q j e : entry_at t0 q j = Some e → is_Some (t0 !! q).
Proof. unfold entry_at. destruct (t0 !! q); [by eexists|done]. Qed.

Lemma mapping_with_table ix q :
  is_Some (t !! q) → (length (path q) + length ix = 4)%nat → Forall good_idx ix →
  mapping with_table q ix = mapping t q ix.
Proof.
  apply is_table_inv in Htab as Hx. destruct Hx as [Hp' Hh'].
  revert q. induction ix as [|j ix IH]; intros q Hq Hlen Hg; [done|].
  apply Forall_cons in Hg as [Hj Hg]. simpl in *. unfold good_idx in Hj.
  rewrite entry_at_old by (done || lia). destruct (decide (q = ptr ∧ j = i)) as [[-> ->]|Hne].
  - rewrite He, (proj1 zero_entry), Hp', Hh'. cbn [negb]. destruct ix; [simpl in Hlen; lia|]. apply mapping_new.
  - destruct (entry_at t q j) as [e1|] eqn:He1; [|done]. destruct (present e1) eqn:Hp; cbn [negb]; [|done].
    destruct ix as [|j' ix]; [done|]. destruct (huge e1) eqn:Hh; [done|].
    destruct (tree_child _ _ _ Ht q j e1 He1) as (_ & Hpath & Hin);
      [lia|unfold is_table; by rewrite Hp, Hh|simpl in Hlen; lia|].
    apply IH; [done|rewrite Hpath, length_app; simpl in *; lia|done].
Qed.

Lemma extends_with_table : extends t with_table.
Proof.
  intros q j e Hq Hj Hte. rewrite entry_at_old by (eauto using entry_at_dom).
  destruct (decide (q = ptr ∧ j = i)) as [[-> ->]|]; [|by exists e].
  rewrite He in Hq. injection Hq as <-. by rewrite not_table_zero in Hte.
Qed.

Lemma tree_with_table : tree with_table p4 new_path.
Proof.
  pose proof (is_table_inv _ Htab) as [Hp' Hh']. split.
  - rewrite new_path_old by apply Ht. apply Ht.
  - apply with_table_is_Some. right. apply Ht.
  - intros q es. unfold with_table, upd. destruct (decide (q = target e')) as [->|Hne].
    + rewrite lookup_insert_eq. intros [= <-]. apply length_replicate.
    + rewrite lookup_insert_ne by congruence. destruct (decide (q = ptr)) as [->|].
      * rewrite lookup_alter_eq. intros (es0 & H0 & ->)%fmap_Some_1. rewrite length_insert. by eapply tree_shape.
      * rewrite lookup_alter_ne by congruence. apply Ht.
  - intros q j e Hq Hj. destruct (decide (q = target e')) as [->|Hne]; [left; by eapply entry_at_new|].
    pose proof (entry_at_dom _ _ _ _ Hq) as Hd. apply with_table_is_Some in Hd as [?|Hd]; [done|].
    rewrite entry_at_old in Hq by done. case_decide; [injection Hq as <-; by right|by eapply tree_entry].
  - intros q j e Hq Hj Hte Hd. destruct (decide (q = target e')) as [->|Hne].
    { apply entry_at_new in Hq as ->. by rewrite not_table_zero in Hte. }
    pose proof (entry_at_dom _ _ _ _ Hq) as Hin. apply with_table_is_Some in Hin as [?|Hin]; [done|].
    rewrite entry_at_old in Hq by done. rewrite (new_path_old q) in * by done. case_decide as Hc.
    + destruct Hc as [-> ->]. injection Hq as <-. split_and!; [done| |].
      * unfold new_path. by rewrite decide_True.
      * apply with_table_is_Some. by left.
    + destruct (tree_child _ _ _ Ht q j e Hq Hj Hte Hd) as (? & Hpath & Hin').
      rewrite new_path_old by done. split_and!; [done..|]. apply with_table_is_Some. by right.
  - intros j e Hq Hj. rewrite entry_at_old in Hq by (try done; apply Ht).
    case_decide as Hc; [|by eapply tree_top]. by injection Hq as <-.
Qed.
End new_table.

(** *** Flags *)
Lemma contains_bit fl k : 0 ≤ k → contains fl (Z.shiftl 1 k) = Z.testbit fl k.
Proof.
  intros Hk. unfold contains. rewrite Z.shiftl_1_l.
  destruct (Z.testbit fl k) eqn:E.
  - apply Z.eqb_eq. apply Z.bits_inj'. intros n Hn. rewrite Z.land_spec, Z.pow2_bits_eqb by done.
    destruct (Z.eqb_spec k n) as [->|]; [by rewrite E|by rewrite andb_false_r].
  - apply Z.eqb_neq. intros Heq. assert (Z.testbit (Z.land fl (2 ^ k)) k = true) as Hb
      by (rewrite Heq; by apply Z.pow2_bits_true). by rewrite Z.land_spec, E in Hb.
Qed.
Lemma contains_present fl : contains fl PRESENT = Z.testbit fl 0.
Proof. apply (contains_bit fl 0). lia. Qed.
Lemma contains_huge fl : contains fl HUGE_PAGE = Z.testbit fl 7.
Proof. apply (contains_bit fl 7). lia. Qed.

(** Flags for a table: present, not huge. *)
Definition table_flags (fl : Z) : Prop :=
  valid_flags fl ∧ contains fl PRESENT = true ∧ contains fl HUGE_PAGE = false.

(** Adding table flags to an entry keeps its address, its size and its presence. *)
Lemma add_flags e fl :
  table_flags fl →
  let e' := Z.lor (entry_addr e) (Z.lor (flags e) fl) in
  entry_addr e' = entry_addr e ∧ present e' = true ∧ huge e' = huge e.
Proof.
  intros (Hv & Hp & Hh) e'.
  destruct (stored_entry (entry_addr e) (Z.lor (flags e) fl)) as (H1 & H2 & H3 & H4).
  { apply entry_addr_page_frame. } { apply valid_flags_lor; [apply flags_valid|done]. }
  unfold e'. rewrite H1, H3, H4. split_and!; [done| |].
  - rewrite contains_present in *. by rewrite Z.lor_spec, Hp, orb_true_r.
  - unfold huge. rewrite contains_huge in *. by rewrite Z.lor_spec, Hh, contains_huge, orb_false_r.
Qed.

(** Flags of a huge page change: the frames stay. *)
Definition frames_of (o : option (nat * Z)) : option (nat * Z) := (λ '(k, e), (k, entry_addr e)) <$> o.
Lemma mapping_huge_flags t p4 path ptr i e e' ix q :
  tree t p4 path → is_Some (t !! ptr) → good_idx i → entry_at t ptr i = Some e →
  present e = true → huge e = true → present e' = true → huge e' = true → entry_addr e' = entry_addr e →
  is_Some (t !! q) → (length (path q) + length ix = 4)%nat → Forall good_idx ix →
  frames_of (mapping (upd t ptr i e') q ix) = frames_of (mapping t q ix).
Proof.
  intros Ht Hptr Hi He Hp Hh Hp' Hh' Ha. revert q.
  induction ix as [|j ix IH]; intros q Hq Hlen Hg; [done|].
  apply Forall_cons in Hg as [Hj Hg]. simpl in *. unfold good_idx in Hj.
  rewrite (entry_at_upd t p4 path) by (auto; lia).
  destruct (decide (q = ptr ∧ j = i)) as [[-> ->]|Hne].
  - rewrite He, Hp, Hp', Hh, Hh'. cbn [negb]. destruct ix; unfold frames_of; cbn; by rewrite Ha.
  - destruct (entry_at t q j) as [e1|] eqn:He1; [|done]. destruct (present e1) eqn:Hp1; cbn [negb]; [|done].
    destruct ix as [|j' ix]; [done|]. destruct (huge e1) eqn:Hh1; [done|].
    destruct (tree_child _ _ _ Ht q j e1 He1) as (_ & Hpath & Hin);
      [lia|unfold is_table; by rewrite Hp1, Hh1|simpl in Hlen; lia|].
    apply IH; [done|rewrite Hpath, length_app; simpl in *; lia|done].
Qed.

(** *** Steps that leave every mapping as it is *)
Definition step_ok (t : tables) (p4 : Z) (path : Z → list Z) (t' : tables) (path' : Z → list Z) : Prop :=
  tree t' p4 path' ∧ (∀ q, is_Some (t !! q) → is_Some (t' !! q) ∧ path' q = path q) ∧ extends t t'
  ∧ ∀ ix, walk_of ix → mapping t' p4 ix = mapping t p4 ix.
Lemma step_ok_refl t p4 path : tree t p4 path → step_ok t p4 path t path.
Proof. intros Ht. split_and!; [done|done|reflexivity|done]. Qed.
Lemma step_ok_trans t p4 path t1 path1 t2 path2 :
  step_ok t p4 path t1 path1 → step_ok t1 p4 path1 t2 path2 → step_ok t p4 path t2 path2.
Proof.
  intros (_ & Hq1 & He1 & Hm1) (Ht2 & Hq2 & He2 & Hm2). split_and!; [done| |by etrans|].
  - intros q Hq. destruct (Hq1 q Hq) as [Hin1 <-]. by apply Hq2.
  - intros ix Hix. by rewrite Hm2, Hm1.
Qed.

Lemma step_retarget t p4 path ptr i e e' :
  tree t p4 path → is_Some (t !! ptr) → good_idx i → entry_at t ptr i = Some e → same_table e e' →
  (length (path ptr) < 3)%nat → step_ok t p4 path (upd t ptr i e') path.
Proof.
  intros Ht Hptr Hi He Hst Hd. pose proof Hst as (H1 & H2 & H3). apply is_table_inv in H2 as Hx. destruct Hx.
  split_and!.
  - eapply upd_tree; try done. by right.
  - intros q Hq. by rewrite upd_is_Some.
  - intros q j e0 Hq Hj Hte. rewrite (entry_at_upd t p4 path) by done.
    case_decide as Hc; [|by exists e0]. destruct Hc as [-> ->]. exists e'. rewrite He in Hq.
    injection Hq as <-. done.
  - intros ix [Hlen Hg]. eapply mapping_retarget; try done; [apply Ht|].
    rewrite (tree_root _ _ _ Ht). simpl. done.
Qed.

Lemma step_new_table t p4 path ptr i e' :
  tree t p4 path → is_Some (t !! ptr) → good_idx i → entry_at t ptr i = Some 0 → is_table e' = true →
  covered (entry_addr e') → t !! target e' = None → (length (path ptr) < 3)%nat →
  step_ok t p4 path (with_table t ptr i e') (new_path path ptr i e').
Proof.
  intros Ht Hptr Hi He Htab Hc Hf Hd. split_and!.
  - by apply tree_with_table.
  - intros q Hq. rewrite with_table_is_Some by done. split; [by right|by eapply new_path_old].
  - by eapply extends_with_table.
  - intros ix [Hlen Hg]. eapply mapping_with_table; try done; [apply Ht|].
    rewrite (tree_root _ _ _ Ht). simpl. done.
Qed.

(** *** [create_next_table] *)
Section create.
Context {A : Type} `{!FrameAllocator A}.

(** The allocator only owns frames that are not page tables. *)
Definition alloc_ok (t : tables) (a : A) : Prop :=
  allocator_inv a ∧ ∀ f, free_frame a f → covered f ∧ t !! pointer_of f = None.

Lemma alloc_ok_upd t a ptr i e : alloc_ok t a → alloc_ok (upd t ptr i e) a.
Proof.
  intros [Ha Hf]. split; [done|]. intros f Hff. destruct (Hf f Hff) as [Hc Hn]. split; [done|].
  apply eq_None_not_Some. rewrite upd_is_Some. by apply eq_None_not_Some.
Qed.

(** What [create_next_table] returns for entry [i] of the table at [ptr]. *)
Definition create_result (t : tables) (p4 : Z) (path : Z → list Z) (ptr i fl : Z)
    (t' : tables) (r : result Z PageTableCreateError) : Prop :=
  match r with
  | Ok p => ∃ path' e, step_ok t p4 path t' path' ∧ entry_at t' ptr i = Some e ∧ is_table e = true
              ∧ target e = p ∧ is_Some (t' !! p) ∧ path' p = path ptr ++ [i]
  | Err CreateFrameAllocationFailed => t' = t
  | Err CreateMappedToHugePage =>
      ∃ e, entry_at t ptr i = Some e ∧ present e = true ∧ huge e = true
        ∧ (t' = t ∨ t' = upd t ptr i (Z.lor (entry_addr e) (Z.lor (flags e) fl)))
  end.

Lemma create_unused t a p4 path ptr i fl :
  tree t p4 path → alloc_ok t a → is_Some (t !! ptr) → (length (path ptr) < 3)%nat → good_idx i →
  table_flags fl → entry_at t ptr i = Some 0 →
  ∃ t' a' r, create_next_table t a ptr i fl = Ret (t', a', r) ∧ alloc_ok t' a'
    ∧ create_result t p4 path ptr i fl t' r.
Proof.
  intros Ht [Hinv Hfree] Hptr Hd Hi (Hv & Hp & Hh) He. unfold create_next_table.
  rewrite (read_entry_spec _ _ _ _ He). cbn [mbind run_bind].
  change (is_unused 0) with true. cbn iota.
  destruct (allocate_frame_law a Hinv) as (o & a' & -> & Hinv' & Hsub & Ho). cbn [mbind run_bind].
  assert (∀ f, free_frame a' f → covered f ∧ t !! pointer_of f = None) as Hfree' by auto.
  destruct o as [f|]; [|by exists t, a', (Err CreateFrameAllocationFailed)].
  destruct Ho as (Hf & Hnf & Hm & Hb). destruct (Hfree f Hf) as [Hc Hn].
  assert (page_frame f) as Hpf by (split; [exact Hb|exact Hm]).
  rewrite set_frame_spec by done. cbn [mbind run_bind]. rewrite (write_entry_spec t p4 path) by done.
  cbn [mbind run_bind]. set (e' := Z.lor f fl).
  destruct (stored_entry f fl Hpf Hv) as (H1 & _ & H3 & H4). fold e' in H1, H3, H4.
  assert (is_table e' = true) as Htab by (unfold is_table; by rewrite H3, H4, Hp, Hh).
  rewrite next_table_spec, H3, H4, Hp, Hh, H1, frame_to_pointer_covered by done. cbn [mbind run_bind negb].
  assert (target e' = pointer_of f) as Htg by (unfold target; by rewrite H1).
  assert (step_ok t p4 path (with_table t ptr i e') (new_path path ptr i e')) as Hstep.
  { apply step_new_table; try done; [by rewrite H1|by rewrite Htg]. }
  exists (with_table t ptr i e'), a', (Ok (pointer_of f)). split; [unfold with_table; by rewrite Htg|]. split.
  - split; [done|]. intros g Hg. destruct (Hfree' g Hg) as [Hcg Hng]. split; [done|].
    apply eq_None_not_Some. rewrite with_table_is_Some. rewrite Htg. intros [Heq|Hs].
    + apply pointer_of_inj in Heq; [|done..]. by subst g.
    + rewrite Hng in Hs. by destruct Hs.
  - exists (new_path path ptr i e'), e'. split_and!; [done| |done|done| |].
    + rewrite (entry_at_old t p4 path); [by rewrite decide_True|done..|by rewrite Htg|done|apply Hi].
    + apply with_table_is_Some. left. by symmetry.
    + unfold new_path. by rewrite Htg, decide_True.
Qed.

Lemma create_used t a p4 path ptr i e fl :
  tree t p4 path → alloc_ok t a → is_Some (t !! ptr) → (length (path ptr) < 3)%nat → good_idx i →
  table_flags fl → entry_at t ptr i = Some e → e ≠ 0 →
  ∃ t' r, create_next_table t a ptr i fl = Ret (t', a, r) ∧ alloc_ok t' a
    ∧ create_result t p4 path ptr i fl t' r.
Proof.
  intros Ht Ha Hptr Hd Hi Hfl He Hne. unfold create_next_table.
  rewrite (read_entry_spec _ _ _ _ He). cbn [mbind run_bind].
  unfold is_unused. rewrite (proj2 (Z.eqb_neq e 0)) by done. cbn iota.
  assert (0 ≤ i) as Hi0 by (unfold good_idx in Hi; lia).
  destruct (tree_entry _ _ _ Ht _ _ _ He Hi0) as [?|Hp]; [done|].
  rewrite set_flags_spec. cbn [mbind run_bind]. rewrite (write_entry_spec t p4 path) by done. cbn [mbind run_bind].
  set (e2 := Z.lor (entry_addr e) (Z.lor (flags e) fl)).
  destruct (add_flags e fl Hfl) as (Ha2 & Hp2 & Hh2). fold e2 in Ha2, Hp2, Hh2.
  assert (∃ e' t', (e' = e ∧ t' = t ∨ e' = e2 ∧ t' = upd t ptr i e2)
    ∧ (if negb (fl =? 0) && negb (contains (flags e) fl) then Ret (e2, upd t ptr i e2) else Ret (e, t)) = Ret (e', t'))
    as (e' & t' & Hcase & ->).
  { destruct (negb _ && negb _); [exists e2, (upd t ptr i e2)|exists e, t]; auto. }
  cbn [mbind run_bind].
  assert (present e' = true ∧ huge e' = huge e ∧ entry_addr e' = entry_addr e) as (Hp' & Hh' & Ha').
  { destruct Hcase as [[-> ->]|[-> ->]]; auto. }
  assert (alloc_ok t' a) as Hok by (destruct Hcase as [[-> ->]|[-> ->]]; [done|by apply alloc_ok_upd]).
  rewrite next_table_spec, Hp', Hh', Ha'. cbn [negb]. destruct (huge e) eqn:Hh; cbn [mbind run_bind].
  { exists t', (Err CreateMappedToHugePage). split_and!; [done..|]. exists e. split_and!; [done..|].
    destruct Hcase as [[_ ->]|[_ ->]]; auto. }
  assert (is_table e = true) as Htab by (unfold is_table; by rewrite Hp, Hh).
  destruct (tree_child _ _ _ Ht _ _ _ He Hi0 Htab Hd) as (Hc & Hpath & Hin).
  rewrite frame_to_pointer_covered by done. cbn [mbind run_bind].
  exists t', (Ok (target e)). split_and!; [done..|]. exists path, e'.
  assert (step_ok t p4 path t' path ∧ entry_at t' ptr i = Some e') as [Hstep He'].
  { destruct Hcase as [[-> ->]|[-> ->]]; [split; [by apply step_ok_refl|done]|]. split.
    - eapply step_retarget; try done. split_and!; [done| |done]. unfold is_table. by rewrite Hp2, Hh2.
    - rewrite (entry_at_upd t p4 path) by done. by rewrite decide_True. }
  split_and!; [done|done|unfold is_table; by rewrite Hp', Hh'|by unfold target; rewrite Ha'| |done].
  by apply Hstep.
Qed.

Lemma create_next_table_spec t a p4 path ptr i fl :
  tree t p4 path → alloc_ok t a → is_Some (t !! ptr) → (length (path ptr) < 3)%nat → good_idx i →
  table_flags fl →
  ∃ t' a' r, create_next_table t a ptr i fl = Ret (t', a', r) ∧ alloc_ok t' a'
    ∧ create_result t p4 path ptr i fl t' r.
Proof.
  intros Ht Ha Hptr Hd Hi Hfl. destruct (entry_at_Some t p4 path ptr i Ht Hptr Hi) as [e He].
  destruct (decide (e = 0)) as [->|Hne]; [by apply create_unused|].
  destruct (create_used t a p4 path ptr i e fl) as (t' & r & H1 & H2 & H3); [done..|]. by exists t', a, r.
Qed.

(** *** Creating the tables of a path *)
Definition path_result (t : tables) (p4 : Z) (path : Z → list Z) (ix : list Z) (t' : tables)
    (r : result Z MapToError) : Prop :=
  match r with
  | Ok q => ∃ path', step_ok t p4 path t' path' ∧ reach t' p4 ix = Some q ∧ path' q = ix ∧ is_Some (t' !! q)
  | Err FrameAllocationFailed => ∃ path', step_ok t p4 path t' path'
  | Err ParentEntryHugePage =>
      (∃ path', tree t' p4 path')
      ∧ (∀ w, walk_of w → frames_of (mapping t' p4 w) = frames_of (mapping t p4 w))
      ∧ (∀ w, walk_of w → ix `prefix_of` w → ∃ k e, mapping t p4 w = Some (S k, e))
  | Err (PageAlreadyMapped _) => False
  end.

Lemma path_result_trans t p4 path t1 path1 ix t2 r :
  step_ok t p4 path t1 path1 → path_result t1 p4 path1 ix t2 r → path_result t p4 path ix t2 r.
Proof.
  intros Hs. pose proof Hs as (_ & _ & _ & Hm). destruct r as [q|[| |f]]; simpl.
  - intros (path' & Hs' & ?). exists path'. split; [by eapply step_ok_trans|done].
  - intros (path' & Hs'). exists path'. by eapply step_ok_trans.
  - intros (Ht & Hf & Hh). split_and!; [done| |].
    + intros w Hw. by rewrite Hf, Hm.
    + intros w Hw Hp. rewrite <- Hm by done. by apply Hh.
  - done.
Qed.

Lemma huge_entry_result t p4 path ptr i rest e t' fl pre :
  tree t p4 path → is_Some (t !! ptr) → good_idx i → table_flags fl → reach t p4 pre = Some ptr →
  (length (pre ++ i :: rest) ≤ 3)%nat →
  entry_at t ptr i = Some e → present e = true → huge e = true →
  (t' = t ∨ t' = upd t ptr i (Z.lor (entry_addr e) (Z.lor (flags e) fl))) →
  path_result t p4 path (pre ++ i :: rest) t' (Err ParentEntryHugePage).
Proof.
  intros Ht Hptr Hi Hfl Hr Hlen He Hp Hh Hcase.
  destruct (add_flags e fl Hfl) as (Ha2 & Hp2 & Hh2). rewrite Hh in Hh2. split_and!.
  - exists path. destruct Hcase as [->| ->]; [done|]. eapply upd_tree; try done.
    + by right.
    + intros ->. rewrite (tree_top _ _ _ Ht i e) in Hh; [done|done|apply Hi].
    + unfold is_table. rewrite Hh2. by rewrite andb_false_r.
  - intros w [Hw Hg]. destruct Hcase as [->| ->]; [done|].
    eapply mapping_huge_flags; try done; [apply Ht|]. rewrite (tree_root _ _ _ Ht). done.
  - intros w [Hw Hg] [tl ->]. rewrite <- app_assoc. rewrite (mapping_reach t p4 pre ptr) by done.
    simpl. rewrite He, Hp, Hh. cbn [negb]. rewrite length_app in Hw.
    destruct (rest ++ tl) as [|x l] eqn:E; [|by exists (length l), e].
    apply app_eq_nil in E as [-> ->]. rewrite length_app in *. simpl in *. lia.
Qed.

Lemma create_path_spec ps t a p4 path ptr pre fl :
  tree t p4 path → alloc_ok t a → reach t p4 pre = Some ptr → path ptr = pre → is_Some (t !! ptr) →
  Forall good_idx (pre ++ ps) → (length (pre ++ ps) ≤ 3)%nat → table_flags fl →
  ∃ t' a' r, create_path t a ptr ps fl = Ret (t', a', r) ∧ alloc_ok t' a'
    ∧ path_result t p4 path (pre ++ ps) t' r.
Proof.
  revert t a path ptr pre. induction ps as [|i ps IH]; intros t a path ptr pre Ht Ha Hr Hpath Hptr Hg Hlen Hfl.
  { exists t, a, (Ok ptr). rewrite app_nil_r. split_and!; [done..|]. exists path.
    split_and!; [by apply step_ok_refl|done..]. }
  apply Forall_app in Hg as Hg2. destruct Hg2 as [Hg1 [Hi Hg2]%Forall_cons].
  assert (length (path ptr) < 3)%nat as Hd by (rewrite Hpath, length_app in *; simpl in *; lia).
  destruct (create_next_table_spec t a p4 path ptr i fl) as (t1 & a1 & r & Hrun & Ha1 & Hres); [done..|].
  simpl create_path. rewrite Hrun. cbn [mbind run_bind]. destruct r as [p|[|]]; simpl in Hres.
  - destruct Hres as (path1 & e & Hs & He & Htab & <- & Hin & Hp1). pose proof Hs as (Ht1 & _ & Hext & _).
    destruct (IH t1 a1 path1 (target e) (pre ++ [i])) as (t2 & a2 & r2 & Hrun2 & Ha2 & Hres2); try done.
    + eapply reach_snoc; [|done..]. by eapply reach_extends.
    + by rewrite Hp1, Hpath.
    + by rewrite <- app_assoc.
    + by rewrite <- app_assoc.
    + exists t2, a2, r2. split_and!; [done..|]. rewrite <- app_assoc in Hres2. by eapply path_result_trans.
  - destruct Hres as (e & He & Hp & Hh & Hcase). exists t1, a1, (Err ParentEntryHugePage).
    split_and!; [done..|]. by eapply huge_entry_result.
  - subst t1. exists t, a1, (Err FrameAllocationFailed). split_and!; [done..|]. exists path. by apply step_ok_refl.
Qed.

(** What the calls of the allocator have been: [grants] is a call that was served, and
    [ran_out] a series of these that ends in a refusal. *)
Definition grants (a a' : A) : Prop := ∃ f, allocate_frame a = Ret (Some f, a').
Definition ran_out (a a' : A) : Prop := ∃ a1, rtc grants a a1 ∧ allocate_frame a1 = Ret (None, a').
Lemma create_next_table_alloc t a ptr i fl t' a' r :
  create_next_table t a ptr i fl = Ret (t', a', r) →
  match r with Err CreateFrameAllocationFailed => allocate_frame a = Ret (None, a') | _ => rtc grants a a' end.
Proof.
  unfold create_next_table. intros (e & _ & Hrun)%bind_Ret. destruct (is_unused e).
  - apply bind_Ret in Hrun as ([[f|] a1] & Ha & Hrun); [|by injection Hrun as <- <- <-].
    apply bind_Ret in Hrun as (e' & _ & (t1 & _ & (n & _ & Hrun)%bind_Ret)%bind_Ret).
    assert (rtc grants a a1) as Hg by (apply rtc_once; by exists f).
    destruct n as [p|[|]]; [by injection Hrun as <- <- <-|done|by injection Hrun as <- <- <-].
  - apply bind_Ret in Hrun as ([e' t1] & _ & (n & _ & Hrun)%bind_Ret). destruct n as [p|[|]]; [by injection Hrun as <- <- <-|done|by injection Hrun as <- <- <-].
Qed.
Lemma create_path_alloc ps t a ptr fl t' a' r :
  create_path t a ptr ps fl = Ret (t', a', r) →
  match r with Err FrameAllocationFailed => ran_out a a' | _ => rtc grants a a' end.
Proof.
  revert t a ptr. induction ps as [|i ps IH]; intros t a ptr; cbn [create_path]; [by intros [= <- <- <-]|].
  intros ([[t1 a1] r1] & H1%create_next_table_alloc & Hrun)%bind_Ret. destruct r1 as [p|[|]].
  - specialize (IH _ _ _ Hrun). destruct r as [q|[| |g]]; [by etrans| |by etrans..].
    destruct IH as (a2 & Hg & Hn). exists a2. split; [by etrans|done].
  - by injection Hrun as <- <- <-.
  - injection Hrun as <- <- <-. by exists a.
Qed.

(** *** Writing the leaf *)
(** Writing an entry at the end of a walk does not disturb the walk itself. *)
Lemma reach_upd t p4 path q pre i e' :
  tree t p4 path → path q = pre → is_Some (t !! q) → good_idx i →
  ∀ ps ptr, reach t ptr ps = Some q → path ptr ++ ps = pre → is_Some (t !! ptr) → Forall good_idx ps →
    (length pre ≤ 3)%nat → reach (upd t q i e') ptr ps = Some q.
Proof.
  intros Ht Hpath Hq Hi ps. induction ps as [|j ps IH]; intros ptr; simpl; [done|].
  intros Hrp Hpp Hin Hgp Hlen. apply Forall_cons in Hgp as [Hj Hgp].
  assert (length (path ptr) < length pre)%nat as Hd by (rewrite <- Hpp, length_app; simpl; lia).
  rewrite (entry_at_upd t p4 path) by (try done; apply Hj).
  rewrite decide_False by (intros [-> _]; rewrite Hpath in Hd; lia).
  destruct (entry_at t ptr j) as [e1|] eqn:He1; simpl in *; [|done]. destruct (is_table e1) eqn:Ht1; [|done].
  destruct (tree_child _ _ _ Ht ptr j e1 He1) as (_ & Hp1 & Hin1); [apply Hj|done|lia|].
  apply IH; [done|by rewrite Hp1, <- app_assoc|done|done|done].
Qed.

(** The new entry is a leaf: zero, huge, or in a level 1 table. *)
Lemma leaf_write t p4 path q pre i e e' :
  tree t p4 path → reach t p4 pre = Some q → path q = pre → is_Some (t !! q) → Forall good_idx pre →
  good_idx i → entry_at t q i = Some e → e' = 0 ∨ present e' = true →
  (1 ≤ length pre ≤ 3)%nat → e' = 0 ∨ huge e' = true ∨ length pre = 3%nat →
  tree (upd t q i e') p4 path
  ∧ ∀ w, walk_of w → mapping (upd t q i e') p4 w
       = if decide ((pre ++ [i]) `prefix_of` w)
         then if present e' then Some ((3 - length pre)%nat, e') else None
         else mapping t p4 w.
Proof.
  intros Ht Hr Hpath Hq Hg Hi He Hp Hlen Hh. split.
  { eapply upd_tree; try done.
    - intros ->. rewrite (tree_root _ _ _ Ht) in Hpath. subst pre. simpl in Hlen. lia.
    - intros Htab Hd. exfalso. rewrite Hpath in Hd. apply is_table_inv in Htab as [Hx Htab].
      destruct Hh as [->|[?|?]]; [by rewrite (proj1 zero_entry) in Hx|congruence|lia]. }
  intros w [Hw Hgw]. destruct (decide ((pre ++ [i]) `prefix_of` w)) as [[tl ->]|Hnp].
  - rewrite <- app_assoc, (mapping_reach _ p4 pre q).
    2:{ eapply reach_upd; try done; [by rewrite (tree_root _ _ _ Ht)|apply Ht|lia]. } 2:{ done. }
    cbn [app mapping]. rewrite (entry_at_upd t p4 path) by (try done; apply Hi). rewrite decide_True by done.
    rewrite !length_app in Hw. simpl in Hw. destruct (present e') eqn:Hp'; cbn [negb]; [|done].
    destruct tl as [|x tl]; simpl in *.
    + do 2 f_equal. lia.
    + destruct Hh as [->|[->|?]]; [by rewrite (proj1 zero_entry) in Hp'| |lia]. do 2 f_equal. lia.
  - eapply mapping_frame; try done; [apply Ht|by rewrite (tree_root _ _ _ Ht)|].
    intros q' j Hq' Hj Hne. rewrite (tree_root _ _ _ Ht). simpl.
    rewrite (entry_at_upd t p4 path) in Hne by done. case_decide as Hc; [|done]. destruct Hc as [-> ->].
    by rewrite Hpath.
Qed.
End create.

(** *** [translate] computes [mapping] *)
Definition translation (v : Z) (o : option (nat * Z)) : TranslateResult :=
  match o with
  | Some (O, e) => Mapped (Frame Size4KiB (entry_addr e)) (v mod SIZE Size4KiB) (flags e)
  | Some (1%nat, e) =>
      Mapped (Frame Size2MiB (entry_addr e - entry_addr e mod SIZE Size2MiB)) (v mod SIZE Size2MiB) (flags e)
  | Some (_, e) =>
      Mapped (Frame Size1GiB (entry_addr e - entry_addr e mod SIZE Size1GiB)) (v mod SIZE Size1GiB) (flags e)
  | None => NotMapped
  end.

Lemma idx_good v : good_idx (p4_index v) ∧ good_idx (p3_index v) ∧ good_idx (p2_index v) ∧ good_idx (p1_index v).
Proof. split_and!; apply index_range. Qed.
Lemma idxs_walk v : walk_of (idxs v).
Proof. destruct (idx_good v) as (? & ? & ? & ?). split; [done|].
  unfold idxs. by rewrite !Forall_cons, Forall_nil. Qed.

Lemma frame_containing_spec sz f : page_frame f → frame_containing_address sz f = Ret (f - f mod SIZE sz).
Proof.
  intros Hf. unfold frame_containing_address, phys_align_down. rewrite SIZE_pow.
  apply align_down_spec; [by apply page_frame_width|destruct sz; lia].
Qed.
Lemma frame_from_start_spec sz f :
  page_frame f → frame_from_start_address sz f = Ret (if decide (f mod SIZE sz = 0) then Ok f else Err NotAligned).
Proof.
  intros Hf. unfold frame_from_start_address, phys_is_aligned. rewrite SIZE_pow at 1.
  rewrite is_aligned_spec; [|by apply page_frame_width|destruct sz; lia]. cbn [mbind run_bind].
  rewrite <- SIZE_pow. case_bool_decide as Hm; cbn [negb].
  - rewrite decide_True, frame_containing_spec, Hm by done. cbn [mbind run_bind]. by rewrite Z.sub_0_r.
  - by rewrite decide_False.
Qed.

(** Reading a child during a walk. *)
Lemma walk_step t p4 path ptr i :
  tree t p4 path → is_Some (t !! ptr) → good_idx i → (length (path ptr) < 3)%nat →
  ∃ e, entry_at t ptr i = Some e ∧ read_entry t ptr i = Ret e
    ∧ ((present e = false ∧ next_table e = Ret (Err WalkNotMapped))
       ∨ (present e = true ∧ huge e = true ∧ next_table e = Ret (Err WalkMappedToHugePage))
       ∨ (present e = true ∧ huge e = false ∧ next_table e = Ret (Ok (target e))
          ∧ is_Some (t !! target e) ∧ path (target e) = path ptr ++ [i])).
Proof.
  intros Ht Hptr Hi Hd. destruct (entry_at_Some t p4 path ptr i Ht Hptr Hi) as [e He].
  exists e. split; [done|]. split; [by apply read_entry_spec|].
  rewrite next_table_spec. destruct (present e) eqn:Hp; cbn [negb]; [|by left]. right.
  destruct (huge e) eqn:Hh; [by left|]. right.
  destruct (tree_child _ _ _ Ht ptr i e He) as (Hc & Hpath & Hin); [apply Hi|unfold is_table; by rewrite Hp, Hh|done|].
  by rewrite frame_to_pointer_covered.
Qed.

Lemma land_low v k : 0 ≤ k → Z.land v (2 ^ k - 1) = v mod 2 ^ k.
Proof. apply land_mask. Qed.

Lemma translate_spec t p4 path v :
  tree t p4 path → translate t p4 v = Ret (translation v (mapping t p4 (idxs v))).
Proof.
  intros Ht. destruct (idx_good v) as (G4 & G3 & G2 & G1).
  pose proof (tree_root _ _ _ Ht) as Hroot. unfold translate, idxs. cbn [mapping].
  destruct (walk_step t p4 path p4 (p4_index v)) as (e4 & He4 & -> & Hc4);
    [done|apply Ht|done|rewrite Hroot; simpl; lia|]. cbn [mbind run_bind]. rewrite He4.
  destruct Hc4 as [[Hp4 Hn4]|[(Hp4 & Hh4 & _)|(Hp4 & Hh4 & Hn4 & Hin4 & Hpath4)]].
  { rewrite Hn4, Hp4. done. }
  { rewrite (tree_top _ _ _ Ht (p4_index v) e4 He4) in Hh4 by apply G4. done. }
  rewrite Hn4, Hp4, Hh4. cbn [mbind run_bind negb]. rewrite Hroot in Hpath4.
  destruct (walk_step t p4 path (target e4) (p3_index v)) as (e3 & He3 & -> & Hc3);
    [done..|rewrite Hpath4; simpl; lia|]. cbn [mbind run_bind]. rewrite He3.
  destruct Hc3 as [[Hp3 Hn3]|[(Hp3 & Hh3 & Hn3)|(Hp3 & Hh3 & Hn3 & Hin3 & Hpath3)]].
  { rewrite Hn3, Hp3. done. }
  { rewrite Hn3, Hp3, Hh3. cbn [mbind run_bind negb]. rewrite addr_spec. cbn [mbind run_bind].
    rewrite frame_containing_spec by apply entry_addr_page_frame. cbn [mbind run_bind].
    change 0x3fffffff with (2 ^ 30 - 1). by rewrite land_low. }
  rewrite Hn3, Hp3, Hh3. cbn [mbind run_bind negb]. rewrite Hpath4 in Hpath3.
  destruct (walk_step t p4 path (target e3) (p2_index v)) as (e2 & He2 & -> & Hc2);
    [done..|rewrite Hpath3; simpl; lia|]. cbn [mbind run_bind]. rewrite He2.
  destruct Hc2 as [[Hp2 Hn2]|[(Hp2 & Hh2 & Hn2)|(Hp2 & Hh2 & Hn2 & Hin2 & Hpath2)]].
  { rewrite Hn2, Hp2. done. }
  { rewrite Hn2, Hp2, Hh2. cbn [mbind run_bind negb]. rewrite addr_spec. cbn [mbind run_bind].
    rewrite frame_containing_spec by apply entry_addr_page_frame. cbn [mbind run_bind].
    change 0x1fffff with (2 ^ 21 - 1). by rewrite land_low. }
  rewrite Hn2, Hp2, Hh2. cbn [mbind run_bind negb].
  destruct (entry_at_Some t p4 path (target e2) (p1_index v) Ht Hin2 G1) as [e1 He1].
  rewrite (read_entry_spec _ _ _ _ He1), He1. cbn [mbind run_bind]. unfold is_unused.
  destruct (Z.eqb_spec e1 0) as [->|Hne]; [by rewrite (proj1 zero_entry)|].
  destruct (tree_entry _ _ _ Ht _ _ _ He1) as [?|Hp1]; [apply G1|done|]. rewrite Hp1. cbn [negb].
  rewrite addr_spec. cbn [mbind run_bind]. pose proof (entry_addr_page_frame e1) as Hpf.
  rewrite frame_from_start_spec by done. cbn [mbind run_bind].
  rewrite decide_True by apply Hpf. by rewrite page_offset_spec.
Qed.

(** *** Walks of 4 KiB operations *)
Lemma descend_spec t p4 path ps ptr pre :
  tree t p4 path → is_Some (t !! ptr) → path ptr = pre → (length (pre ++ ps) ≤ 3)%nat → Forall good_idx ps →
  ∃ r, descend t ptr ps = Ret r ∧
    match r with
    | Ok q => reach t ptr ps = Some q ∧ is_Some (t !! q) ∧ path q = pre ++ ps
    | Err e => ∀ rest, rest ≠ [] →
        match e with
        | WalkNotMapped => mapping t ptr (ps ++ rest) = None
        | WalkMappedToHugePage => ∃ k x, mapping t ptr (ps ++ rest) = Some (k, x) ∧ (length rest ≤ k)%nat
        end
    end.
Proof.
  intros Ht. revert ptr pre. induction ps as [|i ps IH]; intros ptr pre Hptr Hpath Hlen Hg.
  { exists (Ok ptr). rewrite app_nil_r. done. }
  apply Forall_cons in Hg as [Hi Hg]. rewrite length_app in Hlen. simpl in Hlen.
  destruct (walk_step t p4 path ptr i) as (e & He & Hread & Hc); [done..|rewrite Hpath; lia|].
  cbn [descend reach mapping app]. rewrite Hread, He. cbn [mbind run_bind option_bind].
  destruct Hc as [[Hp ->]|[(Hp & Hh & ->)|(Hp & Hh & -> & Hin & Hpath')]]; cbn [mbind run_bind].
  - exists (Err WalkNotMapped). split; [done|]. intros rest _. by rewrite Hp.
  - exists (Err WalkMappedToHugePage). split; [done|]. intros rest Hrest. rewrite Hp, Hh. cbn [negb].
    destruct (ps ++ rest) as [|x l] eqn:E; [by apply app_eq_nil in E as [_ ?]|]. exists (length (x :: l)), e.
    split; [done|]. rewrite <- E, length_app. lia.
  - destruct (IH (target e) (pre ++ [i])) as (r & -> & Hr); [done|by rewrite Hpath', Hpath|rewrite !length_app; simpl; lia|done|].
    exists r. split; [done|]. unfold is_table. rewrite Hp, Hh. cbn [negb andb].
    destruct r as [q|er]; [by rewrite <- app_assoc in Hr|].
    intros rest Hrest. specialize (Hr rest Hrest).
    destruct (ps ++ rest) as [|x l] eqn:E; [by apply app_eq_nil in E as [_ ?]|done].
Qed.
End spec.

(** ** Properties of the mapper *)
Section properties.
Context {BF : BitField} `{!PageTableFrameMapping} {A : Type} `{!FrameAllocator A}.

(** Where the leaf entry of a page is: the path to its table and its index there. *)
Definition leaf_path (s : PageSize) (page : Z) : list Z :=
  match s with
  | Size4KiB => [p4_index page; p3_index page; p2_index page]
  | Size2MiB => [p4_index page; p3_index page]
  | Size1GiB => [p4_index page]
  end.
Definition leaf_index (s : PageSize) (page : Z) : Z :=
  match s with Size4KiB => p1_index page | Size2MiB => p2_index page | Size1GiB => p3_index page end.
Definition leaf_flags (s : PageSize) (fl : Z) : Z :=
  match s with Size4KiB => fl | _ => Z.lor fl HUGE_PAGE end.
(** [v] lies in the page: the same indices down to the leaf. *)
Definition in_page (s : PageSize) (page v : Z) : Prop := (leaf_path s page ++ [leaf_index s page]) `prefix_of` idxs v.
#[global] Instance in_page_dec s page v : Decision (in_page s page v).
Proof. unfold in_page. apply _. Defined.

Lemma in_page_self s page : in_page s page page.
Proof. destruct s; eexists; done. Qed.

Definition store_leaf (s : PageSize) (entry f fl : Z) : run Z :=
  match s with Size4KiB => set_frame entry f fl | _ => set_addr entry f (Z.lor fl HUGE_PAGE) end.

Lemma map_to_unfold s (t : tables) (a : A) p4 page f fl parent :
  map_to_with_table_flags s t a p4 page f fl parent
  = ('(t1, a1, r) ← create_path t a p4 (leaf_path s page) parent;
     match r with
     | Err e => Ret (t1, a1, Err e)
     | Ok q =>
         entry ← read_entry t1 q (leaf_index s page);
         if negb (is_unused entry) then Ret (t1, a1, Err (PageAlreadyMapped f))
         else e ← store_leaf s entry f fl;
              t2 ← write_entry t1 q (leaf_index s page) e; Ret (t2, a1, Ok page)
     end).
Proof. by destruct s. Qed.

Lemma leaf_good s page : Forall good_idx (leaf_path s page) ∧ good_idx (leaf_index s page).
Proof.
  destruct (idx_good page) as (? & ? & ? & ?). split; [|by destruct s].
  destruct s; unfold leaf_path; by rewrite !Forall_cons, Forall_nil.
Qed.

Lemma huge_flag_valid : valid_flags HUGE_PAGE.
Proof. by vm_compute. Qed.

Lemma store_leaf_spec s entry f fl :
  page_frame f → table_flags fl →
  store_leaf s entry f fl = Ret (Z.lor f (leaf_flags s fl)) ∧ valid_flags (leaf_flags s fl)
  ∧ contains (leaf_flags s fl) PRESENT = true
  ∧ (contains (leaf_flags s fl) HUGE_PAGE = true ∨ length (leaf_path s 0) = 3%nat).
Proof.
  intros Hf (Hv & Hp & Hh). assert (valid_flags (Z.lor fl HUGE_PAGE)) as Hv' by (by apply valid_flags_lor, huge_flag_valid).
  assert (contains (Z.lor fl HUGE_PAGE) PRESENT = true) as Hp'
    by (rewrite contains_present in *; by rewrite Z.lor_spec, Hp).
  assert (contains (Z.lor fl HUGE_PAGE) HUGE_PAGE = true) as Hh'
    by (rewrite contains_huge in *; by rewrite Z.lor_spec, orb_true_r).
  destruct s; unfold store_leaf, leaf_flags.
  - rewrite set_frame_spec by done. auto.
  - rewrite set_addr_spec by done. auto.
  - rewrite set_addr_spec by done. auto.
Qed.

Lemma parent_flags fl :
  table_flags fl → table_flags (Z.land fl (Z.lor (Z.lor PRESENT WRITABLE) USER_ACCESSIBLE)).
Proof.
  intros ([Hv0 Hv] & Hp & Hh). rewrite contains_present in Hp. split_and!.
  - split; [apply Z.land_nonneg; by left|].
    rewrite <- Z.land_assoc. rewrite (Z.land_comm _ ALL_FLAGS). by rewrite Z.land_assoc, Hv.
  - rewrite contains_present, Z.land_spec, Hp. done.
  - rewrite contains_huge, Z.land_spec. by rewrite andb_false_r.
Qed.

Lemma translation_leaf s v f fl :
  page_frame f → valid_flags fl →
  translation v (Some ((3 - length (leaf_path s 0))%nat, Z.lor f fl))
  = Mapped (Frame s (f - f mod SIZE s)) (v mod SIZE s) fl.
Proof.
  intros Hf Hv. destruct (stored_entry f fl Hf Hv) as (Ha & Hfl & _ & _).
  destruct s; simpl length; cbn [Nat.sub translation]; rewrite Ha, Hfl; try done.
  change (SIZE Size4KiB) with 4096. by rewrite (proj2 Hf), Z.sub_0_r.
Qed.

(** Only the flags differ: the physical address is the same. *)
Lemma translate_addr_frames t t' p4 path path' v :
  tree t p4 path → tree t' p4 path' →
  frames_of (mapping t' p4 (idxs v)) = frames_of (mapping t p4 (idxs v)) →
  translate_addr t' p4 v = translate_addr t p4 v.
Proof.
  intros Ht Ht' Hf. unfold translate_addr. rewrite (translate_spec t p4 path), (translate_spec t' p4 path') by done.
  cbn [mbind run_bind]. unfold frames_of in Hf.
  destruct (mapping t' p4 (idxs v)) as [[k' e']|], (mapping t p4 (idxs v)) as [[k e]|]; cbn in Hf; try done.
  injection Hf as -> Ha. destruct k as [|[|k]]; cbn [translation]; by rewrite Ha.
Qed.

(** The walk index at which a page of each size ends. *)
Definition leaf_level (s : PageSize) : nat := match s with Size4KiB => 0 | Size2MiB => 1 | Size1GiB => 2 end.
(** [t] maps the page with an entry of its own size. *)
Definition maps_page (s : PageSize) (t : tables) (p4 page e : Z) : Prop :=
  mapping t p4 (idxs page) = Some (leaf_level s, e) ∧ (s = Size4KiB → huge e = false).

(** The outcome of [map_to]. *)
Definition map_outcome (s : PageSize) (t : tables) (p4 page f fl : Z) (t' : tables) (r : result Z MapToError) : Prop :=
  match r with
  | Ok p => p = page ∧ (∀ v, in_page s page v → translate t p4 v = Ret NotMapped)
      ∧ maps_page s t' p4 page (Z.lor f (leaf_flags s fl))
      ∧ ∀ v, translate t' p4 v = if decide (in_page s page v)
              then Ret (Mapped (Frame s f) (v mod SIZE s) (leaf_flags s fl)) else translate t p4 v
  | Err ParentEntryHugePage => ∀ v, translate_addr t' p4 v = translate_addr t p4 v
  | Err _ => ∀ v, translate t' p4 v = translate t p4 v
  end.

(** What the three [map_to]s do once the tables above the leaf are there. *)
Definition put_leaf (s : PageSize) (t : tables) (a : A) (q page f fl : Z) : run (tables * A * result Z MapToError) :=
  entry ← read_entry t q (leaf_index s page);
  if negb (is_unused entry) then Ret (t, a, Err (PageAlreadyMapped f))
  else e ← store_leaf s entry f fl;
       t2 ← write_entry t q (leaf_index s page) e; Ret (t2, a, Ok page).
Lemma step_translate t p4 path t1 path1 v :
  tree t p4 path → step_ok t p4 path t1 path1 → translate t1 p4 v = translate t p4 v.
Proof.
  intros Ht (Ht1 & _ & _ & Hmap). rewrite (translate_spec t p4 path), (translate_spec t1 p4 path1) by done.
  by rewrite Hmap by apply idxs_walk.
Qed.
Lemma path_error s t p4 path ix page f fl t1 e :
  tree t p4 path → path_result t p4 path ix t1 (Err e) → map_outcome s t p4 page f fl t1 (Err e) ∧ ∃ path1, tree t1 p4 path1.
Proof.
  intros Ht. destruct e as [| |g]; cbn [path_result map_outcome]; [| |done].
  - intros (path1 & Hs). split; [intros v; by apply (step_translate t p4 path t1 path1)|]. exists path1. apply Hs.
  - intros ((path1 & Ht1) & Hfr & _). split; [|by exists path1].
    intros v. eapply translate_addr_frames; [done..|]. apply Hfr, idxs_walk.
Qed.
Lemma put_leaf_cases s t p4 path page f fl t1 a1 path1 q :
  tree t p4 path → alloc_ok t1 a1 → table_flags fl → page_frame f → f mod SIZE s = 0 →
  step_ok t p4 path t1 path1 → reach t1 p4 (leaf_path s page) = Some q → path1 q = leaf_path s page → is_Some (t1 !! q) →
  ∃ t' r, put_leaf s t1 a1 q page f fl = Ret (t', a1, r)
    ∧ tree t' p4 path1 ∧ alloc_ok t' a1 ∧ map_outcome s t p4 page f fl t' r.
Proof.
  intros Ht Ha1 Hfl Hf Hm Hs Hr Hpath Hq. destruct (leaf_good s page) as [Hg Hi]. unfold put_leaf.
  assert (1 ≤ length (leaf_path s page) ≤ 3)%nat as Hlen by (destruct s; simpl; lia).
  pose proof (λ v, step_translate t p4 path t1 path1 v Ht Hs) as Hsame. pose proof Hs as (Ht1 & _).
  destruct (entry_at_Some t1 p4 path1 q (leaf_index s page) Ht1 Hq Hi) as [e He].
  rewrite (read_entry_spec _ _ _ _ He). cbn [mbind run_bind]. unfold is_unused.
  destruct (Z.eqb_spec e 0) as [->|Hne]; cbn [negb].
  2:{ exists t1, (Err (PageAlreadyMapped f)). split_and!; [done..|]. exact Hsame. }
  destruct (store_leaf_spec s 0 f fl Hf Hfl) as (-> & Hv & Hp & Hh). cbn [mbind run_bind].
  rewrite (write_entry_spec t1 p4 path1) by done. cbn [mbind run_bind].
  set (e' := Z.lor f (leaf_flags s fl)).
  destruct (stored_entry f _ Hf Hv) as (_ & _ & H3 & H4). fold e' in H3, H4.
  destruct (leaf_write t1 p4 path1 q (leaf_path s page) (leaf_index s page) 0 e') as [Ht2 Hmap]; try done.
  { right. by rewrite H3. } { right. rewrite H4. destruct Hh as [?|Hh]; [by left|right; by destruct s]. }
  exists (upd t1 q (leaf_index s page) e'), (Ok page). split_and!; [done|done|by apply alloc_ok_upd|].
  split; [done|]. split.
  { intros v [tl Hv']. rewrite <- (Hsame v), (translate_spec t1 p4 path1), Hv', <- app_assoc by done.
    rewrite (mapping_reach t1 p4 _ q) by done. simpl. by rewrite He, (proj1 zero_entry). }
  split.
  { split.
    - rewrite Hmap, decide_True, H3, Hp by (apply idxs_walk || apply in_page_self). by destruct s.
    - intros ->. fold e'. rewrite H4. apply Hfl. }
  intros v. rewrite (translate_spec _ p4 path1) by done. rewrite Hmap by apply idxs_walk.
  destruct (decide (in_page s page v)) as [Hin|Hin].
  - rewrite decide_True, H3, Hp by done. f_equal.
    replace (length (leaf_path s page)) with (length (leaf_path s 0)) by (by destruct s).
    unfold e'. rewrite translation_leaf by done. by rewrite Hm, Z.sub_0_r.
  - rewrite decide_False by done. rewrite <- (Hsame v). by rewrite (translate_spec t1 p4 path1).
Qed.

Lemma map_to_cases s t a p4 path page f fl parent :
  tree t p4 path → alloc_ok t a → table_flags fl → table_flags parent → page_frame f → f mod SIZE s = 0 →
  ∃ t' a' r path', map_to_with_table_flags s t a p4 page f fl parent = Ret (t', a', r)
    ∧ tree t' p4 path' ∧ alloc_ok t' a' ∧ map_outcome s t p4 page f fl t' r.
Proof.
  intros Ht Ha Hfl Hpar Hf Hm. destruct (leaf_good s page) as [Hg Hi]. rewrite map_to_unfold.
  destruct (create_path_spec (leaf_path s page) t a p4 path p4 [] parent) as (t1 & a1 & r & -> & Ha1 & Hres);
    [done..|apply Ht|apply Ht|done|destruct s; simpl; lia|done|]. cbn [mbind run_bind]. rewrite app_nil_l in Hres.
  destruct r as [q|e].
  - destruct Hres as (path1 & Hs & Hr & Hpath & Hq).
    destruct (put_leaf_cases s t p4 path page f fl t1 a1 path1 q) as (t' & r & Hrun & H1); [done..|].
    exists t', a1, r, path1. by split.
  - destruct (path_error s t p4 path (leaf_path s page) page f fl t1 e Ht Hres) as [Hout [path1 Ht1]].
    by exists t1, a1, (Err e), path1.
Qed.

(** The entry of the page itself is in use. *)
Definition slot_used (s : PageSize) (t : tables) (p4 page : Z) : Prop :=
  ∃ q e, reach t p4 (leaf_path s page) = Some q ∧ entry_at t q (leaf_index s page) = Some e ∧ e ≠ 0.
(** Why [map_to] may fail: the allocator had no frame left, the page is part of a larger one,
    or its entry is in use. *)
Definition map_refused (s : PageSize) (t : tables) (a : A) (p4 page f : Z) (t' : tables) (a' : A) (r : result Z MapToError) : Prop :=
  match r with
  | Ok _ => rtc grants a a'
  | Err FrameAllocationFailed => ran_out a a'
  | Err ParentEntryHugePage => ∃ k e, mapping t p4 (idxs page) = Some (S k, e)
  | Err (PageAlreadyMapped g) => g = f ∧ slot_used s t' p4 page
  end.
Lemma map_to_refused s t a p4 path page f fl parent t' a' r :
  tree t p4 path → alloc_ok t a → table_flags parent →
  map_to_with_table_flags s t a p4 page f fl parent = Ret (t', a', r) → map_refused s t a p4 page f t' a' r.
Proof.
  intros Ht Ha Hpar Hrun. destruct (leaf_good s page) as [Hg Hi]. rewrite map_to_unfold in Hrun.
  apply bind_Ret in Hrun as ([[t1 a1] r1] & Hpath & Hrun). pose proof (create_path_alloc _ _ _ _ _ _ _ _ Hpath) as Hal.
  destruct (create_path_spec (leaf_path s page) t a p4 path p4 [] parent) as (t2 & a2 & r2 & E & _ & Hres);
    [done..|apply Ht|apply Ht|done|destruct s; simpl; lia|done|]. rewrite Hpath in E. injection E as <- <- <-. rewrite app_nil_l in Hres.
  destruct r1 as [q|e].
  - destruct Hres as (path1 & _ & Hr & _ & _). apply bind_Ret in Hrun as (e & He & Hrun). unfold is_unused in Hrun.
    destruct (Z.eqb_spec e 0) as [->|Hne]; cbn [negb] in Hrun.
    + apply bind_Ret in Hrun as (e' & _ & (t3 & _ & [= <- <- <-])%bind_Ret). exact Hal.
    + injection Hrun as <- <- <-. split; [done|]. exists q, e. split; [done|]. split; [|done].
      unfold read_entry in He. unfold entry_at. destruct (t1 !! q) as [es|]; [|done]. by apply index_Ret in He.
  - injection Hrun as <- <- <-. destruct e as [| |g]; cbn [path_result] in Hres; [done| |done].
    destruct Hres as (_ & _ & Hhuge). destruct (Hhuge (idxs page)) as (k & e & Hm); [apply idxs_walk| |by exists k, e].
    exists (drop (length (leaf_path s page)) (idxs page)). by destruct s.
Qed.

(** *** [unmap] *)
Definition unmap_outcome (s : PageSize) (t : tables) (p4 page : Z) (t' : tables)
    (r : result (Z * Z) UnmapError) : Prop :=
  match r with
  | Ok (f, p) => p = page ∧ (∃ e, maps_page s t p4 page e ∧ f = entry_addr e ∧ f mod SIZE s = 0)
      ∧ ∀ v, translate t' p4 v = if decide (in_page s page v) then Ret NotMapped else translate t p4 v
  | Err UnmapPageNotMapped => t' = t ∧ ∀ v, in_page s page v → translate t p4 v = Ret NotMapped
  | Err UnmapParentEntryHugePage => t' = t ∧ ∀ e, ¬ maps_page s t p4 page e
  | Err (UnmapInvalidFrameAddress a) =>
      t' = t ∧ ∃ e, maps_page s t p4 page e ∧ a = entry_addr e ∧ a mod SIZE s ≠ 0
  end.

(** What the three [unmap]s do once the table of the leaf is reached. *)
Definition take_leaf (s : PageSize) (entry : Z) : run (result Z UnmapError) :=
  match s with
  | Size4KiB =>
      fr ← frame entry;
      Ret (match fr with Err FrameNotPresent => Err UnmapPageNotMapped
                       | Err HugeFrame => Err UnmapParentEntryHugePage | Ok f => Ok f end)
  | _ =>
      if negb (contains (flags entry) PRESENT) then Ret (Err UnmapPageNotMapped)
      else if negb (contains (flags entry) HUGE_PAGE) then Ret (Err UnmapParentEntryHugePage)
      else a ← addr entry; fr ← frame_from_start_address s a;
           Ret (match fr with Err _ => Err (UnmapInvalidFrameAddress a) | Ok f => Ok f end)
  end.

Lemma unmap_unfold s t p4 page :
  unmap s t p4 page
  = (r ← descend t p4 (leaf_path s page);
     match r with
     | Err e => Ret (t, Err (walk_to_unmap e))
     | Ok q =>
         entry ← read_entry t q (leaf_index s page);
         o ← take_leaf s entry;
         match o with
         | Err e => Ret (t, Err e)
         | Ok f => t1 ← write_entry t q (leaf_index s page) (set_unused entry); Ret (t1, Ok (f, page))
         end
     end).
Proof.
  destruct s; unfold unmap, unmap_1gib, unmap_2mib, unmap_4kib, unmap_huge; cbn [leaf_path leaf_index take_leaf];
    destruct (descend _ _ _) as [[q|e]|]; cbn [mbind run_bind]; try done;
    destruct (read_entry _ _ _) as [e|]; cbn [mbind run_bind]; try done;
    repeat (destruct (negb _); cbn [mbind run_bind]; [done|]).
  - destruct (frame e) as [[f|[|]]|]; done.
  - destruct (addr e) as [a|]; cbn [mbind run_bind]; [|done]. destruct (frame_from_start_address _ _) as [[]|]; done.
  - destruct (addr e) as [a|]; cbn [mbind run_bind]; [|done]. destruct (frame_from_start_address _ _) as [[]|]; done.
Qed.

Definition right_size (s : PageSize) (e : Z) : bool :=
  match s with Size4KiB => negb (huge e) | _ => huge e end.
Lemma take_leaf_spec s e :
  take_leaf s e = Ret (if negb (present e) then Err UnmapPageNotMapped
                       else if negb (right_size s e) then Err UnmapParentEntryHugePage
                       else if decide (entry_addr e mod SIZE s = 0) then Ok (entry_addr e)
                       else Err (UnmapInvalidFrameAddress (entry_addr e))).
Proof.
  pose proof (entry_addr_page_frame e) as Hpf. destruct s; unfold take_leaf, right_size.
  - rewrite frame_spec. cbn [mbind run_bind]. destruct (present e); cbn [negb]; [|done].
    destruct (huge e); cbn [negb]; [done|]. by rewrite decide_True by apply Hpf.
  - fold (present e) (huge e). destruct (present e), (huge e); cbn [negb]; try done.
    rewrite addr_spec. cbn [mbind run_bind]. rewrite frame_from_start_spec by done. cbn [mbind run_bind].
    by case_decide.
  - fold (present e) (huge e). destruct (present e), (huge e); cbn [negb]; try done.
    rewrite addr_spec. cbn [mbind run_bind]. rewrite frame_from_start_spec by done. cbn [mbind run_bind].
    by case_decide.
Qed.

Lemma mapping_level t ix q k e : mapping t q ix = Some (k, e) → (k < length ix)%nat.
Proof.
  revert q. induction ix as [|i ix IH]; intros q; cbn [mapping]; [done|].
  destruct (entry_at t q i) as [e1|]; [|done]. destruct (negb (present e1)); [done|].
  destruct ix as [|j ix]; [intros [= <- _]; simpl; lia|].
  destruct (huge e1); [intros [= <- _]; simpl; lia|]. intros Hm%IH. simpl in *. lia.
Qed.

(** An address of the page splits into the path to the leaf, its index, and the rest. *)
Lemma in_page_idxs s page v :
  in_page s page v → ∃ tl, idxs v = leaf_path s page ++ leaf_index s page :: tl ∧ length tl = leaf_level s.
Proof.
  intros [tl Hv]. exists tl. rewrite <- app_assoc in Hv. split; [done|].
  assert (length (idxs v) = 4%nat) as Hl by done. rewrite Hv, !length_app in Hl. destruct s; simpl in *; lia.
Qed.

(** The mapping of an address of the page, from the leaf entry. *)
Lemma leaf_mapping s t p4 page q e v :
  reach t p4 (leaf_path s page) = Some q → entry_at t q (leaf_index s page) = Some e → in_page s page v →
  if negb (present e) then mapping t p4 (idxs v) = None
  else if right_size s e then mapping t p4 (idxs v) = Some (leaf_level s, e)
  else ∀ k e', mapping t p4 (idxs v) = Some (k, e') → k = leaf_level s → s = Size4KiB ∧ e' = e.
Proof.
  intros Hr He Hv. destruct (in_page_idxs _ _ _ Hv) as (tl & -> & Hl).
  rewrite (mapping_reach t p4 _ q) by done. cbn [mapping]. rewrite He.
  destruct (present e); cbn [negb]; [|done]. destruct s; simpl in *.
  - destruct tl; [|done]. destruct (huge e); cbn [negb]; [|done]. by intros k e' [= <- <-].
  - destruct tl as [|x [|]]; [done| |done]. destruct (huge e); [done|].
    intros k e' Hm%mapping_level Hk. simpl in Hm. lia.
  - destruct tl as [|x [|y [|]]]; [done|done| |done]. destruct (huge e); [done|].
    intros k e' Hm%mapping_level Hk. simpl in Hm. lia.
Qed.

Lemma unmap_cases s t p4 path page :
  tree t p4 path →
  ∃ t' r, unmap s t p4 page = Ret (t', r) ∧ tree t' p4 path ∧ unmap_outcome s t p4 page t' r.
Proof.
  intros Ht. destruct (leaf_good s page) as [Hg Hi]. rewrite unmap_unfold.
  assert (1 ≤ length (leaf_path s page) ≤ 3)%nat as Hlen by (destruct s; simpl; lia).
  destruct (descend_spec t p4 path (leaf_path s page) p4 []) as (r & -> & Hr);
    [done|apply Ht|apply Ht|simpl; lia|done|]. cbn [mbind run_bind].
  destruct r as [q|[|]].
  - destruct Hr as (Hreach & Hq & Hpath). destruct (entry_at_Some t p4 path q (leaf_index s page) Ht Hq Hi) as [e He].
    rewrite (read_entry_spec _ _ _ _ He). cbn [mbind run_bind]. rewrite take_leaf_spec. cbn [mbind run_bind].
    pose proof (λ v, leaf_mapping s t p4 page q e v Hreach He) as Hmap.
    destruct (present e) eqn:Hp; cbn [negb] in *.
    2:{ exists t, (Err UnmapPageNotMapped). split_and!; [done..|]. split; [done|].
        intros v Hv. by rewrite (translate_spec t p4 path), Hmap. }
    destruct (right_size s e) eqn:Hs; cbn [negb].
    2:{ exists t, (Err UnmapParentEntryHugePage). split_and!; [done..|]. split; [done|].
        intros e' [Hm Hh]. destruct (Hmap page (in_page_self s page) _ _ Hm eq_refl) as [-> ->].
        unfold right_size in Hs. by rewrite Hh in Hs. }
    assert (maps_page s t p4 page e) as Hmp.
    { split; [by apply Hmap, in_page_self|]. intros ->. by apply negb_true_iff in Hs. }
    case_decide as Ha.
    2:{ exists t, (Err (UnmapInvalidFrameAddress (entry_addr e))). split_and!; [done..|]. split; [done|].
        by exists e. }
    rewrite (write_entry_spec t p4 path) by done. cbn [mbind run_bind].
    destruct (leaf_write t p4 path q (leaf_path s page) (leaf_index s page) e 0) as [Ht' Hmap'];
      try done; try (by left).
    exists (upd t q (leaf_index s page) 0), (Ok (entry_addr e, page)). split_and!; [done..|].
    split_and!; [done|by exists e|]. intros v. rewrite (translate_spec _ p4 path) by done.
    rewrite Hmap', (proj1 zero_entry) by apply idxs_walk. destruct (decide (in_page s page v)) as [Hin|Hin].
    + by rewrite decide_True.
    + rewrite decide_False by done. by rewrite (translate_spec t p4 path).
  - exists t, (Err UnmapPageNotMapped). split_and!; [done..|]. split; [done|]. intros v Hv.
    destruct (in_page_idxs _ _ _ Hv) as (tl & Hv' & _). rewrite (translate_spec t p4 path), Hv' by done.
    by rewrite (Hr (leaf_index s page :: tl)).
  - exists t, (Err UnmapParentEntryHugePage). split_and!; [done..|]. split; [done|]. intros e [Hm _].
    destruct (in_page_idxs _ _ _ (in_page_self s page)) as (tl & Hv & Hl). rewrite Hv in Hm.
    destruct (Hr (leaf_index s page :: tl)) as (k & x & Hm' & Hk); [done|]. rewrite Hm in Hm'.
    injection Hm' as <- <-. simpl in Hk. lia.
Qed.

(** *** [update_flags] *)
Lemma update_flags_unfold s t p4 page fl :
  update_flags s t p4 page fl = set_flags_at t p4 (leaf_path s page) (leaf_index s page) (leaf_flags s fl).
Proof. by destruct s. Qed.

Lemma mapping_leaf s t p4 path page e :
  tree t p4 path → mapping t p4 (idxs page) = Some (leaf_level s, e) →
  ∃ q, descend t p4 (leaf_path s page) = Ret (Ok q) ∧ reach t p4 (leaf_path s page) = Some q
    ∧ is_Some (t !! q) ∧ path q = leaf_path s page ∧ entry_at t q (leaf_index s page) = Some e ∧ present e = true.
Proof.
  intros Ht Hm. destruct (leaf_good s page) as [Hg Hi].
  destruct (in_page_idxs _ _ _ (in_page_self s page)) as (tl & Hv & Hl).
  destruct (descend_spec t p4 path (leaf_path s page) p4 []) as (r & -> & Hr);
    [done|apply Ht|apply Ht|destruct s; simpl; lia|done|].
  destruct r as [q|[|]].
  - destruct Hr as (Hreach & Hq & Hpath). destruct (entry_at_Some t p4 path q (leaf_index s page) Ht Hq Hi) as [e' He].
    pose proof (leaf_mapping s t p4 page q e' page Hreach He (in_page_self s page)) as Hx.
    destruct (present e') eqn:Hp; cbn [negb] in Hx; [|congruence].
    assert (e' = e) as ->.
    { destruct (right_size s e'); [congruence|]. by destruct (Hx _ _ Hm eq_refl) as [_ ->]. }
    by exists q.
  - rewrite Hv, (Hr (leaf_index s page :: tl)) in Hm by done. done.
  - rewrite Hv in Hm. destruct (Hr (leaf_index s page :: tl)) as (k & x & Hm' & Hk); [done|].
    rewrite Hm in Hm'. injection Hm' as <- <-. simpl in Hk. lia.
Qed.

Lemma update_flags_cases s t p4 path page e fl :
  tree t p4 path → mapping t p4 (idxs page) = Some (leaf_level s, e) → table_flags fl →
  ∃ t', update_flags s t p4 page fl = Ret (t', Ok tt) ∧ tree t' p4 path
    ∧ (∀ q, is_Some (t' !! q) ↔ is_Some (t !! q))
    ∧ ∀ v, translate t' p4 v = if decide (in_page s page v)
             then Ret (Mapped (Frame s (entry_addr e - entry_addr e mod SIZE s)) (v mod SIZE s) (leaf_flags s fl))
             else translate t p4 v.
Proof.
  intros Ht Hmp Hfl. destruct (leaf_good s page) as [Hg Hi].
  destruct (mapping_leaf _ _ _ _ _ _ Ht Hmp) as (q & Hd & Hr & Hq & Hpath & He & Hpe).
  pose proof (entry_addr_page_frame e) as Hpf.
  destruct (store_leaf_spec s 0 (entry_addr e) fl Hpf Hfl) as (_ & Hv & Hp & Hh).
  rewrite update_flags_unfold. unfold set_flags_at. rewrite Hd. cbn [mbind run_bind].
  rewrite (read_entry_spec _ _ _ _ He). cbn [mbind run_bind]. unfold is_unused.
  destruct (Z.eqb_spec e 0) as [->|_]; [by rewrite (proj1 zero_entry) in Hpe|].
  rewrite set_flags_spec by done. cbn [mbind run_bind]. rewrite (write_entry_spec t p4 path) by done. cbn [mbind run_bind].
  destruct (stored_entry (entry_addr e) _ Hpf Hv) as (_ & _ & H3 & H4).
  destruct (leaf_write t p4 path q (leaf_path s page) (leaf_index s page) e (Z.lor (entry_addr e) (leaf_flags s fl)))
    as [Ht' Hmap]; try done.
  { right. by rewrite H3. } { destruct s; simpl; lia. }
  { right. rewrite H4. destruct Hh as [?|Hh]; [by left|right; by destruct s]. }
  eexists. split; [done|]. split_and!; [done|intros; apply upd_is_Some|]. intros v. rewrite (translate_spec _ p4 path) by done.
  rewrite Hmap by apply idxs_walk. destruct (decide (in_page s page v)) as [Hin|Hin].
  - rewrite decide_True, H3, Hp by done. f_equal.
    replace (length (leaf_path s page)) with (length (leaf_path s 0)) by (by destruct s). by apply translation_leaf.
  - rewrite decide_False by done. by rewrite (translate_spec t p4 path).
Qed.

(** C1: [map_to] for all three page sizes, on a tree of page tables, with any
    frame allocator that hands out unused frames: it never panics and keeps the
    tree.  On success the page was not mapped before, every address of the page
    now translates into the frame with the requested flags, and every other
    address translates as before.  When it fails because of a missing frame or an
    existing mapping, no translation changes; when a parent is a huge page, no
    physical address changes.  It fails only if the allocator has refused a frame,
    the page is part of a larger page, or its entry is in use. *)
Theorem map_to_installs s t a p4 path page f fl :
  tree t p4 path → alloc_ok t a → table_flags fl → page_frame f → f mod SIZE s = 0 →
  ∃ t' a' r path', map_to s t a p4 page f fl = Ret (t', a', r)
    ∧ tree t' p4 path' ∧ alloc_ok t' a' ∧ map_outcome s t p4 page f fl t' r ∧ map_refused s t a p4 page f t' a' r.
Proof.
  intros Ht Ha Hfl Hf Hm. pose proof (parent_flags fl Hfl) as Hpar. unfold map_to.
  destruct (map_to_cases s t a p4 path page f fl _ Ht Ha Hfl Hpar Hf Hm) as (t' & a' & r & path' & E & H1 & H2 & H3).
  exists t', a', r, path'. split_and!; [done..|]. by eapply map_to_refused.
Qed.

(** C3: [unmap] of a page of each of the three sizes, on a tree of page tables,
    never panics.  It succeeds exactly when an entry of that size with an aligned
    frame maps the page, returns that frame, and makes every address of the page
    unmapped and nothing else.  Otherwise it changes nothing and reports an
    unmapped page, a mapping of another size or a misaligned frame address. *)
Theorem unmap_removes s t p4 path page :
  tree t p4 path →
  ∃ t' r path', unmap s t p4 page = Ret (t', r) ∧ tree t' p4 path' ∧ unmap_outcome s t p4 page t' r.
Proof. intros Ht. destruct (unmap_cases s t p4 path page Ht) as (t' & r & ?). by exists t', r, path. Qed.

(** C2: Unmapping a page that was just mapped, of each of the three sizes, returns
    the mapped frame and gives every address the translation it had before
    [map_to]. *)
Theorem map_unmap_round_trip s t a p4 path page f fl t' a' :
  tree t p4 path → alloc_ok t a → table_flags fl → page_frame f → f mod SIZE s = 0 →
  map_to s t a p4 page f fl = Ret (t', a', Ok page) →
  ∃ t'', unmap s t' p4 page = Ret (t'', Ok (f, page)) ∧ ∀ v, translate t'' p4 v = translate t p4 v.
Proof.
  intros Ht Ha Hfl Hf Hm Hrun.
  destruct (map_to_cases s t a p4 path page f fl (Z.land fl (Z.lor (Z.lor PRESENT WRITABLE) USER_ACCESSIBLE)))
    as (t1 & a1 & r & path1 & Hrun1 & Ht1 & _ & Hout); try done; [by apply parent_flags|].
  unfold map_to in Hrun. rewrite Hrun in Hrun1. injection Hrun1 as <- <- <-. destruct Hout as (_ & Hbefore & Hmp & Hafter).
  destruct (stored_entry f (leaf_flags s fl)) as (Hea & _); [done|by apply store_leaf_spec with (entry := 0) (f := f)|].
  destruct (unmap_cases s t' p4 path1 page Ht1) as (t2 & r & Hun & _ & Hout).
  unfold unmap_outcome in Hout. destruct r as [[g p]|[| |g]].
  - destruct Hout as (-> & (e' & [He' _] & -> & _) & Htr). rewrite (proj1 Hmp) in He'. injection He' as <-.
    rewrite Hea in Hun. exists t2. split; [done|]. intros v. rewrite Htr. case_decide as Hin.
    + by rewrite Hbefore.
    + rewrite Hafter. by rewrite decide_False.
  - destruct Hout as [_ Hout]. by destruct (Hout _ Hmp).
  - destruct Hout as [_ Hout]. specialize (Hout page (in_page_self s page)).
    rewrite (translate_spec t' p4 path1), (proj1 Hmp) in Hout by done. by destruct s.
  - destruct Hout as [_ (e' & [He' _] & -> & Hbad)]. rewrite (proj1 Hmp) in He'. injection He' as <-.
    by rewrite Hea in Hbad.
Qed.
End properties.
#[local] Existing Instance bit_field_model.

(** *** A concrete instance: one empty level 4 table, frames from the memory map *)
Definition empty_space : tables := {[ 0x1000 := table_new ]}.
Lemma entry_at_empty q i e : entry_at empty_space q i = Some e → e = 0.
Proof.
  unfold entry_at, empty_space. destruct (decide (q = 0x1000)) as [->|Hne].
  - rewrite lookup_singleton_eq. intros Hx. change (table_new !! Z.to_nat i = Some e) in Hx.
    by apply lookup_replicate_1 in Hx as [-> _].
  - by rewrite lookup_singleton_ne by congruence.
Qed.
Lemma empty_tree : tree empty_space 0x1000 (λ _, []).
Proof.
  split; [done|by exists table_new| | | |].
  - intros ptr es He. unfold empty_space in He. apply lookup_singleton_Some in He as [_ <-]. apply length_replicate.
  - intros ptr i e He _. left. by eapply entry_at_empty.
  - intros ptr i e He _ Htab. apply entry_at_empty in He as ->. by rewrite not_table_zero in Htab.
  - intros i e He _. apply entry_at_empty in He as ->. apply zero_entry.
Qed.
Lemma single_alloc_ok_in t r :
  FrameAlloc.physical r → 0 < FrameAlloc.base r → FrameAlloc.limit r ≤ 2 ^ 32 → map_Forall (λ k _, k < FrameAlloc.base r) t →
  alloc_ok t (FrameAlloc.new (MemoryMap.single r)).
Proof.
  intros Hr Hb Hl Ht. split; [by apply FrameAlloc.single_map_ok|]. intros f (i & _ & Hf). apply list_elem_of_lookup_2 in Hf.
  change (MemoryMap.live _) with [r] in Hf.
  rewrite FrameAlloc.elem_of_usable_pages in Hf by apply Forall_singleton, Hr.
  destruct Hf as (_ & r' & Hr' & _ & Hh). apply list_elem_of_singleton in Hr' as ->.
  unfold MemoryMap.hits, FrameAlloc.base, FrameAlloc.physical, FrameAlloc.limit in *. cbn. split; [lia|].
  destruct (t !! f) as [es|] eqn:E; [|done]. specialize (Ht _ _ E). cbn in Ht. lia.
Qed.
Lemma single_alloc_ok r :
  FrameAlloc.physical r → 0x1000 < FrameAlloc.base r → FrameAlloc.limit r ≤ 2 ^ 32 →
  alloc_ok empty_space (FrameAlloc.new (MemoryMap.single r)).
Proof. intros Hr Hb Hl. apply single_alloc_ok_in; [done|lia|done|]. by apply map_Forall_singleton. Qed.
Lemma empty_alloc_ok : alloc_ok empty_space (FrameAlloc.new MemoryMap.sample).
Proof. apply single_alloc_ok; by vm_compute. Qed.

Definition heap_flags : Z := Z.lor (Z.lor PRESENT WRITABLE) NO_EXECUTE.
Lemma heap_flags_ok : table_flags heap_flags.
Proof. by vm_compute. Qed.
Lemma map_to_installs_witness :
  ∃ t' a' r path', map_to Size4KiB empty_space (FrameAlloc.new MemoryMap.sample) 0x1000 0x444444440000 0x300000 heap_flags
      = Ret (t', a', r)
    ∧ tree t' 0x1000 path' ∧ alloc_ok t' a'
    ∧ map_outcome Size4KiB empty_space 0x1000 0x444444440000 0x300000 heap_flags t' r
    ∧ map_refused Size4KiB empty_space (FrameAlloc.new MemoryMap.sample) 0x1000 0x444444440000 0x300000 t' a' r.
Proof.
  apply (map_to_installs Size4KiB empty_space (FrameAlloc.new MemoryMap.sample) 0x1000 (λ _, [])).
  - exact empty_tree.
  - exact empty_alloc_ok.
  - exact heap_flags_ok.
  - by vm_compute.
  - by vm_compute.
Defined.

Lemma unmap_removes_witness :
  ∃ t' r path', unmap Size4KiB empty_space 0x1000 0x444444440000 = Ret (t', r)
    ∧ tree t' 0x1000 path' ∧ unmap_outcome Size4KiB empty_space 0x1000 0x444444440000 t' r.
Proof. apply (unmap_removes Size4KiB empty_space 0x1000 (λ _, [])). exact empty_tree. Defined.

(** The space after mapping one heap page. *)
Definition heap_space : tables * FrameAlloc.BootInfoFrameAllocator :=
  match map_to Size4KiB empty_space (FrameAlloc.new MemoryMap.sample) 0x1000 0x444444440000 0x300000 heap_flags with
  | Ret (t, a, _) => (t, a)
  | _ => (empty_space, FrameAlloc.new MemoryMap.sample)
  end.

Lemma map_unmap_round_trip_witness :
  map_to Size4KiB empty_space (FrameAlloc.new MemoryMap.sample) 0x1000 0x444444440000 0x300000 heap_flags
    = Ret (heap_space.1, heap_space.2, Ok 0x444444440000)
  ∧ ∃ t'', unmap Size4KiB heap_space.1 0x1000 0x444444440000 = Ret (t'', Ok (0x300000, 0x444444440000))
      ∧ ∀ v, translate t'' 0x1000 v = translate empty_space 0x1000 v.
Proof.
  assert (map_to Size4KiB empty_space (FrameAlloc.new MemoryMap.sample) 0x1000 0x444444440000 0x300000 heap_flags
    = Ret (heap_space.1, heap_space.2, Ok 0x444444440000)) as Hrun by (vm_compute; reflexivity).
  split; [exact Hrun|].
  apply (map_unmap_round_trip Size4KiB empty_space (FrameAlloc.new MemoryMap.sample) 0x1000 (λ _, []) 0x444444440000 0x300000
           heap_flags heap_space.1 heap_space.2); [exact empty_tree|exact empty_alloc_ok|exact heap_flags_ok| | |exact Hrun]; by vm_compute.
Defined.

(** *** Behaviour that differs from the documentation *)
(** A 2 MiB page mapped at 0 (entry [0x83] of the level 2 table). *)
Definition huge_space : tables :=
  {[ 0x1000 := <[ 0%nat := 0x2003 ]> table_new; 0x2000 := <[ 0%nat := 0x3003 ]> table_new;
     0x3000 := <[ 0%nat := 0x83 ]> table_new ]}.

(** Mapping a 4 KiB user page inside it is refused, but the huge page has
    become accessible to user code. *)
Lemma refused_map_to_adds_flags :
  let fl := Z.lor (Z.lor PRESENT WRITABLE) USER_ACCESSIBLE in
  match map_to Size4KiB huge_space (FrameAlloc.new MemoryMap.sample) 0x1000 0x5000 0x300000 fl with
  | Ret (t, _, r) => r = Err ParentEntryHugePage
      ∧ translate huge_space 0x1000 0x5000 = Ret (Mapped (Frame Size2MiB 0) 0x5000 0x83)
      ∧ translate t 0x1000 0x5000 = Ret (Mapped (Frame Size2MiB 0) 0x5000 0x87)
  | _ => False
  end.
Proof. vm_compute. auto. Qed.

(** [translate_page] of a 2 MiB page answers with the level 1 table when the
    page is divided into 4 KiB pages. *)
Definition divided_space : tables :=
  {[ 0x1000 := <[ 0%nat := 0x2003 ]> table_new; 0x2000 := <[ 0%nat := 0x3003 ]> table_new;
     0x3000 := <[ 0%nat := 0x200003 ]> table_new; 0x200000 := table_new ]}.
Lemma translate_page_takes_table_for_frame :
  translate_page Size2MiB divided_space 0x1000 0 = Ret (Ok 0x200000)
  ∧ translate divided_space 0x1000 0 = Ret NotMapped.
Proof. vm_compute. auto. Qed.

(** Flags without [PRESENT] give new parent tables no [PRESENT] bit either, and the walk
    into the table that was just created panics. *)
Lemma map_to_not_present_panics :
  map_to Size4KiB empty_space (FrameAlloc.new MemoryMap.sample) 0x1000 0x5000 0x300000 WRITABLE = Panic Explicit.
Proof. vm_compute. auto. Qed.

End Mapper.
