(* ===== verification/CleanUp.v ===== *)
(** * crates/x86_64/src/structures/paging/mapper/mapped_page_table.rs: [CleanUp]

    [clean_up_addr_range] frees the page tables of an address range that have no entry
    left.  It descends the levels of the tree, frees children before their parents and
    hands the frames to a [FrameDeallocator].  A freed table leaves the store: touching
    it afterwards is undefined behaviour, so that the theorem excludes a use of freed
    memory.  One removal is the relation [prune]; the traversal is a sequence of them. *)
From S2P Require Import Prelude Addr Paging Mapper.
Import Addr Paging Mapper.

Module CleanUp.

(** ** The traversal *)
Section code.
Context {BF : BitField} `{!PageTableFrameMapping} {D : Type}.
Variable deallocate_frame : D → Z → D.

Definition release (t : tables) (d : D) (page_table i p : Z) : run (tables * D) :=
  entry ← read_entry t page_table i;
  r ← frame entry;
  f ← unwrap (match r with Ok f => Some f | Err _ => None end);
  t ← write_entry t page_table i (set_unused entry);
  Ret (delete p t, deallocate_frame d f).

(** The body of the loop over the entries; [rec] is the call for the next level. *)
Definition visit (rec : tables → D → Z → PageTableLevel → PageRange → run (tables * D * bool))
    (page_table table_addr : Z) (level next_level : PageTableLevel) (range : PageRange) (i : Z) (td : tables * D) : run (tables * D) :=
  let '(t, d) := td in
  let offset_per_entry := entry_address_space_alignment level in
  entry ← read_entry t page_table i;
  r ← next_table entry;
  match r with
  | Err _ => Ret (t, d)
  | Ok p =>
      o ← umul 64 offset_per_entry i;
      s ← virt_add table_addr o;
      o ← usub offset_per_entry 1;
      e ← virt_add s o;
      s ← page_containing_address Size4KiB s;
      e ← page_containing_address Size4KiB e;
      '(t, d, unused) ← rec t d p next_level (mkPageRange (Z.max s (r_start range)) (Z.min e (r_end range)));
      if (unused : bool) then release t d page_table i p else Ret (t, d)
  end.

(** One unit of fuel for each level. *)
Fixpoint clean_up_table (fuel : nat) (t : tables) (d : D) (page_table : Z) (level : PageTableLevel) (range : PageRange)
    : run (tables * D * bool) :=
  match fuel with
  | O => Panic NoFuel
  | S fuel' =>
      if page_range_inclusive_is_empty range then Ret (t, d, false) else
      table_addr ← virt_align_down (r_start range) (table_address_space_alignment level);
      let start := page_table_index (r_start range) level in
      let stop := page_table_index (r_end range) level in
      '(t, d) ←
        match next_lower_level level with
        | None => Ret (t, d)
        | Some next_level =>
            for_each (visit (clean_up_table fuel') page_table table_addr level next_level range) (seqZ start (stop + 1 - start)) (t, d)
        end;
      es ← match t !! page_table with Some es => Ret es | None => Panic Undefined end;
      Ret (t, d, forallb is_unused es)
  end.

Definition clean_up_addr_range (t : tables) (d : D) (p4 : Z) (range : PageRange) : run (tables * D) :=
  '(t, d, _) ← clean_up_table 4 t d p4 Four range; Ret (t, d).

Definition clean_up (t : tables) (d : D) (p4 : Z) : run (tables * D) :=
  s ← virt_new 0;
  r ← page_from_start_address Size4KiB s;
  s ← unwrap (match r with Ok p => Some p | Err _ => None end);
  e ← virt_new 0xfffffffffffff000;
  r ← page_from_start_address Size4KiB e;
  e ← unwrap (match r with Ok p => Some p | Err _ => None end);
  clean_up_addr_range t d p4 (mkPageRange s e).
End code.

(** ** Removing one table *)
Section prune.
Context {BF : BitField} `{!PageTableFrameMapping}.
Variables (p4 : Z) (path : Z → list Z).

(** Every table of the store is part of the tree. *)
Definition rooted (t : tables) : Prop :=
  ∀ q, is_Some (t !! q) → (length (path q) ≤ 3)%nat ∧ Forall good_idx (path q) ∧ reach t p4 (path q) = Some q.
Definition unused (t : tables) (q : Z) : Prop := ∀ j e, entry_at t q j = Some e → e = 0.

Inductive prune (t : tables) (f : Z) : tables → Prop :=
  | prune_intro ptr i e :
      is_Some (t !! ptr) → good_idx i → entry_at t ptr i = Some e → is_table e = true → (length (path ptr) < 3)%nat →
      unused t (target e) → f = entry_addr e →
      prune t f (delete (target e) (upd t ptr i 0)).

(** What one removal keeps: the tree, and every walk through it. *)
Section step.
Context (t : tables) (ptr i e : Z).
Hypothesis Ht : tree t p4 path.
Hypothesis Hr : rooted t.
Hypothesis Hptr : is_Some (t !! ptr).
Hypothesis Hi : good_idx i.
Hypothesis He : entry_at t ptr i = Some e.
Hypothesis Htab : is_table e = true.
Hypothesis Hdepth : (length (path ptr) < 3)%nat.
Hypothesis Hun : unused t (target e).
Let t' := delete (target e) (upd t ptr i 0).

Lemma child_facts : covered (entry_addr e) ∧ path (target e) = path ptr ++ [i] ∧ is_Some (t !! target e).
Proof using Ht He Hi Htab Hdepth. apply (tree_child _ _ _ Ht ptr i e); [done|unfold good_idx in Hi; lia|done|done]. Qed.
Lemma child_not_ptr : target e ≠ ptr.
Proof using Ht He Hi Htab Hdepth.
  intros E. destruct child_facts as (_ & Hp & _). rewrite E in Hp. apply (f_equal length) in Hp.
  rewrite length_app in Hp. simpl in Hp. lia.
Qed.
Lemma pruned_is_Some q : is_Some (t' !! q) ↔ is_Some (t !! q) ∧ q ≠ target e.
Proof.
  unfold t'. destruct (decide (q = target e)) as [->|Hne].
  - rewrite lookup_delete_eq. split; [by intros []|naive_solver].
  - rewrite lookup_delete_ne, upd_is_Some by done. naive_solver.
Qed.
Lemma pruned_entry q j :
  0 ≤ j → entry_at t' q j = if decide (q = target e) then None else if decide (q = ptr ∧ j = i) then Some 0 else entry_at t q j.
Proof using Ht Hptr Hi.
  intros Hj. unfold t'. case_decide as Hq.
  - subst q. unfold entry_at. by rewrite lookup_delete_eq.
  - rewrite <- (entry_at_upd t p4 path) by done. unfold entry_at. by rewrite lookup_delete_ne by done.
Qed.
(** A table entry that survives does not lead to the removed table. *)
Lemma pruned_other q j e' :
  0 ≤ j → entry_at t' q j = Some e' → is_table e' = true → (length (path q) < 3)%nat →
  entry_at t q j = Some e' ∧ is_Some (t !! q) ∧ target e' ≠ target e.
Proof using Ht Hr Hptr Hi He Htab Hdepth.
  intros Hj Hq Htab' Hd. rewrite pruned_entry in Hq by done. case_decide as Hqt; [done|]. case_decide as Hqi.
  { injection Hq as <-. by rewrite not_table_zero in Htab'. }
  assert (is_Some (t !! q)) as Hqs by (by eapply entry_at_dom). split; [done|]. split; [done|]. intros E.
  destruct (tree_child _ _ _ Ht q j e' Hq Hj Htab' Hd) as (_ & Hp & _). destruct child_facts as (_ & Hp' & _).
  rewrite E, Hp' in Hp. apply app_inj_tail in Hp as [Hpp ->].
  destruct (Hr q Hqs) as (_ & _ & R1). destruct (Hr ptr Hptr) as (_ & _ & R2). rewrite Hpp, R1 in R2. by injection R2 as ->; apply Hqi.
Qed.
Lemma pruned_tree : tree t' p4 path.
Proof using Ht Hr Hptr Hi He Htab Hdepth.
  pose proof child_facts as (_ & Hp & _). split.
  - apply (tree_root _ _ _ Ht).
  - apply pruned_is_Some. split; [apply (tree_root_in _ _ _ Ht)|]. intros E. rewrite <- E, (tree_root _ _ _ Ht) in Hp. by destruct (path ptr).
  - intros q es Hes. unfold t' in Hes. apply lookup_delete_Some in Hes as [_ Hes].
    unfold upd in Hes. apply lookup_alter_Some in Hes as [(<- & es0 & Hes0 & ->)|[_ Hes]].
    + rewrite length_insert. by apply (tree_shape _ _ _ Ht _ _ Hes0).
    + by apply (tree_shape _ _ _ Ht _ _ Hes).
  - intros q j e' Hq Hj. rewrite pruned_entry in Hq by done. case_decide; [done|]. case_decide; [left; congruence|].
    by apply (tree_entry _ _ _ Ht q j).
  - intros q j e' Hq Hj Htab' Hd. destruct (pruned_other q j e' Hj Hq Htab' Hd) as (Hq' & _ & Hne).
    destruct (tree_child _ _ _ Ht q j e' Hq' Hj Htab' Hd) as (Hc & Hp' & Hs). split; [done|]. split; [done|].
    by apply pruned_is_Some.
  - intros j e' Hq Hj. rewrite pruned_entry in Hq by done. case_decide; [done|]. case_decide; [|by apply (tree_top _ _ _ Ht j)].
    injection Hq as <-. apply zero_entry.
Qed.
Lemma pruned_reach ix : ∀ q x, Forall good_idx ix → (length (path q) + length ix ≤ 3)%nat → is_Some (t !! q) → reach t q ix = Some x → x ≠ target e → reach t' q ix = Some x.
Proof using Ht Hr Hptr Hi He Htab Hdepth Hun.
  induction ix as [|j ix IH]; intros q x Hg Hlen Hq Hreach Hx; [done|]. apply Forall_cons in Hg as [Hj Hg]. cbn [reach] in *.
  assert (0 ≤ j) as Hj0 by (unfold good_idx in Hj; lia). simpl in Hlen.
  destruct (entry_at t q j) as [e'|] eqn:Hq'; [|done]. cbn [mbind option_bind] in Hreach. destruct (is_table e') eqn:Htab'; [|done].
  destruct (tree_child _ _ _ Ht q j e' Hq' Hj0 Htab' ltac:(lia)) as (_ & Hp' & Hs).
  assert (target e' ≠ target e) as Hne.
  { intros E. destruct ix as [|k ix]; cbn [reach] in Hreach; [congruence|]. rewrite E in Hreach.
    destruct (entry_at t (target e) k) as [e2|] eqn:Hk; [|done]. apply Hun in Hk as ->. cbn [mbind option_bind] in Hreach.
    by rewrite not_table_zero in Hreach. }
  rewrite pruned_entry by done. rewrite decide_False.
  2:{ intros ->. apply Hun in Hq' as ->. by rewrite not_table_zero in Htab'. }
  rewrite decide_False.
  2:{ intros [-> ->]. apply Hne. congruence. }
  rewrite Hq'. cbn [mbind option_bind]. rewrite Htab'. apply IH; [done|rewrite Hp', length_app; simpl; lia|done|done|done].
Qed.
Lemma pruned_rooted : rooted t'.
Proof using Ht Hr Hptr Hi He Htab Hdepth Hun.
  intros q [Hq Hne]%pruned_is_Some. destruct (Hr q Hq) as (Hl & Hg & Hreach). split; [done|]. split; [done|].
  apply pruned_reach; [done|rewrite (tree_root _ _ _ Ht); simpl; lia|apply (tree_root_in _ _ _ Ht)|done|done].
Qed.
Lemma unused_mapping q ix : unused t q → mapping t q ix = None.
Proof.
  destruct ix as [|j ix]; [done|]. intros Hz. cbn [mapping]. destruct (entry_at t q j) as [e'|] eqn:E; [|done].
  apply Hz in E as ->. destruct zero_entry as [-> _]. done.
Qed.
Lemma pruned_mapping ix : ∀ q, Forall good_idx ix → (length (path q) + length ix = 4)%nat → is_Some (t !! q) → q ≠ target e → mapping t' q ix = mapping t q ix.
Proof using Ht Hr Hptr Hi He Htab Hdepth Hun.
  induction ix as [|j ix IH]; intros q Hg Hlen Hq Hne; [done|]. apply Forall_cons in Hg as [Hj Hg].
  assert (0 ≤ j) as Hj0 by (unfold good_idx in Hj; lia). simpl in Hlen. cbn [mapping].
  rewrite pruned_entry by done. rewrite decide_False by done. case_decide as Hqi.
  - destruct Hqi as [-> ->]. rewrite He. destruct zero_entry as [-> _]. cbn [negb].
    apply is_table_inv in Htab as [-> ->]. cbn [negb]. destruct ix; [simpl in Hlen; lia|]. by rewrite unused_mapping.
  - destruct (entry_at t q j) as [e'|] eqn:Hq'; [|done]. destruct (present e') eqn:P; [|done]. cbn [negb].
    destruct ix as [|k ix]; [done|]. destruct (huge e') eqn:Hh; [done|].
    assert (is_table e' = true) as Htab' by (unfold is_table; by rewrite P, Hh). simpl in Hlen.
    destruct (tree_child _ _ _ Ht q j e' Hq' Hj0 Htab' ltac:(lia)) as (_ & Hp' & Hs).
    apply IH; [done|rewrite Hp', length_app; simpl; lia|done|]. intros E.
    destruct (pruned_other q j e') as (_ & _ & Hx); [done| |done|lia|by apply Hx].
    rewrite pruned_entry by done. by rewrite !decide_False.
Qed.
End step.

(** ** Sequences of removals *)
Inductive prunes (t : tables) : list Z → tables → Prop :=
  | prunes_nil : prunes t [] t
  | prunes_snoc fs t1 f t2 : prunes t fs t1 → prune t1 f t2 → prunes t (fs ++ [f]) t2.

Lemma prunes_trans t fs t1 gs t2 : prunes t fs t1 → prunes t1 gs t2 → prunes t (fs ++ gs) t2.
Proof.
  intros H1 H2. induction H2 as [|gs t2 f t3 _ IH Hp]; [by rewrite app_nil_r|].
  rewrite app_assoc. by eapply prunes_snoc.
Qed.
Lemma prunes_keep t fs t' :
  tree t p4 path → rooted t → prunes t fs t' →
  tree t' p4 path ∧ rooted t'
  ∧ ∀ q ix, is_Some (t' !! q) → Forall good_idx ix → (length (path q) + length ix = 4)%nat →
      is_Some (t !! q) ∧ mapping t' q ix = mapping t q ix.
Proof.
  intros Ht Hr Hps. induction Hps as [|fs t1 f t2 _ (Ht1 & Hr1 & IH) Hp]; [done|].
  destruct Hp as [ptr i e Hptr Hi He Htab Hd Hun ->].
  split; [by apply pruned_tree|]. split; [by apply pruned_rooted|].
  intros q ix [Hq Hne]%pruned_is_Some Hg Hlen. destruct (IH q ix Hq Hg Hlen) as [Hq' E]. split; [done|].
  rewrite <- E. by apply (pruned_mapping t1 ptr i e).
Qed.
(** The frames that were freed are those of the tables that are gone, each once, and
    nothing was mapped through them. *)
Lemma prunes_freed t fs t' :
  tree t p4 path → rooted t → prunes t fs t' →
  NoDup fs ∧ (∀ q, is_Some (t !! q) ↔ is_Some (t' !! q) ∨ q ∈ pointer_of <$> fs)
  ∧ (∀ f, f ∈ fs → covered f ∧ t' !! pointer_of f = None
       ∧ ∀ ix, Forall good_idx ix → (length (path (pointer_of f)) + length ix = 4)%nat → mapping t (pointer_of f) ix = None).
Proof.
  intros Ht Hr Hps. induction Hps as [|fs t1 f t2 Hps (Hnd & Hdom & Hfs) Hp].
  { split; [constructor|]. split; [intros q; split; [by left|by intros [|?%elem_of_nil]]|by intros f ?%elem_of_nil]. }
  destruct (prunes_keep t fs t1 Ht Hr Hps) as (Ht1 & Hr1 & Hmap).
  destruct Hp as [ptr i e Hptr Hi He Htab Hd Hun ->].
  destruct (child_facts t1 ptr i e Ht1 Hi He Htab Hd) as (Hc & Hpath & Hin).
  fold (target e) in *. split; [|split].
  - apply NoDup_app. split; [done|]. split; [|apply NoDup_singleton].
    intros g Hg ->%list_elem_of_singleton. destruct (Hfs _ Hg) as (_ & Hnone & _). unfold target in Hin. rewrite Hnone in Hin. by destruct Hin.
  - intros q. rewrite Hdom, fmap_app, elem_of_app, pruned_is_Some. cbn [fmap list_fmap]. rewrite list_elem_of_singleton. fold (target e).
    destruct (decide (q = target e)) as [->|]; naive_solver.
  - intros g [Hg| ->%list_elem_of_singleton]%elem_of_app.
    + destruct (Hfs _ Hg) as (Hcg & Hnone & Hm). split; [done|]. split; [|done]. apply eq_None_not_Some. rewrite pruned_is_Some, Hnone. by intros [[] _].
    + split; [done|]. split; [apply lookup_delete_eq|]. intros ix Hg Hlen. fold (target e) in *.
      destruct (Hmap (target e) ix Hin Hg Hlen) as [_ <-]. by apply unused_mapping.
Qed.
(** The entries: one that leads to a freed table is cleared, every other stays; and a freed
    table had no other entries in use. *)
Definition gone (fs : list Z) (q e : Z) : Prop :=
  (length (path q) < 3)%nat ∧ is_table e = true ∧ target e ∈ pointer_of <$> fs.
#[global] Instance gone_dec fs q e : Decision (gone fs q e).
Proof. unfold gone. apply _. Defined.
Lemma gone_snoc fs f q e : gone (fs ++ [f]) q e ↔ gone fs q e ∨ ((length (path q) < 3)%nat ∧ is_table e = true ∧ target e = pointer_of f).
Proof. unfold gone. rewrite fmap_app, elem_of_app. change (pointer_of <$> [f]) with [pointer_of f]. rewrite list_elem_of_singleton. tauto. Qed.
Lemma prunes_entries t fs t' :
  tree t p4 path → rooted t → prunes t fs t' →
  (∀ q j e, 0 ≤ j → is_Some (t' !! q) → entry_at t q j = Some e → entry_at t' q j = Some (if decide (gone fs q e) then 0 else e))
  ∧ ∀ f j e, f ∈ fs → 0 ≤ j → entry_at t (pointer_of f) j = Some e → e = 0 ∨ gone fs (pointer_of f) e.
Proof.
  intros Ht Hr Hps. induction Hps as [|fs t1 f t2 Hps (IHe & IHf) Hp].
  { split; [|by intros f j e ?%elem_of_nil]. intros q j e _ _ He. rewrite decide_False; [done|]. by intros (_ & _ & ?%elem_of_nil). }
  destruct (prunes_keep t fs t1 Ht Hr Hps) as (Ht1 & Hr1 & _). destruct Hp as [ptr i e0 Hptr Hi He Htab Hd Hun ->].
  destruct (child_facts t1 ptr i e0 Ht1 Hi He Htab Hd) as (_ & _ & Hin). split.
  - intros q j e Hj [Hq Hne]%pruned_is_Some Hqe. specialize (IHe q j e Hj Hq Hqe).
    pose proof (pruned_entry t1 ptr i e0 Ht1 Hptr Hi q j Hj) as E. rewrite (decide_False (P := q = target e0)) in E by done.
    destruct (decide (q = ptr ∧ j = i)) as [[-> ->]|Hqj].
    + rewrite E. rewrite decide_True; [done|]. apply gone_snoc. rewrite He in IHe. injection IHe as IHe. case_decide; [by left|].
      right. by subst e0.
    + rewrite E, IHe. f_equal. destruct (decide (gone fs q e)) as [Hg|Hg]; [by rewrite decide_True by (apply gone_snoc; by left)|].
      rewrite decide_False; [done|]. intros [?|(Hl & Ht0 & Htg)]%gone_snoc; [done|]. rewrite IHe in E.
      destruct (pruned_other t1 ptr i e0 Ht1 Hr1 Hptr Hi He Htab Hd q j e Hj E Ht0 Hl) as (_ & _ & Hx). by apply Hx.
  - intros g j e [Hg| ->%list_elem_of_singleton]%elem_of_app Hj Hge.
    + destruct (IHf g j e Hg Hj Hge); [by left|right]. apply gone_snoc. by left.
    + change (pointer_of (entry_addr e0)) with (target e0) in *. specialize (IHe (target e0) j e Hj Hin Hge). apply Hun in IHe.
      case_decide; [right; apply gone_snoc; by left|by left].
Qed.
End prune.

(** ** The addresses below one entry *)
Section spans.
Context {BF : BitField}.

Lemma canonical_digits v :
  canonical v → ∃ h, v = h + p4_index v * 2 ^ 39 + p3_index v * 2 ^ 30 + p2_index v * 2 ^ 21 + p1_index v * 2 ^ 12 + v mod 4096
    ∧ (h = 0 ∧ p4_index v < 256 ∨ h = 2 ^ 64 - 2 ^ 48 ∧ 256 ≤ p4_index v)
    ∧ 0 ≤ p4_index v < 512 ∧ 0 ≤ p3_index v < 512 ∧ 0 ≤ p2_index v < 512 ∧ 0 ≤ p1_index v < 512 ∧ 0 ≤ v mod 4096 < 4096.
Proof.
  intros Hv. pose proof (index_digits v) as Hd. rewrite page_offset_spec in Hd. destruct (idx_good v) as (G4 & G3 & G2 & G1).
  unfold good_idx in *. pose proof (Z.mod_pos_bound v 4096 ltac:(lia)).
  pose proof (sign_extend_id v Hv) as Es. unfold sign_extend in Es. destruct (Z.ltb_spec (v mod 2 ^ 48) (2 ^ 47)).
  - exists 0. split; [lia|]. split; [left; lia|]. lia.
  - exists (2 ^ 64 - 2 ^ 48). split; [lia|]. split; [right; lia|]. lia.
Qed.
Lemma prefix_idxs p v : p `prefix_of` idxs v ↔ p = take (length p) (idxs v).
Proof.
  split.
  - intros [k ->]. by rewrite take_app_length.
  - intros ->. apply prefix_take.
Qed.
Lemma level_index v l :
  page_table_index v l = match l with One => p1_index v | Two => p2_index v | Three => p3_index v | Four => p4_index v end.
Proof. unfold page_table_index, p1_index, p2_index, p3_index, p4_index. destruct l; simpl; by rewrite ?Z.shiftr_shiftr. Qed.

(** What the traversal computes for entry [i]: the first address [s] below the entry,
    and that the addresses below it are [s, s + B). *)
Record span (l : PageTableLevel) (p : list Z) (start i T s : Z) : Prop := {
  sp_table : virt_align_down start (table_address_space_alignment l) = Ret T;
  sp_start : virt_add T (entry_address_space_alignment l * i) = Ret s;
  sp_stop : virt_add s (entry_address_space_alignment l - 1) = Ret (s + (entry_address_space_alignment l - 1));
  sp_canonical : canonical s ∧ s mod 4096 = 0;
  sp_last : canonical (s + (entry_address_space_alignment l - 1)) ∧ canonical (s + entry_address_space_alignment l - 4096);
  sp_below v : canonical v → (p ++ [i]) `prefix_of` idxs v ↔ s ≤ v ≤ s + (entry_address_space_alignment l - 1)
}.
Lemma virt_add_canonical a b : in_width 64 a → 0 ≤ b → canonical (a + b) → virt_add a b = Ret (a + b).
Proof.
  intros Ha Hb Hc. pose proof (canonical_width _ Hc) as Hw. unfold virt_add. rewrite uadd_Ret by (unfold in_width in Hw; lia).
  cbn [mbind run_bind]. by apply virt_new_canonical.
Qed.

Lemma make_span l p start i k T s :
  12 ≤ k ≤ 39 → entry_address_space_alignment l = 2 ^ k → table_address_space_alignment l = 2 ^ (k + 9) →
  in_width 64 start → start - start mod 2 ^ (k + 9) = T → virt_add T (2 ^ k * i) = Ret s →
  canonical s → s mod 2 ^ k = 0 → canonical (s + (2 ^ k - 1)) →
  (∀ v, canonical v → (p ++ [i]) `prefix_of` idxs v ↔ s ≤ v ≤ s + (2 ^ k - 1)) → span l p start i T s.
Proof.
  intros Hk EB ET Hw HT Hs C1 Hm C2 Hv. assert (2 ^ 12 ≤ 2 ^ k ≤ 2 ^ 39) as Hb by (split; apply Z.pow_le_mono_r; lia).
  split; rewrite ?EB.
  - unfold virt_align_down. rewrite ET, align_down_spec by (done || lia). by rewrite HT.
  - done.
  - apply virt_add_canonical; [by apply canonical_width|lia|done].
  - split; [done|]. apply Z.mod_divide; [lia|]. apply Z.mod_divide in Hm; [|lia]. etrans; [|exact Hm]. apply (pow2_divide 12 k). lia.
  - split; [done|]. unfold canonical in *. lia.
  - done.
Qed.

Lemma entry_span l p start i :
  l ≠ One → canonical start → (length p + Z.to_nat (level_number l) = 4)%nat → p `prefix_of` idxs start →
  page_table_index start l ≤ i < 512 → ∃ T s, span l p start i T s.
Proof.
  intros Hl Hc Hlen Hp Hi. rewrite level_index in Hi. destruct (canonical_digits start Hc) as (h & Es & Hh & G4 & G3 & G2 & G1 & G0).
  pose proof (canonical_width _ Hc) as Hw. apply prefix_idxs in Hp.
  destruct l; [done| | |]; cbn [level_number] in Hlen; unfold idxs in Hp.
  - destruct p as [|a [|b [|c p]]]; simpl in Hlen; try lia. injection Hp as -> ->.
    eexists _, (h + p4_index start * 2 ^ 39 + p3_index start * 2 ^ 30 + i * 2 ^ 21).
    apply (make_span _ _ _ _ 21 (h + p4_index start * 2 ^ 39 + p3_index start * 2 ^ 30)); try done.
    + pose proof (Z.div_mod start (2 ^ 30) ltac:(lia)). pose proof (Z.mod_pos_bound start (2 ^ 30) ltac:(lia)).
      change (2 ^ (21 + 9)) with (2 ^ 30). destruct Hh as [[-> _]|[-> _]]; lia.
    + rewrite virt_add_canonical; [f_equal; lia|unfold in_width; lia|lia|unfold canonical; lia].
    + unfold canonical; lia.
    + destruct Hh as [[-> _]|[-> _]]; apply Z.mod_divide; try lia.
      * exists (p4_index start * 2 ^ 18 + p3_index start * 2 ^ 9 + i); lia.
      * exists (2 ^ 43 - 2 ^ 27 + p4_index start * 2 ^ 18 + p3_index start * 2 ^ 9 + i); lia.
    + unfold canonical; lia.
    + intros v Hv. destruct (canonical_digits v Hv) as (h' & Ev & Hh' & V4 & V3 & V2 & V1 & V0).
      rewrite prefix_idxs. unfold idxs. simpl. split.
      * intros [= E1 E2 E3]. lia.
      * intros Hr. assert (p4_index start = p4_index v ∧ p3_index start = p3_index v ∧ i = p2_index v) as (-> & -> & ->) by lia. done.
  - destruct p as [|a [|b p]]; simpl in Hlen; try lia. injection Hp as ->.
    eexists _, (h + p4_index start * 2 ^ 39 + i * 2 ^ 30).
    apply (make_span _ _ _ _ 30 (h + p4_index start * 2 ^ 39)); try done.
    + pose proof (Z.div_mod start (2 ^ 39) ltac:(lia)). pose proof (Z.mod_pos_bound start (2 ^ 39) ltac:(lia)).
      change (2 ^ (30 + 9)) with (2 ^ 39). destruct Hh as [[-> _]|[-> _]]; lia.
    + rewrite virt_add_canonical; [f_equal; lia|unfold in_width; lia|lia|unfold canonical; lia].
    + unfold canonical; lia.
    + destruct Hh as [[-> _]|[-> _]]; apply Z.mod_divide; try lia.
      * exists (p4_index start * 2 ^ 9 + i); lia.
      * exists (2 ^ 34 - 2 ^ 18 + p4_index start * 2 ^ 9 + i); lia.
    + unfold canonical; lia.
    + intros v Hv. destruct (canonical_digits v Hv) as (h' & Ev & Hh' & V4 & V3 & V2 & V1 & V0).
      rewrite prefix_idxs. unfold idxs. simpl. split.
      * intros [= E1 E2]. lia.
      * intros Hr. assert (p4_index start = p4_index v ∧ i = p3_index v) as (-> & ->) by lia. done.
  - destruct p as [|a p]; simpl in Hlen; try lia.
    set (g := if i <? 256 then 0 else 2 ^ 64 - 2 ^ 48).
    assert (g = 0 ∧ i < 256 ∨ g = 2 ^ 64 - 2 ^ 48 ∧ 256 ≤ i) as Hg by (unfold g; destruct (Z.ltb_spec i 256); lia).
    eexists _, (g + i * 2 ^ 39). apply (make_span _ _ _ _ 39 h); try done.
    + pose proof (Z.div_mod start (2 ^ 48) ltac:(lia)). pose proof (Z.mod_pos_bound start (2 ^ 48) ltac:(lia)).
      change (2 ^ (39 + 9)) with (2 ^ 48). destruct Hh as [[-> _]|[-> _]]; lia.
    + unfold virt_add. rewrite uadd_Ret by lia. cbn [mbind run_bind]. unfold virt_new. rewrite virt_try_new_spec by (unfold in_width; lia).
      rewrite decide_True by (unfold canonical; lia). f_equal.
      rewrite <- (sign_extend_id (g + i * 2 ^ 39)) by (unfold canonical; lia). unfold sign_extend.
      assert ((h + 2 ^ 39 * i) mod 2 ^ 48 = (g + i * 2 ^ 39) mod 2 ^ 48) as ->; [|done].
      assert (∃ c, h = c * 2 ^ 48) as [c ->] by (destruct Hh as [[-> _]|[-> _]]; [by exists 0|by exists (2 ^ 16 - 1)]).
      assert (∃ c, g = c * 2 ^ 48) as [c' ->] by (destruct Hg as [[-> _]|[-> _]]; [by exists 0|by exists (2 ^ 16 - 1)]).
      rewrite (Z.add_comm (c * _)), (Z.add_comm (c' * _)), (Z.mul_comm _ i).
      by rewrite !Z_mod_plus_full.
    + unfold canonical; lia.
    + destruct Hg as [[-> _]|[-> _]]; apply Z.mod_divide; try lia; [exists i; lia|exists (2 ^ 25 - 2 ^ 9 + i); lia].
    + unfold canonical; lia.
    + intros v Hv. destruct (canonical_digits v Hv) as (h' & Ev & Hh' & V4 & V3 & V2 & V1 & V0).
      rewrite prefix_idxs. unfold idxs. simpl. split.
      * intros [= E1]. lia.
      * intros Hr. assert (i = p4_index v) as -> by lia. done.
Qed.
Lemma index_mono l p v w :
  canonical v → canonical w → (length p + Z.to_nat (level_number l) = 4)%nat → p `prefix_of` idxs v → p `prefix_of` idxs w →
  v ≤ w → page_table_index v l ≤ page_table_index w l.
Proof.
  intros Hv Hw Hlen Pv Pw Hle. rewrite !level_index. apply prefix_idxs in Pv, Pw.
  destruct (canonical_digits v Hv) as (h & Ev & Hh & V4 & V3 & V2 & V1 & V0).
  destruct (canonical_digits w Hw) as (h' & Ew & Hh' & W4 & W3 & W2 & W1 & W0). unfold idxs in *.
  destruct l; cbn [level_number] in Hlen.
  - destruct p as [|? [|? [|? [|? ?]]]]; simpl in Hlen; try lia. simplify_eq/=. lia.
  - destruct p as [|? [|? [|? ?]]]; simpl in Hlen; try lia. simplify_eq/=. lia.
  - destruct p as [|? [|? ?]]; simpl in Hlen; try lia. simplify_eq/=. lia.
  - destruct p; simpl in Hlen; lia.
Qed.
Lemma index_next l p i v :
  (length p + Z.to_nat (level_number l) = 4)%nat → (p ++ [i]) `prefix_of` idxs v → page_table_index v l = i.
Proof.
  intros Hlen [k Hk]. rewrite level_index. unfold idxs in Hk.
  destruct l; cbn [level_number] in Hlen; repeat (destruct p as [|? p]; simpl in Hlen; try lia); simpl in Hk; by simplify_eq.
Qed.
Lemma index_prefix l p i v :
  (length p + Z.to_nat (level_number l) = 4)%nat → p `prefix_of` idxs v → page_table_index v l = i → (p ++ [i]) `prefix_of` idxs v.
Proof.
  intros Hlen [k Hk] <-. rewrite level_index. unfold idxs in *. destruct k as [|j k].
  { apply (f_equal length) in Hk. rewrite app_nil_r in Hk. simpl in Hk. destruct l; simpl in Hlen; lia. }
  exists k. rewrite <- app_assoc. rewrite Hk. f_equal. simpl. f_equal.
  destruct l; cbn [level_number] in Hlen; repeat (destruct p as [|? p]; simpl in Hlen; try lia); simpl in Hk; by simplify_eq.
Qed.

(** The part of a range below one entry. *)
Lemma clipped_range l p start stop i T s :
  canonical start → canonical stop → (length p + Z.to_nat (level_number l) = 4)%nat →
  p `prefix_of` idxs start → p `prefix_of` idxs stop → page_table_index start l ≤ i ≤ page_table_index stop l →
  span l p start i T s →
  start ≤ s + (entry_address_space_alignment l - 1) ∧ s ≤ stop.
Proof.
  intros Cs Ce Hlen Ps Pe Hi Sp. destruct (sp_canonical _ _ _ _ _ _ Sp) as [Cc _]. destruct (sp_last _ _ _ _ _ _ Sp) as [Cl _].
  set (B := entry_address_space_alignment l) in *.
  assert (1 ≤ B) as HB by (unfold B; destruct l; vm_compute; done).
  assert (∀ v, canonical v → s ≤ v ≤ s + (B - 1) → page_table_index v l = i ∧ p `prefix_of` idxs v) as Hin.
  { intros v Cv Hv. apply (sp_below _ _ _ _ _ _ Sp v Cv) in Hv. split; [by apply (index_next l p)|]. etrans; [|exact Hv]. by apply prefix_app_r. }
  split; apply Z.nlt_ge; intros Hlt.
  - destruct (Hin (s + (B - 1)) Cl ltac:(lia)) as [E1 P1]. pose proof (index_mono l p _ _ Cl Cs Hlen P1 Ps ltac:(lia)) as Hm.
    assert ((p ++ [i]) `prefix_of` idxs start) as Hs by (apply (index_prefix l); [done|done|lia]).
    apply (sp_below _ _ _ _ _ _ Sp start Cs) in Hs. fold B in Hs. lia.
  - destruct (Hin s Cc ltac:(lia)) as [E1 P1]. pose proof (index_mono l p _ _ Ce Cc Hlen Pe P1 ltac:(lia)) as Hm.
    assert ((p ++ [i]) `prefix_of` idxs stop) as Hs by (apply (index_prefix l); [done|done|lia]).
    apply (sp_below _ _ _ _ _ _ Sp stop Ce) in Hs. fold B in Hs. lia.
Qed.
Lemma page_of_last l s :
  l ≠ One → s mod 4096 = 0 →
  (s + (entry_address_space_alignment l - 1)) mod 4096 = 4095 ∧ (s + entry_address_space_alignment l - 4096) mod 4096 = 0
  ∧ 4096 ≤ entry_address_space_alignment l ≤ 2 ^ 39.
Proof.
  intros Hl Hs. apply Z.mod_divide in Hs as [k ->]; [|lia].
  assert (∃ c, entry_address_space_alignment l = c * 4096 ∧ 1 ≤ c ≤ 2 ^ 27) as (c & -> & Hc).
  { destruct l; [done|by exists (2 ^ 9)|by exists (2 ^ 18)|by exists (2 ^ 27)]. }
  split; [|split; [|lia]].
  - replace (k * 4096 + (c * 4096 - 1)) with (4095 + (k + c - 1) * 4096) by lia. by rewrite Z_mod_plus_full.
  - replace (k * 4096 + c * 4096 - 4096) with ((k + c - 1) * 4096) by lia. by rewrite Z.mod_mul.
Qed.
End spans.

(** ** What the traversal does *)
Section traversal.
Context {BF : BitField} `{!PageTableFrameMapping} {D : Type}.
Variable deallocate_frame : D → Z → D.
Variables (p4 : Z) (path : Z → list Z).

Definition is_page (v : Z) : Prop := canonical v ∧ v mod 4096 = 0.
(** A page of the range lies below the table [x]. *)
Definition touches (x : Z) (r : PageRange) : Prop :=
  ∃ v, is_page v ∧ r_start r ≤ v ≤ r_end r ∧ path x `prefix_of` idxs v.
Definition busy (t : tables) (x : Z) : Prop := ∃ j e, entry_at t x j = Some e ∧ e ≠ 0.

Lemma busy_or_unused t q es : t !! q = Some es → if forallb is_unused es then unused t q else busy t q.
Proof.
  intros Hes. destruct (forallb is_unused es) eqn:E.
  - intros j e He. unfold entry_at in He. rewrite Hes in He. cbn [mbind option_bind] in He. apply list_elem_of_lookup_2 in He.
    rewrite forallb_forall in E. apply list_elem_of_In, E in He. unfold is_unused in He. by apply Z.eqb_eq in He.
  - assert (∃ e, e ∈ es ∧ e ≠ 0) as (e & [j Hj]%list_elem_of_lookup & He).
    { clear Hes. induction es as [|e es IH]; [done|]. cbn [forallb] in E. unfold is_unused in E at 1. destruct (Z.eqb_spec e 0) as [->|Hne].
      - destruct (IH E) as (e & He & Hne). exists e. split; [by right|done].
      - exists e. split; [by left|done]. }
    exists (Z.of_nat j), e. split; [|done]. unfold entry_at. rewrite Hes. cbn [mbind option_bind]. by rewrite Nat2Z.id.
Qed.

(** After the traversal of the tables below [q]. *)
Record cleaned (t : tables) (q : Z) (r : PageRange) (fs : list Z) (t' : tables) : Prop := {
  cl_prunes : prunes path t fs t';
  cl_in : is_Some (t' !! q);
  cl_frame x : ¬ path q `prefix_of` path x → t' !! x = t !! x;
  cl_busy x : is_Some (t' !! x) → path q `prefix_of` path x → x ≠ q → touches x r → busy t' x;
  cl_touch f : f ∈ fs → touches (pointer_of f) r
}.
Definition cleans (n : nat) : Prop := ∀ l t d q r,
  level_number l = Z.of_nat n → tree t p4 path → rooted p4 path t → is_Some (t !! q) → (length (path q) + n = 4)%nat →
  is_page (r_start r) → is_page (r_end r) → path q `prefix_of` idxs (r_start r) → path q `prefix_of` idxs (r_end r) →
  ∃ t' fs b, clean_up_table deallocate_frame n t d q l r = Ret (t', foldl deallocate_frame d fs, b)
    ∧ cleaned t q r fs t' ∧ (b = true → unused t' q ∧ r_start r ≤ r_end r) ∧ (b = false → r_start r ≤ r_end r → busy t' q).

Lemma reach_app t q a b : reach t q (a ++ b) = reach t q a ≫= λ x, reach t x b.
Proof.
  revert q. induction a as [|i a IH]; intros q; [done|]. cbn [app reach]. destruct (entry_at t q i) as [e|]; [|done].
  cbn [mbind option_bind]. destruct (is_table e); [|done]. apply IH.
Qed.
(** A table below entry [i] of [q] is reached through that entry. *)
Lemma below_entry t q i x :
  rooted p4 path t → is_Some (t !! q) → is_Some (t !! x) → (path q ++ [i]) `prefix_of` path x →
  ∃ e, entry_at t q i = Some e ∧ is_table e = true.
Proof.
  intros Hr Hq Hx [k Hk]. destruct (Hr q Hq) as (_ & _ & Rq). destruct (Hr x Hx) as (_ & _ & Rx).
  rewrite Hk, <- app_assoc, reach_app, Rq in Rx. cbn [mbind option_bind app reach] in Rx.
  destruct (entry_at t q i) as [e|]; [|done]. cbn [mbind option_bind] in Rx. exists e. by destruct (is_table e).
Qed.
Lemma path_inj t x y : rooted p4 path t → is_Some (t !! x) → is_Some (t !! y) → path x = path y → x = y.
Proof. intros Hr Hx Hy E. destruct (Hr x Hx) as (_ & _ & R1). destruct (Hr y Hy) as (_ & _ & R2). rewrite E, R2 in R1. by injection R1. Qed.

(** The state of the loop over the entries of [q]: what is below the entries [done] is finished. *)
Record swept (t : tables) (q : Z) (r : PageRange) (done : list Z) (fs : list Z) (t' : tables) : Prop := {
  sw_prunes : prunes path t fs t';
  sw_in : is_Some (t' !! q);
  sw_frame x : ¬ path q `prefix_of` path x → t' !! x = t !! x;
  sw_busy i x : i ∈ done → is_Some (t' !! x) → (path q ++ [i]) `prefix_of` path x → touches x r → busy t' x;
  sw_touch f : f ∈ fs → touches (pointer_of f) r
}.
Lemma prefix_other (a : list Z) i j x : i ≠ j → (a ++ [j]) `prefix_of` x → ¬ (a ++ [i]) `prefix_of` x.
Proof.
  intros Hne [k ->] [k' Hk]. rewrite <- !app_assoc in Hk. apply app_inv_head in Hk. by injection Hk.
Qed.
Lemma busy_same t t' x : t' !! x = t !! x → busy t x → busy t' x.
Proof. intros E (j & e & He & Hne). exists j, e. split; [|done]. unfold entry_at in *. by rewrite E. Qed.

(** A child that was traversed, and stays. *)
Lemma swept_child t q r done fs t1 i e r' fs' t2 :
  tree t1 p4 path → rooted p4 path t1 → swept t q r done fs t1 → i ∉ done → good_idx i → (length (path q) < 3)%nat →
  entry_at t1 q i = Some e → is_table e = true → cleaned t1 (target e) r' fs' t2 →
  (∀ x, (path q ++ [i]) `prefix_of` path x → touches x r → touches x r' ∧ (x = target e → busy t2 x)) →
  (∀ x, touches x r' → touches x r) →
  swept t q r (done ++ [i]) (fs ++ fs') t2.
Proof.
  intros Ht1 Hr1 [S1 S2 S3 S4 S5] Hi Hgi Hlen He Htab [C1 C2 C3 C4 C5] Htouch Hpart.
  destruct (tree_child _ _ _ Ht1 q i e He) as (_ & Hp & Hin); [unfold good_idx in Hgi; lia|done|done|].
  destruct (prunes_keep p4 path t1 fs' t2 Ht1 Hr1 C1) as (Ht2 & Hr2 & _).
  rewrite Hp in C3, C4.
  assert (∀ x, is_Some (t1 !! x) → ¬ (path q ++ [i]) `prefix_of` path x → t2 !! x = t1 !! x) as Hsame by (intros; by apply C3).
  split.
  - by eapply prunes_trans.
  - rewrite C3; [done|]. intros Hpre%prefix_length. rewrite length_app in Hpre. simpl in Hpre. lia.
  - intros x Hx. rewrite C3; [by apply S3|]. intros Hpre. apply Hx. etrans; [|exact Hpre]. by apply prefix_app_r.
  - intros j x [Hj| ->%list_elem_of_singleton]%elem_of_app Hx Hpre Hto.
    + assert (t2 !! x = t1 !! x) as E by (apply C3; apply (prefix_other _ i j); [congruence|done]).
      apply (busy_same t1); [done|]. apply (S4 j); [done|by rewrite <- E|done|done].
    + destruct (Htouch x Hpre Hto) as [Hto' Hb]. destruct (decide (x = target e)) as [->|Hne]; [by apply Hb|]. by apply C4.
  - intros f [Hf|Hf]%elem_of_app; [by apply S5|by apply Hpart, C5].
Qed.
(** A child that was traversed and released. *)
Lemma swept_released t q r done fs t1 i e r' fs' t2 :
  tree t1 p4 path → rooted p4 path t1 → swept t q r done fs t1 → i ∉ done → good_idx i → (length (path q) < 3)%nat →
  entry_at t1 q i = Some e → is_table e = true → cleaned t1 (target e) r' fs' t2 → unused t2 (target e) →
  (∀ x, touches x r' → touches x r) → touches (target e) r →
  (∀ d, release deallocate_frame t2 d q i (target e) = Ret (delete (target e) (upd t2 q i 0), deallocate_frame d (entry_addr e)))
  ∧ swept t q r (done ++ [i]) (fs ++ (fs' ++ [entry_addr e])) (delete (target e) (upd t2 q i 0)).
Proof.
  intros Ht1 Hr1 [S1 S2 S3 S4 S5] Hi Hgi Hlen He Htab [C1 C2 C3 C4 C5] Hun Hpart Hself.
  assert (0 ≤ i) as Hi0 by (unfold good_idx in Hgi; lia).
  destruct (tree_child _ _ _ Ht1 q i e He Hi0 Htab Hlen) as (_ & Hp & Hin).
  destruct (prunes_keep p4 path t1 fs' t2 Ht1 Hr1 C1) as (Ht2 & Hr2 & _). rewrite Hp in C3, C4.
  assert (t2 !! q = t1 !! q) as Eq.
  { apply C3. intros Hpre%prefix_length. rewrite length_app in Hpre. simpl in Hpre. lia. }
  assert (entry_at t2 q i = Some e) as He2 by (unfold entry_at in *; by rewrite Eq).
  assert (is_Some (t2 !! q)) as Hq2 by (by rewrite Eq).
  assert (prune path t2 (entry_addr e) (delete (target e) (upd t2 q i 0))) as Hpr by (by apply prune_intro).
  set (t3 := delete (target e) (upd t2 q i 0)) in *.
  destruct (prunes_keep p4 path t2 [entry_addr e] t3 Ht2 Hr2) as (Ht3 & Hr3 & _).
  { change [entry_addr e] with ([] ++ [entry_addr e]). eapply prunes_snoc; [constructor|done]. }
  assert (∀ x, ¬ path x = path q ++ [i] → x ≠ q → t3 !! x = t2 !! x) as Hother.
  { intros x Hx Hxq. unfold t3, upd. rewrite lookup_delete_ne by (intros <-; by apply Hx). by rewrite lookup_alter_ne. }
  split.
  { intros d. unfold release. rewrite (read_entry_spec _ _ _ _ He2). cbn [mbind run_bind]. rewrite frame_spec.
    apply is_table_inv in Htab as [-> ->]. cbn [negb mbind run_bind unwrap].
    by rewrite (write_entry_spec t2 p4 path) by done. }
  split.
  - eapply prunes_trans; [done|]. by eapply prunes_snoc.
  - apply pruned_is_Some. split; [done|]. intros E. apply (f_equal path) in E. rewrite Hp in E. apply (f_equal length) in E.
    rewrite length_app in E. simpl in E. lia.
  - intros x Hx. rewrite Hother, C3; [by apply S3| | |].
    + intros Hpre. apply Hx. etrans; [|exact Hpre]. by apply prefix_app_r.
    + intros E. apply Hx. rewrite E. by apply prefix_app_r.
    + intros ->. by apply Hx.
  - intros j x [Hj| ->%list_elem_of_singleton]%elem_of_app Hx Hpre Hto.
    + assert (¬ (path q ++ [i]) `prefix_of` path x) as Hni by (apply (prefix_other _ i j); [congruence|done]).
      assert (t3 !! x = t1 !! x) as E.
      { rewrite Hother, C3; [done|done| |].
        - intros E. apply Hni. by rewrite E.
        - intros ->. apply prefix_length in Hpre. rewrite length_app in Hpre. simpl in Hpre. lia. }
      apply (busy_same t1); [done|]. apply (S4 j); [done|by rewrite <- E|done|done].
    + exfalso. destruct (below_entry t3 q i x Hr3) as (e3 & He3 & Htab3); [|done|done|].
      * apply pruned_is_Some. split; [done|]. intros E. rewrite <- E in Hp. apply (f_equal length) in Hp. rewrite length_app in Hp. simpl in Hp. lia.
      * unfold t3 in He3. rewrite (pruned_entry p4 path t2 q i e Ht2 Hq2 Hgi q i Hi0) in He3. case_decide; [done|].
        rewrite decide_True in He3 by done. injection He3 as <-. by rewrite not_table_zero in Htab3.
  - intros f [Hf|[Hf| ->%list_elem_of_singleton]%elem_of_app]%elem_of_app; [by apply S5|by apply Hpart, C5|done].
Qed.

(** An entry without a table. *)
Lemma swept_leaf t q r done fs t1 i e :
  rooted p4 path t1 → swept t q r done fs t1 → entry_at t1 q i = Some e → is_table e = false →
  swept t q r (done ++ [i]) fs t1.
Proof.
  intros Hr1 [S1 S2 S3 S4 S5] He Htab. split; [done..| |done].
  intros j x [Hj| ->%list_elem_of_singleton]%elem_of_app Hx Hpre Hto; [by eapply S4|].
  destruct (below_entry t1 q i x Hr1 S2 Hx Hpre) as (e' & He' & Htab'). congruence.
Qed.

Lemma index_between l r i : page_table_index (r_start r) l ≤ i ≤ page_table_index (r_end r) l → good_idx i.
Proof.
  intros Hidx. rewrite !level_index in Hidx.
  destruct (idx_good (r_start r)) as (G4 & G3 & G2 & G1), (idx_good (r_end r)) as (G4' & G3' & G2' & G1'). unfold good_idx in *. destruct l; lia.
Qed.
(** The part of the range [r] below entry [i], as the traversal computes it. *)
Record part (l : PageTableLevel) (p : list Z) (r : PageRange) (i T s last e : Z) : Prop := {
  pt_mul : umul 64 (entry_address_space_alignment l) i = Ret (entry_address_space_alignment l * i);
  pt_start : virt_add T (entry_address_space_alignment l * i) = Ret s;
  pt_sub : usub (entry_address_space_alignment l) 1 = Ret (entry_address_space_alignment l - 1);
  pt_last : virt_add s (entry_address_space_alignment l - 1) = Ret last;
  pt_pages : page_containing_address Size4KiB s = Ret s ∧ page_containing_address Size4KiB last = Ret e;
  pt_is_page : is_page (Z.max s (r_start r)) ∧ is_page (Z.min e (r_end r));
  pt_below : (p ++ [i]) `prefix_of` idxs (Z.max s (r_start r)) ∧ (p ++ [i]) `prefix_of` idxs (Z.min e (r_end r));
  pt_covers v : is_page v → (p ++ [i]) `prefix_of` idxs v → r_start r ≤ v ≤ r_end r → Z.max s (r_start r) ≤ v ≤ Z.min e (r_end r)
}.
Lemma child_part l p r i T :
  l ≠ One → is_page (r_start r) → is_page (r_end r) → (length p + Z.to_nat (level_number l) = 4)%nat →
  p `prefix_of` idxs (r_start r) → p `prefix_of` idxs (r_end r) → page_table_index (r_start r) l ≤ i ≤ page_table_index (r_end r) l →
  good_idx i → virt_align_down (r_start r) (table_address_space_alignment l) = Ret T → ∃ s last e, part l p r i T s last e.
Proof.
  intros Hl1 [Cs Ms] [Ce Me] Hlen' Ps Pe Hidx Hgi HT. unfold good_idx in Hgi.
  destruct (entry_span l p (r_start r) i Hl1 Cs Hlen' Ps ltac:(lia)) as (T' & s & Sp).
  pose proof (sp_table _ _ _ _ _ _ Sp) as HT'. rewrite HT in HT'. injection HT' as <-.
  destruct (clipped_range l p (r_start r) (r_end r) i T s Cs Ce Hlen' Ps Pe Hidx Sp) as [K1 K2].
  destruct Sp as [_ Sp1 Sp2 [Sp3 Sp4] [Sp5 Sp6] Sp7]. destruct (page_of_last l s Hl1 Sp4) as (M1 & M2 & HB).
  set (B := entry_address_space_alignment l) in *. exists s, (s + (B - 1)), (s + B - 4096).
  assert (∀ v, is_page v → v ≤ s + (B - 1) → v ≤ s + B - 4096) as Hpage.
  { intros v [_ Hv] Hle. apply Z.mod_divide in Hv as [a ->]; [|lia]. apply Z.mod_divide in M2 as [b Hb]; [|lia]. lia. }
  pose proof (Hpage (r_start r) (conj Cs Ms) K1).
  assert (is_page (Z.max s (r_start r)) ∧ is_page (Z.min (s + B - 4096) (r_end r))) as [Q1 Q2].
  { split; [destruct (Z.max_spec s (r_start r)) as [[_ ->]|[_ ->]]|destruct (Z.min_spec (s + B - 4096) (r_end r)) as [[_ ->]|[_ ->]]]; done. }
  split; fold B; [apply umul_Ret; nia|done|apply usub_Ret; lia|done| |done| |].
  - rewrite !page_containing_spec by (by apply canonical_width). cbn [SIZE]. rewrite Sp4, M1, Z.sub_0_r. split; [done|]. f_equal. lia.
  - split; (apply Sp7; [apply Q1 || apply Q2|lia]).
  - intros v Hv Hpre Hr. apply Sp7 in Hpre; [|apply Hv]. pose proof (Hpage v Hv ltac:(lia)). lia.
Qed.

Lemma visit_step n l nl t q r T done fs t1 d i :
  cleans n → next_lower_level l = Some nl → level_number l = Z.of_nat (S n) →
  tree t1 p4 path → rooted p4 path t1 → swept t q r done fs t1 → i ∉ done → (length (path q) + S n = 4)%nat →
  is_page (r_start r) → is_page (r_end r) → path q `prefix_of` idxs (r_start r) → path q `prefix_of` idxs (r_end r) →
  page_table_index (r_start r) l ≤ i ≤ page_table_index (r_end r) l →
  virt_align_down (r_start r) (table_address_space_alignment l) = Ret T →
  ∃ t2 fs2, visit deallocate_frame (clean_up_table deallocate_frame n) q T l nl r i (t1, foldl deallocate_frame d fs)
              = Ret (t2, foldl deallocate_frame d fs2) ∧ swept t q r (done ++ [i]) fs2 t2.
Proof.
  intros IH Hnl Hl Ht1 Hr1 Hsw Hi Hlen Hps Hpe Ps Pe Hidx HT. pose proof (index_between l r i Hidx) as Hgi.
  assert (l ≠ One) as Hl1 by (by intros ->). assert (length (path q) + Z.to_nat (level_number l) = 4)%nat as Hlen' by (rewrite Hl; lia).
  assert (length (path q) < 3)%nat as Hdepth by (destruct l; cbn [level_number next_lower_level] in *; try done; lia).
  destruct (entry_at_Some t1 p4 path q i Ht1 (sw_in _ _ _ _ _ _ Hsw) Hgi) as [e He].
  unfold visit. rewrite (read_entry_spec _ _ _ _ He). cbn [mbind run_bind]. assert (0 ≤ i) as Hi0 by apply Hgi.
  destruct (is_table e) eqn:Htab.
  2:{ exists t1, fs. split; [|by eapply swept_leaf]. rewrite next_table_spec. unfold is_table in Htab.
      destruct (present e); cbn [negb andb mbind run_bind] in *; [|done]. by destruct (huge e). }
  rewrite (next_table_child t1 p4 path q i) by done. cbn [mbind run_bind].
  destruct (tree_child _ _ _ Ht1 q i e He Hi0 Htab Hdepth) as (_ & Hp & Hin).
  destruct (child_part l (path q) r i T Hl1 Hps Hpe Hlen' Ps Pe Hidx Hgi HT) as (s & last & stop & [E1 E2 E3 E4 [E5 E6] [Q1 Q2] [B1 B2] Hcov]).
  rewrite E1. cbn [mbind run_bind]. rewrite E2. cbn [mbind run_bind]. rewrite E3. cbn [mbind run_bind]. rewrite E4. cbn [mbind run_bind].
  rewrite E5, E6. cbn [mbind run_bind]. set (r' := mkPageRange _ _).
  destruct (IH nl t1 (foldl deallocate_frame d fs) (target e) r') as (t2 & fs' & b & Hrun & Hcl & Hb1 & Hb2);
    [destruct l; cbn [level_number next_lower_level] in *; simplify_eq; cbn [level_number]; lia|done|done|done
    |rewrite Hp, length_app; simpl; lia|done|done|by rewrite Hp|by rewrite Hp|].
  assert (∀ x, touches x r' → touches x r) as Hpart.
  { intros x (v & Hv & Hvr & Hpv). exists v. split; [done|]. cbn [r' r_start r_end] in Hvr. split; [lia|done]. }
  rewrite Hrun. cbn [mbind run_bind]. rewrite <- foldl_app. destruct b.
  - destruct (Hb1 eq_refl) as [Hun Hle]. assert (touches (target e) r) as Hself.
    { apply Hpart. exists (r_start r'). split; [done|]. split; [lia|by rewrite Hp]. }
    destruct (swept_released t q r done fs t1 i e r' fs' t2) as [Hrel Hsw']; [done..|].
    rewrite Hrel. eexists _, _. split; [|exact Hsw']. by rewrite !foldl_app.
  - eexists _, _. split; [done|]. apply (swept_child t q r done fs t1 i e r' fs' t2); [done..| |done].
    intros x Hpre (v & Hv & Hvr & Hpv). assert (r_start r' ≤ v ≤ r_end r') as Hin' by (apply Hcov; [done|by etrans|done]).
    split; [by exists v|]. intros ->. apply Hb2; [done|lia].
Qed.

Lemma cleans_step n : (n = O ∨ cleans n) → cleans (S n).
Proof.
  intros IH l t d q r Hl Ht Hr Hq Hlen Hps Hpe Ps Pe. cbn [clean_up_table].
  unfold page_range_inclusive_is_empty. destruct (Z.ltb_spec (r_end r) (r_start r)) as [Hempty|Hle].
  { exists t, [], false. split; [done|]. split; [|split; [done|lia]].
    split; [constructor|done|done| |by intros f ?%elem_of_nil]. intros x _ _ _ (v & _ & Hv & _). lia. }
  assert (length (path q) + Z.to_nat (level_number l) = 4)%nat as Hlen' by (rewrite Hl; lia).
  destruct Hps as [Cs Ms], Hpe as [Ce Me].
  assert (virt_align_down (r_start r) (table_address_space_alignment l) = Ret (r_start r - r_start r mod 2 ^ (level_number l * 9 + 12))) as HT.
  { unfold virt_align_down, table_address_space_alignment. rewrite Z.shiftl_mul_pow2, Z.mul_1_l by (destruct l; simpl; lia).
    apply align_down_spec; [by apply canonical_width|destruct l; simpl; lia]. }
  rewrite HT. cbn [mbind run_bind]. set (T := _ - _) in *.
  set (start := page_table_index (r_start r) l) in *. set (stop := page_table_index (r_end r) l) in *.
  assert (∃ t' fs, match next_lower_level l with
            | None => Ret (t, d)
            | Some nl => for_each (visit deallocate_frame (clean_up_table deallocate_frame n) q T l nl r) (seqZ start (stop + 1 - start)) (t, d)
            end = Ret (t', foldl deallocate_frame d fs) ∧ cleaned t q r fs t') as (t' & fs & Hloop & Hcl).
  { destruct (next_lower_level l) as [nl|] eqn:Hnl.
    - assert (cleans n) as IH'. { destruct IH as [->|]; [|done]. destruct l; cbn [level_number next_lower_level] in *; done || lia. }
      destruct (for_each_inv (λ done s, ∃ fs, s.2 = foldl deallocate_frame d fs ∧ swept t q r done fs s.1)
        (visit deallocate_frame (clean_up_table deallocate_frame n) q T l nl r) (seqZ start (stop + 1 - start)) (t, d))
        as ([t' d'] & Hrun & fs & Hd & Hsw).
      + exists []. split; [done|]. split; [constructor|done|done| |by intros f ?%elem_of_nil]. by intros i x ?%elem_of_nil.
      + intros done i rest [t1 d1] Hdone (fs & Hd & Hsw). cbn [fst snd] in *. subst d1.
        pose proof (NoDup_seqZ start (stop + 1 - start)) as Hnd. rewrite Hdone in Hnd. apply NoDup_app in Hnd as (_ & Hnd & _).
        assert (i ∈ seqZ start (stop + 1 - start)) as Hi by (rewrite Hdone; apply elem_of_app; right; by left).
        apply elem_of_seqZ in Hi.
        destruct (prunes_keep p4 path t fs t1 Ht Hr (sw_prunes _ _ _ _ _ _ Hsw)) as (Ht1 & Hr1 & _).
        destruct (visit_step n l nl t q r T done fs t1 d i) as (t2 & fs2 & Hrun & Hsw2); try done.
        { intros Hin. by apply (Hnd i Hin); left. }
        { fold start stop. lia. }
        exists (t2, foldl deallocate_frame d fs2). split; [done|]. by exists fs2.
      + exists t', fs. cbn [fst snd] in *. subst d'. split; [done|]. destruct Hsw as [S1 S2 S3 S4 S5]. split; [done..| |done].
        intros x Hx [k Hk] Hne (v & Hv & Hvr & Hpv). destruct k as [|i k].
        { rewrite app_nil_r in Hk. destruct (prunes_keep p4 path t fs t' Ht Hr S1) as (_ & Hr' & _). by destruct Hne; apply (path_inj t'). }
        assert ((path q ++ [i]) `prefix_of` path x) as Hpre by (exists k; by rewrite <- app_assoc).
        apply (S4 i); [|done|done|by exists v].
        assert ((path q ++ [i]) `prefix_of` idxs v) as Hpi by (by etrans). assert (path q `prefix_of` idxs v) as Hpq by exact (prefix_app_l _ _ _ Hpi).
        pose proof (index_next l (path q) i v Hlen' Hpi) as Ei. apply elem_of_seqZ.
        pose proof (index_mono l (path q) (r_start r) v Cs (proj1 Hv) Hlen' Ps Hpq ltac:(lia)).
        pose proof (index_mono l (path q) v (r_end r) (proj1 Hv) Ce Hlen' Hpq Pe ltac:(lia)). unfold start, stop. lia.
    - exists t, []. split; [done|]. split; [constructor|done|done| |by intros f ?%elem_of_nil]. intros x Hx [k Hk] Hne _. exfalso.
      destruct (Hr x Hx) as (Hlx & _). assert (l = One) as -> by (by destruct l). cbn [level_number] in Hlen'.
      rewrite Hk, length_app in Hlx. destruct k; [|simpl in Hlx; lia]. rewrite app_nil_r in Hk. by apply Hne, (path_inj t). }
  rewrite Hloop. cbn [mbind run_bind]. destruct (cl_in _ _ _ _ _ Hcl) as [es Hes]. rewrite Hes. cbn [mbind run_bind].
  pose proof (busy_or_unused t' q es Hes) as Hb. exists t', fs, (forallb is_unused es). split; [done|]. split; [done|].
  destruct (forallb is_unused es); split; done || (intros _; split; done || lia).
Qed.
Lemma cleans_all n : cleans (S n).
Proof. induction n as [|n IH]; apply cleans_step; [by left|by right]. Qed.

(** Every walk of at most four indices leads to a page. *)
Lemma extend_walk ix : (length ix ≤ 4)%nat → Forall good_idx ix → ∃ v, is_page v ∧ ix `prefix_of` idxs v.
Proof.
  intros Hl Hg. assert (∃ ix', ix `prefix_of` ix' ∧ length ix' = 4%nat ∧ Forall good_idx ix') as (ix' & Hpre & Hl' & Hg').
  { exists (ix ++ replicate (4 - length ix) 0). split; [by apply prefix_app_r|]. rewrite length_app, length_replicate. split; [lia|].
    apply Forall_app. split; [done|]. apply Forall_replicate. unfold good_idx. lia. }
  destruct ix' as [|a [|b [|c [|e [|? ?]]]]]; try done. rewrite !Forall_cons in Hg'. destruct Hg' as (Ga & Gb & Gc & Ge & _).
  destruct (indices_round_trip a b c e Ga Gb Gc Ge) as (v & _ & Hc & Ho & E4 & E3 & E2 & E1).
  exists v. split; [split; [done|by rewrite <- page_offset_spec]|]. unfold idxs. by rewrite E4, E3, E2, E1.
Qed.

Lemma entry_at_nat t q j : entry_at t q j = entry_at t q (Z.of_nat (Z.to_nat j)).
Proof. unfold entry_at. by rewrite Nat2Z.id. Qed.
(** What [clean_up_addr_range] promises: which tables are freed ([cr_exact]), and what becomes
    of the entries of the others ([cr_entries]). *)
Record clean_result (t : tables) (r : PageRange) (fs : list Z) (t' : tables) : Prop := {
  cr_tree : tree t' p4 path ∧ rooted p4 path t';
  cr_translate v : translate t' p4 v = translate t p4 v;
  cr_once : NoDup fs;
  cr_gone q : is_Some (t !! q) ↔ is_Some (t' !! q) ∨ q ∈ pointer_of <$> fs;
  cr_freed f : f ∈ fs → covered f ∧ t' !! pointer_of f = None;
  cr_exact q : is_Some (t !! q) → q ≠ p4 →
    q ∈ pointer_of <$> fs ↔ touches q r ∧ ∀ j e, 0 ≤ j → entry_at t q j = Some e → e = 0 ∨ gone path fs q e;
  cr_entries q j e : 0 ≤ j → is_Some (t' !! q) → entry_at t q j = Some e →
    entry_at t' q j = Some (if decide (gone path fs q e) then 0 else e);
  cr_kept x : is_Some (t' !! x) → x ≠ p4 → touches x r → busy t' x
}.

Lemma clean_up_addr_range_cases t d r :
  tree t p4 path → rooted p4 path t → is_page (r_start r) → is_page (r_end r) →
  ∃ t' fs, clean_up_addr_range deallocate_frame t d p4 r = Ret (t', foldl deallocate_frame d fs) ∧ clean_result t r fs t'.
Proof.
  intros Ht Hr Hs He. pose proof (tree_root _ _ _ Ht) as Hroot.
  destruct (cleans_all 3 Four t d p4 r) as (t' & fs & b & Hrun & [C1 C2 C3 C4 C5] & _); try done.
  { apply (tree_root_in _ _ _ Ht). } { by rewrite Hroot. } { rewrite Hroot. apply prefix_nil. } { rewrite Hroot. apply prefix_nil. }
  destruct (prunes_keep p4 path t fs t' Ht Hr C1) as (Ht' & Hr' & Hm). destruct (prunes_freed p4 path t fs t' Ht Hr C1) as (F1 & F2 & F3).
  destruct (prunes_entries p4 path t fs t' Ht Hr C1) as [Hent Hfre].
  assert (∀ x, is_Some (t' !! x) → x ≠ p4 → touches x r → busy t' x) as Hbusy.
  { intros x Hx Hne Hto. apply C4; [done|rewrite Hroot; apply prefix_nil|done|done]. }
  exists t', fs. unfold clean_up_addr_range. rewrite Hrun. split; [done|]. split; [done| |done|done| | |exact Hent|exact Hbusy].
  - intros v. rewrite !(translate_spec _ p4 path) by done. do 2 f_equal.
    apply Hm; [done|apply idxs_walk|by rewrite Hroot].
  - intros f Hf. destruct (F3 f Hf) as (Hc & Hn & _). done.
  - intros q Hq Hne. split.
    + intros (f & -> & Hf)%list_elem_of_fmap. split; [by apply C5|]. intros j e. by apply Hfre.
    + intros [Hto Hz]. destruct (proj1 (F2 q) Hq) as [Hin|]; [|done]. exfalso. destruct (Hbusy q Hin Hne Hto) as (j & e' & He' & Hne').
      rewrite entry_at_nat in He'. destruct (entry_at t q (Z.of_nat (Z.to_nat j))) as [e|] eqn:Hqe.
      * pose proof (Hent q (Z.of_nat (Z.to_nat j)) e ltac:(lia) Hin Hqe) as E. rewrite He' in E. injection E as ->.
        case_decide; [done|]. by destruct (Hz (Z.of_nat (Z.to_nat j)) e ltac:(lia) Hqe).
      * destruct Hq as [es Hes], Hin as [es' Hes']. unfold entry_at in Hqe, He'. rewrite Hes in Hqe. rewrite Hes' in He'. cbn [mbind option_bind] in *.
        apply lookup_ge_None in Hqe. apply lookup_lt_Some in He'. rewrite (tree_shape _ _ _ Ht _ _ Hes) in Hqe. rewrite (tree_shape _ _ _ Ht' _ _ Hes') in He'. lia.
Qed.

(** [clean_up] covers every address: no unused table is left. *)
Lemma clean_up_cases t d :
  tree t p4 path → rooted p4 path t →
  ∃ t' fs, clean_up deallocate_frame t d p4 = Ret (t', foldl deallocate_frame d fs)
    ∧ clean_result t (mkPageRange 0 0xfffffffffffff000) fs t' ∧ ∀ x, is_Some (t' !! x) → x ≠ p4 → busy t' x.
Proof.
  intros Ht Hr. assert (is_page 0 ∧ is_page 0xfffffffffffff000) as [H0 H1] by (unfold is_page, canonical; split; split; done || lia).
  destruct (clean_up_addr_range_cases t d (mkPageRange 0 0xfffffffffffff000) Ht Hr H0 H1) as (t' & fs & Hrun & Hres).
  exists t', fs. split; [|split; [done|]].
  - unfold clean_up, page_from_start_address, virt_is_aligned.
    rewrite !virt_new_canonical by (apply H0 || apply H1 || (unfold in_width; lia)). cbn [mbind run_bind].
    rewrite !(is_aligned_spec _ 12) by (unfold in_width; lia). cbn [mbind run_bind]. rewrite !bool_decide_true by done.
    cbn [negb mbind run_bind]. rewrite !page_containing_spec by (unfold in_width; lia). exact Hrun.
  - intros x Hx Hne. apply (cr_kept _ _ _ _ Hres); [done|done|]. destruct (cr_tree _ _ _ _ Hres) as [Ht' Hr'].
    destruct (Hr' x Hx) as (Hl & Hg & _). destruct (extend_walk (path x)) as (v & Hv & Hpre); [lia|done|].
    exists v. split; [done|]. split; [|done]. cbn [r_start r_end]. destruct Hv as [Hc Hm]. apply Z.mod_divide in Hm as [k ->]; [|lia].
    unfold canonical in Hc. lia.
Qed.

(** C9: On a tree of page tables and any range of pages, [clean_up_addr_range]
    returns without touching memory it has freed.  It frees exactly the tables below the
    root that cover a page of the range and whose entries are all unused or lead to freed
    tables; each of their frames goes to the deallocator once.  In the tables that stay, the
    entries that lead to freed tables are cleared and no other is changed, so the translation
    of every virtual address stays as it was, and every table that stays and covers a page
    of the range is in use.  [clean_up] does so for all addresses: every table that stays
    is in use. *)
Theorem clean_up_frees_unused t d r :
  tree t p4 path → rooted p4 path t → is_page (r_start r) → is_page (r_end r) →
  (∃ t' fs, clean_up_addr_range deallocate_frame t d p4 r = Ret (t', foldl deallocate_frame d fs) ∧ clean_result t r fs t')
  ∧ ∃ t' fs, clean_up deallocate_frame t d p4 = Ret (t', foldl deallocate_frame d fs)
      ∧ clean_result t (mkPageRange 0 0xfffffffffffff000) fs t' ∧ ∀ x, is_Some (t' !! x) → x ≠ p4 → busy t' x.
Proof. intros Ht Hr Hs He. split; [by apply clean_up_addr_range_cases|by apply clean_up_cases]. Qed.
End traversal.

(** ** An instance *)
#[local] Existing Instance bit_field_model.
(** A root with one level 3 table that has no entries. *)
Definition sparse_space : tables := {[ 0x1000 := <[ 0%nat := 0x2003 ]> table_new; 0x2000 := table_new ]}.
Definition sparse_path (q : Z) : list Z := if decide (q = 0x2000) then [0] else [].
Lemma sparse_lookup q es :
  sparse_space !! q = Some es → q = 0x1000 ∧ es = <[ 0%nat := 0x2003 ]> table_new ∨ q = 0x2000 ∧ es = table_new.
Proof.
  unfold sparse_space. rewrite lookup_insert_Some, lookup_singleton_Some. intros [[<- <-]|[_ [<- <-]]]; auto.
Qed.
Lemma sparse_entry q i e : entry_at sparse_space q i = Some e → 0 ≤ i → q = 0x1000 ∧ i = 0 ∧ e = 0x2003 ∨ e = 0.
Proof.
  unfold entry_at. destruct (sparse_space !! q) as [es|] eqn:E; [|done]. cbn [mbind option_bind]. intros Hx Hi.
  apply sparse_lookup in E as [[-> ->]|[-> ->]].
  - apply list_lookup_insert_Some in Hx as [(E & <- & _)|[_ Hx]]; [left; split; [done|split; [lia|done]]|].
    apply lookup_replicate_1 in Hx as [-> _]. by right.
  - apply lookup_replicate_1 in Hx as [-> _]. by right.
Qed.
Lemma sparse_tree : tree sparse_space 0x1000 sparse_path ∧ rooted 0x1000 sparse_path sparse_space.
Proof.
  split; [split; [done|by eexists| | | |]|].
  - by intros q es [[_ ->]|[_ ->]]%sparse_lookup.
  - intros q i e He Hi. apply sparse_entry in He as [(_ & _ & ->)| ->]; [by right|by left|done].
  - intros q i e He Hi Htab _. apply sparse_entry in He as [(-> & -> & ->)| ->]; [|by vm_compute in Htab|done].
    split; [by vm_compute|]. split; [done|by eexists].
  - intros i e He Hi. apply sparse_entry in He as [(_ & _ & ->)| ->]; [by vm_compute..|done].
  - intros q [es [[-> ->]|[-> ->]]%sparse_lookup]; (split; [by apply Nat.leb_le|]); split; try done; repeat constructor; done.
Qed.
Definition collect_frame (d : list Z) (f : Z) : list Z := d ++ [f].
Lemma clean_up_frees_unused_witness :
  clean_up_addr_range collect_frame sparse_space [] 0x1000 (mkPageRange 0 0x5000)
    = Ret ({[ 0x1000 := table_new ]}, [0x2000])
  ∧ (clean_up_addr_range collect_frame sparse_space [] 0x1000 (mkPageRange (2 ^ 39) (2 ^ 39 + 0x5000)) = Ret (sparse_space, [])
     ∧ ∃ t' fs, Ret (sparse_space, []) = Ret (t', foldl collect_frame [] fs)
         ∧ clean_result 0x1000 sparse_path sparse_space (mkPageRange (2 ^ 39) (2 ^ 39 + 0x5000)) fs t')
  ∧ ∃ t' fs, clean_up collect_frame sparse_space [] 0x1000 = Ret (t', foldl collect_frame [] fs)
      ∧ clean_result 0x1000 sparse_path sparse_space (mkPageRange 0 0xfffffffffffff000) fs t'
      ∧ ∀ x, is_Some (t' !! x) → x ≠ 0x1000 → busy t' x.
Proof.
  destruct (clean_up_frees_unused collect_frame 0x1000 sparse_path sparse_space [] (mkPageRange (2 ^ 39) (2 ^ 39 + 0x5000))) as [H1 H2];
    [exact (proj1 sparse_tree)|exact (proj2 sparse_tree)|split; [left; cbn; lia|reflexivity]|split; [left; cbn; lia|reflexivity]|].
  split; [by vm_compute|]. split; [|exact H2].
  assert (clean_up_addr_range collect_frame sparse_space [] 0x1000 (mkPageRange (2 ^ 39) (2 ^ 39 + 0x5000)) = Ret (sparse_space, [])) as E by (by vm_compute).
  split; [exact E|]. rewrite E in H1. exact H1.
Defined.
End CleanUp.
