(* ===== verification/Recursive.v ===== *)
(** * crates/x86_64/src/structures/paging/mapper/recursive_page_table.rs

    [RecursivePageTable] has no pointers to page tables of its own: entry [recursive_index]
    of the level 4 table leads to the table itself, and the mapper follows virtual addresses
    whose first indices are that index.  Each of its memory accesses is translated by the
    processor with the very tables that the mapper changes.  The tables are here a
    store from physical addresses to tables; [Processor] is the address translation.

    [hide] takes the recursive entry out of the store, which leaves a tree.  The theorems
    show that the operations do on the hidden tree what [MappedPageTable] promises. *)
From S2P Require Import Prelude Addr Paging Control MemoryMap FrameAlloc Mapper CleanUp.
Import Addr Paging Mapper.

(** ** The processor

    An access passes an entry that is present, and writable when it writes.  The three
    upper entries must be tables; bit 7 has another meaning in the last one. *)
Definition passes (write : bool) (e : Z) : bool := present e && (negb write || contains (flags e) WRITABLE).

Class Processor := {
  mmu : bool → tables → Z → Z → option Z;
  mmu_translates write t cr3 v e4 e3 e2 e1 :
    canonical v →
    entry_at t cr3 (p4_index v) = Some e4 → passes write e4 = true → huge e4 = false →
    entry_at t (entry_addr e4) (p3_index v) = Some e3 → passes write e3 = true → huge e3 = false →
    entry_at t (entry_addr e3) (p2_index v) = Some e2 → passes write e2 = true → huge e2 = false →
    entry_at t (entry_addr e2) (p1_index v) = Some e1 → passes write e1 = true →
    mmu write t cr3 v = Some (entry_addr e1 + page_offset v)
}.

(** The translation of 4-level paging. *)
Definition page_walk (write : bool) (t : tables) (cr3 v : Z) : option Z :=
  e4 ← entry_at t cr3 (p4_index v);
  if negb (passes write e4) || huge e4 then None else
  e3 ← entry_at t (entry_addr e4) (p3_index v);
  if negb (passes write e3) then None else
  if huge e3 then Some (entry_addr e3 - entry_addr e3 mod 2 ^ 30 + v mod 2 ^ 30) else
  e2 ← entry_at t (entry_addr e3) (p2_index v);
  if negb (passes write e2) then None else
  if huge e2 then Some (entry_addr e2 - entry_addr e2 mod 2 ^ 21 + v mod 2 ^ 21) else
  e1 ← entry_at t (entry_addr e2) (p1_index v);
  if negb (passes write e1) then None else Some (entry_addr e1 + page_offset v).
#[global] Program Instance page_walk_processor : Processor := {| mmu := page_walk |}.
Next Obligation.
  intros write t cr3 v e4 e3 e2 e1 _ H4 P4 N4 H3 P3 N3 H2 P2 N2 H1 P1. unfold page_walk.
  rewrite H4. cbn [mbind option_bind]. rewrite P4, N4. cbn [negb orb].
  rewrite H3. cbn [mbind option_bind]. rewrite P3, N3. cbn [negb].
  rewrite H2. cbn [mbind option_bind]. rewrite P2, N2. cbn [negb].
  rewrite H1. cbn [mbind option_bind]. by rewrite P1.
Qed.

Module Recursive.

(** The store is indexed by physical addresses. *)
#[local] Program Instance physical_mapping : PageTableFrameMapping := {|
  frame_to_pointer f := Ret f; covered _ := True; pointer_of f := f
|}.
Next Obligation. done. Qed.
Next Obligation. done. Qed.

Record RecursivePageTable := mkRecursive { p4 : Z; recursive_index : Z }.
Inductive InvalidPageTable := NotRecursive | NotActive.

(** ** The code *)
Section code.
Context {BF : BitField} `{!Processor}.

(** *** Memory accesses of the processor, with the level 4 table at [cr3] *)
Section memory.
Variable cr3 : Z.
Definition deref (write : bool) (t : tables) (v : Z) : run Z :=
  match mmu write t cr3 v with Some a => Ret a | None => Panic Undefined end.
Definition load (t : tables) (ptr i : Z) : run Z := a ← deref false t ptr; read_entry t a i.
Definition save (t : tables) (ptr i e : Z) : run tables := a ← deref true t ptr; write_entry t a i e.
(** [page_table.zero()] of a frame that becomes a table. *)
Definition clear (t : tables) (ptr : Z) : run tables := a ← deref true t ptr; Ret (<[a := table_new]> t).
End memory.

(** *** The addresses of the tables *)
Definition p3_page (page r : Z) : run Z := from_page_table_indices r r r (p4_index page).
Definition p2_page (page r : Z) : run Z := from_page_table_indices r r (p4_index page) (p3_index page).
Definition p1_page (page r : Z) : run Z := from_page_table_indices r (p4_index page) (p3_index page) (p2_index page).

(** [table[i]] of a page table at address [table], and [Cr3::read]. *)
Definition new (c : Control.cpu) (t : tables) (table : Z) : run (result RecursivePageTable InvalidPageTable) :=
  v ← virt_new table;
  page ← page_containing_address Size4KiB v;
  let recursive_index := p4_index page in
  if negb (p3_index page =? recursive_index) || negb (p2_index page =? recursive_index)
     || negb (p1_index page =? recursive_index) then Ret (Err NotRecursive) else
  '(active, _) ← Control.cr3_read c;
  entry ← load active t table recursive_index;
  fr ← frame entry;
  match fr with
  | Ok f => if f =? active then Ret (Ok (mkRecursive table recursive_index)) else Ret (Err NotActive)
  | Err _ => Ret (Err NotActive)
  end.

Section operations.
Variables (cr3 : Z) (self : RecursivePageTable).
Let r := recursive_index self.

(** *** [map_to_with_table_flags] *)
Section allocator.
Context {A : Type} `{!FrameAllocator A}.

(** Entry [i] of the table at [ptr]; [next_table_page] is the page of the next table. *)
Definition create_next_table (t : tables) (a : A) (ptr i next_table_page insert_flags : Z)
    : run (tables * A * result Z MapToError) :=
  entry ← load cr3 t ptr i;
  if is_unused entry then
    '(o, a') ← allocate_frame a;
    match o with
    | Some f =>
        entry' ← set_frame entry f (Z.lor (Z.lor PRESENT WRITABLE) insert_flags);
        t1 ← save cr3 t ptr i entry';
        if contains (flags entry') HUGE_PAGE then Ret (t1, a', Err ParentEntryHugePage)
        else t2 ← clear cr3 t1 next_table_page; Ret (t2, a', Ok next_table_page)
    | None => Ret (t, a', Err FrameAllocationFailed)
    end
  else
    '(entry', t1) ←
      (if negb (insert_flags =? 0) && negb (contains (flags entry) insert_flags) then
         e ← set_flags entry (Z.lor (flags entry) insert_flags);
         t1 ← save cr3 t ptr i e; Ret (e, t1)
       else Ret (entry, t));
    if contains (flags entry') HUGE_PAGE then Ret (t1, a, Err ParentEntryHugePage)
    else Ret (t1, a, Ok next_table_page).

(** The calls [create_next_table(...)?] one after the other: an index and the page of the
    table below it for each. *)
Fixpoint create_path (t : tables) (a : A) (ptr : Z) (steps : list (Z * run Z)) (insert_flags : Z)
    : run (tables * A * result Z MapToError) :=
  match steps with
  | [] => Ret (t, a, Ok ptr)
  | (i, next) :: steps' =>
      next_table_page ← next;
      '(t1, a1, res) ← create_next_table t a ptr i next_table_page insert_flags;
      match res with
      | Ok p => create_path t1 a1 p steps' insert_flags
      | Err e => Ret (t1, a1, Err e)
      end
  end.
Definition map_to_1gib (t : tables) (a : A) (page f fl parent : Z) : run (tables * A * result Z MapToError) :=
  '(t1, a1, res) ← create_path t a (p4 self) [(p4_index page, p3_page page r)] parent;
  match res with
  | Err e => Ret (t1, a1, Err e)
  | Ok p3 =>
      entry ← load cr3 t1 p3 (p3_index page);
      if negb (is_unused entry) then Ret (t1, a1, Err (PageAlreadyMapped f))
      else e ← set_addr entry f (Z.lor fl HUGE_PAGE);
           t2 ← save cr3 t1 p3 (p3_index page) e; Ret (t2, a1, Ok page)
  end.
Definition map_to_2mib (t : tables) (a : A) (page f fl parent : Z) : run (tables * A * result Z MapToError) :=
  '(t1, a1, res) ← create_path t a (p4 self) [(p4_index page, p3_page page r); (p3_index page, p2_page page r)] parent;
  match res with
  | Err e => Ret (t1, a1, Err e)
  | Ok p2 =>
      entry ← load cr3 t1 p2 (p2_index page);
      if negb (is_unused entry) then Ret (t1, a1, Err (PageAlreadyMapped f))
      else e ← set_addr entry f (Z.lor fl HUGE_PAGE);
           t2 ← save cr3 t1 p2 (p2_index page) e; Ret (t2, a1, Ok page)
  end.
Definition map_to_4kib (t : tables) (a : A) (page f fl parent : Z) : run (tables * A * result Z MapToError) :=
  '(t1, a1, res) ← create_path t a (p4 self)
    [(p4_index page, p3_page page r); (p3_index page, p2_page page r); (p2_index page, p1_page page r)] parent;
  match res with
  | Err e => Ret (t1, a1, Err e)
  | Ok p1 =>
      entry ← load cr3 t1 p1 (p1_index page);
      if negb (is_unused entry) then Ret (t1, a1, Err (PageAlreadyMapped f))
      else e ← set_frame entry f fl;
           t2 ← save cr3 t1 p1 (p1_index page) e; Ret (t2, a1, Ok page)
  end.
Definition map_to_with_table_flags (s : PageSize) :=
  match s with Size4KiB => map_to_4kib | Size2MiB => map_to_2mib | Size1GiB => map_to_1gib end.
(** Provided by the trait [Mapper]. *)
Definition map_to (s : PageSize) (t : tables) (a : A) (page f fl : Z) :=
  map_to_with_table_flags s t a page f fl (Z.land fl (Z.lor (Z.lor PRESENT WRITABLE) USER_ACCESSIBLE)).
End allocator.

(** *** [unmap] *)
Definition frame_to_unmap (e : FrameError) : UnmapError :=
  match e with FrameNotPresent => UnmapPageNotMapped | HugeFrame => UnmapParentEntryHugePage end.
(** [entry.frame().map_err(...)?] and the pointer to the next table, for each level. *)
Fixpoint frames_along (t : tables) (ptr : Z) (steps : list (Z * run Z)) : run (result Z UnmapError) :=
  match steps with
  | [] => Ret (Ok ptr)
  | (i, next) :: steps' =>
      entry ← load cr3 t ptr i;
      fr ← frame entry;
      match fr with
      | Err e => Ret (Err (frame_to_unmap e))
      | Ok _ => p ← next; frames_along t p steps'
      end
  end.
Definition unmap_huge (s : PageSize) (t : tables) (steps : list (Z * run Z)) (i page : Z)
    : run (tables * result (Z * Z) UnmapError) :=
  res ← frames_along t (p4 self) steps;
  match res with
  | Err e => Ret (t, Err e)
  | Ok p =>
      entry ← load cr3 t p i;
      if negb (contains (flags entry) PRESENT) then Ret (t, Err UnmapPageNotMapped)
      else if negb (contains (flags entry) HUGE_PAGE) then Ret (t, Err UnmapParentEntryHugePage)
      else
        a ← addr entry;
        fr ← frame_from_start_address s a;
        match fr with
        | Err _ => Ret (t, Err (UnmapInvalidFrameAddress a))
        | Ok f => t1 ← save cr3 t p i (set_unused entry); Ret (t1, Ok (f, page))
        end
  end.
Definition unmap_1gib (t : tables) (page : Z) :=
  unmap_huge Size1GiB t [(p4_index page, p3_page page r)] (p3_index page) page.
Definition unmap_2mib (t : tables) (page : Z) :=
  unmap_huge Size2MiB t [(p4_index page, p3_page page r); (p3_index page, p2_page page r)] (p2_index page) page.
Definition unmap_4kib (t : tables) (page : Z) : run (tables * result (Z * Z) UnmapError) :=
  res ← frames_along t (p4 self)
    [(p4_index page, p3_page page r); (p3_index page, p2_page page r); (p2_index page, p1_page page r)];
  match res with
  | Err e => Ret (t, Err e)
  | Ok p1 =>
      entry ← load cr3 t p1 (p1_index page);
      fr ← frame entry;
      match fr with
      | Err e => Ret (t, Err (frame_to_unmap e))
      | Ok f => t1 ← save cr3 t p1 (p1_index page) (set_unused entry); Ret (t1, Ok (f, page))
      end
  end.
Definition unmap (s : PageSize) :=
  match s with Size4KiB => unmap_4kib | Size2MiB => unmap_2mib | Size1GiB => unmap_1gib end.

(** *** [update_flags], [set_flags_*_entry], [translate_page]

    These look only for unused entries on the way; [None] is the early return. *)
Fixpoint used_along (t : tables) (ptr : Z) (steps : list (Z * run Z)) : run (option Z) :=
  match steps with
  | [] => Ret (Some ptr)
  | (i, next) :: steps' =>
      entry ← load cr3 t ptr i;
      if is_unused entry then Ret None else p ← next; used_along t p steps'
  end.
Definition set_flags_at (t : tables) (steps : list (Z * run Z)) (i fl : Z) : run (tables * result unit FlagUpdateError) :=
  res ← used_along t (p4 self) steps;
  match res with
  | None => Ret (t, Err FlagPageNotMapped)
  | Some p =>
      entry ← load cr3 t p i;
      if is_unused entry then Ret (t, Err FlagPageNotMapped)
      else e ← set_flags entry fl; t1 ← save cr3 t p i e; Ret (t1, Ok tt)
  end.
Definition update_flags_1gib (t : tables) (page fl : Z) :=
  set_flags_at t [(p4_index page, p3_page page r)] (p3_index page) (Z.lor fl HUGE_PAGE).
Definition update_flags_2mib (t : tables) (page fl : Z) :=
  set_flags_at t [(p4_index page, p3_page page r); (p3_index page, p2_page page r)] (p2_index page) (Z.lor fl HUGE_PAGE).
Definition update_flags_4kib (t : tables) (page fl : Z) :=
  set_flags_at t [(p4_index page, p3_page page r); (p3_index page, p2_page page r); (p2_index page, p1_page page r)]
    (p1_index page) fl.
Definition update_flags (s : PageSize) :=
  match s with Size4KiB => update_flags_4kib | Size2MiB => update_flags_2mib | Size1GiB => update_flags_1gib end.
Definition set_flags_p4_entry (t : tables) (page fl : Z) := set_flags_at t [] (p4_index page) fl.
Definition set_flags_p3_entry (s : PageSize) (t : tables) (page fl : Z) :=
  match s with
  | Size1GiB => Ret (t, Err FlagParentEntryHugePage)
  | _ => set_flags_at t [(p4_index page, p3_page page r)] (p3_index page) fl
  end.
Definition set_flags_p2_entry (s : PageSize) (t : tables) (page fl : Z) :=
  match s with
  | Size4KiB => set_flags_at t [(p4_index page, p3_page page r); (p3_index page, p2_page page r)] (p2_index page) fl
  | _ => Ret (t, Err FlagParentEntryHugePage)
  end.
Definition translate_at (s : PageSize) (t : tables) (steps : list (Z * run Z)) (i : Z) : run (result Z TranslateError) :=
  res ← used_along t (p4 self) steps;
  match res with
  | None => Ret (Err TrPageNotMapped)
  | Some p =>
      entry ← load cr3 t p i;
      if is_unused entry then Ret (Err TrPageNotMapped)
      else a ← addr entry; fr ← frame_from_start_address s a;
           Ret (match fr with Ok f => Ok f | Err _ => Err (TrInvalidFrameAddress a) end)
  end.
Definition translate_page (s : PageSize) (t : tables) (page : Z) : run (result Z TranslateError) :=
  match s with
  | Size1GiB => translate_at Size1GiB t [(p4_index page, p3_page page r)] (p3_index page)
  | Size2MiB => translate_at Size2MiB t [(p4_index page, p3_page page r); (p3_index page, p2_page page r)] (p2_index page)
  | Size4KiB =>
      translate_at Size4KiB t [(p4_index page, p3_page page r); (p3_index page, p2_page page r); (p2_index page, p1_page page r)]
        (p1_index page)
  end.

(** *** [translate] *)
Definition translate (t : tables) (v : Z) : run TranslateResult :=
  page ← page_containing_address Size4KiB v;
  e4 ← load cr3 t (p4 self) (p4_index v);
  if is_unused e4 then Ret NotMapped else
  if contains (flags e4) HUGE_PAGE then Panic Explicit else
  p3 ← p3_page page r;
  e3 ← load cr3 t p3 (p3_index v);
  if is_unused e3 then Ret NotMapped else
  if contains (flags e3) HUGE_PAGE then
    a ← addr e3; f ← frame_containing_address Size1GiB a;
    Ret (Mapped (Frame Size1GiB f) (Z.land v 0x3fffffff) (flags e3)) else
  p2 ← p2_page page r;
  e2 ← load cr3 t p2 (p2_index v);
  if is_unused e2 then Ret NotMapped else
  if contains (flags e2) HUGE_PAGE then
    a ← addr e2; f ← frame_containing_address Size2MiB a;
    Ret (Mapped (Frame Size2MiB f) (Z.land v 0x1fffff) (flags e2)) else
  p1 ← p1_page page r;
  e1 ← load cr3 t p1 (p1_index v);
  if is_unused e1 then Ret NotMapped else
  if contains (flags e1) HUGE_PAGE then Panic Explicit else
  a ← addr e1;
  fr ← frame_from_start_address Size4KiB a;
  match fr with
  | Err _ => Ret (InvalidFrameAddress a)
  | Ok f => Ret (Mapped (Frame Size4KiB f) (page_offset v) (flags e1))
  end.

(** *** [clean_up_addr_range]; a freed table leaves the store *)
Section deallocator.
Context {D : Type}.
Variable deallocate_frame : D → Z → D.

(** [[p1_ptr, p2_ptr, p3_ptr][level as usize - 2]] *)
Definition table_page (level : PageTableLevel) (page : Z) : run Z :=
  match level with
  | Two => p1_page page r | Three => p2_page page r | Four => p3_page page r
  | One => Panic Overflow
  end.
Definition visit (rec : tables → D → Z → PageTableLevel → PageRange → run (tables * D * bool))
    (page_table table_addr : Z) (level next_level : PageTableLevel) (range : PageRange) (i : Z) (td : tables * D) : run (tables * D) :=
  let '(t, d) := td in
  if match level with Four => i =? r | _ => false end then Ret (t, d) else
  let offset_per_entry := entry_address_space_alignment level in
  entry ← load cr3 t page_table i;
  fr ← frame entry;
  match fr with
  | Err _ => Ret (t, d)
  | Ok f =>
      o ← umul 64 offset_per_entry i;
      s ← virt_add table_addr o;
      o ← usub offset_per_entry 1;
      e ← virt_add s o;
      s ← page_containing_address Size4KiB s;
      e ← page_containing_address Size4KiB e;
      let s := Z.max s (r_start range) in
      let e := Z.min e (r_end range) in
      child ← table_page level s;
      '(t, d, unused) ← rec t d child next_level (mkPageRange s e);
      if (unused : bool) then
        t ← save cr3 t page_table i (set_unused entry);
        Ret (delete f t, deallocate_frame d f)
      else Ret (t, d)
  end.
Fixpoint clean_up_table (fuel : nat) (t : tables) (d : D) (page_table : Z) (level : PageTableLevel) (range : PageRange)
    : run (tables * D * bool) :=
  match fuel with
  | O => Panic NoFuel
  | S fuel' =>
      if page_range_inclusive_is_empty range then Ret (t, d, false) else
      table_addr ← virt_align_down (r_start range) (table_address_space_alignment level);
      let start := page_table_index (r_start range) level in
      let stop := page_table_index (r_end range) level in
      '(t, d) ←
        match next_lower_level level with
        | None => Ret (t, d)
        | Some next_level =>
            for_each (visit (clean_up_table fuel') page_table table_addr level next_level range) (seqZ start (stop + 1 - start)) (t, d)
        end;
      a ← deref cr3 false t page_table;
      es ← match t !! a with Some es => Ret es | None => Panic Undefined end;
      Ret (t, d, forallb is_unused es)
  end.
Definition clean_up_addr_range (t : tables) (d : D) (range : PageRange) : run (tables * D) :=
  '(t, d, _) ← clean_up_table 4 t d (p4 self) Four range; Ret (t, d).
Definition clean_up (t : tables) (d : D) : run (tables * D) :=
  s ← virt_new 0;
  res ← page_from_start_address Size4KiB s;
  s ← unwrap (match res with Ok p => Some p | Err _ => None end);
  e ← virt_new 0xfffffffffffff000;
  res ← page_from_start_address Size4KiB e;
  e ← unwrap (match res with Ok p => Some p | Err _ => None end);
  clean_up_addr_range t d (mkPageRange s e).
End deallocator.
End operations.
End code.

(** ** The recursive entry *)
Lemma self_eta self : mkRecursive (p4 self) (recursive_index self) = self.
Proof. by destruct self. Qed.

Section window.
Context {BF : BitField} `{!Processor}.
Variables (cr3 : Z) (self : RecursivePageTable).
Let r := recursive_index self.

(** The tables without the recursive entry. *)
Definition hide (t : tables) : tables := upd t cr3 r 0.

(** The address of the table that the indices [ix] lead to. *)
Definition ptr_of (ix : list Z) : run Z :=
  match replicate (4 - length ix) r ++ ix with
  | [a; b; c; d] => from_page_table_indices a b c d
  | _ => Panic Explicit
  end.
Definition self_entry (e : Z) : Prop := is_table e = true ∧ contains (flags e) WRITABLE = true ∧ entry_addr e = cr3.

(** The recursive entry is in place, the other entries form a tree, and the entries of
    upper levels are writable. *)
Record recursive (t : tables) (path : Z → list Z) : Prop := {
  rc_index : good_idx r;
  rc_self : ptr_of [] = Ret (p4 self);
  rc_root : ∃ e, entry_at t cr3 r = Some e ∧ self_entry e;
  rc_tree : tree (hide t) cr3 path;
  rc_writable q i e : entry_at (hide t) q i = Some e → 0 ≤ i → is_table e = true → (length (path q) < 3)%nat →
    contains (flags e) WRITABLE = true
}.

(** An access to entry [i] of table [q] is not one to the recursive entry. *)
Definition elsewhere (q i : Z) : Prop := 0 ≤ i ∧ (q = cr3 → i ≠ r).

Lemma hide_lookup_ne t q : q ≠ cr3 → hide t !! q = t !! q.
Proof. intros Hq. unfold hide, upd. by rewrite lookup_alter_ne by congruence. Qed.
Lemma entry_hide t q i : good_idx r → elsewhere q i → entry_at (hide t) q i = entry_at t q i.
Proof.
  intros Hr [Hi Hne]. destruct (decide (q = cr3)) as [->|Hq]; [|unfold entry_at; by rewrite hide_lookup_ne].
  unfold entry_at, hide, upd. rewrite lookup_alter_eq. destruct (t !! cr3) as [es|]; [|done]. cbn [fmap option_fmap option_map mbind option_bind].
  apply list_lookup_insert_ne. specialize (Hne eq_refl). unfold good_idx in Hr. lia.
Qed.
Lemma hide_root t e : good_idx r → entry_at t cr3 r = Some e → entry_at (hide t) cr3 r = Some 0.
Proof.
  intros Hr He. unfold entry_at, hide, upd in *. rewrite lookup_alter_eq. destruct (t !! cr3) as [es|]; [|done].
  cbn [fmap option_fmap option_map mbind option_bind] in *. apply list_lookup_insert_eq. by apply lookup_lt_Some in He.
Qed.
Lemma hide_upd t q i e : good_idx r → elsewhere q i → hide (upd t q i e) = upd (hide t) q i e.
Proof.
  intros Hr [Hi Hne]. unfold hide, upd. destruct (decide (q = cr3)) as [->|Hq]; [|by rewrite alter_alter_ne by congruence].
  rewrite !alter_alter_eq. apply alter_ext. intros es _. cbn. apply list_insert_insert_ne.
  specialize (Hne eq_refl). unfold good_idx in Hr. lia.
Qed.
Lemma hide_insert t q es : q ≠ cr3 → hide (<[q := es]> t) = <[q := es]> (hide t).
Proof. intros Hq. unfold hide, upd. by rewrite alter_insert_ne by congruence. Qed.
Lemma hide_delete t q : q ≠ cr3 → hide (delete q t) = delete q (hide t).
Proof. intros Hq. unfold hide, upd. by rewrite alter_delete_ne by congruence. Qed.
Lemma root_upd t q i e : good_idx r → elsewhere q i → entry_at (upd t q i e) cr3 r = entry_at t cr3 r.
Proof.
  intros Hr [Hi Hne]. unfold entry_at, upd. destruct (decide (q = cr3)) as [->|Hq]; [|by rewrite lookup_alter_ne by congruence].
  rewrite lookup_alter_eq. destruct (t !! cr3) as [es|]; [|done]. cbn [fmap option_fmap option_map mbind option_bind].
  apply list_lookup_insert_ne. specialize (Hne eq_refl). unfold good_idx in Hr. lia.
Qed.

(** *** Translation of the window

    [chain]: entries of upper levels that every access passes. *)
Fixpoint chain (t : tables) (q : Z) (ix : list Z) (x : Z) : Prop :=
  match ix with
  | [] => x = q
  | i :: ix' => ∃ e, entry_at t q i = Some e ∧ is_table e = true ∧ contains (flags e) WRITABLE = true ∧ chain t (entry_addr e) ix' x
  end.
Lemma passes_writable w e : is_table e = true → contains (flags e) WRITABLE = true → passes w e = true ∧ huge e = false.
Proof. intros [Hp Hh]%is_table_inv Hw. unfold passes. rewrite Hp, Hw, orb_true_r. done. Qed.
Lemma chain_deref t a b c d x v :
  good_idx a → good_idx b → good_idx c → good_idx d → chain t cr3 [a; b; c; d] x →
  from_page_table_indices a b c d = Ret v → ∀ w, deref cr3 w t v = Ret x.
Proof.
  intros Ga Gb Gc Gd (e4 & H4 & T4 & W4 & e3 & H3 & T3 & W3 & e2 & H2 & T2 & W2 & e1 & H1 & T1 & W1 & ->) Hv w.
  destruct (indices_round_trip a b c d Ga Gb Gc Gd) as (v' & Hv' & Hc & Ho & E4 & E3 & E2 & E1).
  rewrite Hv in Hv'. injection Hv' as <-.
  destruct (passes_writable w e4 T4 W4), (passes_writable w e3 T3 W3), (passes_writable w e2 T2 W2), (passes_writable w e1 T1 W1).
  unfold deref. rewrite (mmu_translates w t cr3 v e4 e3 e2 e1); [by rewrite Ho, Z.add_0_r|..]; rewrite ?E4, ?E3, ?E2, ?E1; done.
Qed.
Lemma chain_root t n ix x :
  (∃ e, entry_at t cr3 r = Some e ∧ self_entry e) → chain t cr3 ix x → chain t cr3 (replicate n r ++ ix) x.
Proof.
  intros (e & He & Ht & Hw & Ha) Hc. induction n as [|n IH]; [done|]. cbn [replicate app chain]. exists e. by rewrite Ha.
Qed.
Lemma reach_chain t path : recursive t path → ∀ ix q x,
  Forall good_idx ix → is_Some (hide t !! q) → (length (path q) + length ix ≤ 3)%nat → reach (hide t) q ix = Some x → chain t q ix x.
Proof.
  intros Hrc ix. induction ix as [|i ix IH]; intros q x Hg Hq Hlen Hr; cbn [reach chain length] in *; [congruence|].
  apply Forall_cons in Hg as [Hi Hg]. assert (0 ≤ i) as Hi0 by (unfold good_idx in Hi; lia).
  destruct (entry_at (hide t) q i) as [e|] eqn:He; [|done]. cbn [mbind option_bind] in Hr.
  destruct (is_table e) eqn:Htab; [|done].
  destruct (tree_child _ _ _ (rc_tree _ _ Hrc) q i e He Hi0 Htab ltac:(lia)) as (_ & Hp & Hin).
  exists e. split; [|split; [done|split]].
  - rewrite <- He. symmetry. apply entry_hide; [apply Hrc|]. split; [done|]. intros -> ->.
    destruct (rc_root _ _ Hrc) as (e0 & He0 & _). rewrite (hide_root t e0 (rc_index _ _ Hrc) He0) in He.
    injection He as <-. by rewrite not_table_zero in Htab.
  - by apply (rc_writable _ _ Hrc q i e He Hi0 Htab); lia.
  - apply (IH (entry_addr e) x); [done|exact Hin| |exact Hr]. change (entry_addr e) with (target e). rewrite Hp, length_app. simpl. lia.
Qed.

(** The table [q] of the tree, seen at address [v]. *)
Record seen (t : tables) (path : Z → list Z) (q v : Z) : Prop := {
  sn_in : is_Some (hide t !! q);
  sn_good : Forall good_idx (path q);
  sn_depth : (length (path q) ≤ 3)%nat;
  sn_reach : reach (hide t) cr3 (path q) = Some q;
  sn_ptr : ptr_of (path q) = Ret v
}.
Lemma chain_ptr t ix x v w :
  good_idx r → (∃ e, entry_at t cr3 r = Some e ∧ self_entry e) → Forall good_idx ix → chain t cr3 ix x → ptr_of ix = Ret v →
  deref cr3 w t v = Ret x.
Proof.
  intros Gr Hroot Hg Hc Hp. apply (chain_root t (4 - length ix)) in Hc; [|done].
  assert (Forall good_idx (replicate (4 - length ix) r ++ ix)) as HG by (apply Forall_app; split; [by apply Forall_replicate|done]).
  unfold ptr_of in Hp. destruct (replicate _ r ++ ix) as [|a [|b [|c [|d [|? ?]]]]]; try done.
  rewrite !Forall_cons in HG. destruct HG as (Ga & Gb & Gc & Gd & _). by apply (chain_deref t a b c d).
Qed.
Lemma seen_chain t path q v : recursive t path → seen t path q v → chain t cr3 (path q) q.
Proof.
  intros Hrc [Hin Hg Hd Hr Hp]. apply (reach_chain t path Hrc); [done|apply (rc_tree _ _ Hrc)| |done].
  rewrite (tree_root _ _ _ (rc_tree _ _ Hrc)). simpl. lia.
Qed.
Lemma seen_deref t path q v w : recursive t path → seen t path q v → deref cr3 w t v = Ret q.
Proof.
  intros Hrc Hs. apply (chain_ptr t (path q)); [apply Hrc|apply Hrc|apply Hs|by apply (seen_chain t path q v)|apply Hs].
Qed.
Lemma ptr_of_Ret ix : good_idx r → Forall good_idx ix → (length ix ≤ 3)%nat → ∃ v, ptr_of ix = Ret v.
Proof.
  intros Gr Hg Hl. assert (length (replicate (4 - length ix) r ++ ix) = 4%nat) as HL by (rewrite length_app, length_replicate; lia).
  assert (Forall good_idx (replicate (4 - length ix) r ++ ix)) as HG by (apply Forall_app; split; [by apply Forall_replicate|done]).
  unfold ptr_of. destruct (replicate _ r ++ ix) as [|a [|b [|c [|d [|? ?]]]]]; try done.
  rewrite !Forall_cons in HG. destruct HG as (Ga & Gb & Gc & Gd & _).
  destruct (indices_round_trip a b c d Ga Gb Gc Gd) as (v & Hv & _). by exists v.
Qed.
Lemma seen_root t path : recursive t path → seen t path cr3 (p4 self).
Proof.
  intros Hrc. pose proof (tree_root _ _ _ (rc_tree _ _ Hrc)) as Hroot. split; rewrite ?Hroot; [apply (rc_tree _ _ Hrc)|done|simpl; lia|done|apply Hrc].
Qed.

Lemma load_seen t path q v i e :
  recursive t path → seen t path q v → elsewhere q i → entry_at (hide t) q i = Some e → load cr3 t v i = Ret e.
Proof.
  intros Hrc Hs Hel He. unfold load. rewrite (seen_deref t path q v) by done. cbn [mbind run_bind]. apply read_entry_spec.
  by rewrite <- entry_hide by (apply Hrc || done).
Qed.
Lemma save_seen t path q v i e :
  recursive t path → seen t path q v → elsewhere q i → good_idx i →
  save cr3 t v i e = Ret (upd t q i e) ∧ hide (upd t q i e) = upd (hide t) q i e
  ∧ ∃ e0, entry_at (upd t q i e) cr3 r = Some e0 ∧ self_entry e0.
Proof.
  intros Hrc Hs Hel Hi. pose proof (rc_index _ _ Hrc) as Gr. split; [|split; [by apply hide_upd|]].
  - unfold save. rewrite (seen_deref t path q v) by done. cbn [mbind run_bind].
    destruct (entry_at_Some (hide t) cr3 path q i (rc_tree _ _ Hrc) (sn_in _ _ _ _ Hs) Hi) as [e1 He1].
    rewrite entry_hide in He1 by done. unfold entry_at, write_entry, upd in *. destruct (t !! q) as [es|] eqn:Hes; [|done].
    cbn [mbind option_bind] in He1. apply lookup_lt_Some in He1. rewrite store_Ret by done. cbn [mbind run_bind]. f_equal.
    apply map_eq. intros x. destruct (decide (x = q)) as [->|]; [by rewrite lookup_insert_eq, lookup_alter_eq, Hes|].
    by rewrite lookup_insert_ne, lookup_alter_ne by congruence.
  - rewrite root_upd by done. apply Hrc.
Qed.

(** *** [create_next_table] *)
Lemma chain_upd t q i e ix : entry_at t q i = Some 0 → ∀ x y, Forall good_idx ix → good_idx i → chain t x ix y → chain (upd t q i e) x ix y.
Proof.
  intros Hz. induction ix as [|j ix IH]; intros x y Hg Hi; cbn [chain]; [done|]. apply Forall_cons in Hg as [Hj Hg].
  intros (e1 & He1 & Ht1 & Hw1 & Hc). exists e1. split; [|split; [done|split; [done|by apply IH]]].
  assert (¬ (x = q ∧ j = i)) as Hne.
  { intros [-> ->]. rewrite Hz in He1. injection He1 as <-. by rewrite not_table_zero in Ht1. }
  unfold entry_at, upd, good_idx in *. destruct (decide (x = q)) as [->|Hq]; [|by rewrite lookup_alter_ne by congruence].
  rewrite lookup_alter_eq. destruct (t !! q) as [es|]; [|done]. cbn [fmap option_fmap option_map mbind option_bind] in *.
  rewrite list_lookup_insert_ne; [done|]. intros E. apply Hne. split; [done|lia].
Qed.
Lemma chain_snoc t ix e i : ∀ x q, chain t x ix q → entry_at t q i = Some e → is_table e = true → contains (flags e) WRITABLE = true →
  chain t x (ix ++ [i]) (entry_addr e).
Proof.
  induction ix as [|j ix IH]; intros x q; cbn [app chain].
  - intros -> He Ht Hw. by exists e.
  - intros (e1 & He1 & Ht1 & Hw1 & Hc) He Ht Hw. exists e1. split; [done|]. split; [done|]. split; [done|]. by apply (IH _ q).
Qed.
Lemma contains_writable fl : contains fl WRITABLE = Z.testbit fl 1.
Proof. apply (contains_bit fl 1). lia. Qed.
Lemma add_rw fl : table_flags fl → let fl' := Z.lor (Z.lor PRESENT WRITABLE) fl in table_flags fl' ∧ contains fl' WRITABLE = true.
Proof.
  intros (Hv & Hp & Hh) fl'. split; [split; [|split]|].
  - apply valid_flags_lor; [by vm_compute|done].
  - unfold fl'. by rewrite contains_present, Z.lor_spec.
  - unfold fl'. rewrite contains_huge in *. by rewrite Z.lor_spec, Hh.
  - unfold fl'. by rewrite contains_writable, Z.lor_spec.
Qed.

Section creation.
Context {A : Type} `{!FrameAllocator A}.
(** The result of [create_next_table] for entry [i] of table [q]. *)
Definition created (t : tables) (path : Z → list Z) (q i np fl : Z) (t' : tables) (a' : A) (res : result Z MapToError) : Prop :=
  alloc_ok (hide t') a'
  ∧ match res with
    | Ok p => p = np ∧ ∃ path' q', recursive t' path' ∧ step_ok (hide t) cr3 path (hide t') path'
                ∧ seen t' path' q' np ∧ path' q' = path q ++ [i]
    | Err FrameAllocationFailed => t' = t
    | Err ParentEntryHugePage => recursive t' path ∧ ∃ e, entry_at (hide t) q i = Some e ∧ present e = true ∧ huge e = true
        ∧ (hide t' = hide t ∨ hide t' = upd (hide t) q i (Z.lor (entry_addr e) (Z.lor (flags e) fl)))
    | Err (PageAlreadyMapped _) => False
    end.

Section step.
Context (t : tables) (a : A) (path : Z → list Z) (q v i np fl : Z).
Hypothesis Hrc : recursive t path.
Hypothesis Ha : alloc_ok (hide t) a.
Hypothesis Hs : seen t path q v.
Hypothesis Hel : elsewhere q i.
Hypothesis Hi : good_idx i.
Hypothesis Hd : (length (path q) < 3)%nat.
Hypothesis Hnp : ptr_of (path q ++ [i]) = Ret np.
Hypothesis Hfl : table_flags fl.

(** The child after a step. *)
Lemma seen_child t' path' e :
  step_ok (hide t) cr3 path (hide t') path' → entry_at (hide t') q i = Some e → is_table e = true →
  is_Some (hide t' !! target e) → path' (target e) = path q ++ [i] → seen t' path' (target e) np.
Proof using Hs Hi Hd Hnp.
  intros (_ & _ & Hext & _) He Ht Hin Hp. split; rewrite ?Hp; [done| | | |done].
  - apply Forall_app. split; [apply Hs|by constructor].
  - rewrite length_app. simpl. lia.
  - apply (reach_snoc _ _ _ q); [|done|done]. apply (reach_extends (hide t)); [done|apply Hs|apply Hs].
Qed.
Lemma create_fresh :
  entry_at (hide t) q i = Some 0 → ∃ t' a' res, create_next_table cr3 t a v i np fl = Ret (t', a', res) ∧ created t path q i np fl t' a' res.
Proof using All.
  intros He. destruct (add_rw fl Hfl) as [Hfl' Hw]. set (fl' := Z.lor (Z.lor PRESENT WRITABLE) fl) in *. pose proof Hfl' as (Hv & Hp & Hh).
  destruct (create_unused (hide t) a cr3 path q i fl') as (th & a' & rh & Hrun & Hal & Hres); [apply Hrc|done|apply Hs|done..|].
  unfold Mapper.create_next_table in Hrun. rewrite (read_entry_spec _ _ _ _ He) in Hrun. cbn [mbind run_bind] in Hrun.
  unfold create_next_table. rewrite (load_seen t path q v i 0) by done. cbn [mbind run_bind].
  change (is_unused 0) with true in *. cbn iota in *.
  destruct Ha as [Hinv Hfree]. destruct (allocate_frame_law a Hinv) as (o & a1 & E & _ & _ & Ho). rewrite E in *.
  cbn [mbind run_bind] in *. destruct o as [f|].
  2:{ injection Hrun as <- <- <-. by exists t, a1, (Err FrameAllocationFailed). }
  destruct Ho as (Hf & _ & Hm & Hb). destruct (Hfree f Hf) as [_ Hn]. cbn [pointer_of physical_mapping] in Hn.
  assert (page_frame f) as Hpf by (split; [exact Hb|exact Hm]). fold fl'.
  rewrite set_frame_spec in * by done. cbn [mbind run_bind] in *. set (e' := Z.lor f fl') in *.
  destruct (stored_entry f fl' Hpf Hv) as (H1 & H2 & H3 & H4). fold e' in H1, H2, H3, H4.
  assert (is_table e' = true) as Htab by (unfold is_table; by rewrite H3, H4, Hp, Hh).
  assert (contains (flags e') WRITABLE = true) as Hwe by (by rewrite H2).
  rewrite (write_entry_spec (hide t) cr3 path) in Hrun by (apply Hrc || apply Hs || done). cbn [mbind run_bind] in Hrun.
  rewrite next_table_spec, H3, H4, Hp, Hh, H1 in Hrun. cbn [negb mbind run_bind frame_to_pointer physical_mapping] in Hrun.
  injection Hrun as <- <- <-. destruct Hres as (path' & e & Hstep & Hee & Hte & Htg & Hin & Hpath').
  assert (f ≠ cr3) as Hfc.
  { intros ->. destruct (tree_root_in _ _ _ (rc_tree _ _ Hrc)) as [es Hes]. congruence. }
  destruct (save_seen t path q v i e' Hrc Hs Hel Hi) as (-> & Hhide & Hroot). cbn [mbind run_bind].
  unfold huge in H4. rewrite H4, Hh.
  assert (clear cr3 (upd t q i e') np = Ret (<[f := table_new]> (upd t q i e'))) as ->.
  { unfold clear. rewrite (chain_ptr (upd t q i e') (path q ++ [i]) f np); [done|apply Hrc|done| | |done].
    - apply Forall_app. split; [apply Hs|by constructor].
    - rewrite <- H1. apply (chain_snoc _ _ _ _ _ q); [|rewrite <- entry_hide|done|done].
      + apply chain_upd; [by rewrite <- entry_hide by (apply Hrc || done)|apply Hs|done|by apply (seen_chain t path q v)].
      + rewrite Hhide, (entry_at_upd (hide t) cr3 path) by (apply Hrc || apply Hs || done || apply Hel). by rewrite decide_True.
      + apply Hrc.
      + done. }
  cbn [mbind run_bind]. set (t' := <[f := table_new]> (upd t q i e')).
  assert (hide t' = <[f := table_new]> (upd (hide t) q i e')) as Ht' by (unfold t'; by rewrite hide_insert, Hhide).
  rewrite <- Ht' in *. exists t', a1, (Ok np). split; [done|]. split; [done|]. split; [done|]. rewrite <- Htg in Hin, Hpath'.
  exists path', (target e). split; [|split; [done|split; [by apply seen_child|done]]].
  split; [apply Hrc|apply Hrc| |apply Hstep|].
  - destruct Hroot as (e0 & He0 & Hse). exists e0. split; [|done]. unfold entry_at, t' in *. by rewrite lookup_insert_ne by done.
  - intros x j ex Hx Hj Htx Hdx. rewrite Ht' in Hx. destruct (decide (x = f)) as [->|Hxf].
    { unfold entry_at in Hx. rewrite lookup_insert_eq in Hx. cbn [mbind option_bind] in Hx. apply lookup_replicate_1 in Hx as [-> _].
      by vm_compute in Htx. }
    unfold entry_at in Hx. rewrite lookup_insert_ne in Hx by done. fold (entry_at (upd (hide t) q i e') x j) in Hx.
    rewrite (entry_at_upd (hide t) cr3 path) in Hx by (apply Hrc || apply Hs || done). case_decide; [injection Hx as <-; done|].
    apply (rc_writable _ _ Hrc x j); [done|done|done|]. destruct Hstep as (_ & Hold & _).
    destruct (Hold x (entry_at_dom _ _ _ _ Hx)) as [_ <-]. done.
Qed.

(** Adding flags keeps the state of the window. *)
Lemma recursive_flags e e' :
  entry_at (hide t) q i = Some e → present e = true → present e' = true → huge e' = huge e → entry_addr e' = entry_addr e →
  (contains (flags e) WRITABLE = true → contains (flags e') WRITABLE = true) →
  recursive (upd t q i e') path.
Proof using All.
  intros He Hp Hp' Hh Ha' Hw. destruct (save_seen t path q v i e' Hrc Hs Hel Hi) as (_ & Hhide & Hroot).
  split; [apply Hrc|apply Hrc|done| |]; rewrite Hhide.
  - apply upd_tree with e; [apply Hrc|apply Hs|done|done|by right| |].
    + intros ->. rewrite Hh. apply (tree_top _ _ _ (rc_tree _ _ Hrc) i); [done|apply Hel].
    + intros Ht _. split; [|done]. apply is_table_inv in Ht as [_ Ht]. unfold is_table. by rewrite Hp, <- Hh, Ht.
  - intros x j ex Hx Hj Htx Hdx. rewrite (entry_at_upd (hide t) cr3 path) in Hx by (apply Hrc || apply Hs || done).
    case_decide as E; [|by apply (rc_writable _ _ Hrc x j)]. injection Hx as <-. destruct E as [-> ->]. apply Hw.
    apply (rc_writable _ _ Hrc q i); [done|done| |done]. apply is_table_inv in Htx as [_ Htx]. unfold is_table. by rewrite Hp, <- Hh, Htx.
Qed.
Lemma create_existing e :
  entry_at (hide t) q i = Some e → e ≠ 0 →
  ∃ t' a' res, create_next_table cr3 t a v i np fl = Ret (t', a', res) ∧ created t path q i np fl t' a' res.
Proof using All.
  intros He Hne. assert (0 ≤ i) as Hi0 by apply Hel. pose proof (rc_tree _ _ Hrc) as Ht.
  destruct (tree_entry _ _ _ Ht _ _ _ He Hi0) as [?|Hp]; [done|].
  destruct (add_flags e fl Hfl) as (Ha2 & Hp2 & Hh2). set (e2 := Z.lor (entry_addr e) (Z.lor (flags e) fl)) in *.
  destruct (save_seen t path q v i e2 Hrc Hs Hel Hi) as (Hsave & Hhide & _).
  assert (recursive (upd t q i e2) path) as Hrc2.
  { apply (recursive_flags e e2); try done. intros Hw. unfold e2.
    destruct (stored_entry (entry_addr e) (Z.lor (flags e) fl)) as (_ & -> & _ & _);
      [apply entry_addr_page_frame|apply valid_flags_lor; [apply flags_valid|apply Hfl]|].
    rewrite contains_writable in *. by rewrite Z.lor_spec, Hw. }
  destruct (create_used (hide t) a cr3 path q i e fl) as (th & rh & Hrun & Hal & Hres); [done|done|apply Hs|done..|].
  unfold Mapper.create_next_table in Hrun. rewrite (read_entry_spec _ _ _ _ He) in Hrun. cbn [mbind run_bind] in Hrun.
  unfold create_next_table. rewrite (load_seen t path q v i e) by done. cbn [mbind run_bind].
  unfold is_unused in *. rewrite (proj2 (Z.eqb_neq e 0)) in * by done. cbn iota in *.
  rewrite set_flags_spec in *. cbn [mbind run_bind] in *. fold e2 in Hrun |- *. rewrite Hsave. cbn [mbind run_bind].
  rewrite (write_entry_spec (hide t) cr3 path) in Hrun by (done || apply Hs). cbn [mbind run_bind] in Hrun. rewrite <- Hhide in *.
  assert (∃ e' t', (e' = e ∧ t' = t ∨ e' = e2 ∧ t' = upd t q i e2)
    ∧ (if negb (fl =? 0) && negb (contains (flags e) fl) then Ret (e2, upd t q i e2) else Ret (e, t)) = Ret (e', t')
    ∧ (if negb (fl =? 0) && negb (contains (flags e) fl) then Ret (e2, hide (upd t q i e2)) else Ret (e, hide t)) = Ret (e', hide t'))
    as (e' & t' & Hcase & E1 & E2).
  { destruct (negb _ && negb _); [exists e2, (upd t q i e2)|exists e, t]; auto. }
  rewrite E1, E2 in *. cbn [mbind run_bind] in *. clear E1 E2.
  assert (present e' = true ∧ huge e' = huge e ∧ entry_addr e' = entry_addr e ∧ recursive t' path) as (Hp' & Hh' & Ha' & Hrc').
  { destruct Hcase as [[-> ->]|[-> ->]]; auto. }
  rewrite next_table_spec, Hp', Hh', Ha' in Hrun. cbn [negb] in Hrun. unfold huge in Hh' at 1. rewrite Hh'.
  destruct (huge e) eqn:Hh; cbn [mbind run_bind frame_to_pointer physical_mapping] in Hrun; injection Hrun as <- <-.
  - exists t', a, (Err ParentEntryHugePage). split; [done|]. split; [done|]. split; [done|]. exists e. split; [done|]. split; [done|].
    split; [done|]. destruct Hcase as [[_ ->]|[_ ->]]; [by left|right]. exact Hhide.
  - exists t', a, (Ok np). split; [done|]. split; [done|]. split; [done|].
    destruct Hres as (path' & e1 & Hstep & He1 & Ht1 & Htg & Hin & Hpath'). rewrite <- Htg in Hin, Hpath'.
    exists path', (target e1). split; [|split; [done|split; [by apply seen_child|done]]].
    split; [apply Hrc|apply Hrc|apply Hrc'|apply Hstep|]. intros x j ex Hx Hj Htx Hdx.
    apply (rc_writable _ _ Hrc' x j); [done|done|done|]. destruct Hstep as (_ & Hold & _).
    assert (is_Some (hide t !! x)) as Hxin.
    { apply entry_at_dom in Hx. destruct Hcase as [[_ ->]|[_ ->]]; [done|]. rewrite Hhide in Hx. by apply upd_is_Some in Hx. }
    destruct (Hold x Hxin) as [_ <-]. done.
Qed.
Lemma create_seen : ∃ t' a' res, create_next_table cr3 t a v i np fl = Ret (t', a', res) ∧ created t path q i np fl t' a' res.
Proof using All.
  destruct (entry_at_Some (hide t) cr3 path q i (rc_tree _ _ Hrc) (sn_in _ _ _ _ Hs) Hi) as [e He].
  destruct (decide (e = 0)) as [->|Hne]; [by apply create_fresh|by apply (create_existing e)].
Qed.
End step.

(** The tables along the indices [ps] below [pre], with their addresses. *)
Fixpoint steps (pre ps : list Z) : list (Z * run Z) :=
  match ps with [] => [] | i :: ps' => (i, ptr_of (pre ++ [i])) :: steps (pre ++ [i]) ps' end.

Lemma elsewhere_path t path q i : recursive t path → good_idx i → (path q = [] → i ≠ r) → elsewhere q i.
Proof. intros Hrc Hi Hne. split; [unfold good_idx in Hi; lia|]. intros ->. apply Hne, (rc_tree _ _ Hrc). Qed.

Lemma create_path_seen ps fl : table_flags fl → ∀ t (a : A) path q v,
  recursive t path → alloc_ok (hide t) a → seen t path q v → Forall good_idx ps → (length (path q ++ ps) ≤ 3)%nat →
  (path q = [] → head ps ≠ Some r) →
  ∃ t' a' res, create_path cr3 t a v (steps (path q) ps) fl = Ret (t', a', res) ∧ alloc_ok (hide t') a'
    ∧ match res with
      | Ok w => ∃ path' q', recursive t' path' ∧ step_ok (hide t) cr3 path (hide t') path' ∧ seen t' path' q' w ∧ path' q' = path q ++ ps
      | Err e => (∃ path', recursive t' path') ∧ path_result (hide t) cr3 path (path q ++ ps) (hide t') (Err e)
      end.
Proof.
  intros Hfl. induction ps as [|i ps IH]; intros t a path q v Hrc Ha Hs Hg Hlen Hne; cbn [steps create_path].
  { exists t, a, (Ok v). split; [done|]. split; [done|]. exists path, q. rewrite app_nil_r. split; [done|]. split; [|done].
    apply step_ok_refl, Hrc. }
  apply Forall_cons in Hg as [Hi Hg]. assert (length (path q) < 3)%nat as Hd by (rewrite length_app in Hlen; simpl in Hlen; lia).
  assert (elsewhere q i) as Hel by (apply (elsewhere_path t path); [done|done|]; intros E; specialize (Hne E); cbn in Hne; congruence).
  destruct (ptr_of_Ret (path q ++ [i])) as [np Hnp]; [apply Hrc|apply Forall_app; split; [apply Hs|by constructor]|rewrite length_app; simpl; lia|].
  rewrite Hnp. cbn [mbind run_bind].
  destruct (create_seen t a path q v i np fl) as (t1 & a1 & res & -> & Ha1 & Hres); [done..|]. cbn [mbind run_bind].
  destruct res as [p|[| |?]]; [| | |done].
  - destruct Hres as (-> & path1 & q1 & Hrc1 & Hst1 & Hs1 & Hp1). rewrite <- Hp1.
    destruct (IH t1 a1 path1 q1 np) as (t2 & a2 & res & -> & Ha2 & Hres); [done..|rewrite Hp1, <- app_assoc; done| |].
    { rewrite Hp1. by destruct (path q). }
    exists t2, a2, res. split; [done|]. split; [done|]. rewrite Hp1, <- app_assoc in Hres. destruct res as [w|e].
    + destruct Hres as (path2 & q2 & Hrc2 & Hst2 & Hs2 & Hp2). exists path2, q2. split; [done|]. split; [by eapply step_ok_trans|done].
    + destruct Hres as [Hex Hres]. split; [done|]. by eapply path_result_trans.
  - subst t1. exists t, a1, (Err FrameAllocationFailed). split; [done|]. split; [done|]. split; [by exists path|]. exists path. apply step_ok_refl, Hrc.
  - destruct Hres as [Hrc1 (e & He & Hp & Hh & Hcase)]. exists t1, a1, (Err ParentEntryHugePage). split; [done|]. split; [done|]. split; [by exists path|].
    apply (huge_entry_result (hide t) cr3 path q i ps e (hide t1) fl); try done; [apply Hrc|apply Hs|apply Hs].
Qed.

(** *** Leaf entries *)
Lemma recursive_write t path q v i e' :
  recursive t path → seen t path q v → elsewhere q i → good_idx i → tree (upd (hide t) q i e') cr3 path →
  (is_table e' = true → (length (path q) < 3)%nat → contains (flags e') WRITABLE = true) → recursive (upd t q i e') path.
Proof.
  intros Hrc Hs Hel Hi Ht Hw. destruct (save_seen t path q v i e' Hrc Hs Hel Hi) as (_ & Hhide & Hroot).
  split; [apply Hrc|apply Hrc|done|by rewrite Hhide|]. intros x j ex Hx Hj Htx Hdx. rewrite Hhide in Hx.
  rewrite (entry_at_upd (hide t) cr3 path) in Hx by (apply Hrc || apply Hs || done).
  case_decide as E; [|by apply (rc_writable _ _ Hrc x j)]. injection Hx as <-. destruct E as [-> ->]. by apply Hw.
Qed.
Definition put_seen (s : PageSize) (t : tables) (a : A) (v page f fl : Z) : run (tables * A * result Z MapToError) :=
  entry ← load cr3 t v (leaf_index s page);
  if negb (is_unused entry) then Ret (t, a, Err (PageAlreadyMapped f))
  else e ← store_leaf s entry f fl; t2 ← save cr3 t v (leaf_index s page) e; Ret (t2, a, Ok page).
Lemma map_to_steps s (t : tables) (a : A) page f fl parent :
  map_to_with_table_flags cr3 self s t a page f fl parent
  = ('(t1, a1, res) ← create_path cr3 t a (p4 self) (steps [] (leaf_path s page)) parent;
     match res with Err e => Ret (t1, a1, Err e) | Ok v => put_seen s t1 a1 v page f fl end).
Proof. by destruct s. Qed.
Lemma put_seen_sim s t (a : A) path q v page f fl t' res :
  recursive t path → seen t path q v → path q = leaf_path s page → page_frame f → table_flags fl →
  put_leaf s (hide t) a q page f fl = Ret (t', a, res) → tree t' cr3 path →
  ∃ t2, put_seen s t a v page f fl = Ret (t2, a, res) ∧ hide t2 = t' ∧ recursive t2 path.
Proof.
  intros Hrc Hs Hp Hf Hfl Hrun Ht'. destruct (leaf_good s page) as [_ Hi].
  assert (elsewhere q (leaf_index s page)) as Hel by (apply (elsewhere_path t path); [done|done|]; rewrite Hp; by destruct s).
  destruct (entry_at_Some (hide t) cr3 path q (leaf_index s page) (rc_tree _ _ Hrc) (sn_in _ _ _ _ Hs) Hi) as [e He].
  unfold put_leaf in Hrun. rewrite (read_entry_spec _ _ _ _ He) in Hrun. unfold put_seen. rewrite (load_seen t path q v _ e) by done.
  cbn [mbind run_bind] in *. destruct (negb (is_unused e)).
  { injection Hrun as <- <-. by exists t. }
  destruct (store_leaf_spec s e f fl Hf Hfl) as (E & Hv & Hpr & Hh). rewrite E in *. cbn [mbind run_bind] in *.
  set (e' := Z.lor f (leaf_flags s fl)) in *. destruct (stored_entry f _ Hf Hv) as (_ & _ & _ & H4). fold e' in H4.
  rewrite (write_entry_spec (hide t) cr3 path) in Hrun by (apply Hrc || apply Hs || done). cbn [mbind run_bind] in Hrun.
  injection Hrun as <- <-. destruct (save_seen t path q v (leaf_index s page) e' Hrc Hs Hel Hi) as (-> & Hhide & _).
  cbn [mbind run_bind]. eexists. split; [done|]. split; [done|]. apply (recursive_write t path q v); try done.
  intros [_ Ht]%is_table_inv Hd. exfalso. rewrite H4 in Ht. destruct Hh as [?|Hh]; [congruence|]. rewrite Hp in Hd. by destruct s; cbn in Hh, Hd; lia.
Qed.
Lemma map_to_recursive s t (a : A) path page f fl parent :
  recursive t path → alloc_ok (hide t) a → p4_index page ≠ r → table_flags fl → table_flags parent → page_frame f → f mod SIZE s = 0 →
  ∃ t' a' res path', map_to_with_table_flags cr3 self s t a page f fl parent = Ret (t', a', res)
    ∧ recursive t' path' ∧ alloc_ok (hide t') a' ∧ map_outcome s (hide t) cr3 page f fl (hide t') res.
Proof.
  intros Hrc Ha Hne Hfl Hpar Hf Hm. pose proof (rc_tree _ _ Hrc) as Ht. pose proof (tree_root _ _ _ Ht) as Hroot.
  destruct (leaf_good s page) as [Hg _]. rewrite map_to_steps.
  destruct (create_path_seen (leaf_path s page) parent Hpar t a path cr3 (p4 self)) as (t1 & a1 & res & Hrun & Ha1 & Hres);
    [done|done|by apply seen_root|done|rewrite Hroot; destruct s; simpl; lia|intros _; destruct s; cbn; congruence|].
  rewrite Hroot in Hrun, Hres. rewrite Hrun. cbn [mbind run_bind]. cbn [app] in Hres. destruct res as [w|e].
  - destruct Hres as (path1 & q & Hrc1 & Hst & Hs1 & Hp1). pose proof (sn_reach _ _ _ _ Hs1) as Hre. rewrite Hp1 in Hre.
    destruct (put_leaf_cases s (hide t) cr3 path page f fl (hide t1) a1 path1 q) as (t2 & res & Hput & Ht2 & Ha2 & Hout); [done..|apply Hs1|].
    destruct (put_seen_sim s t1 a1 path1 q w page f fl t2 res) as (t3 & -> & <- & Hrc3); [done..|]. by exists t3, a1, res, path1.
  - destruct Hres as [[path1 Hrc1] Hres]. destruct (path_error s (hide t) cr3 path (leaf_path s page) page f fl (hide t1) e Ht Hres) as [Hout _].
    by exists t1, a1, (Err e), path1.
Qed.
End creation.

(** *** One entry on the way *)
Lemma window_step t path q v i :
  recursive t path → seen t path q v → good_idx i → (length (path q) < 3)%nat → (path q = [] → i ≠ r) →
  ∃ e, entry_at (hide t) q i = Some e ∧ load cr3 t v i = Ret e
    ∧ (e = 0 ∨ (e ≠ 0 ∧ present e = true ∧ huge e = true ∧ path q ≠ [])
       ∨ (e ≠ 0 ∧ present e = true ∧ huge e = false
          ∧ ∃ w, ptr_of (path q ++ [i]) = Ret w ∧ seen t path (target e) w ∧ path (target e) = path q ++ [i])).
Proof.
  intros Hrc Hs Hi Hd Hne. pose proof (rc_tree _ _ Hrc) as Ht. pose proof (elsewhere_path t path q i Hrc Hi Hne) as Hel.
  destruct (entry_at_Some (hide t) cr3 path q i Ht (sn_in _ _ _ _ Hs) Hi) as [e He]. exists e. split; [done|].
  split; [by apply (load_seen t path q)|]. destruct (decide (e = 0)) as [->|N]; [by left|]. right.
  destruct (tree_entry _ _ _ Ht _ _ _ He (proj1 Hel)) as [?|Hp]; [done|]. destruct (huge e) eqn:Hh; [left|right].
  { split; [done|]. split; [done|]. split; [done|]. intros E. pose proof (sn_reach _ _ _ _ Hs) as Hr. rewrite E in Hr.
    injection Hr as <-. by rewrite (tree_top _ _ _ Ht i e He (proj1 Hel)) in Hh. }
  assert (is_table e = true) as Htab by (unfold is_table; by rewrite Hp, Hh).
  destruct (tree_child _ _ _ Ht q i e He (proj1 Hel) Htab Hd) as (_ & Hpath & Hin).
  destruct (ptr_of_Ret (path q ++ [i])) as [w Hw]; [apply Hrc|apply Forall_app; split; [apply Hs|by constructor]|rewrite length_app; simpl; lia|].
  split; [done|]. split; [done|]. split; [done|]. exists w. split; [done|]. split; [|done].
  apply (seen_child t path q v i w Hs Hi Hd Hw t path e); [apply step_ok_refl, Hrc|done..].
Qed.
Lemma head_ne (p ps : list Z) i : (p = [] → head (i :: ps) ≠ Some r) → p = [] → i ≠ r.
Proof. intros Hh E. specialize (Hh E). cbn in Hh. congruence. Qed.

(** *** [unmap] *)
Lemma frames_along_seen t path : recursive t path → ∀ ps q v,
  seen t path q v → Forall good_idx ps → (length (path q ++ ps) ≤ 3)%nat → (path q = [] → head ps ≠ Some r) →
  ∃ res, descend (hide t) q ps = Ret res
    ∧ match res with
      | Ok x => ∃ w, frames_along cr3 t v (steps (path q) ps) = Ret (Ok w) ∧ seen t path x w ∧ path x = path q ++ ps
      | Err e => frames_along cr3 t v (steps (path q) ps) = Ret (Err (walk_to_unmap e))
      end.
Proof.
  intros Hrc ps. induction ps as [|i ps IH]; intros q v Hs Hg Hlen Hne; cbn [steps frames_along descend].
  { exists (Ok q). split; [done|]. exists v. by rewrite app_nil_r. }
  apply Forall_cons in Hg as [Hi Hg]. rewrite length_app in Hlen. simpl in Hlen.
  destruct (window_step t path q v i Hrc Hs Hi) as (e & He & -> & Hc); [lia|by apply (head_ne _ ps)|].
  rewrite (read_entry_spec _ _ _ _ He). cbn [mbind run_bind]. rewrite frame_spec, next_table_spec. cbn [mbind run_bind].
  destruct Hc as [-> |[(_ & Hp & Hh & _)|(_ & Hp & Hh & np & Hnp & Hs' & Hpath)]].
  - rewrite (proj1 zero_entry). by exists (Err WalkNotMapped).
  - rewrite Hp, Hh. by exists (Err WalkMappedToHugePage).
  - rewrite Hp, Hh, Hnp. cbn [negb mbind run_bind frame_to_pointer physical_mapping]. rewrite <- Hpath.
    destruct (IH (target e) np Hs' Hg) as (res & Hd & Hres); [rewrite Hpath, !length_app; simpl; lia|rewrite Hpath; by destruct (path q)|].
    exists res. split; [exact Hd|]. destruct res as [x|er]; [|done]. destruct Hres as (w & Hw & Hsw & Hpx). exists w.
    split; [done|]. split; [done|]. by rewrite Hpx, Hpath, <- app_assoc.
Qed.
Lemma unmap_steps s t page :
  unmap cr3 self s t page
  = (res ← frames_along cr3 t (p4 self) (steps [] (leaf_path s page));
     match res with
     | Err e => Ret (t, Err e)
     | Ok v =>
         entry ← load cr3 t v (leaf_index s page);
         o ← take_leaf s entry;
         match o with
         | Err e => Ret (t, Err e)
         | Ok f => t1 ← save cr3 t v (leaf_index s page) (set_unused entry); Ret (t1, Ok (f, page))
         end
     end).
Proof.
  destruct s; unfold unmap, unmap_1gib, unmap_2mib, unmap_4kib, unmap_huge; cbn [leaf_index take_leaf];
    match goal with |- context [frames_along ?c ?t ?v (steps [] (leaf_path ?s ?p))] =>
      let l := eval cbv [steps leaf_path app ptr_of length Nat.sub replicate] in (steps [] (leaf_path s p)) in change (steps [] (leaf_path s p)) with l end;
    unfold p3_page, p2_page, p1_page; fold r;
    destruct (frames_along _ _ _ _) as [[q|e]|]; cbn [mbind run_bind]; try done;
    destruct (load _ _ _) as [e|]; cbn [mbind run_bind]; try done;
    repeat (destruct (negb _); cbn [mbind run_bind]; [done|]).
  - destruct (frame e) as [[f|[|]]|]; done.
  - destruct (addr e) as [a|]; cbn [mbind run_bind]; [|done]. destruct (frame_from_start_address _ _) as [[]|]; done.
  - destruct (addr e) as [a|]; cbn [mbind run_bind]; [|done]. destruct (frame_from_start_address _ _) as [[]|]; done.
Qed.
Lemma unmap_recursive s t path page :
  recursive t path → p4_index page ≠ r →
  ∃ t' res, unmap cr3 self s t page = Ret (t', res) ∧ recursive t' path ∧ unmap_outcome s (hide t) cr3 page (hide t') res.
Proof.
  intros Hrc Hne. pose proof (rc_tree _ _ Hrc) as Ht. pose proof (tree_root _ _ _ Ht) as Hroot. destruct (leaf_good s page) as [Hg Hi].
  destruct (unmap_cases s (hide t) cr3 path page Ht) as (th & res & Hrun & Hth & Hout). rewrite unmap_unfold in Hrun. rewrite unmap_steps.
  destruct (frames_along_seen t path Hrc (leaf_path s page) cr3 (p4 self)) as (d & Hd & Hcase);
    [by apply seen_root|done|rewrite Hroot; destruct s; simpl; lia|intros _; destruct s; cbn; congruence|].
  rewrite Hd in Hrun. rewrite Hroot in Hcase. cbn [mbind run_bind] in Hrun. destruct d as [x|e].
  2:{ injection Hrun as <- <-. rewrite Hcase. cbn [mbind run_bind]. eexists t, _. done. }
  destruct Hcase as (w & -> & Hs & Hpath). cbn [mbind run_bind app] in *.
  destruct (entry_at_Some (hide t) cr3 path x (leaf_index s page) Ht (sn_in _ _ _ _ Hs) Hi) as [e He].
  assert (elsewhere x (leaf_index s page)) as Hel by (apply (elsewhere_path t path); [done|done|]; rewrite Hpath; by destruct s).
  rewrite (read_entry_spec _ _ _ _ He) in Hrun. rewrite (load_seen t path x w _ e) by done. cbn [mbind run_bind] in *.
  rewrite take_leaf_spec in *. cbn [mbind run_bind] in *.
  destruct (if negb (present e) then _ else _) as [f|ue]; [|injection Hrun as <- <-; by exists t, (Err ue)].
  rewrite (write_entry_spec (hide t) cr3 path) in Hrun by (apply Hs || done). cbn [mbind run_bind] in Hrun. injection Hrun as <- <-.
  destruct (save_seen t path x w (leaf_index s page) (set_unused e) Hrc Hs Hel Hi) as (-> & Hhide & _). cbn [mbind run_bind].
  eexists _, _. split; [done|]. rewrite Hhide. split; [|done]. apply (recursive_write t path x w); try done.
Qed.

(** *** [update_flags] *)
Lemma used_along_seen t path : recursive t path → ∀ ps q v x,
  seen t path q v → Forall good_idx ps → (length (path q ++ ps) ≤ 3)%nat → (path q = [] → head ps ≠ Some r) → reach (hide t) q ps = Some x →
  ∃ w, used_along cr3 t v (steps (path q) ps) = Ret (Some w) ∧ seen t path x w ∧ path x = path q ++ ps.
Proof.
  intros Hrc ps. induction ps as [|i ps IH]; intros q v x Hs Hg Hlen Hne Hr; cbn [steps used_along reach] in *.
  { injection Hr as <-. exists v. by rewrite app_nil_r. }
  apply Forall_cons in Hg as [Hi Hg]. rewrite length_app in Hlen. simpl in Hlen.
  destruct (window_step t path q v i Hrc Hs Hi) as (e & He & -> & Hc); [lia|by apply (head_ne _ ps)|].
  rewrite He in Hr. cbn [mbind option_bind run_bind] in *. unfold is_table, is_unused in *.
  destruct Hc as [-> |[(_ & Hp & Hh & _)|(N & Hp & Hh & np & Hnp & Hs' & Hpath)]]; [done|by rewrite Hp, Hh in Hr|].
  rewrite (proj2 (Z.eqb_neq e 0) N), Hnp. cbn [mbind run_bind]. rewrite Hp, Hh in Hr. rewrite <- Hpath.
  destruct (IH (target e) np x Hs' Hg) as (w & -> & Hsw & Hpx); [rewrite Hpath, !length_app; simpl; lia|rewrite Hpath; by destruct (path q)|done|].
  exists w. split; [done|]. split; [done|]. by rewrite Hpx, Hpath, <- app_assoc.
Qed.
Lemma update_flags_recursive s t path page e fl :
  recursive t path → p4_index page ≠ r → mapping (hide t) cr3 (idxs page) = Some (leaf_level s, e) → table_flags fl →
  ∃ t', update_flags cr3 self s t page fl = Ret (t', Ok tt) ∧ recursive t' path
    ∧ Mapper.update_flags s (hide t) cr3 page fl = Ret (hide t', Ok tt).
Proof.
  intros Hrc Hne Hmp Hfl. pose proof (rc_tree _ _ Hrc) as Ht. pose proof (tree_root _ _ _ Ht) as Hroot. destruct (leaf_good s page) as [Hg Hi].
  destruct (update_flags_cases s (hide t) cr3 path page e fl Ht Hmp Hfl) as (th & Hrun & Hth & _).
  destruct (mapping_leaf _ _ _ _ _ _ Ht Hmp) as (q & Hd & Hr & Hq & Hpath & He & Hpe). pose proof (entry_addr_page_frame e) as Hpf.
  destruct (store_leaf_spec s 0 (entry_addr e) fl Hpf Hfl) as (_ & Hv & Hp & Hh). destruct (stored_entry (entry_addr e) _ Hpf Hv) as (_ & _ & _ & H4).
  assert (update_flags cr3 self s t page fl
    = set_flags_at cr3 self t (steps [] (leaf_path s page)) (leaf_index s page) (leaf_flags s fl)) as -> by (by destruct s).
  destruct (used_along_seen t path Hrc (leaf_path s page) cr3 (p4 self) q) as (w & Hu & Hs & _);
    [by apply seen_root|done|rewrite Hroot; destruct s; simpl; lia|intros _; destruct s; cbn; congruence|done|]. rewrite Hroot in Hu.
  assert (elsewhere q (leaf_index s page)) as Hel by (apply (elsewhere_path t path); [done|done|]; rewrite Hpath; by destruct s).
  rewrite Hrun. rewrite update_flags_unfold in Hrun. unfold Mapper.set_flags_at in Hrun. unfold set_flags_at. rewrite Hu. rewrite Hd in Hrun.
  cbn [mbind run_bind] in *. rewrite (load_seen t path q w _ e) by done. rewrite (read_entry_spec _ _ _ _ He) in Hrun. cbn [mbind run_bind] in *.
  unfold is_unused in *. destruct (Z.eqb_spec e 0) as [->|_]; [by rewrite (proj1 zero_entry) in Hpe|].
  rewrite set_flags_spec in *. cbn [mbind run_bind] in *. rewrite (write_entry_spec (hide t) cr3 path) in Hrun by done. cbn [mbind run_bind] in Hrun.
  injection Hrun as <-. destruct (save_seen t path q w (leaf_index s page) (Z.lor (entry_addr e) (leaf_flags s fl)) Hrc Hs Hel Hi) as (-> & Hhide & _).
  cbn [mbind run_bind]. eexists. split; [done|]. rewrite Hhide. split; [|done]. apply (recursive_write t path q w); try done.
  intros [_ Htb]%is_table_inv Hdp. exfalso. rewrite H4 in Htb. destruct Hh as [?|Hh]; [congruence|]. rewrite Hpath in Hdp. destruct s; cbn in Hh, Hdp; lia.
Qed.

(** *** [translate] *)
Lemma page_indices v : canonical v →
  page_containing_address Size4KiB v = Ret (v - v mod 4096)
  ∧ p4_index (v - v mod 4096) = p4_index v ∧ p3_index (v - v mod 4096) = p3_index v ∧ p2_index (v - v mod 4096) = p2_index v.
Proof.
  intros Hv. split; [by apply page_containing_spec, canonical_width|].
  assert (∀ k, 0 ≤ k → (v - v mod 4096) / 2 ^ (12 + k) = v / 2 ^ (12 + k)) as Hk.
  { intros k Hk. rewrite Z.pow_add_r, <- !Z.div_div by lia. change (2 ^ 12) with 4096.
    replace (v - v mod 4096) with (v / 4096 * 4096) by (pose proof (Z.div_mod v 4096); lia). by rewrite Z.div_mul. }
  rewrite !p4_index_spec, !p3_index_spec, !p2_index_spec. change (2 ^ 39) with (2 ^ (12 + 27)). change (2 ^ 30) with (2 ^ (12 + 18)). change (2 ^ 21) with (2 ^ (12 + 9)).
  by rewrite !Hk by lia.
Qed.
Lemma translate_recursive t path v :
  recursive t path → canonical v → p4_index v ≠ r → (∀ e, mapping (hide t) cr3 (idxs v) = Some (0%nat, e) → huge e = false) →
  translate cr3 self t v = Mapper.translate (hide t) cr3 v.
Proof.
  intros Hrc Hv Hne Hleaf. pose proof (rc_tree _ _ Hrc) as Ht. pose proof (tree_root _ _ _ Ht) as Hroot.
  rewrite (translate_spec _ _ _ _ Ht). destruct (idx_good v) as (G4 & G3 & G2 & G1).
  destruct (page_indices v Hv) as (Hpage & E4 & E3 & E2). unfold translate. rewrite Hpage. cbn [mbind run_bind].
  unfold p3_page, p2_page, p1_page. rewrite E4, E3, E2. fold r.
  change (from_page_table_indices r r r (p4_index v)) with (ptr_of [p4_index v]).
  change (from_page_table_indices r r (p4_index v) (p3_index v)) with (ptr_of [p4_index v; p3_index v]).
  change (from_page_table_indices r (p4_index v) (p3_index v) (p2_index v)) with (ptr_of [p4_index v; p3_index v; p2_index v]).
  unfold idxs, is_unused in *. cbn [mapping] in *.
  destruct (window_step t path cr3 (p4 self) (p4_index v) Hrc (seen_root t path Hrc) G4) as (e4 & He4 & -> & Hc4); [rewrite Hroot; simpl; lia|done|].
  rewrite He4 in *. cbn [mbind run_bind]. fold (huge e4).
  destruct Hc4 as [-> |[(_ & _ & _ & ?)|(N4 & Hp4 & Hh4 & v3 & Hv3 & Hs3 & Hpath4)]]; [by rewrite (proj1 zero_entry)|done|].
  rewrite Hroot in Hv3, Hpath4. rewrite (proj2 (Z.eqb_neq e4 0) N4), Hp4, Hh4 in *. cbn [negb app] in *. rewrite Hv3. cbn [mbind run_bind].
  destruct (window_step t path (target e4) v3 (p3_index v) Hrc Hs3 G3) as (e3 & He3 & -> & Hc3); [rewrite Hpath4; simpl; lia|by rewrite Hpath4|].
  rewrite He3 in *. cbn [mbind run_bind]. fold (huge e3).
  destruct Hc3 as [-> |[(N3 & Hp3 & Hh3 & _)|(N3 & Hp3 & Hh3 & v2 & Hv2 & Hs2 & Hpath3)]]; [by rewrite (proj1 zero_entry)| |].
  { rewrite (proj2 (Z.eqb_neq e3 0) N3), Hp3, Hh3. cbn [negb]. rewrite addr_spec. cbn [mbind run_bind].
    rewrite frame_containing_spec by apply entry_addr_page_frame. cbn [mbind run_bind]. change 0x3fffffff with (2 ^ 30 - 1). by rewrite land_low. }
  rewrite Hpath4 in Hv2, Hpath3. rewrite (proj2 (Z.eqb_neq e3 0) N3), Hp3, Hh3 in *. cbn [negb app] in *. rewrite Hv2. cbn [mbind run_bind].
  destruct (window_step t path (target e3) v2 (p2_index v) Hrc Hs2 G2) as (e2 & He2 & -> & Hc2); [rewrite Hpath3; simpl; lia|by rewrite Hpath3|].
  rewrite He2 in *. cbn [mbind run_bind]. fold (huge e2).
  destruct Hc2 as [-> |[(N2 & Hp2 & Hh2 & _)|(N2 & Hp2 & Hh2 & v1 & Hv1 & Hs1 & Hpath2)]]; [by rewrite (proj1 zero_entry)| |].
  { rewrite (proj2 (Z.eqb_neq e2 0) N2), Hp2, Hh2. cbn [negb]. rewrite addr_spec. cbn [mbind run_bind].
    rewrite frame_containing_spec by apply entry_addr_page_frame. cbn [mbind run_bind]. change 0x1fffff with (2 ^ 21 - 1). by rewrite land_low. }
  rewrite Hpath3 in Hv1, Hpath2. rewrite (proj2 (Z.eqb_neq e2 0) N2), Hp2, Hh2 in *. cbn [negb app] in *. rewrite Hv1. cbn [mbind run_bind].
  destruct (entry_at_Some (hide t) cr3 path (target e2) (p1_index v) Ht (sn_in _ _ _ _ Hs1) G1) as [e1 He1].
  rewrite He1 in *. rewrite (load_seen t path (target e2) v1 _ e1) by (done || (apply (elsewhere_path t path); [done|done|by rewrite Hpath2])).
  cbn [mbind run_bind]. fold (huge e1). destruct (Z.eqb_spec e1 0) as [->|N1]; [by rewrite (proj1 zero_entry)|].
  destruct (tree_entry _ _ _ Ht _ _ _ He1) as [?|Hp1]; [apply G1|done|]. rewrite Hp1 in *. cbn [negb] in *. rewrite (Hleaf e1 eq_refl).
  rewrite addr_spec. cbn [mbind run_bind]. pose proof (entry_addr_page_frame e1) as Hpf.
  rewrite frame_from_start_spec by done. cbn [mbind run_bind]. rewrite decide_True by apply Hpf. by rewrite page_offset_spec.
Qed.

(** *** [clean_up_addr_range], in step with the traversal of the hidden tree *)
Section cleaning.
Context {D : Type}.
Variable deallocate_frame : D → Z → D.
Variable path : Z → list Z.

Lemma seen_rooted t q v : CleanUp.rooted cr3 path (hide t) → is_Some (hide t !! q) → ptr_of (path q) = Ret v → seen t path q v.
Proof. intros Hro Hq Hv. by destruct (Hro q Hq) as (Hl & Hg & Hr). Qed.
Lemma recursive_pruned t q v i e :
  recursive t path → CleanUp.rooted cr3 path (hide t) → seen t path q v → elsewhere q i → good_idx i → entry_at (hide t) q i = Some e →
  is_table e = true → (length (path q) < 3)%nat → CleanUp.unused (hide t) (target e) →
  hide (delete (target e) (upd t q i 0)) = delete (target e) (upd (hide t) q i 0) ∧ recursive (delete (target e) (upd t q i 0)) path.
Proof.
  intros Hrc Hro Hs Hel Hi He Htab Hd Hun. pose proof (rc_tree _ _ Hrc) as Ht. destruct (save_seen t path q v i 0 Hrc Hs Hel Hi) as (_ & Hhide & Hroot).
  assert (target e ≠ cr3) as Hne.
  { intros E. destruct (tree_child _ _ _ Ht q i e He (proj1 Hel) Htab Hd) as (_ & Hp & _). rewrite E, (tree_root _ _ _ Ht) in Hp. by destruct (path q). }
  assert (hide (delete (target e) (upd t q i 0)) = delete (target e) (upd (hide t) q i 0)) as E by (by rewrite hide_delete, Hhide).
  split; [done|]. split; [apply Hrc|apply Hrc| |rewrite E; apply CleanUp.pruned_tree; try done; apply Hs|].
  - destruct Hroot as (e0 & He0 & Hse). exists e0. split; [|done]. unfold entry_at in *. by rewrite lookup_delete_ne.
  - intros x j ex Hx Hj Htx Hdx. rewrite E in Hx. rewrite (CleanUp.pruned_entry cr3 path) in Hx by (done || apply Hs).
    case_decide; [done|]. case_decide; [|by apply (rc_writable _ _ Hrc x j)]. injection Hx as <-. by rewrite not_table_zero in Htx.
Qed.

Definition in_step (n : nat) : Prop := ∀ l t d q v rg th d' b,
  level_number l = Z.of_nat n → recursive t path → CleanUp.rooted cr3 path (hide t) → seen t path q v → (length (path q) + n = 4)%nat →
  CleanUp.is_page (r_start rg) → CleanUp.is_page (r_end rg) → path q `prefix_of` idxs (r_start rg) → path q `prefix_of` idxs (r_end rg) →
  CleanUp.clean_up_table deallocate_frame n (hide t) d q l rg = Ret (th, d', b) →
  ∃ t' b', clean_up_table cr3 self deallocate_frame n t d v l rg = Ret (t', d', b')
    ∧ hide t' = th ∧ recursive t' path ∧ (q ≠ cr3 → b' = b).

(** The address of a child. *)
Lemma table_page_spec l p i v :
  l ≠ One → (length p + Z.to_nat (level_number l) = 4)%nat → (p ++ [i]) `prefix_of` idxs v → table_page self l v = ptr_of (p ++ [i]).
Proof.
  intros Hl Hlen [k Hk]. unfold idxs in Hk. destruct l; [done|..]; cbn [level_number] in Hlen;
    repeat (destruct p as [|? p]; simpl in Hlen; try lia); cbn [app] in Hk; injection Hk; intros; subst; done.
Qed.
Lemma seen_empty t q v : recursive t path → seen t path q v → path q = [] → q = cr3.
Proof. intros _ Hs E. pose proof (sn_reach _ _ _ _ Hs) as Hr. rewrite E in Hr. by injection Hr. Qed.

Lemma visit_in_step n l nl t q v rg T d i th d' :
  in_step n → CleanUp.cleans deallocate_frame cr3 path n → next_lower_level l = Some nl → level_number l = Z.of_nat (S n) →
  recursive t path → CleanUp.rooted cr3 path (hide t) → seen t path q v → (length (path q) + S n = 4)%nat →
  CleanUp.is_page (r_start rg) → CleanUp.is_page (r_end rg) → path q `prefix_of` idxs (r_start rg) → path q `prefix_of` idxs (r_end rg) →
  page_table_index (r_start rg) l ≤ i ≤ page_table_index (r_end rg) l →
  virt_align_down (r_start rg) (table_address_space_alignment l) = Ret T →
  CleanUp.visit deallocate_frame (CleanUp.clean_up_table deallocate_frame n) q T l nl rg i (hide t, d) = Ret (th, d') →
  ∃ t', visit cr3 self deallocate_frame (clean_up_table cr3 self deallocate_frame n) v T l nl rg i (t, d) = Ret (t', d')
    ∧ hide t' = th ∧ recursive t' path.
Proof.
  intros IH HC Hnl Hl Hrc Hro Hs Hlen Hps Hpe Ps Pe Hidx HT Hrun. pose proof (CleanUp.index_between l rg i Hidx) as Hgi.
  pose proof (rc_tree _ _ Hrc) as Ht.
  assert (l ≠ One) as Hl1 by (by intros ->). assert (length (path q) + Z.to_nat (level_number l) = 4)%nat as Hlen' by (rewrite Hl; lia).
  assert (length (path q) < 3)%nat as Hd by (destruct l; cbn [level_number next_lower_level] in *; try done; lia).
  destruct (entry_at_Some (hide t) cr3 path q i Ht (sn_in _ _ _ _ Hs) Hgi) as [e He].
  unfold CleanUp.visit in Hrun. rewrite (read_entry_spec _ _ _ _ He) in Hrun. cbn [mbind run_bind] in Hrun. unfold visit. fold r.
  destruct (match l with Four => i =? r | _ => false end) eqn:Hskip.
  { assert (q = cr3 ∧ i = r) as [-> ->].
    { destruct l; try done. apply Z.eqb_eq in Hskip. split; [|done]. apply (seen_empty t q v Hrc Hs). destruct (path q); [done|simpl in Hlen'; lia]. }
    destruct (rc_root _ _ Hrc) as (e0 & He0 & _). rewrite (hide_root t e0 (rc_index _ _ Hrc) He0) in He. injection He as <-.
    rewrite next_table_spec, (proj1 zero_entry) in Hrun. cbn [negb mbind run_bind] in Hrun. injection Hrun as <- <-. by exists t. }
  assert (elsewhere q i) as Hel.
  { apply (elsewhere_path t path); [done|done|]. intros E. rewrite E in Hlen'. simpl in Hlen'. destruct l; cbn [level_number] in Hlen'; lia. }
  rewrite (load_seen t path q v i e) by done. cbn [mbind run_bind]. rewrite frame_spec. cbn [mbind run_bind]. rewrite next_table_spec in Hrun.
  destruct (is_table e) eqn:Htab.
  2:{ exists t. unfold is_table in Htab. destruct (present e); cbn [negb andb mbind run_bind] in *; [|by injection Hrun as <- <-].
      destruct (huge e); [|done]. by injection Hrun as <- <-. }
  pose proof (is_table_inv e Htab) as [Hp Hh]. rewrite Hp, Hh in *. cbn [negb mbind run_bind frame_to_pointer physical_mapping] in *.
  destruct (tree_child _ _ _ Ht q i e He (proj1 Hel) Htab Hd) as (_ & Hpath & Hin). change (entry_addr e) with (target e) in *.
  destruct (CleanUp.child_part l (path q) rg i T Hl1 Hps Hpe Hlen' Ps Pe Hidx Hgi HT) as (s & last & stop & [E1 E2 E3 E4 [E5 E6] [Q1 Q2] [B1 B2] _]).
  rewrite E1 in *. cbn [mbind run_bind] in *. rewrite E2 in *. cbn [mbind run_bind] in *. rewrite E3 in *. cbn [mbind run_bind] in *.
  rewrite E4 in *. cbn [mbind run_bind] in *. rewrite E5, E6 in *. cbn [mbind run_bind] in *.
  rewrite (table_page_spec l (path q) i) by done.
  destruct (ptr_of_Ret (path q ++ [i])) as [np Hnp]; [apply Hrc|apply Forall_app; split; [apply Hs|by constructor]|rewrite length_app; simpl; lia|].
  rewrite Hnp. cbn [mbind run_bind]. set (rg' := mkPageRange _ _) in *.
  assert (level_number nl = Z.of_nat n) as Hnln by (destruct l; cbn [level_number next_lower_level] in *; simplify_eq; cbn [level_number]; lia).
  assert (length (path (target e)) + n = 4)%nat as Hlc by (rewrite Hpath, length_app; simpl; lia).
  rewrite <- Hpath in B1, B2, Hnp.
  destruct (HC nl (hide t) d (target e) rg') as (t2 & fs & b & Hc & [C1 C2 C3 C4] & Hb & _); [done..|]. rewrite Hc in Hrun. cbn [mbind run_bind] in Hrun.
  destruct (IH nl t d (target e) np rg' t2 _ b Hnln Hrc Hro (seen_rooted t (target e) np Hro Hin Hnp) Hlc Q1 Q2 B1 B2 Hc) as (t3 & b' & Hc' & Hh3 & Hrc3 & Hbb).
  rewrite Hc'. cbn [mbind run_bind]. rewrite Hbb by (intros E; rewrite E, (tree_root _ _ _ Ht) in Hpath; by destruct (path q)).
  destruct b; [|injection Hrun as <- <-; by exists t3].
  destruct (CleanUp.prunes_keep cr3 path (hide t) fs t2 Ht Hro C1) as (Ht2 & Hr2 & _). subst t2.
  assert (hide t3 !! q = hide t !! q) as Eq.
  { apply C3. rewrite Hpath. intros Hpre%prefix_length. rewrite length_app in Hpre. simpl in Hpre. lia. }
  assert (entry_at (hide t3) q i = Some e) as He3 by (unfold entry_at in *; by rewrite Eq).
  assert (seen t3 path q v) as Hs3 by (apply seen_rooted; [done|rewrite Eq; apply Hs|apply Hs]).
  destruct (recursive_pruned t3 q v i e) as [Hh4 Hrc4]; [done..|by apply Hb|].
  destruct (save_seen t3 path q v i (set_unused e) Hrc3 Hs3 Hel Hgi) as (-> & _ & _). cbn [mbind run_bind].
  unfold CleanUp.release in Hrun. rewrite (read_entry_spec _ _ _ _ He3) in Hrun. cbn [mbind run_bind] in Hrun. rewrite frame_spec, Hp, Hh in Hrun.
  cbn [negb mbind run_bind unwrap] in Hrun. rewrite (write_entry_spec (hide t3) cr3 path) in Hrun by (done || apply Hs3). cbn [mbind run_bind] in Hrun.
  injection Hrun as <- <-. eexists. split; [done|]. split; [exact Hh4|exact Hrc4].
Qed.

Lemma loop_in_step n l nl t q v rg T d :
  in_step n → CleanUp.cleans deallocate_frame cr3 path n → next_lower_level l = Some nl → level_number l = Z.of_nat (S n) →
  recursive t path → CleanUp.rooted cr3 path (hide t) → seen t path q v → (length (path q) + S n = 4)%nat →
  CleanUp.is_page (r_start rg) → CleanUp.is_page (r_end rg) → path q `prefix_of` idxs (r_start rg) → path q `prefix_of` idxs (r_end rg) →
  virt_align_down (r_start rg) (table_address_space_alignment l) = Ret T →
  ∃ t' d', for_each (visit cr3 self deallocate_frame (clean_up_table cr3 self deallocate_frame n) v T l nl rg)
             (seqZ (page_table_index (r_start rg) l) (page_table_index (r_end rg) l + 1 - page_table_index (r_start rg) l)) (t, d) = Ret (t', d')
    ∧ for_each (CleanUp.visit deallocate_frame (CleanUp.clean_up_table deallocate_frame n) q T l nl rg)
        (seqZ (page_table_index (r_start rg) l) (page_table_index (r_end rg) l + 1 - page_table_index (r_start rg) l)) (hide t, d) = Ret (hide t', d')
    ∧ recursive t' path ∧ CleanUp.rooted cr3 path (hide t') ∧ is_Some (hide t' !! q).
Proof.
  intros IH HC Hnl Hl Hrc Hro Hs Hlen Hps Hpe Ps Pe HT. pose proof (rc_tree _ _ Hrc) as Ht.
  set (start := page_table_index (r_start rg) l). set (stop := page_table_index (r_end rg) l).
  set (hvisit := CleanUp.visit deallocate_frame (CleanUp.clean_up_table deallocate_frame n) q T l nl rg).
  destruct (for_each_inv (λ done s, recursive s.1 path ∧ for_each hvisit done (hide t, d) = Ret (hide s.1, s.2)
      ∧ ∃ fs, s.2 = foldl deallocate_frame d fs ∧ CleanUp.swept path (hide t) q rg done fs (hide s.1))
    (visit cr3 self deallocate_frame (clean_up_table cr3 self deallocate_frame n) v T l nl rg) (seqZ start (stop + 1 - start)) (t, d))
    as ([t' d'] & Hrun & Hrc' & Hh & fs & _ & Hsw).
  - split; [done|]. split; [done|]. exists []. split; [done|]. split; [constructor|apply Hs|done| |by intros f ?%elem_of_nil]. by intros i x ?%elem_of_nil.
  - intros done i rest [t1 d1] Hdone (Hrc1 & Hh1 & fs & Hd & Hsw). cbn [fst snd] in *. subst d1.
    pose proof (NoDup_seqZ start (stop + 1 - start)) as Hnd. rewrite Hdone in Hnd. apply NoDup_app in Hnd as (_ & Hnd & _).
    assert (i ∈ seqZ start (stop + 1 - start)) as Hi by (rewrite Hdone; apply elem_of_app; right; by left). apply elem_of_seqZ in Hi.
    assert (page_table_index (r_start rg) l ≤ i ≤ page_table_index (r_end rg) l) as Hidx by (fold start stop; lia).
    destruct (CleanUp.prunes_keep cr3 path (hide t) fs (hide t1) Ht Hro (CleanUp.sw_prunes _ _ _ _ _ _ _ Hsw)) as (Ht1 & Hr1 & _).
    destruct (CleanUp.visit_step deallocate_frame cr3 path n l nl (hide t) q rg T done fs (hide t1) d i) as (t2 & fs2 & Hv & Hsw2); try done.
    { intros Hin. by apply (Hnd i Hin); left. }
    assert (seen t1 path q v) as Hs1 by (apply seen_rooted; [done|apply (CleanUp.sw_in _ _ _ _ _ _ _ Hsw)|apply Hs]).
    destruct (visit_in_step n l nl t1 q v rg T (foldl deallocate_frame d fs) i t2 _ IH HC Hnl Hl Hrc1 Hr1 Hs1 Hlen Hps Hpe Ps Pe Hidx HT Hv) as (t3 & Hv3 & <- & Hrc3).
    exists (t3, foldl deallocate_frame d fs2). split; [done|]. split; [done|]. split; [|by exists fs2].
    rewrite for_each_app, Hh1. cbn [mbind run_bind for_each]. unfold hvisit. by rewrite Hv.
  - cbn [fst snd] in *. exists t', d'. split; [done|]. split; [done|]. split; [done|].
    split; [|apply (CleanUp.sw_in _ _ _ _ _ _ _ Hsw)]. apply (CleanUp.prunes_keep cr3 path (hide t) fs (hide t') Ht Hro (CleanUp.sw_prunes _ _ _ _ _ _ _ Hsw)).
Qed.
Lemma table_in_step n : (n = O ∨ in_step n ∧ CleanUp.cleans deallocate_frame cr3 path n) → in_step (S n).
Proof.
  intros IH l t d q v rg th d' b Hl Hrc Hro Hs Hlen Hps Hpe Ps Pe Hrun. cbn [CleanUp.clean_up_table clean_up_table] in *.
  destruct (page_range_inclusive_is_empty rg); [injection Hrun as <- <- <-; by exists t, false|].
  destruct (virt_align_down _ _) as [T|] eqn:HT; [|done]. cbn [mbind run_bind] in *.
  assert (∃ t' d1, match next_lower_level l with
      | None => Ret (t, d)
      | Some nl => for_each (visit cr3 self deallocate_frame (clean_up_table cr3 self deallocate_frame n) v T l nl rg)
          (seqZ (page_table_index (r_start rg) l) (page_table_index (r_end rg) l + 1 - page_table_index (r_start rg) l)) (t, d)
      end = Ret (t', d1)
    ∧ match next_lower_level l with
      | None => Ret (hide t, d)
      | Some nl => for_each (CleanUp.visit deallocate_frame (CleanUp.clean_up_table deallocate_frame n) q T l nl rg)
          (seqZ (page_table_index (r_start rg) l) (page_table_index (r_end rg) l + 1 - page_table_index (r_start rg) l)) (hide t, d)
      end = Ret (hide t', d1)
    ∧ recursive t' path ∧ CleanUp.rooted cr3 path (hide t') ∧ is_Some (hide t' !! q)) as (t' & d1 & E1 & E2 & Hrc' & Hro' & Hq).
  { destruct (next_lower_level l) as [nl|] eqn:Hnl.
    - destruct IH as [->|[IH HC]]; [destruct l; cbn [level_number next_lower_level] in *; done || lia|].
      by apply loop_in_step.
    - exists t, d. split; [done|]. split; [done|]. split; [done|]. split; [done|apply Hs]. }
  rewrite E1. rewrite E2 in Hrun. cbn [mbind run_bind] in *. destruct Hq as [es Hes]. rewrite Hes in Hrun. cbn [mbind run_bind] in Hrun. injection Hrun as <- <- <-.
  rewrite (seen_deref t' path q v) by (done || (apply seen_rooted; [done|by exists es|apply Hs])). cbn [mbind run_bind].
  destruct (decide (q = cr3)) as [->|Hqc].
  - destruct (rc_root _ _ Hrc') as (e & He & _). unfold entry_at in He. destruct (t' !! cr3) as [es'|]; [|done]. cbn [mbind run_bind].
    by eexists _, _.
  - rewrite hide_lookup_ne in Hes by done. rewrite Hes. cbn [mbind run_bind]. by eexists _, _.
Qed.
Lemma all_in_step n : in_step (S n).
Proof. induction n as [|n IH]; apply table_in_step; [by left|right]. split; [done|apply CleanUp.cleans_all]. Qed.

Lemma clean_range_recursive t d rg :
  recursive t path → CleanUp.rooted cr3 path (hide t) → CleanUp.is_page (r_start rg) → CleanUp.is_page (r_end rg) →
  ∃ t' fs, clean_up_addr_range cr3 self deallocate_frame t d rg = Ret (t', foldl deallocate_frame d fs) ∧ recursive t' path
    ∧ CleanUp.clean_result cr3 path (hide t) rg fs (hide t').
Proof.
  intros Hrc Hro Hs He. pose proof (rc_tree _ _ Hrc) as Ht. pose proof (tree_root _ _ _ Ht) as Hroot.
  destruct (CleanUp.clean_up_addr_range_cases deallocate_frame cr3 path (hide t) d rg Ht Hro Hs He) as (th & fs & Hrun & Hres).
  unfold CleanUp.clean_up_addr_range in Hrun.
  destruct (CleanUp.clean_up_table deallocate_frame 4 (hide t) d cr3 Four rg) as [[[th' d'] b]|] eqn:Hc; [|done]. cbn [mbind run_bind] in Hrun. injection Hrun as -> ->.
  destruct (all_in_step 3 Four t d cr3 (p4 self) rg th (foldl deallocate_frame d fs) b) as (t' & b' & Hc' & <- & Hrc' & _);
    [done|done|done|by apply seen_root|by rewrite Hroot|done|done|rewrite Hroot; apply prefix_nil|rewrite Hroot; apply prefix_nil|done|].
  exists t', fs. unfold clean_up_addr_range. rewrite Hc'. done.
Qed.
Lemma clean_up_recursive t d :
  recursive t path → CleanUp.rooted cr3 path (hide t) →
  ∃ t' fs, clean_up cr3 self deallocate_frame t d = Ret (t', foldl deallocate_frame d fs) ∧ recursive t' path
    ∧ CleanUp.clean_result cr3 path (hide t) (mkPageRange 0 0xfffffffffffff000) fs (hide t').
Proof.
  intros Hrc Hro. assert (CleanUp.is_page 0 ∧ CleanUp.is_page 0xfffffffffffff000) as [H0 H1] by (unfold CleanUp.is_page, canonical; split; split; done || lia).
  destruct (clean_range_recursive t d (mkPageRange 0 0xfffffffffffff000) Hrc Hro H0 H1) as (t' & fs & Hrun & Hres). exists t', fs. split; [|done].
  unfold clean_up, page_from_start_address, virt_is_aligned.
  rewrite !virt_new_canonical by (apply H0 || apply H1 || (unfold in_width; lia)). cbn [mbind run_bind].
  rewrite !(is_aligned_spec _ 12) by (unfold in_width; lia). cbn [mbind run_bind]. rewrite !bool_decide_true by done.
  cbn [negb mbind run_bind]. rewrite !page_containing_spec by (unfold in_width; lia). exact Hrun.
Qed.
End cleaning.

(** *** [new] *)
Lemma new_accepts c t path fl :
  recursive t path → Control.cr3_read c = Ret (cr3, fl) → new c t (p4 self) = Ret (Ok self).
Proof.
  intros Hrc Hc. pose proof (rc_index _ _ Hrc) as Gr. pose proof (rc_self _ _ Hrc) as Hs. cbn [ptr_of length Nat.sub replicate app] in Hs.
  destruct (indices_round_trip r r r r Gr Gr Gr Gr) as (v & Hv & Cv & Ho & E4 & E3 & E2 & E1).
  unfold ptr_of in Hs. cbn [length Nat.sub replicate app] in Hs. rewrite Hs in Hv. injection Hv as <-.
  destruct (rc_root _ _ Hrc) as (e & He & [Hp Hh]%is_table_inv & _ & Ha). unfold new.
  rewrite virt_new_canonical by (done || by apply canonical_width). cbn [mbind run_bind].
  rewrite page_containing_spec by (by apply canonical_width). cbn [mbind run_bind SIZE]. rewrite page_offset_spec in Ho. rewrite Ho, Z.sub_0_r, E4, E3, E2, E1, Z.eqb_refl.
  cbn [negb orb]. rewrite Hc. cbn [mbind run_bind]. unfold load. rewrite (seen_deref t path cr3 (p4 self)) by (done || by apply seen_root).
  cbn [mbind run_bind]. rewrite (read_entry_spec _ _ _ _ He). cbn [mbind run_bind]. rewrite frame_spec, Hp, Hh, Ha. cbn [negb mbind run_bind].
  rewrite Z.eqb_refl. unfold r. by rewrite self_eta.
Qed.
End window.

(** ** Properties *)
Section properties.
Context {BF : BitField} `{!Processor} {A : Type} `{!FrameAllocator A} {D : Type}.
Variable deallocate_frame : D → Z → D.
Variables (cr3 : Z) (self : RecursivePageTable).


(** [update_flags] of a mapped page changes the entry as [MappedPageTable] does. *)
Theorem recursive_updates s t path page e fl :
  recursive cr3 self t path → p4_index page ≠ recursive_index self →
  mapping (hide cr3 self t) cr3 (idxs page) = Some (leaf_level s, e) → table_flags fl →
  ∃ t', update_flags cr3 self s t page fl = Ret (t', Ok tt) ∧ recursive cr3 self t' path
    ∧ Mapper.update_flags s (hide cr3 self t) cr3 page fl = Ret (hide cr3 self t', Ok tt).
Proof. apply update_flags_recursive. Qed.

(** C11: [clean_up_addr_range] and [clean_up] of the recursive mapper reach every
    table through entries that are still in place: they never touch freed memory, keep the
    recursive entry, free only tables without entries, each once, and keep the translation
    of every address; no table that could be freed stays. *)
Theorem recursive_clean_up_safe t path d r :
  recursive cr3 self t path → CleanUp.rooted cr3 path (hide cr3 self t) → CleanUp.is_page (r_start r) → CleanUp.is_page (r_end r) →
  (∃ t' fs, clean_up_addr_range cr3 self deallocate_frame t d r = Ret (t', foldl deallocate_frame d fs) ∧ recursive cr3 self t' path
     ∧ CleanUp.clean_result cr3 path (hide cr3 self t) r fs (hide cr3 self t'))
  ∧ ∃ t' fs, clean_up cr3 self deallocate_frame t d = Ret (t', foldl deallocate_frame d fs) ∧ recursive cr3 self t' path
      ∧ CleanUp.clean_result cr3 path (hide cr3 self t) (mkPageRange 0 0xfffffffffffff000) fs (hide cr3 self t').
Proof. intros Hrc Hro Hs He. split; [by apply clean_range_recursive|by apply clean_up_recursive]. Qed.
End properties.

(** ** An instance *)
#[local] Existing Instance bit_field_model.
(** The last entry of the level 4 table at 0x1000 leads to the table itself; entry 0 leads
    to an empty level 3 table. *)
Definition last_entry : RecursivePageTable := mkRecursive 0xfffffffffffff000 511.
Definition loop_space : tables :=
  {[ 0x1000 := <[ 511%nat := 0x1003 ]> (<[ 0%nat := 0x2003 ]> table_new); 0x2000 := table_new ]}.
Lemma hidden_loop : hide 0x1000 last_entry loop_space = CleanUp.sparse_space.
Proof. apply (bool_decide_unpack _). by vm_compute. Qed.
Lemma sparse_tree_physical :
  tree CleanUp.sparse_space 0x1000 CleanUp.sparse_path ∧ CleanUp.rooted 0x1000 CleanUp.sparse_path CleanUp.sparse_space.
Proof.
  destruct CleanUp.sparse_tree as [[T1 T2 T3 T4 T5 T6] Hr]. split; [|exact Hr]. split; [done..| |done].
  intros ptr i e He Hi Htab Hd. destruct (T5 ptr i e He Hi Htab Hd) as (_ & Hp & Hs). done.
Qed.
Lemma loop_recursive : recursive 0x1000 last_entry loop_space CleanUp.sparse_path.
Proof.
  split; rewrite ?hidden_loop.
  - by vm_compute.
  - by vm_compute.
  - exists 0x1003. by vm_compute.
  - apply sparse_tree_physical.
  - intros q i e He Hi Htab _. apply CleanUp.sparse_entry in He as [(_ & _ & ->)| ->]; [by vm_compute|by vm_compute in Htab|done].
Qed.
Lemma loop_alloc_ok : alloc_ok (hide 0x1000 last_entry loop_space) (FrameAlloc.new MemoryMap.sample).
Proof.
  rewrite hidden_loop.
  destruct (single_alloc_ok_in CleanUp.sparse_space (MemoryMap.mkRegion (MemoryMap.mkFrameRange 0x100 0x400) MemoryMap.Usable)) as [Hi Hf];
    [by vm_compute..| |].
  - apply map_Forall_insert_2; [by vm_compute|]. by apply map_Forall_singleton.
  - split; [exact Hi|]. intros f Hff. split; [done|]. by apply (Hf f Hff).
Qed.
(** The page is mapped and found through the window. *)
Lemma loop_maps_page :
  match map_to 0x1000 last_entry Size4KiB loop_space (FrameAlloc.new MemoryMap.sample) 0x5000 0x300000 heap_flags with
  | Ret (t, _, res) => res = Ok 0x5000 ∧ translate 0x1000 last_entry t 0x5123 = Ret (Mapped (Frame Size4KiB 0x300000) 0x123 heap_flags)
  | _ => False
  end.
Proof. by vm_compute. Qed.
Lemma recursive_clean_up_safe_witness :
  (∃ t' fs, clean_up_addr_range 0x1000 last_entry CleanUp.collect_frame loop_space [] (mkPageRange 0 0x5000) = Ret (t', foldl CleanUp.collect_frame [] fs)
     ∧ recursive 0x1000 last_entry t' CleanUp.sparse_path
     ∧ CleanUp.clean_result 0x1000 CleanUp.sparse_path (hide 0x1000 last_entry loop_space) (mkPageRange 0 0x5000) fs (hide 0x1000 last_entry t'))
  ∧ ∃ t' fs, clean_up 0x1000 last_entry CleanUp.collect_frame loop_space [] = Ret (t', foldl CleanUp.collect_frame [] fs)
      ∧ recursive 0x1000 last_entry t' CleanUp.sparse_path
      ∧ CleanUp.clean_result 0x1000 CleanUp.sparse_path (hide 0x1000 last_entry loop_space) (mkPageRange 0 0xfffffffffffff000) fs (hide 0x1000 last_entry t').
Proof.
  apply (recursive_clean_up_safe CleanUp.collect_frame 0x1000 last_entry loop_space CleanUp.sparse_path [] (mkPageRange 0 0x5000));
    [exact loop_recursive|rewrite hidden_loop; apply sparse_tree_physical| |]; (split; [left; cbn; lia|done]).
Defined.

(** *** Behaviour that differs from the documentation *)
(** A 2 MiB page at 0x200000 maps address 0. *)
Definition huge_loop : tables :=
  {[ 0x1000 := <[ 511%nat := 0x1003 ]> (<[ 0%nat := 0x2003 ]> table_new); 0x2000 := <[ 0%nat := 0x3003 ]> table_new;
     0x3000 := <[ 0%nat := 0x200083 ]> table_new ]}.
(** [update_flags] and [translate_page] of a 4 KiB page inside it take the data of the huge
    page for a page table, where [MappedPageTable] reports the huge parent. *)
Lemma update_flags_reads_data_as_table :
  update_flags 0x1000 last_entry Size4KiB huge_loop 0x5000 heap_flags = Panic Undefined
  ∧ translate_page 0x1000 last_entry Size4KiB huge_loop 0x5000 = Panic Undefined
  ∧ Mapper.update_flags Size4KiB (hide 0x1000 last_entry huge_loop) 0x1000 0x5000 heap_flags
    = Ret (hide 0x1000 last_entry huge_loop, Err FlagParentEntryHugePage).
Proof. by vm_compute. Qed.

(** Bit 7 of a level 1 entry selects a memory type; [translate] panics. *)
Definition pat_loop : tables :=
  {[ 0x1000 := <[ 511%nat := 0x1003 ]> (<[ 0%nat := 0x2003 ]> table_new); 0x2000 := <[ 0%nat := 0x3003 ]> table_new;
     0x3000 := <[ 0%nat := 0x4003 ]> table_new; 0x4000 := <[ 5%nat := 0x300083 ]> table_new ]}.
Lemma translate_panics_on_pat :
  translate 0x1000 last_entry pat_loop 0x5000 = Panic Explicit
  ∧ Mapper.translate (hide 0x1000 last_entry pat_loop) 0x1000 0x5000 = Ret (Mapped (Frame Size4KiB 0x300000) 0 0x83).
Proof. by vm_compute. Qed.

(** An existing level 3 table behind a read-only entry: the flags of a read-only page do not
    make the entry writable, and the write to the table faults. *)
Definition read_only_loop : tables :=
  {[ 0x1000 := <[ 511%nat := 0x1003 ]> (<[ 0%nat := 0x2001 ]> table_new); 0x2000 := table_new ]}.
Lemma map_to_faults_behind_read_only_entry :
  map_to 0x1000 last_entry Size4KiB read_only_loop (FrameAlloc.new MemoryMap.sample) 0x5000 0x300000 PRESENT = Panic Undefined.
Proof. by vm_compute. Qed.

(** Five tables in a ring: [new] accepts the table that the window shows, which is the
    fifth one and not the active table, and no entry leads to its own table. *)
Definition ring : tables :=
  {[ 0x1000 := <[ 511%nat := 0x2003 ]> table_new; 0x2000 := <[ 511%nat := 0x3003 ]> table_new; 0x3000 := <[ 511%nat := 0x4003 ]> table_new;
     0x4000 := <[ 511%nat := 0x5003 ]> table_new; 0x5000 := <[ 511%nat := 0x1003 ]> table_new ]}.
Lemma new_accepts_a_ring :
  new Control.sample_cpu ring 0xfffffffffffff000 = Ret (Ok last_entry)
  ∧ Control.cr3_read Control.sample_cpu = Ret (0x1000, 0) ∧ deref 0x1000 false ring 0xfffffffffffff000 = Ret 0x5000.
Proof. by vm_compute. Qed.
End Recursive.
