(* ===== verification/KernelMemory.v ===== *)
(** * kernel/src/memory.rs and kernel/src/allocator.rs: the kernel's address space

    [init] creates the page table mapper and the frame allocator once, [id_map]
    maps a device or memory frame at its own address, [init_heap] maps the kernel
    heap.  Both mappings are proved against the contracts of [Mapper] and of the
    frame allocator classes. *)
From S2P Require Import Prelude MemoryMap FrameAlloc Heap Addr Paging Control Mapper.
Import Addr Paging Mapper.

Module KernelMemory.

(** ** [init] *)
Definition active_level_4_table {BF : BitField} (c : Control.cpu) (physical_memory_offset : Z) : run Z :=
  '(f, _) ← Control.cr3_read_raw c; virt_add physical_memory_offset f.

(** The two statics: the level 4 table with its offset, and the frame allocator. *)
Record statics := mkStatics {
  PAGE_TABLE : option (Z * Z);
  FRAME_ALLOCATOR : option FrameAlloc.BootInfoFrameAllocator
}.

Definition init {BF : BitField} (st : statics) (c : Control.cpu) (physical_memory_offset : Z) (m : MemoryMap.MemoryMap)
    : run (statics * (Z * Z) * FrameAlloc.BootInfoFrameAllocator) :=
  pt ← match PAGE_TABLE st with
       | Some pt => Ret (Some pt)
       | None =>
           offset ← virt_new physical_memory_offset;
           p4 ← active_level_4_table c offset;
           Ret (Some (p4, offset))
       end;
  let fa := match FRAME_ALLOCATOR st with Some fa => Some fa | None => Some (FrameAlloc.new m) end in
  pt' ← unwrap pt;
  fa' ← unwrap fa;
  Ret ({| PAGE_TABLE := pt; FRAME_ALLOCATOR := fa |}, pt', fa').

(** ** [id_map] *)
Inductive IdMapError :=
  | IdFrameAllocationFailed
  | IdFlagUpdateError (e : FlagUpdateError)
  | MappingIsNotIdentity (wanted found : Z)
  | AlreadyMappedDiffSize (fl : Z).

Section operations.
Context {BF : BitField} `{!PageTableFrameMapping} {A : Type} `{!FrameAllocator A}.

Definition id_map (s : PageSize) (t : tables) (a : A) (p4 my_frame : Z) (add_flags : option Z)
    : run (tables * A * result Z IdMapError) :=
  addr ← virt_new my_frame;
  page_res ← page_from_start_address s addr;
  page ← unwrap (match page_res with Ok p => Some p | Err _ => None end);
  let my_flags := Z.lor PRESENT (default 0 add_flags) in
  tr ← translate t p4 addr;
  match tr with
  | NotMapped =>
      '(t1, a1, r) ← identity_map s t a p4 my_frame my_flags;
      Ret (t1, a1, match r with Ok _ => Ok page | Err _ => Err IdFrameAllocationFailed end)
  | InvalidFrameAddress _ => Ret (t, a, Err IdFrameAllocationFailed)
  | Mapped (Frame s' f) _ fl =>
      if negb (SIZE s =? SIZE s') then Ret (t, a, Err (AlreadyMappedDiffSize fl))
      else if negb (my_frame =? f) then Ret (t, a, Err (MappingIsNotIdentity my_frame f))
      else
        '(t1, r) ← update_flags s t p4 page my_flags;
        Ret (t1, a, match r with Ok _ => Ok page | Err e => Err (IdFlagUpdateError e) end)
  end.

(** ** [init_heap] *)
Context `{!FrameAllocator2M A}.

Definition heap_pages : run PageRange :=
  heap_start ← virt_new Heap.HEAP_START;
  e ← virt_add heap_start Heap.HEAP_SIZE;
  heap_end ← virt_sub e 1;
  s ← page_containing_address Size2MiB heap_start;
  l ← page_containing_address Size2MiB heap_end;
  Ret (mkPageRange s l).

Definition init_heap_flags : Z := Z.lor (Z.lor PRESENT WRITABLE) NO_EXECUTE.

Fixpoint map_heap (fuel : nat) (t : tables) (a : A) (p4 : Z) (pages : PageRange)
    : run (tables * A * result unit MapToError) :=
  match fuel with
  | O => Panic NoFuel
  | S fuel' =>
      '(o, pages') ← page_range_inclusive_next Size2MiB pages;
      match o with
      | None => Ret (t, a, Ok tt)
      | Some page =>
          '(frame, a1) ← allocate_frame_2m a;
          match frame with
          | None => Ret (t, a1, Err FrameAllocationFailed)
          | Some f =>
              '(t2, a2, r) ← map_to Size2MiB t a1 p4 page f init_heap_flags;
              match r with
              | Err e => Ret (t2, a2, Err e)
              | Ok _ => map_heap fuel' t2 a2 p4 pages'
              end
          end
      end
  end.

(** The loop runs once per page and once more to see the end of the range. *)
Definition init_heap (t : tables) (a : A) (p4 : Z) : run (tables * A * result unit MapToError) :=
  pages ← heap_pages;
  map_heap (Z.to_nat ((r_end pages - r_start pages) / SIZE Size2MiB + 2)) t a p4 pages.

(** ** Properties of [id_map] *)
Lemma mapping_top t p4 path v k e :
  tree t p4 path → mapping t p4 (idxs v) = Some (k, e) → (k ≤ 2)%nat.
Proof.
  intros Ht. destruct (idx_good v) as (G4 & _). unfold idxs. cbn [mapping].
  destruct (entry_at t p4 (p4_index v)) as [e4|] eqn:He; [|done].
  rewrite (tree_top _ _ _ Ht _ _ He) by apply G4. destruct (negb (present e4)); [done|].
  intros Hm. apply (mapping_level t [p3_index v; p2_index v; p1_index v]) in Hm. simpl in Hm. lia.
Qed.

Lemma mapped_inv s t p4 path v f off fl :
  tree t p4 path → translate t p4 v = Ret (Mapped (Frame s f) off fl) →
  ∃ e, mapping t p4 (idxs v) = Some (leaf_level s, e) ∧ f = entry_addr e - entry_addr e mod SIZE s.
Proof.
  intros Ht. rewrite (translate_spec t p4 path) by done.
  destruct (mapping t p4 (idxs v)) as [[k e]|] eqn:Hm; cbn [translation]; [|done].
  pose proof (mapping_top _ _ _ _ _ _ Ht Hm) as Hk. pose proof (entry_addr_page_frame e) as [_ He].
  destruct k as [|[|[|k]]]; [| | |lia]; intros [= <- <- <- <-]; eexists; (split; [done|]); [|done..].
  change (SIZE Size4KiB) with 4096. lia.
Qed.

(** The virtual address of a frame that [id_map] accepts. *)
Lemma id_map_page s f :
  page_frame f → f < 2 ^ 47 → f mod SIZE s = 0 →
  virt_new f = Ret f ∧ page_containing_address s f = Ret f ∧ page_from_start_address s f = Ret (Ok f).
Proof.
  intros Hf Hlt Hm. pose proof (page_frame_width _ Hf) as Hw.
  assert (page_containing_address s f = Ret f) as Hc.
  { rewrite page_containing_spec by done. by rewrite Hm, Z.sub_0_r. }
  split_and!; [apply virt_new_canonical; [done|left; unfold in_width in Hw; lia]|done|].
  unfold page_from_start_address, virt_is_aligned. rewrite SIZE_pow at 1.
  rewrite is_aligned_spec; [|done|destruct s; lia]. cbn [mbind run_bind]. rewrite <- SIZE_pow.
  rewrite bool_decide_eq_true_2 by done. cbn [negb]. by rewrite Hc.
Qed.

Definition id_map_outcome (s : PageSize) (t : tables) (p4 f fl : Z) (t' : tables)
    (r : result Z IdMapError) : Prop :=
  match r with
  | Ok page => page = f
      ∧ ∀ v, translate t' p4 v = if decide (in_page s f v)
               then Ret (Mapped (Frame s f) (v mod SIZE s) (leaf_flags s fl)) else translate t p4 v
  | Err IdFrameAllocationFailed =>
      translate t p4 f = Ret NotMapped ∧ ∀ v, translate_addr t' p4 v = translate_addr t p4 v
  | Err (AlreadyMappedDiffSize fl') =>
      t' = t ∧ ∃ s' g off, s' ≠ s ∧ translate t p4 f = Ret (Mapped (Frame s' g) off fl')
  | Err (MappingIsNotIdentity f' g) =>
      t' = t ∧ f' = f ∧ g ≠ f ∧ ∃ off fl', translate t p4 f = Ret (Mapped (Frame s g) off fl')
  | Err (IdFlagUpdateError _) => False
  end.

Lemma SIZE_inj s s' : SIZE s = SIZE s' → s = s'.
Proof. by destruct s, s'. Qed.

Lemma id_map_cases s t a p4 path f add :
  tree t p4 path → alloc_ok t a → page_frame f → f < 2 ^ 47 → f mod SIZE s = 0 →
  table_flags (Z.lor PRESENT (default 0 add)) →
  ∃ t' a' r path', id_map s t a p4 f add = Ret (t', a', r) ∧ tree t' p4 path' ∧ alloc_ok t' a'
    ∧ id_map_outcome s t p4 f (Z.lor PRESENT (default 0 add)) t' r.
Proof.
  intros Ht Ha Hf Hlt Hm Hfl. destruct (id_map_page s f Hf Hlt Hm) as (Hv & Hc & Hp).
  unfold id_map. rewrite Hv. cbn [mbind run_bind]. rewrite Hp. cbn [mbind run_bind unwrap].
  set (fl := Z.lor PRESENT (default 0 add)) in *.
  destruct (translate t p4 f) as [tr|] eqn:Htr; [|by rewrite (translate_spec t p4 path) in Htr].
  cbn [mbind run_bind]. destruct tr as [[s' g] off fl'| |].
  - destruct (Z.eqb_spec (SIZE s) (SIZE s')) as [Hs|Hs]; cbn [negb].
    2:{ exists t, a, (Err (AlreadyMappedDiffSize fl')), path. split_and!; [done..|]. split; [done|].
        exists s', g, off. split; [congruence|done]. }
    apply SIZE_inj in Hs as <-. destruct (Z.eqb_spec f g) as [<-|Hg]; cbn [negb].
    2:{ exists t, a, (Err (MappingIsNotIdentity f g)), path. split_and!; [done..|]. split_and!; [done..|]. by exists off, fl'. }
    destruct (mapped_inv _ _ _ _ _ _ _ _ Ht Htr) as (e & He & Hfe).
    destruct (update_flags_cases s t p4 path f e fl) as (t' & -> & Ht' & Hdom & Hafter); [done..|]. cbn [mbind run_bind].
    exists t', a, (Ok f), path. split_and!; [done|done| |].
    + destruct Ha as [Hinv Hfree]. split; [done|]. intros h Hh. destruct (Hfree h Hh) as [Hcov Hn]. split; [done|].
      apply eq_None_not_Some. rewrite Hdom. by apply eq_None_not_Some.
    + split; [done|]. rewrite <- Hfe in Hafter. exact Hafter.
  - unfold identity_map. rewrite Hv. cbn [mbind run_bind]. rewrite Hc. cbn [mbind run_bind]. unfold map_to.
    destruct (map_to_cases s t a p4 path f f fl (Z.land fl (Z.lor (Z.lor PRESENT WRITABLE) USER_ACCESSIBLE)))
      as (t' & a' & r & path' & -> & Ht' & Ha' & Hout); try done; [by apply parent_flags|]. cbn [mbind run_bind].
    exists t', a', (match r with Ok _ => Ok f | Err _ => Err IdFrameAllocationFailed end), path'. split_and!; [done..|].
    destruct r as [p|[| |g]]; simpl in Hout |- *.
    + by destruct Hout as (_ & _ & _ & Hout).
    + split; [done|]. intros v. unfold translate_addr. by rewrite Hout.
    + by split.
    + split; [done|]. intros v. unfold translate_addr. by rewrite Hout.
  - rewrite (translate_spec t p4 path) in Htr by done.
    destruct (mapping t p4 (idxs f)) as [[[|[|k]] e]|]; discriminate.
Qed.

(** Why [id_map] takes the branch it takes: it accepts a page that is not mapped or mapped to
    its own address, and fails to map one only if the allocator has refused a frame or, for a
    large page, its entry is in use for a table of smaller ones. *)
Definition id_map_reason (s : PageSize) (t : tables) (a : A) (p4 f : Z) (t' : tables) (a' : A) (r : result Z IdMapError) : Prop :=
  match r with
  | Ok _ => translate t p4 f = Ret NotMapped ∨ ∃ off fl', translate t p4 f = Ret (Mapped (Frame s f) off fl')
  | Err IdFrameAllocationFailed => ran_out a a' ∨ s ≠ Size4KiB ∧ slot_used s t' p4 f
  | Err _ => a' = a
  end.
(** The entry of a 4 KiB page that is not mapped is not in use. *)
Lemma slot_used_4kib t p4 path v : tree t p4 path → slot_used Size4KiB t p4 v → translate t p4 v ≠ Ret NotMapped.
Proof.
  intros Ht (q & e & Hr & He & Hne). destruct (leaf_good Size4KiB v) as [_ Hi]. rewrite (translate_spec t p4 path) by done.
  assert (mapping t p4 (idxs v) = mapping t q [leaf_index Size4KiB v]) as -> by (by rewrite <- (mapping_reach t p4 (leaf_path Size4KiB v) q)).
  cbn [mapping]. rewrite He. destruct (tree_entry _ _ _ Ht q _ e He) as [?| ->]; [apply Hi|done|]. by cbn.
Qed.
Lemma id_map_reasons s t a p4 path f add t' a' r :
  tree t p4 path → alloc_ok t a → page_frame f → f < 2 ^ 47 → f mod SIZE s = 0 →
  table_flags (Z.lor PRESENT (default 0 add)) →
  id_map s t a p4 f add = Ret (t', a', r) → id_map_reason s t a p4 f t' a' r.
Proof.
  intros Ht Ha Hf Hlt Hm Hfl. destruct (id_map_page s f Hf Hlt Hm) as (Hv & Hc & Hp).
  unfold id_map. rewrite Hv. cbn [mbind run_bind]. rewrite Hp. cbn [mbind run_bind unwrap]. set (fl := Z.lor PRESENT (default 0 add)) in *.
  destruct (translate t p4 f) as [[[s' g] off fl'| |]|] eqn:Htr; cbn [mbind run_bind]; [| | |done].
  - destruct (Z.eqb_spec (SIZE s) (SIZE s')) as [Hs%SIZE_inj|Hs]; cbn [negb]; [subst s'|by intros [= <- <- <-]].
    destruct (Z.eqb_spec f g) as [<-|Hg]; cbn [negb]; [|by intros [= <- <- <-]].
    intros ([t1 r1] & _ & [= <- <- <-])%bind_Ret. destruct r1; [|done]. right. by exists off, fl'.
  - unfold identity_map. rewrite Hv. cbn [mbind run_bind]. rewrite Hc. cbn [mbind run_bind]. unfold map_to.
    intros ([[t1 a1] r1] & Hrun & [= <- <- <-])%bind_Ret. pose proof (parent_flags fl Hfl) as Hpar.
    pose proof (map_to_refused _ _ _ _ path _ _ _ _ _ _ _ Ht Ha Hpar Hrun) as Href.
    destruct (map_to_cases s t a p4 path f f fl _ Ht Ha Hfl Hpar Hf Hm) as (t2 & a2 & r2 & path2 & E & Ht2 & _ & Hout).
    rewrite Hrun in E. injection E as <- <- <-. destruct r1 as [p|[| |g]]; cbn [map_refused] in Href; [by left|by left|exfalso|].
    + destruct Href as (k & e & He). rewrite (translate_spec t p4 path), He in Htr by done. pose proof (mapping_top _ _ _ _ _ _ Ht He).
      destruct k as [|[|k]]; [done|done|lia].
    + destruct Href as [_ Hs]. right. split; [|done]. intros ->. cbn [map_outcome] in Hout.
      apply (slot_used_4kib t1 p4 path2 f Ht2 Hs). by rewrite Hout.
  - rewrite (translate_spec t p4 path) in Htr by done. destruct (mapping t p4 (idxs f)) as [[[|[|k]] e]|]; discriminate.
Qed.

(** ** Properties of [init_heap] *)
Definition HEAP_PAGE : Z := 0x444444400000.
Lemma virt_new_low a : 0 ≤ a < 2 ^ 47 → virt_new a = Ret a.
Proof. intros Ha. apply virt_new_canonical; [unfold in_width; lia|by left]. Qed.
Lemma heap_pages_one : heap_pages = Ret (mkPageRange HEAP_PAGE HEAP_PAGE).
Proof.
  unfold heap_pages, virt_add, virt_sub, Heap.HEAP_START, Heap.HEAP_SIZE.
  rewrite virt_new_low by lia. cbn [mbind run_bind].
  rewrite uadd_Ret by lia. cbn [mbind run_bind]. rewrite virt_new_low by lia. cbn [mbind run_bind].
  change (checked_sub (0x444444440000 + 1000 * 1024) 1) with (Some 0x444444539fff). cbn [mbind run_bind unwrap].
  rewrite virt_new_low by lia. cbn [mbind run_bind].
  rewrite !page_containing_spec by (unfold in_width; lia). done.
Qed.
(** The only page of the range, then its end. *)
Lemma heap_page_first :
  page_range_inclusive_next Size2MiB (mkPageRange HEAP_PAGE HEAP_PAGE)
    = Ret (Some HEAP_PAGE, mkPageRange (HEAP_PAGE + 0x200000) HEAP_PAGE).
Proof.
  unfold page_range_inclusive_next. change (page_range_inclusive_is_empty _) with false. cbn [negb r_start r_end].
  unfold page_add, virt_add. rewrite umul_Ret by (by vm_compute). cbn [mbind run_bind]. rewrite uadd_Ret by (by vm_compute).
  cbn [mbind run_bind]. rewrite virt_new_low by (by vm_compute). cbn [mbind run_bind].
  by rewrite page_containing_spec by (by vm_compute).
Qed.

Lemma in_page_2mib page v : v / 2 ^ 21 = page / 2 ^ 21 → in_page Size2MiB page v.
Proof.
  intros H21. exists [p1_index v]. unfold leaf_path, leaf_index, idxs. cbn [app].
  rewrite !p2_index_spec, !p3_index_spec, !p4_index_spec.
  change (2 ^ 30) with (2 ^ 21 * 2 ^ 9). change (2 ^ 39) with (2 ^ 21 * 2 ^ 18).
  rewrite <- !Z.div_div by lia. by rewrite H21.
Qed.
(** The whole heap lies in one 2 MiB page. *)
Lemma heap_in_page v :
  Heap.HEAP_START ≤ v < Heap.HEAP_START + Heap.HEAP_SIZE → in_page Size2MiB HEAP_PAGE v.
Proof.
  unfold Heap.HEAP_START, Heap.HEAP_SIZE. intros Hv. apply in_page_2mib.
  change (HEAP_PAGE / 2 ^ 21) with 0x2222222. change (2 ^ 21) with 0x200000. symmetry.
  apply (Z.div_unique_pos _ _ _ (v - 0x444444400000)); lia.
Qed.

Lemma alloc_ok_shrink t a a' :
  alloc_ok t a → allocator_inv a' → (∀ f, free_frame a' f → free_frame a f) → alloc_ok t a'.
Proof. intros [_ Hf] Hi Hs. split; [done|]. auto. Qed.

Definition init_heap_outcome (t : tables) (p4 : Z) (t' : tables) (r : result unit MapToError) : Prop :=
  match r with
  | Ok _ => ∃ f, f mod SIZE Size2MiB = 0
      ∧ (∀ v, Heap.HEAP_START ≤ v < Heap.HEAP_START + Heap.HEAP_SIZE → translate t p4 v = Ret NotMapped
           ∧ translate t' p4 v = Ret (Mapped (Frame Size2MiB f) (v mod SIZE Size2MiB) (leaf_bits true false true true)))
      ∧ ∀ v, ¬ in_page Size2MiB HEAP_PAGE v → translate t' p4 v = translate t p4 v
  | Err _ => ∀ v, translate_addr t' p4 v = translate_addr t p4 v
  end.

Lemma init_heap_cases t a p4 path :
  tree t p4 path → alloc_ok t a → allocator_inv_2m a →
  ∃ t' a' r path', init_heap t a p4 = Ret (t', a', r) ∧ tree t' p4 path' ∧ alloc_ok t' a'
    ∧ init_heap_outcome t p4 t' r.
Proof.
  intros Ht Ha Hi. unfold init_heap. rewrite heap_pages_one. cbn [mbind run_bind r_start r_end].
  change (Z.to_nat ((HEAP_PAGE - HEAP_PAGE) / SIZE Size2MiB + 2)) with 2%nat. cbn [map_heap].
  rewrite heap_page_first.
  cbn [mbind run_bind].
  destruct (allocate_frame_2m_law a) as (o & a1 & -> & Hi1 & Hsub & Ho); [apply Ha|done|]. cbn [mbind run_bind].
  assert (alloc_ok t a1) as Ha1 by (by eapply alloc_ok_shrink).
  destruct o as [f|]; [|by exists t, a1, (Err FrameAllocationFailed), path].
  destruct (Ho f eq_refl) as [Hm Hb].
  assert (page_frame f) as Hf.
  { split; [done|]. apply Z.mod_divide in Hm as [k ->]; [|lia]. by rewrite (Z.mul_comm 4096), Z.mul_assoc, Z.mod_mul. }
  assert (table_flags init_heap_flags) as Hfl by (by vm_compute). unfold map_to.
  destruct (map_to_cases Size2MiB t a1 p4 path HEAP_PAGE f init_heap_flags
     (Z.land init_heap_flags (Z.lor (Z.lor PRESENT WRITABLE) USER_ACCESSIBLE)))
    as (t' & a' & r & path' & -> & Ht' & Ha' & Hout); try done. cbn [mbind run_bind].
  destruct r as [p|e]; [|exists t', a', (Err e), path'; split_and!; try done].
  - change (page_range_inclusive_next Size2MiB (mkPageRange (HEAP_PAGE + 0x200000) HEAP_PAGE))
      with (Ret (None : option Z, mkPageRange (HEAP_PAGE + 0x200000) HEAP_PAGE)). cbn [mbind run_bind].
    exists t', a', (Ok tt), path'. split_and!; try done. destruct Hout as (_ & Hbefore & _ & Hafter).
    exists f. split; [done|]. split.
    + intros v Hv%heap_in_page. rewrite Hafter, decide_True by done. split; [by apply Hbefore|done].
    + intros v Hv. by rewrite Hafter, decide_False.
  - destruct e as [| |g]; unfold map_outcome in Hout; intros v; [|done|]; unfold translate_addr; by rewrite Hout.
Qed.

(** Why [init_heap] fails: it got no frame for the heap, or the mapping was refused. *)
Definition init_heap_reason (t : tables) (a : A) (p4 : Z) (t' : tables) (a' : A) (r : result unit MapToError) : Prop :=
  match r with
  | Ok _ => True
  | Err e => (e = FrameAllocationFailed ∧ allocate_frame_2m a = Ret (None, a'))
      ∨ ∃ f a1, allocate_frame_2m a = Ret (Some f, a1) ∧ map_refused Size2MiB t a1 p4 HEAP_PAGE f t' a' (Err e)
  end.
Lemma init_heap_reasons t a p4 path t' a' r :
  tree t p4 path → alloc_ok t a → allocator_inv_2m a → init_heap t a p4 = Ret (t', a', r) → init_heap_reason t a p4 t' a' r.
Proof.
  intros Ht Ha Hi. unfold init_heap. rewrite heap_pages_one. cbn [mbind run_bind r_start r_end].
  change (Z.to_nat ((HEAP_PAGE - HEAP_PAGE) / SIZE Size2MiB + 2)) with 2%nat. cbn [map_heap]. rewrite heap_page_first. cbn [mbind run_bind].
  destruct (allocate_frame_2m_law a) as (o & a1 & E1 & Hi1 & Hsub & Ho); [apply Ha|done|]. rewrite E1. cbn [mbind run_bind].
  destruct o as [f|]; [|by intros [= <- <- <-]; left].
  intros ([[t2 a2] r2] & Hrun & H2)%bind_Ret. unfold map_to in Hrun.
  assert (table_flags init_heap_flags) as Hfl by (by vm_compute).
  apply (map_to_refused _ _ _ _ path) in Hrun; [|done|by eapply alloc_ok_shrink|by apply parent_flags].
  destruct r2 as [p|e]; [|injection H2 as <- <- <-; right; by exists f, a1].
  change (page_range_inclusive_next Size2MiB (mkPageRange (HEAP_PAGE + 0x200000) HEAP_PAGE))
    with (Ret (None : option Z, mkPageRange (HEAP_PAGE + 0x200000) HEAP_PAGE)) in H2. cbn [mbind run_bind] in H2. by injection H2 as <- <- <-.
Qed.


(** C18: [init_heap] ends and never panics.  On success every address of the
    heap [HEAP_START, HEAP_START + HEAP_SIZE), unmapped before, translates into
    one aligned 2 MiB frame, present, writable and not executable ([leaf_bits]), and
    nothing outside the 2 MiB page of the heap changes.  It fails only if the allocators
    have no frame left or the page of the heap is already in use, and no physical address
    changes then. *)
Theorem init_heap_maps_heap t a p4 path :
  tree t p4 path → alloc_ok t a → allocator_inv_2m a →
  ∃ t' a' r path', init_heap t a p4 = Ret (t', a', r) ∧ tree t' p4 path' ∧ alloc_ok t' a'
    ∧ init_heap_outcome t p4 t' r ∧ init_heap_reason t a p4 t' a' r.
Proof.
  intros Ht Ha Hi. destruct (init_heap_cases t a p4 path Ht Ha Hi) as (t' & a' & r & path' & E & H1 & H2 & H3).
  exists t', a', r, path'. split_and!; [done..|]. by apply (init_heap_reasons t a p4 path).
Qed.
End operations.

(** *** Instances *)
#[local] Existing Instance bit_field_model.

(** Usable memory from 2 MiB to 16 MiB: [init_heap] succeeds. *)
Definition roomy : FrameAlloc.BootInfoFrameAllocator :=
  FrameAlloc.new (MemoryMap.single (MemoryMap.mkRegion (MemoryMap.mkFrameRange 0x200 0x1000) MemoryMap.Usable)).
Lemma init_heap_maps_heap_witness :
  ∃ t' a' path', init_heap empty_space roomy 0x1000 = Ret (t', a', Ok tt)
    ∧ tree t' 0x1000 path' ∧ alloc_ok t' a' ∧ init_heap_outcome empty_space 0x1000 t' (Ok tt).
Proof.
  destruct (init_heap_maps_heap empty_space roomy 0x1000 (λ _, [])) as (t' & a' & r & path' & H & Ht & Ha & Ho & _).
  - exact empty_tree.
  - apply single_alloc_ok; by vm_compute.
  - intros r Hr _. apply list_elem_of_singleton in Hr as ->. by vm_compute.
  - assert (match init_heap empty_space roomy 0x1000 with Ret (_, _, Ok _) => true | _ => false end = true) as Hok
      by (vm_compute; reflexivity).
    rewrite H in Hok. destruct r as [[]|]; [|discriminate Hok].
    exists t', a', path'. exact (conj H (conj Ht (conj Ha Ho))).
Defined.

(** [init] runs its initialisation once: a second call leaves the frame allocator, and with
    it the frames already handed out, as they are. *)
Lemma init_keeps_allocator {BF : BitField} st c off m pt fa :
  PAGE_TABLE st = Some pt → FRAME_ALLOCATOR st = Some fa → init st c off m = Ret (st, pt, fa).
Proof. intros Hp Hf. unfold init. rewrite Hp, Hf. cbn. destruct st as [p f]. simpl in *. by subst. Qed.
End KernelMemory.
