(* ===== verification/Mmu.v ===== *)
(** * crates/bootloader/src/mmu.rs: the boot page tables

    [generate_page_table] identity maps the first 4 GiB with 2 MiB pages,
    [remap_first_2mb_with_4kb] replaces the first of them by 4 KiB pages.  Both write
    through raw pointers to linker symbols: a store from table addresses to tables,
    the same as in [Mapper], whose [translate] and [tree] specify the result. *)
From S2P Require Import Prelude MemoryMap FrameAlloc Addr Paging Mapper.
Import Addr Paging Mapper.

Module Mmu.

Definition ONE_MEG : Z := 1048576.
Definition TWO_MEG : Z := ONE_MEG * 2.
Definition ONE_GIG : Z := 1073741824.

(** [PageTableEntry::set_addr] of the bootloader; the flags are the same bits. *)
Definition boot_set_addr (a fl : Z) : run Z :=
  _ ← rust_assert (a mod 4096 =? 0); Ret (Z.lor a fl).
Definition boot_addr (entry : Z) : Z := Z.land entry 0x000ffffffffff000.

(** The table behind a raw pointer; [zero] overwrites it whatever it was. *)
Definition zero_table (t : tables) (ptr : Z) : tables := <[ptr := table_new]> t.

(** ** [generate_page_table] *)
Definition flags_2mib (region : option MemoryMap.MemoryRegion) : Z :=
  match region with
  | Some mem_area =>
      match MemoryMap.region_type mem_area with
      | MemoryMap.Usable => Z.lor (Z.lor PRESENT WRITABLE) HUGE_PAGE
      | _ => Z.lor (Z.lor (Z.lor PRESENT HUGE_PAGE) NO_EXECUTE) NO_CACHE
      end
  | None => Z.lor (Z.lor (Z.lor PRESENT HUGE_PAGE) NO_EXECUTE) NO_CACHE
  end.

Definition pde_entry (m : MemoryMap.MemoryMap) (pdpe_i pde_i : Z) : run Z :=
  let virt_addr := pdpe_i * ONE_GIG + pde_i * TWO_MEG in
  let phys_addr := virt_addr in
  region ← MemoryMap.get_region_by_addr m phys_addr;
  boot_set_addr phys_addr (flags_2mib region).

(** One turn of the loop over the first four entries of the level 3 table. *)
Definition fill_gigabyte (m : MemoryMap.MemoryMap) (p3 pdpe_i : Z)
    (st : tables * FrameAlloc.PageTableAllocator) : run (tables * FrameAlloc.PageTableAllocator) :=
  let '(t, pde_allocator) := st in
  '(o, pde_allocator') ← FrameAlloc.page_table_next pde_allocator;
  pde ← unwrap o;
  let t1 := zero_table t pde in
  es ← mapM (pde_entry m pdpe_i) (seqZ 0 512);
  let t2 := <[pde := es]> t1 in
  entry ← boot_set_addr pde (Z.lor PRESENT WRITABLE);
  t3 ← write_entry t2 p3 pdpe_i entry;
  Ret (t3, pde_allocator').

Definition generate_page_table (t : tables) (p4 p3 p2_tables_start p2_tables_end : Z)
    (m : MemoryMap.MemoryMap) : run (tables * Z) :=
  let t1 := zero_table t p4 in
  entry ← boot_set_addr p3 (Z.lor PRESENT WRITABLE);
  t2 ← write_entry t1 p4 0 entry;
  let t3 := zero_table t2 p3 in
  '(t4, _) ← for_each (fill_gigabyte m p3) [0; 1; 2; 3]
               (t3, {| FrameAlloc.pt_index := 0; FrameAlloc.pt_start := p2_tables_start;
                       FrameAlloc.pt_end := p2_tables_end |});
  Ret (t4, p4).

(** ** [remap_first_2mb_with_4kb] *)
Definition flags_4kib (region : option MemoryMap.MemoryRegion) (addr : Z) : Z :=
  match region with
  | Some mem_area =>
      match MemoryMap.region_type mem_area with
      | MemoryMap.Usable | MemoryMap.SmpTrampoline => Z.lor PRESENT WRITABLE
      | MemoryMap.Kernel | MemoryMap.Bootloader => PRESENT
      | _ => if addr <? ONE_MEG then Z.lor (Z.lor PRESENT NO_EXECUTE) NO_CACHE else Z.lor PRESENT NO_EXECUTE
      end
  | None => Z.lor (Z.lor PRESENT NO_EXECUTE) NO_CACHE
  end.

Definition pte_entry (m : MemoryMap.MemoryMap) (pte_i : Z) : run Z :=
  let addr := pte_i * 4096 in
  mem_type ← MemoryMap.get_region_by_addr m addr;
  boot_set_addr addr (flags_4kib mem_type addr).

Definition VGA : Z := 0xb8000.
Definition VGA_FLAGS : Z := Z.lor (Z.lor (Z.lor PRESENT WRITABLE) NO_CACHE) NO_EXECUTE.

Definition remap_first_2mb_with_4kb (t : tables) (p3 p1 : Z) (m : MemoryMap.MemoryMap) : run tables :=
  e3 ← read_entry t p3 0;
  let p2 := boot_addr e3 in
  let t1 := zero_table t p1 in
  entry ← boot_set_addr p1 (Z.lor PRESENT WRITABLE);
  t2 ← write_entry t1 p2 0 entry;
  es ← mapM (pte_entry m) (seqZ 0 512);
  let t3 := <[p1 := es]> t2 in
  let p1_index := Z.land (Z.shiftr VGA 12) 0x1ff in
  vga ← boot_set_addr VGA VGA_FLAGS;
  write_entry t3 p1 p1_index vga.

(** ** Specification *)
(** The type of the region that decides about the page at [a]: the first one that holds it. *)
Definition kind_at (m : MemoryMap.MemoryMap) (a : Z) : option MemoryMap.MemoryRegionType :=
  head (MemoryMap.owners (MemoryMap.live m) a).
(** What the page tables shall say about the 2 MiB page at [a], and about the 4 KiB page. *)
Definition page_flags_2mib (m : MemoryMap.MemoryMap) (a : Z) : Z :=
  match kind_at m a with
  | Some MemoryMap.Usable => leaf_bits true false true false
  | _ => leaf_bits false true true true
  end.
Definition page_flags_4kib (m : MemoryMap.MemoryMap) (a : Z) : Z :=
  if decide (a = 0xb8000) then leaf_bits true true false true
  else match kind_at m a with
       | Some (MemoryMap.Usable | MemoryMap.SmpTrampoline) => leaf_bits true false false false
       | Some (MemoryMap.Kernel | MemoryMap.Bootloader) => leaf_bits false false false false
       | Some _ => leaf_bits false (a <? 2 ^ 20) false true
       | None => leaf_bits false true false true
       end.

(** The linker script places the tables: page aligned, apart from each other, low. *)
Record layout (p4 p3 p2s p2e p1 : Z) : Prop := {
  lay_aligned : p4 mod 4096 = 0 ∧ p3 mod 4096 = 0 ∧ p2s mod 4096 = 0 ∧ p1 mod 4096 = 0;
  lay_range : 0 ≤ p4 < 2 ^ 31 ∧ 0 ≤ p3 < 2 ^ 31 ∧ 0 ≤ p2s < 2 ^ 31 ∧ 0 ≤ p1 < 2 ^ 31;
  lay_room : p2s + 4 * 4096 ≤ p2e;
  lay_apart : NoDup [p4; p3; p2s; p2s + 4096; p2s + 8192; p2s + 12288; p1]
}.

(** The code computes these flags. *)
Lemma flags_2mib_bits m a o :
  MemoryMap.region_type <$> o = kind_at m a → flags_2mib o = page_flags_2mib m a.
Proof. unfold page_flags_2mib. intros <-. by destruct o as [[rg []]|]. Qed.
Lemma flags_4kib_bits m a o :
  MemoryMap.region_type <$> o = kind_at m a → a ≠ 0xb8000 → flags_4kib o a = page_flags_4kib m a.
Proof.
  unfold page_flags_4kib. intros <- Ha. rewrite decide_False by done. unfold flags_4kib. change (2 ^ 20) with ONE_MEG.
  destruct o as [[rg []]|]; cbn; try done; by destruct (a <? ONE_MEG).
Qed.
Lemma page_flags_2mib_ok m a :
  valid_flags (page_flags_2mib m a) ∧ contains (page_flags_2mib m a) PRESENT = true ∧ contains (page_flags_2mib m a) HUGE_PAGE = true.
Proof. unfold page_flags_2mib. destruct (kind_at m a) as [[]|]; by vm_compute. Qed.
Lemma page_flags_4kib_ok m a :
  valid_flags (page_flags_4kib m a) ∧ contains (page_flags_4kib m a) PRESENT = true
  ∧ contains (page_flags_4kib m a) HUGE_PAGE = false.
Proof.
  unfold page_flags_4kib. case_decide; [by vm_compute|].
  destruct (kind_at m a) as [[]|]; try destruct (a <? 2 ^ 20); by vm_compute.
Qed.

Section boot.
Context {BF : BitField}.
Variables p4 p3 p2s p2e p1 : Z.
Hypothesis Hlay : layout p4 p3 p2s p2e p1.
(** The memory map when the tables are generated, and when the first 2 MiB are remapped. *)
Variables m m' : MemoryMap.MemoryMap.
Hypothesis Hwf : MemoryMap.wf m.
Hypothesis Hwf' : MemoryMap.wf m'.

Definition p2 (i : Z) : Z := p2s + 4096 * i.
Definition table_entry (q : Z) : Z := Z.lor q (Z.lor PRESENT WRITABLE).
Definition addr_2mib (i j : Z) : Z := i * ONE_GIG + j * TWO_MEG.
Definition leaf_2mib (i j : Z) : Z := Z.lor (addr_2mib i j) (page_flags_2mib m (addr_2mib i j)).
Definition leaf_4kib (j : Z) : Z := Z.lor (j * 4096) (page_flags_4kib m' (j * 4096)).

(** What the tables hold before ([fine = false]) and after the remapping. *)
Record boot_space (fine : bool) (t : tables) : Prop := {
  bs_dom q es : t !! q = Some es →
    length es = ENTRY_COUNT ∧ (q = p4 ∨ q = p3 ∨ (∃ i, 0 ≤ i < 4 ∧ q = p2 i) ∨ (fine = true ∧ q = p1));
  bs_p4 i : 0 ≤ i < 512 → entry_at t p4 i = Some (if decide (i = 0) then table_entry p3 else 0);
  bs_p3 i : 0 ≤ i < 512 → entry_at t p3 i = Some (if decide (i < 4) then table_entry (p2 i) else 0);
  bs_p2 i j : 0 ≤ i < 4 → 0 ≤ j < 512 →
    entry_at t (p2 i) j = Some (if decide (fine = true ∧ i = 0 ∧ j = 0) then table_entry p1 else leaf_2mib i j);
  bs_p1 j : fine = true → 0 ≤ j < 512 → entry_at t p1 j = Some (leaf_4kib j)
}.

(** *** The two functions establish it *)
Lemma boot_set_addr_spec a fl : a mod 4096 = 0 → boot_set_addr a fl = Ret (Z.lor a fl).
Proof. intros Ha. unfold boot_set_addr. by rewrite Ha. Qed.

Lemma pde_entry_spec i j : pde_entry m i j = Ret (leaf_2mib i j).
Proof.
  unfold pde_entry. destruct (MemoryMap.get_region_by_addr_first m (i * ONE_GIG + j * TWO_MEG) Hwf) as (o & -> & Ho). cbn [mbind run_bind].
  unfold leaf_2mib. rewrite <- (flags_2mib_bits m (addr_2mib i j) o Ho). apply boot_set_addr_spec. unfold addr_2mib.
  replace (i * ONE_GIG + j * TWO_MEG) with ((i * 262144 + j * 512) * 4096) by (unfold ONE_GIG, TWO_MEG, ONE_MEG; lia).
  apply Z.mod_mul. lia.
Qed.

Lemma apart : p4 ≠ p3 ∧ p4 ≠ p1 ∧ p3 ≠ p1
  ∧ ∀ i, 0 ≤ i < 4 → p2 i ≠ p4 ∧ p2 i ≠ p3 ∧ p2 i ≠ p1 ∧ (∀ j, 0 ≤ j < 4 → p2 i = p2 j → i = j).
Proof.
  pose proof (lay_apart _ _ _ _ _ Hlay) as Hnd. rewrite !NoDup_cons, !not_elem_of_cons in Hnd. destruct_and!.
  split_and!; try congruence. intros i Hi. unfold p2.
  assert (i = 0 ∨ i = 1 ∨ i = 2 ∨ i = 3) as [->|[->|[->| ->]]] by lia; split_and!; intros; lia.
Qed.

Definition allocator (i : Z) : FrameAlloc.PageTableAllocator :=
  {| FrameAlloc.pt_index := i; FrameAlloc.pt_start := p2s; FrameAlloc.pt_end := p2e |}.
Lemma allocator_next i : 0 ≤ i < 4 → FrameAlloc.page_table_next (allocator i) = Ret (Some (p2 i), allocator (i + 1)).
Proof.
  intros Hi. destruct Hlay as [_ (_ & _ & Hr & _) Hroom _].
  unfold FrameAlloc.page_table_next, allocator. cbn [FrameAlloc.pt_index FrameAlloc.pt_start FrameAlloc.pt_end].
  rewrite umul_Ret by lia. cbn [mbind run_bind]. rewrite (uadd_Ret 32 p2s) by lia. cbn [mbind run_bind].
  change (umax 32 - 15) with 4294967280. destruct (Z.leb_spec (p2s + 4096 * i) 4294967280); [|lia].
  cbn [mbind run_bind unwrap]. destruct (Z.ltb_spec p2e (p2s + 4096 * i)); [lia|].
  rewrite (uadd_Ret 32 i) by lia. done.
Qed.

Lemma p2_aligned i : p2 i mod 4096 = 0.
Proof.
  destruct Hlay as [(_ & _ & Ha & _) _ _ _]. unfold p2. rewrite Z.mul_comm, Z_mod_plus_full. done.
Qed.

Definition es2 (i : Z) : list Z := leaf_2mib i <$> seqZ 0 512.
Lemma fill_gigabyte_spec t es i :
  0 ≤ i < 4 → t !! p3 = Some es → length es = ENTRY_COUNT →
  fill_gigabyte m p3 i (t, allocator i)
  = Ret (<[p3 := <[Z.to_nat i := table_entry (p2 i)]> es]> (<[p2 i := es2 i]> t), allocator (i + 1)).
Proof.
  intros Hi Hp3 Hlen. destruct apart as (_ & _ & _ & Hap). destruct (Hap i Hi) as (_ & H3 & _).
  unfold fill_gigabyte, zero_table. rewrite allocator_next by done. cbn [mbind run_bind unwrap].
  rewrite (mapM_Ret _ (leaf_2mib i)) by (intros; apply pde_entry_spec). cbn [mbind run_bind].
  rewrite boot_set_addr_spec by apply p2_aligned. cbn [mbind run_bind]. rewrite insert_insert_eq.
  unfold write_entry. rewrite lookup_insert_ne by done. rewrite Hp3, store_Ret by (rewrite Hlen; unfold ENTRY_COUNT; lia). done.
Qed.

(** After [k] turns of the loop. *)
Record filled (k : Z) (t : tables) : Prop := {
  fi_p4 : t !! p4 = Some (<[0%nat := table_entry p3]> table_new);
  fi_p3 : ∃ es, t !! p3 = Some es ∧ length es = ENTRY_COUNT
    ∧ ∀ i, 0 ≤ i < 512 → es !! Z.to_nat i = Some (if decide (i < k) then table_entry (p2 i) else 0);
  fi_p2 i : 0 ≤ i < k → t !! p2 i = Some (es2 i);
  fi_dom q es : t !! q = Some es → q = p4 ∨ q = p3 ∨ ∃ i, 0 ≤ i < k ∧ q = p2 i
}.

Lemma fill_step k t :
  0 ≤ k < 4 → filled k t →
  ∃ t', fill_gigabyte m p3 k (t, allocator k) = Ret (t', allocator (k + 1)) ∧ filled (k + 1) t'.
Proof.
  intros Hk [H4 (es & H3 & Hlen & Hes) H2 Hdom]. destruct apart as (A43 & _ & _ & Hap).
  destruct (Hap k Hk) as (Ak4 & Ak3 & _ & _).
  eexists. split; [by apply fill_gigabyte_spec|]. split.
  - by rewrite !lookup_insert_ne by congruence.
  - eexists. split; [by rewrite lookup_insert_eq|]. split; [by rewrite length_insert|]. intros i Hi.
    destruct (decide (i = k)) as [->|Hne].
    + rewrite list_lookup_insert_eq by (rewrite Hlen; unfold ENTRY_COUNT; lia). by rewrite decide_True by lia.
    + rewrite list_lookup_insert_ne by lia. rewrite Hes by done. do 2 case_decide; try done; lia.
  - intros i Hi. destruct (Hap i) as (_ & Ai3 & _ & Ainj); [lia|]. rewrite lookup_insert_ne by congruence.
    destruct (decide (i = k)) as [->|Hne]; [by rewrite lookup_insert_eq|].
    rewrite lookup_insert_ne by (intros Heq; apply Hne; symmetry in Heq; apply Ainj; [lia|done]). apply H2. lia.
  - intros q es'. rewrite lookup_insert_Some. intros [[<- _]|[_ Hq]]; [by right; left|].
    rewrite lookup_insert_Some in Hq. destruct Hq as [[<- _]|[_ Hq]]; [right; right; exists k; split; [lia|done]|].
    destruct (Hdom _ _ Hq) as [?|[?|(i & ? & ?)]]; [by left|by right; left|right; right; exists i; split; [lia|done]].
Qed.

Lemma lookup_table_new i : 0 ≤ i < 512 → table_new !! Z.to_nat i = Some 0.
Proof. intros Hi. apply lookup_replicate_2. unfold ENTRY_COUNT. lia. Qed.

Lemma filled_space t : filled 4 t → boot_space false t.
Proof.
  intros [H4 (es & H3 & Hlen & Hes) H2 Hdom]. split.
  - intros q es' Hq. destruct (Hdom _ _ Hq) as [->|[->|(i & Hi & ->)]].
    + rewrite H4 in Hq. apply (inj Some) in Hq as <-. split; [by rewrite length_insert|auto].
    + rewrite H3 in Hq. injection Hq as <-. auto.
    + rewrite H2 in Hq by done. injection Hq as <-. unfold es2. rewrite length_fmap, length_seqZ. split; [done|].
      right; right; left. by exists i.
  - intros i Hi. unfold entry_at. rewrite H4. cbn [mbind option_bind]. case_decide as Hc.
    + subst i. change (Z.to_nat 0) with 0%nat. apply list_lookup_insert_eq. unfold table_new, ENTRY_COUNT.
      rewrite length_replicate. lia.
    + rewrite list_lookup_insert_ne by lia. by apply lookup_table_new.
  - intros i Hi. unfold entry_at. rewrite H3. by apply Hes.
  - intros i j Hi Hj. unfold entry_at. rewrite H2 by done. unfold es2. cbn [mbind option_bind].
    rewrite decide_False by (by intros [? _]). rewrite list_lookup_fmap, lookup_seqZ_lt by lia. simpl. do 2 f_equal. lia.
  - done.
Qed.

Lemma generate_spec :
  ∃ t, generate_page_table ∅ p4 p3 p2s p2e m = Ret (t, p4) ∧ boot_space false t.
Proof.
  destruct apart as (A43 & _ & _ & _). destruct (lay_aligned _ _ _ _ _ Hlay) as (_ & Hp3 & _).
  unfold generate_page_table. rewrite boot_set_addr_spec by done. cbn [mbind run_bind]. unfold zero_table, write_entry.
  rewrite lookup_insert_eq, store_Ret by (unfold table_new, ENTRY_COUNT; rewrite length_replicate; simpl; lia).
  cbn [mbind run_bind]. rewrite insert_insert_eq. fold (allocator 0). fold (table_entry p3).
  set (t0 := <[p3 := table_new]> _).
  assert (filled 0 t0) as F0.
  { split.
    - unfold t0. by rewrite lookup_insert_ne, lookup_insert_eq by congruence.
    - exists table_new. unfold t0. rewrite lookup_insert_eq. split_and!; [done|done|]. intros i Hi.
      rewrite decide_False by lia. by apply lookup_table_new.
    - intros; lia.
    - intros q es. unfold t0. rewrite !lookup_insert_Some, lookup_empty. naive_solver. }
  destruct (fill_step 0 t0) as (t1 & R1 & F1); [lia|done|]. destruct (fill_step 1 t1) as (t2 & R2 & F2); [lia|done|].
  destruct (fill_step 2 t2) as (t3 & R3 & F3); [lia|done|]. destruct (fill_step 3 t3) as (t4 & R4 & F4); [lia|done|].
  change (0 + 1) with 1 in *. change (1 + 1) with 2 in *. change (2 + 1) with 3 in *. change (3 + 1) with 4 in *.
  exists t4. cbn [for_each]. rewrite R1. cbn [mbind run_bind]. rewrite R2. cbn [mbind run_bind].
  rewrite R3. cbn [mbind run_bind]. rewrite R4. cbn [mbind run_bind]. split; [done|]. by apply filled_space.
Qed.

(** *** [remap_first_2mb_with_4kb] *)
Lemma low_frame q : 0 ≤ q < 2 ^ 32 → q mod 4096 = 0 → page_frame q.
Proof. intros Hq Hm. split; [unfold physical; lia|done]. Qed.
Lemma table_frames : page_frame p3 ∧ page_frame p1 ∧ ∀ i, 0 ≤ i < 4 → page_frame (p2 i).
Proof.
  destruct Hlay as [(? & ? & ? & ?) (? & ? & ? & ?) _ _]. split_and!; [apply low_frame; [lia|done]..|].
  intros i Hi. apply low_frame; [unfold p2; lia|apply p2_aligned].
Qed.
Lemma table_entry_spec q : page_frame q →
  entry_addr (table_entry q) = q ∧ present (table_entry q) = true ∧ huge (table_entry q) = false.
Proof.
  intros Hq. destruct (stored_entry q (Z.lor PRESENT WRITABLE)) as (? & _ & ? & ?); [done|by vm_compute|]. done.
Qed.

(** The entries before the text page is set. *)
Definition plain_4kib (j : Z) : Z :=
  Z.lor (j * 4096) (flags_4kib (match MemoryMap.get_region_by_addr m' (j * 4096) with Ret o => o | Panic _ => None end) (j * 4096)).
Lemma pte_entry_spec j : pte_entry m' j = Ret (plain_4kib j).
Proof.
  unfold pte_entry, plain_4kib. destruct (MemoryMap.get_region_by_addr_first m' (j * 4096) Hwf') as (o & -> & _). cbn [mbind run_bind].
  apply boot_set_addr_spec, Z.mod_mul. lia.
Qed.
Lemma plain_4kib_spec j : j ≠ 184 → plain_4kib j = leaf_4kib j.
Proof.
  intros Hj. unfold plain_4kib, leaf_4kib. destruct (MemoryMap.get_region_by_addr_first m' (j * 4096) Hwf') as (o & -> & Ho).
  by rewrite (flags_4kib_bits m' (j * 4096) o Ho) by lia.
Qed.

Lemma entry_at_insert t q es x j : entry_at (<[q := es]> t) x j = if decide (x = q) then es !! Z.to_nat j else entry_at t x j.
Proof. unfold entry_at. case_decide as Hx; [subst; by rewrite lookup_insert_eq|by rewrite lookup_insert_ne]. Qed.

Definition es1 : list Z := plain_4kib <$> seqZ 0 512.
Definition vga_entry : Z := Z.lor VGA VGA_FLAGS.
Lemma length_es1 : length es1 = ENTRY_COUNT.
Proof. unfold es1. by rewrite length_fmap, length_seqZ. Qed.

(** The store that the remapping leaves behind. *)
Lemma remap_run t :
  boot_space false t →
  ∃ es0, t !! p2 0 = Some es0 ∧ length es0 = ENTRY_COUNT
    ∧ remap_first_2mb_with_4kb t p3 p1 m'
      = Ret (<[p1 := <[184%nat := vga_entry]> es1]> (<[p2 0 := <[0%nat := table_entry p1]> es0]> (<[p1 := table_new]> t))).
Proof.
  intros [Hdom _ H3 H2 _]. destruct apart as (_ & _ & _ & Hap). destruct (Hap 0) as (_ & _ & A21 & _); [lia|].
  destruct table_frames as (_ & F1 & F2). destruct (table_entry_spec (p2 0)) as (Ha & _ & _); [apply F2; lia|].
  destruct (t !! p2 0) as [es0|] eqn:E0; [|specialize (H2 0 0 ltac:(lia) ltac:(lia)); unfold entry_at in H2; by rewrite E0 in H2].
  destruct (Hdom _ _ E0) as [Hl0 _]. exists es0. split_and!; [done..|].
  unfold remap_first_2mb_with_4kb. rewrite (read_entry_spec _ _ _ _ (H3 0 ltac:(lia))).
  cbn [mbind run_bind]. change (boot_addr (table_entry (p2 0))) with (entry_addr (table_entry (p2 0))). rewrite Ha.
  rewrite (boot_set_addr_spec p1) by exact (proj2 F1). cbn [mbind run_bind]. fold (table_entry p1).
  assert (write_entry (zero_table t p1) (p2 0) 0 (table_entry p1)
    = Ret (<[p2 0 := <[0%nat := table_entry p1]> es0]> (zero_table t p1))) as ->.
  { unfold write_entry, zero_table. rewrite lookup_insert_ne by congruence.
    by rewrite E0, store_Ret by (rewrite Hl0; unfold ENTRY_COUNT; simpl; lia). }
  unfold zero_table. cbn [mbind run_bind]. rewrite (mapM_Ret _ _ _ (λ j _, pte_entry_spec j)). cbn [mbind run_bind].
  fold es1. rewrite boot_set_addr_spec by done. cbn [mbind run_bind]. unfold write_entry. rewrite lookup_insert_eq.
  change (Z.land (Z.shiftr VGA 12) 0x1ff) with 184. rewrite store_Ret by (rewrite length_es1; unfold ENTRY_COUNT; lia).
  cbn [mbind run_bind]. by rewrite insert_insert_eq.
Qed.

Lemma remap_spec t :
  boot_space false t → ∃ t', remap_first_2mb_with_4kb t p3 p1 m' = Ret t' ∧ boot_space true t'.
Proof.
  intros Hb. destruct (remap_run t Hb) as (es0 & E0 & Hl0 & ->). destruct Hb as [Hdom H4 H3 H2 _].
  destruct apart as (A43 & A41 & A31 & Hap). destruct (Hap 0) as (A24 & A23 & A21 & _); [lia|].
  pose proof length_es1 as Hl1.
  eexists. split; [done|]. split.
  - intros q es. rewrite lookup_insert_Some. intros [[<- <-]|[Hq1 Hq]].
    { rewrite length_insert. split; [done|]. by right; right; right. }
    rewrite lookup_insert_Some in Hq. destruct Hq as [[<- <-]|[_ Hq]].
    { rewrite length_insert. split; [done|]. right; right; left. exists 0. split; [lia|done]. }
    rewrite lookup_insert_ne in Hq by done. destruct (Hdom _ _ Hq) as [Hl [?|[?|[?|[? _]]]]]; [tauto..|done].
  - intros i Hi. rewrite !entry_at_insert, !decide_False by congruence. by apply H4.
  - intros i Hi. rewrite !entry_at_insert, !decide_False by congruence. by apply H3.
  - intros i j Hi Hj. destruct (Hap i Hi) as (_ & _ & Ai1 & Aii). rewrite !entry_at_insert, decide_False by done. rewrite (decide_False (P := p2 i = p1)) by done.
    destruct (decide (p2 i = p2 0)) as [Hii|Hii].
    + assert (i = 0) as -> by (apply Aii; [lia|done]). destruct (decide (j = 0)) as [->|Hj0].
      * rewrite decide_True by done. apply list_lookup_insert_eq. rewrite Hl0. unfold ENTRY_COUNT. lia.
      * rewrite decide_False by tauto. rewrite list_lookup_insert_ne by lia. specialize (H2 0 j Hi Hj).
        unfold entry_at in H2. rewrite E0 in H2. cbn [mbind option_bind] in H2. rewrite H2. by rewrite decide_False by (by intros [? _]).
    + rewrite decide_False by (intros (_ & -> & _); done). rewrite H2 by done. by rewrite decide_False by (by intros [? _]).
  - intros j _ Hj. rewrite entry_at_insert, decide_True by done. destruct (decide (j = 184)) as [->|Hne].
    + rewrite list_lookup_insert_eq by (rewrite Hl1; unfold ENTRY_COUNT; lia). done.
    + rewrite list_lookup_insert_ne by lia. unfold es1. rewrite list_lookup_fmap, lookup_seqZ_lt by lia.
      cbn. f_equal. rewrite Z2Nat.id, Z.add_0_l by lia. by apply plain_4kib_spec.
Qed.

(** *** The boot tables form a tree *)
Definition path_of (q : Z) : list Z :=
  if decide (q = p4) then [] else if decide (q = p3) then [0]
  else if decide (q = p1) then [0; 0; 0] else [0; (q - p2s) / 4096].
Lemma path_p4 : path_of p4 = [].
Proof. unfold path_of. by rewrite decide_True. Qed.
Lemma path_p3 : path_of p3 = [0].
Proof. destruct apart as (? & _). unfold path_of. by rewrite decide_False, decide_True by congruence. Qed.
Lemma path_p1 : path_of p1 = [0; 0; 0].
Proof. destruct apart as (? & ? & ? & _). unfold path_of. by rewrite !decide_False, decide_True by congruence. Qed.
Lemma path_p2 i : 0 ≤ i < 4 → path_of (p2 i) = [0; i].
Proof.
  intros Hi. destruct apart as (_ & _ & _ & Hap). destruct (Hap i Hi) as (? & ? & ? & _).
  unfold path_of. rewrite !decide_False by done. unfold p2.
  replace (p2s + 4096 * i - p2s) with (i * 4096) by lia. by rewrite Z.div_mul by lia.
Qed.

Lemma entry_inv fine t q j e :
  boot_space fine t → entry_at t q j = Some e → 0 ≤ j →
  j < 512 ∧ ((q = p4 ∧ e = if decide (j = 0) then table_entry p3 else 0)
    ∨ (q = p3 ∧ e = if decide (j < 4) then table_entry (p2 j) else 0)
    ∨ (∃ i, 0 ≤ i < 4 ∧ q = p2 i
        ∧ e = if decide (fine = true ∧ i = 0 ∧ j = 0) then table_entry p1 else leaf_2mib i j)
    ∨ (fine = true ∧ q = p1 ∧ e = leaf_4kib j)).
Proof.
  intros Hb He Hj. assert (j < 512) as Hlt.
  { unfold entry_at in He. destruct (t !! q) as [es|] eqn:Hq; [|done]. destruct (bs_dom _ _ Hb _ _ Hq) as [Hl _].
    cbn [mbind option_bind] in He. apply lookup_lt_Some in He. rewrite Hl in He. unfold ENTRY_COUNT in He. lia. }
  split; [done|]. destruct (t !! q) as [es|] eqn:Hq; [|unfold entry_at in He; by rewrite Hq in He].
  destruct (bs_dom _ _ Hb _ _ Hq) as [_ [->|[->|[(i & Hi & ->)|[-> ->]]]]].
  - left. rewrite (bs_p4 _ _ Hb) in He by lia. by injection He as <-.
  - right; left. rewrite (bs_p3 _ _ Hb) in He by lia. by injection He as <-.
  - right; right; left. rewrite (bs_p2 _ _ Hb) in He by lia. injection He as <-. by exists i.
  - right; right; right. rewrite (bs_p1 _ _ Hb) in He by lia. by injection He as <-.
Qed.

Lemma leaf_2mib_spec i j : 0 ≤ i < 4 → 0 ≤ j < 512 →
  page_frame (addr_2mib i j) ∧ entry_addr (leaf_2mib i j) = addr_2mib i j
  ∧ flags (leaf_2mib i j) = page_flags_2mib m (addr_2mib i j)
  ∧ present (leaf_2mib i j) = true ∧ huge (leaf_2mib i j) = true.
Proof.
  intros Hi Hj. destruct (page_flags_2mib_ok m (addr_2mib i j)) as (Hv & Hp & Hh).
  assert (page_frame (addr_2mib i j)) as Hf.
  { unfold addr_2mib, ONE_GIG, TWO_MEG, ONE_MEG. apply low_frame; [lia|].
    replace (_ + _) with ((i * 262144 + j * 512) * 4096) by lia. apply Z.mod_mul. lia. }
  destruct (stored_entry _ _ Hf Hv) as (? & ? & Hp' & Hh'). unfold leaf_2mib. by rewrite Hp', Hh'.
Qed.
Lemma leaf_4kib_spec j : 0 ≤ j < 512 →
  page_frame (j * 4096) ∧ entry_addr (leaf_4kib j) = j * 4096 ∧ flags (leaf_4kib j) = page_flags_4kib m' (j * 4096)
  ∧ present (leaf_4kib j) = true ∧ huge (leaf_4kib j) = false.
Proof.
  intros Hj. destruct (page_flags_4kib_ok m' (j * 4096)) as (Hv & Hp & Hh).
  assert (page_frame (j * 4096)) as Hf by (apply low_frame; [lia|apply Z.mod_mul; lia]).
  destruct (stored_entry _ _ Hf Hv) as (? & ? & Hp' & Hh'). unfold leaf_4kib. by rewrite Hp', Hh'.
Qed.

Lemma dom_in fine t q j e : boot_space fine t → 0 ≤ j → entry_at t q j = Some e → is_Some (t !! q).
Proof. intros _ _. unfold entry_at. by destruct (t !! q). Qed.

Lemma boot_tree fine t : boot_space fine t → tree t p4 path_of.
Proof.
  intros Hb. destruct table_frames as (F3 & F1 & F2).
  destruct (table_entry_spec p3 F3) as (E3 & P3 & U3). destruct (table_entry_spec p1 F1) as (E1 & P1 & U1).
  destruct zero_entry as [Z0 ZH]. assert (∀ q, covered (entry_addr q) ↔ 0 ≤ entry_addr q < 2 ^ 47) as Hcov by done.
  destruct Hlay as [_ (R4 & R3 & R2 & R1) _ _].
  split.
  - apply path_p4.
  - by eapply (dom_in fine t p4 0), (bs_p4 _ _ Hb 0).
  - intros q es Hq. by destruct (bs_dom _ _ Hb _ _ Hq).
  - intros q j e He Hj. destruct (entry_inv _ _ _ _ _ Hb He Hj)
      as [Hlt [[-> ->]|[[-> ->]|[(i & Hi & -> & ->)|(-> & -> & ->)]]]]; try case_decide; auto.
    + right. by apply table_entry_spec, F2.
    + right. by apply leaf_2mib_spec.
    + right. by apply leaf_4kib_spec.
  - intros q j e He Hj Htab Hd. apply is_table_inv in Htab as [Hp Hh]. destruct (entry_inv _ _ _ _ _ Hb He Hj)
      as [Hlt [[-> ->]|[[-> ->]|[(i & Hi & -> & ->)|(-> & -> & ->)]]]].
    + case_decide as Hc; [subst j|congruence]. rewrite Hcov. unfold target. rewrite E3. cbn. rewrite path_p4, path_p3.
      split_and!; [lia..|done|]. by eapply (dom_in fine t p3 0), (bs_p3 _ _ Hb 0).
    + case_decide as Hc; [|congruence]. destruct (table_entry_spec (p2 j)) as (E2 & _); [apply F2; lia|].
      rewrite Hcov. unfold target. rewrite E2. cbn. rewrite path_p3, path_p2 by lia.
      split_and!; [unfold p2; lia..|done|]. eapply (dom_in fine t (p2 j) 0), (bs_p2 _ _ Hb j 0); [done|lia..].
    + case_decide as Hc; [destruct Hc as (-> & -> & ->)|].
      2:{ destruct (leaf_2mib_spec i j) as (_ & _ & _ & _ & Hx); [done|lia|congruence]. }
      rewrite Hcov. unfold target. rewrite E1. cbn. rewrite path_p1, path_p2 by lia.
      split_and!; [lia..|done|]. eapply (dom_in true t p1 0), (bs_p1 _ _ Hb 0); [done|lia|done|lia].
    + rewrite path_p1 in Hd. simpl in Hd. lia.
  - intros j e He Hj. destruct (entry_inv _ _ _ _ _ Hb He Hj) as [Hlt _]. rewrite (bs_p4 _ _ Hb) in He by lia.
    injection He as <-. by case_decide.
Qed.

(** *** The translation of every address *)
Lemma boot_mapping fine t v :
  boot_space fine t →
  mapping t p4 (idxs v) =
    if decide (p4_index v = 0 ∧ p3_index v < 4) then
      if decide (fine = true ∧ p3_index v = 0 ∧ p2_index v = 0) then Some (0%nat, leaf_4kib (p1_index v))
      else Some (1%nat, leaf_2mib (p3_index v) (p2_index v))
    else None.
Proof.
  intros Hb. destruct (idx_good v) as (G4 & G3 & G2 & G1). unfold good_idx in *.
  destruct table_frames as (F3 & F1 & F2).
  destruct (table_entry_spec p3 F3) as (E3 & P3 & U3). destruct (table_entry_spec p1 F1) as (E1 & P1 & U1).
  destruct zero_entry as [Z0 _]. unfold idxs. cbn [mapping]. rewrite (bs_p4 _ _ Hb) by done.
  destruct (decide (p4_index v = 0)) as [H4|H4]; [|rewrite Z0; by rewrite decide_False by tauto].
  rewrite P3, U3. cbn [negb]. unfold target at 1. rewrite E3. cbn [pointer_of identity_mapping].
  rewrite (bs_p3 _ _ Hb) by done.
  destruct (decide (p3_index v < 4)) as [H3|H3]; [|rewrite Z0; by rewrite decide_False by tauto].
  rewrite (decide_True (P := p4_index v = 0 ∧ _)) by done.
  destruct (table_entry_spec (p2 (p3_index v))) as (E2 & P2 & U2); [apply F2; lia|].
  rewrite P2, U2. cbn [negb]. unfold target at 1. rewrite E2. cbn [pointer_of identity_mapping].
  rewrite (bs_p2 _ _ Hb) by lia. case_decide as Hc.
  - destruct Hc as (-> & Hc). rewrite P1, U1. cbn [negb]. unfold target. rewrite E1. cbn [pointer_of identity_mapping].
    rewrite (bs_p1 _ _ Hb) by done. by destruct (leaf_4kib_spec (p1_index v)) as (_ & _ & _ & -> & _).
  - by destruct (leaf_2mib_spec (p3_index v) (p2_index v)) as (_ & _ & _ & -> & ->); [lia|done|].
Qed.

Definition boot_translation (fine : bool) (v : Z) : TranslateResult :=
  if decide (0 ≤ v < 2 ^ 32) then
    if decide (fine = true ∧ v < 2 ^ 21) then
      Mapped (Frame Size4KiB (v - v mod 2 ^ 12)) (v mod 2 ^ 12) (page_flags_4kib m' (v - v mod 2 ^ 12))
    else Mapped (Frame Size2MiB (v - v mod 2 ^ 21)) (v mod 2 ^ 21) (page_flags_2mib m (v - v mod 2 ^ 21))
  else NotMapped.

Lemma low_indices v : 0 ≤ v < 2 ^ 32 →
  p4_index v = 0 ∧ p3_index v = v / 2 ^ 30 ∧ v / 2 ^ 30 < 4 ∧ addr_2mib (p3_index v) (p2_index v) = v - v mod TWO_MEG
  ∧ (v < TWO_MEG → p3_index v = 0 ∧ p2_index v = 0 ∧ p1_index v * 4096 = v - v mod 4096)
  ∧ (p3_index v = 0 ∧ p2_index v = 0 → v < TWO_MEG).
Proof.
  intros Hv. unfold addr_2mib, ONE_GIG, TWO_MEG, ONE_MEG.
  rewrite p4_index_spec, p3_index_spec, p2_index_spec, p1_index_spec.
  assert (v / 2 ^ 30 < 4) as H30 by (apply Z.div_lt_upper_bound; lia).
  assert (0 ≤ v / 2 ^ 30) by (apply Z.div_pos; lia).
  rewrite (Z.div_small v (2 ^ 39)) by lia. rewrite (Z.mod_small (v / 2 ^ 30)) by lia.
  pose proof (div_split v 21 ltac:(lia)) as H21. change (21 + 9) with 30 in H21.
  pose proof (Z.div_mod v (2 ^ 21) ltac:(lia)) as D21. pose proof (Z.div_mod v 4096 ltac:(lia)) as D12.
  change (1048576 * 2) with (2 ^ 21). change (2 ^ 12) with 4096.
  split_and!; [done..|lia| |].
  - intros Hlt. rewrite (Z.div_small v (2 ^ 30)), (Z.div_small v (2 ^ 21)) by lia.
    rewrite (Z.mod_small (v / 4096)) by (split; [apply Z.div_pos; lia|apply Z.div_lt_upper_bound; lia]).
    split_and!; [done..|lia].
  - intros [E0 H0]. pose proof (Z.mod_pos_bound v (2 ^ 21) ltac:(lia)). lia.
Qed.

Lemma high_indices v : canonical v → ¬ 0 ≤ v < 2 ^ 32 → ¬ (p4_index v = 0 ∧ p3_index v < 4).
Proof.
  intros Hc Hv [H4 H3]. rewrite p4_index_spec in H4. rewrite p3_index_spec in H3.
  pose proof (div_split v 30 ltac:(lia)) as D30. change (30 + 9) with 39 in D30.
  pose proof (Z.div_mod v (2 ^ 30) ltac:(lia)) as E30. pose proof (Z.mod_pos_bound v (2 ^ 30) ltac:(lia)).
  pose proof (Z.div_mod (v / 2 ^ 39) 512 ltac:(lia)) as E39. rewrite H4 in E39.
  pose proof (Z.mod_pos_bound (v / 2 ^ 30) 512 ltac:(lia)). unfold canonical in Hc. lia.
Qed.

Lemma boot_translate fine t v :
  boot_space fine t → canonical v → translate t p4 v = Ret (boot_translation fine v).
Proof.
  intros Hb Hc. rewrite (translate_spec t p4 path_of) by (by eapply boot_tree). rewrite (boot_mapping fine) by done.
  f_equal. unfold boot_translation. change (2 ^ 21) with TWO_MEG. change (2 ^ 12) with 4096.
  destruct (decide (0 ≤ v < 2 ^ 32)) as [Hv|Hv].
  2:{ by rewrite decide_False by (by apply high_indices). }
  destruct (low_indices v Hv) as (H4 & H3 & H3' & Ha & Hfine & Hfine'). destruct (idx_good v) as (_ & G3 & G2 & G1).
  rewrite decide_True by lia. destruct (decide (fine = true ∧ v < TWO_MEG)) as [[-> Hlt]|Hn].
  - destruct (Hfine Hlt) as (-> & -> & H1). rewrite decide_True by done. cbn [translation].
    destruct (leaf_4kib_spec (p1_index v) G1) as (_ & -> & -> & _). by rewrite H1.
  - rewrite decide_False by tauto. cbn [translation].
    destruct (leaf_2mib_spec (p3_index v) (p2_index v)) as (_ & -> & -> & _); [unfold good_idx in *; lia|done|].
    rewrite Ha. change (SIZE Size2MiB) with TWO_MEG. f_equal. f_equal.
    rewrite (Zminus_mod v), Z.mod_mod, Z.sub_diag by done. rewrite Z.mod_0_l by done. lia.
Qed.


(** C16: [remap_first_2mb_with_4kb], run on the tables just generated and with the
    memory map as it is then, never panics and keeps a tree.  Each address below
    2 MiB, frame zero included, now translates to itself through a present 4 KiB page:
    writable if its region is usable or the trampoline, read-only and executable if it
    is the kernel or the bootloader, otherwise read-only and not executable, and not
    cached below 1 MiB or outside every region; the VGA text page is writable, not
    executable and not cached whatever its region.  Every other address translates as
    before. *)
Theorem remap_low_2mib :
  ∃ t t' path, generate_page_table ∅ p4 p3 p2s p2e m = Ret (t, p4)
    ∧ remap_first_2mb_with_4kb t p3 p1 m' = Ret t' ∧ tree t' p4 path
    ∧ (∀ v, canonical v → translate t' p4 v = Ret (boot_translation true v))
    ∧ ∀ v, canonical v → ¬ 0 ≤ v < 2 ^ 21 → translate t' p4 v = translate t p4 v.
Proof.
  destruct generate_spec as (t & Hg & Hb). destruct (remap_spec t Hb) as (t' & Hr & Hb').
  exists t, t', path_of. split_and!; [done|done|by eapply boot_tree|intros v Hv; by apply boot_translate|].
  intros v Hv Hn. rewrite (boot_translate true t' v Hb' Hv), (boot_translate false t v Hb Hv). f_equal. unfold boot_translation.
  case_decide; [|done]. rewrite !decide_False; [done|intros [? _]; done|intros [_ ?]; lia].
Qed.
End boot.

(** *** A concrete placement *)
#[local] Existing Instance bit_field_model.
Lemma sample_layout : layout 0x1000 0x2000 0x3000 0x7000 0x8000.
Proof. split; [by vm_compute|by vm_compute|lia|]. by apply (bool_decide_unpack _). Qed.


Lemma remap_low_2mib_witness :
  ∃ t t' path, generate_page_table ∅ 0x1000 0x2000 0x3000 0x7000 MemoryMap.sample = Ret (t, 0x1000)
    ∧ remap_first_2mb_with_4kb t 0x2000 0x8000 MemoryMap.sample = Ret t' ∧ tree t' 0x1000 path
    ∧ (∀ v, canonical v → translate t' 0x1000 v = Ret (boot_translation MemoryMap.sample MemoryMap.sample true v))
    ∧ ∀ v, canonical v → ¬ 0 ≤ v < 2 ^ 21 → translate t' 0x1000 v = translate t 0x1000 v.
Proof.
  apply (remap_low_2mib 0x1000 0x2000 0x3000 0x7000 0x8000);
    [exact sample_layout|by apply MemoryMap.single_wf; vm_compute|by apply MemoryMap.single_wf; vm_compute].
Defined.
End Mmu.
