(* ===== verification/Boot.v ===== *)
(** * crates/bootloader/src/main.rs: how the memory map is built

    The phases of [bootloader_main] that turn the multiboot2 memory areas into the
    memory map the kernel receives: conversion, repair of overlapping areas, marking of
    memory below 1 MiB, the check that the loaded image lies in usable memory, and the
    reservation of frame zero, the SMP trampoline, the bootloader, the kernel and the
    page tables. *)
From S2P Require Import Prelude MemoryMap FrameAlloc.
Import MemoryMap.

Module Boot.

(** ** The multiboot2 memory areas (crates/multiboot2/multiboot2/src/memory_map.rs) *)
Inductive MemoryAreaType := Available | Reserved | AcpiAvailable | ReservedHibernate | Defective.
Record MemoryArea := mkArea { base_addr : Z; length : Z; typ : MemoryAreaType }.
Definition area_start_address (a : MemoryArea) : Z := base_addr a.
Definition area_end_address (a : MemoryArea) : run Z := uadd 64 (base_addr a) (length a).
Definition area_size (a : MemoryArea) : Z := length a.
(** [memory_areas]: the available ones. *)
Definition memory_areas (l : list MemoryArea) : list MemoryArea :=
  List.filter (λ a, match typ a with Available => true | _ => false end) l.

Section phases.
Context `{!SortUnstable MemoryRegion}.

(** ** Convert memory areas to a memory map *)
Definition area_region_type (t : MemoryAreaType) : MemoryRegionType :=
  match t with
  | Reserved => MemoryMap.Reserved
  | Available => Usable
  | AcpiAvailable => AcpiReclaimable
  | ReservedHibernate => AcpiNvs
  | Defective => BadMemory
  end.
Definition add_area (a : MemoryArea) (st : MemoryMap * Z) : run (MemoryMap * Z) :=
  let '(m, existing_ram) := st in
  ram ← uadd 64 existing_ram (area_size a);
  e ← area_end_address a;
  rg ← new_range (area_start_address a) e;
  m' ← add_region m (mkRegion rg (area_region_type (typ a)));
  Ret (m', ram).
(** Returns the map, [existing_ram] and [available_ram]. *)
Definition convert_areas (areas : list MemoryArea) : run (MemoryMap * Z * Z) :=
  '(m, existing_ram) ← for_each add_area areas (MemoryMap.new, 0);
  available_ram ← for_each (λ a sum, uadd 64 sum (area_size a)) (memory_areas areas) 0;
  _ ← usub existing_ram available_ram;
  Ret (m, existing_ram, available_ram).

(** ** Fix overlapping memory ranges

    [last] is a reference into the slice that is being iterated: an index. *)
Definition fix_step (i : nat) (st : list MemoryRegion * option nat) : run (list MemoryRegion * option nat) :=
  let '(l, last) := st in
  map ← index l i;
  match last with
  | Some li =>
      lst ← index l li;
      s ← start_addr (range map);
      hit ← intersects (range lst) s;
      if hit : bool then
        e ← end_addr (range lst);
        if decide (region_type map = Usable) then
          Ret (<[i := with_start map e]> l, last)
        else
          em ← end_addr (range map);
          let map' := with_end map (Z.max e em) in
          s' ← start_addr (range map');
          Ret (<[li := with_end lst s']> (<[i := map']> l), Some i)
      else Ret (l, Some i)
  | None => Ret (l, Some i)
  end.
Definition fix_overlaps (m : MemoryMap) : run MemoryMap :=
  l ← deref m;
  '(l', _) ← for_each fix_step (seq 0 (List.length l)) (l, None);
  Ret {| entries := l' ++ drop (next_entry_index m) (entries m); next_entry_index := next_entry_index m |}.

(** ** Usable memory below 1 MiB becomes UsableButDangerous

    The loop walks the entries of the map while [partition_memory_region] changes it: the
    number of turns is fixed at the start, each turn reads the current entry. *)
Definition one_mib : Z := 0x100000.
Definition partition_unwrap (m : MemoryMap) (s e : Z) (t : MemoryRegionType) : run MemoryMap :=
  '(m', r) ← partition_memory_region m s e t;
  _ ← unwrap (match r with Ok l => Some l | Err _ => None end);
  Ret m'.
Definition mark_step (i : nat) (m : MemoryMap) : run MemoryMap :=
  map ← index (entries m) i;
  if decide (region_type map = Usable) then
    s ← start_addr (range map);
    e ← end_addr (range map);
    if (s <? one_mib) && (e <? one_mib) then partition_unwrap m s e UsableButDangerous
    else if (s <? one_mib) && (one_mib <? e) then partition_unwrap m s one_mib UsableButDangerous
    else Ret m
  else Ret m.
Definition mark_low_memory (m : MemoryMap) : run MemoryMap :=
  l ← deref m; for_each mark_step (seq 0 (List.length l)) m.

(** ** The loaded image lies in usable memory *)
Definition check_page (m : MemoryMap) (a : Z) (_ : unit) : run unit :=
  o ← get_region_by_addr m a;
  match o with
  | Some region =>
      if negb (bool_decide (region_type region = Usable)) && negb (bool_decide (region_type region = UsableButDangerous))
      then Panic Explicit else Ret tt
  | None => Panic Explicit
  end.
Definition check (m : MemoryMap) (addr addr_end : Z) : run unit :=
  r ← urem addr 4096;
  if negb (r =? 0) then Panic Explicit
  else if addr_end <=? addr then Panic Explicit
  else for_each (check_page m) (step_by addr addr_end 4096) tt.

(** The linker symbols. *)
Record image := mkImage {
  smp_trampoline_start : Z; smp_trampoline_end : Z;
  bootloader_start : Z; bootloader_end : Z;
  kernel_start : Z; kernel_end : Z;
  page_table_start : Z; page_table_end : Z;
  minimum_mem_requirement : Z
}.
Definition TWO_MEG : Z := 1048576 * 2.

Definition check_image (m : MemoryMap) (im : image) (available_ram apic_id : Z) : run unit :=
  _ ← check m (smp_trampoline_start im) (smp_trampoline_end im);
  _ ← check m (bootloader_start im) (bootloader_end im);
  _ ← check m (kernel_start im) (kernel_end im);
  _ ← check m (page_table_start im) (page_table_end im);
  if TWO_MEG <=? bootloader_end im then Panic Explicit
  else if available_ram <? minimum_mem_requirement im then Panic Explicit
  else if negb (kernel_start im =? TWO_MEG) then Panic Explicit
  else if negb (apic_id =? 0) then Panic Explicit
  else Ret tt.

(** ** Update MEM_MAP *)
Definition reserve_image (m : MemoryMap) (im : image) : run MemoryMap :=
  m ← partition_unwrap m 0 4096 FrameZero;
  m ← partition_unwrap m (smp_trampoline_start im) (smp_trampoline_end im) SmpTrampoline;
  m ← partition_unwrap m (bootloader_start im) (bootloader_end im) Bootloader;
  m ← partition_unwrap m (kernel_start im) (kernel_end im) Kernel;
  partition_unwrap m (page_table_start im) (page_table_end im) PageTable.

(** The phases up to the first page table, in the order of [bootloader_main]. *)
Definition build_map (areas : list MemoryArea) (im : image) (apic_id : Z) : run MemoryMap :=
  '(m, _, available_ram) ← convert_areas areas;
  m ← fix_overlaps m;
  m ← mark_low_memory m;
  _ ← check_image m im available_ram apic_id;
  reserve_image m im.
End phases.

(** ** Overlapping areas *)
Abbreviation lo r := (start_frame_number (range r)).
Abbreviation hi r := (end_frame_number (range r)).

(** Regions one after another; a region may be empty but not inverted. *)
Definition laid_out (l : list MemoryRegion) : Prop :=
  Forall (λ r, 0 ≤ lo r ≤ hi r) l ∧ StronglySorted (λ a b, hi a ≤ lo b) l.
Definition covers (l : list MemoryRegion) (a : Z) : Prop := ∃ r, r ∈ l ∧ hits a r.
(** Every usable address of [p] belongs to usable regions of [q] only. *)
Definition usable_safe (p q : list MemoryRegion) : Prop :=
  ∀ a r r', r ∈ p → region_type r = Usable → hits a r → r' ∈ q → hits a r' → region_type r' = Usable.

Lemma regions_cover_app l l' a : covers (l ++ l') a ↔ covers l a ∨ covers l' a.
Proof. unfold covers. setoid_rewrite elem_of_app. naive_solver. Qed.
Lemma regions_cover_one r a : covers [r] a ↔ hits a r.
Proof. unfold covers. setoid_rewrite list_elem_of_singleton. naive_solver. Qed.

Lemma laid_out_snoc p r : laid_out (p ++ [r]) ↔ laid_out p ∧ 0 ≤ lo r ≤ hi r ∧ ∀ x, x ∈ p → hi x ≤ lo r.
Proof.
  unfold laid_out. rewrite Forall_app, Forall_singleton, StronglySorted_app. split.
  - intros ([? ?] & Hx & ? & _). split; [done|]. split; [done|]. intros x Hin. apply Hx; [done|by left].
  - intros ([? ?] & ? & Hx). split; [done|]. split; [|split; [done|repeat constructor]].
    intros x y Hin Hy%list_elem_of_singleton. subst y. by apply Hx.
Qed.

(** Coverage of a common part, and arithmetic on the rest. *)
Ltac cover_lia :=
  match goal with |- (?P ∨ ?L) ∨ ?U ↔ (?P ∨ ?L') ∨ ?R => assert (L ∨ U ↔ L' ∨ R) by lia; tauto end.

(** *** One turn of the loop *)
Lemma start_addr_spec r : proper r → start_addr (range r) = Ret (lo r * PAGE_SIZE).
Proof. unfold proper, start_addr. intros. by rewrite umul_Ret by (unfold PAGE_SIZE; lia). Qed.
Lemma end_addr_spec r : proper r → end_addr (range r) = Ret (hi r * PAGE_SIZE).
Proof. unfold proper, end_addr. intros. by rewrite umul_Ret by (unfold PAGE_SIZE; lia). Qed.

Lemma fix_step_unfold pre lst mid r rest :
  proper lst → proper r →
  let i := List.length (pre ++ lst :: mid) in
  fix_step i (pre ++ lst :: mid ++ r :: rest, Some (List.length pre)) =
    Ret (if decide (lo lst ≤ lo r < hi lst) then
           if decide (region_type r = Usable) then
             (pre ++ lst :: mid ++ with_start r (hi lst * PAGE_SIZE) :: rest, Some (List.length pre))
           else (pre ++ with_end lst (lo r * PAGE_SIZE) :: mid
                   ++ with_end r (Z.max (hi lst) (hi r) * PAGE_SIZE) :: rest, Some i)
         else (pre ++ lst :: mid ++ r :: rest, Some i)).
Proof.
  intros Hl Hr i. unfold fix_step.
  assert (pre ++ lst :: mid ++ r :: rest = (pre ++ lst :: mid) ++ r :: rest) as Hassoc by (by rewrite <- app_assoc).
  assert (index (pre ++ lst :: mid ++ r :: rest) i = Ret r) as ->.
  { apply index_Ret. rewrite Hassoc. unfold i. by rewrite list_lookup_middle. }
  assert (index (pre ++ lst :: mid ++ r :: rest) (List.length pre) = Ret lst) as Hlast.
  { apply index_Ret. by rewrite list_lookup_middle. }
  cbn [mbind run_bind]. rewrite Hlast. cbn [mbind run_bind]. rewrite (start_addr_spec r) by done. cbn [mbind run_bind].
  rewrite intersects_spec by done. cbn [mbind run_bind]. unfold hits.
  destruct (decide (lo lst ≤ lo r < hi lst)) as [Hh|Hh].
  2:{ by rewrite bool_decide_eq_false_2 by (unfold PAGE_SIZE; lia). }
  rewrite bool_decide_eq_true_2 by (unfold PAGE_SIZE; lia).
  rewrite (end_addr_spec lst), (end_addr_spec r) by done. cbn [mbind run_bind]. case_decide.
  - do 2 f_equal. rewrite !Hassoc. unfold i. rewrite insert_app_r_alt, Nat.sub_diag by done. by rewrite <- app_assoc.
  - change (start_addr (range (with_end r _))) with (start_addr (range r)).
    rewrite (start_addr_spec r) by done. cbn [mbind run_bind]. do 2 f_equal.
    rewrite Hassoc. unfold i. rewrite insert_app_r_alt, Nat.sub_diag by done. cbn [insert list_insert].
    rewrite <- app_assoc. cbn [app]. rewrite insert_app_r_alt, Nat.sub_diag by done. cbn [insert list_insert].
    by replace (Z.max (hi lst * PAGE_SIZE) (hi r * PAGE_SIZE)) with (Z.max (hi lst) (hi r) * PAGE_SIZE)
      by (unfold PAGE_SIZE; lia).
Qed.

(** *** The loop

    The list while it is repaired: [pre] is finished, [lst] is the region that [last] refers to,
    [mid] are the usable regions trimmed at its end, and [rest] is still to come. *)
Fixpoint settle (pre : list MemoryRegion) (lst : MemoryRegion) (mid rest : list MemoryRegion) : list MemoryRegion :=
  match rest with
  | [] => pre ++ lst :: mid
  | r :: rest' =>
      if decide (lo r < hi lst) then
        if decide (region_type r = Usable) then settle pre lst (mid ++ [with_start r (hi lst * PAGE_SIZE)]) rest'
        else settle (pre ++ with_end lst (lo r * PAGE_SIZE) :: mid) (with_end r (Z.max (hi lst) (hi r) * PAGE_SIZE)) [] rest'
      else settle (pre ++ lst :: mid) r [] rest'
  end.
Definition by_start (l : list MemoryRegion) : Prop := Forall proper l ∧ StronglySorted (λ a b, lo a ≤ lo b) l.
Lemma wf_by_start m : wf m → by_start (live m).
Proof.
  intros (_ & _ & Hp & _ & Ho). split; [done|]. unfold in_order in Ho.
  induction Ho as [|r l Ho IH Hr]; [constructor|]. apply Forall_cons in Hp as [Hpr Hp]. constructor; [by apply IH|].
  rewrite Forall_forall in *. intros x Hx. specialize (Hr x Hx). unfold not_less in Hr.
  apply is_less_false in Hr. rewrite is_less_spec in Hr. destruct (decide (lo r ≤ lo x)); [done|]. destruct Hr.
  split; [apply proper_nonempty; by apply Hp|]. right; left. lia.
Qed.
Lemma by_start_cons r l : by_start (r :: l) ↔ proper r ∧ by_start l ∧ ∀ y, y ∈ l → lo r ≤ lo y.
Proof.
  unfold by_start. rewrite Forall_cons. split.
  - intros [[Hr Hl] [Hs Hf]%StronglySorted_inv]. rewrite Forall_forall in Hf. done.
  - intros (Hr & [Hl Hs] & Hf). split; [done|]. constructor; [done|]. by apply Forall_forall.
Qed.

Lemma lo_with_start r x : lo (with_start r (x * PAGE_SIZE)) = x.
Proof. apply Z.div_mul. done. Qed.
Lemma hi_with_end r x : hi (with_end r (x * PAGE_SIZE)) = x.
Proof. apply Z.div_mul. done. Qed.
Lemma merged_proper lst r : proper lst → proper r → proper (with_end r (Z.max (hi lst) (hi r) * PAGE_SIZE)).
Proof. intros Hl Hr. unfold proper in *. rewrite hi_with_end. cbn [range with_end set_end_addr start_frame_number] in *. lia. Qed.

(** The loop of the code computes [settle]. *)
Lemma fix_loop rest : ∀ pre lst mid,
  proper lst → by_start rest → (∀ y, y ∈ rest → lo lst ≤ lo y) →
  ∃ last, for_each fix_step (seq (List.length (pre ++ lst :: mid)) (List.length rest)) (pre ++ lst :: mid ++ rest, Some (List.length pre))
    = Ret (settle pre lst mid rest, last).
Proof.
  induction rest as [|r rest IH]; intros pre lst mid Hl Hbs Hle.
  { eexists. cbn [List.length seq for_each settle]. by rewrite app_nil_r. }
  apply by_start_cons in Hbs as (Hr & Hbs & Hrest). cbn [List.length seq for_each settle]. rewrite fix_step_unfold by done. cbn [mbind run_bind].
  pose proof (Hle r ltac:(by left)) as Hlr. rewrite (decide_ext (lo lst ≤ lo r < hi lst) (lo r < hi lst)) by lia.
  assert (∀ z, S (List.length (pre ++ lst :: mid)) = List.length ((pre ++ lst :: mid) ++ [z])) as HS by (intros z; rewrite (length_app _ [z]); simpl; lia).
  case_decide as Hh; [case_decide as Hu|].
  - destruct (IH pre lst (mid ++ [with_start r (hi lst * PAGE_SIZE)])) as [last E]; [done|done|intros; apply Hle; by right|].
    exists last. rewrite <- E, <- app_assoc. rewrite (HS (with_start r (hi lst * PAGE_SIZE))), <- app_assoc. done.
  - destruct (IH (pre ++ with_end lst (lo r * PAGE_SIZE) :: mid) (with_end r (Z.max (hi lst) (hi r) * PAGE_SIZE)) []) as [last E];
      [by apply merged_proper|done|exact Hrest|]. exists last. rewrite <- E.
    rewrite (HS r), <- !app_assoc, !length_app. done.
  - destruct (IH (pre ++ lst :: mid) r []) as [last E]; [done|done|exact Hrest|]. exists last. rewrite <- E.
    rewrite (HS r), <- !app_assoc, !length_app. done.
Qed.

(** *** What the repair does to any map *)
Lemma settle_types rest : ∀ pre lst mid,
  region_type <$> settle pre lst mid rest = region_type <$> (pre ++ lst :: mid ++ rest).
Proof.
  induction rest as [|r rest IH]; intros pre lst mid; cbn [settle]; [by rewrite app_nil_r|].
  repeat case_decide; rewrite IH, ?fmap_app, <- ?app_assoc; cbn; rewrite ?fmap_app, <- ?app_assoc; done.
Qed.
Lemma regions_cover_cons x l a : covers (x :: l) a ↔ hits a x ∨ covers l a.
Proof. unfold covers. setoid_rewrite elem_of_cons. naive_solver. Qed.
Lemma settle_covers rest a : ∀ pre lst mid,
  proper lst → by_start rest → (∀ y, y ∈ rest → lo lst ≤ lo y) →
  covers (settle pre lst mid rest) a ↔ covers (pre ++ lst :: mid ++ rest) a.
Proof.
  induction rest as [|r rest IH]; intros pre lst mid Hl Hbs Hle; cbn [settle]; [by rewrite app_nil_r|].
  apply by_start_cons in Hbs as (Hr & Hbs & Hrest). pose proof (Hle r ltac:(by left)) as Hlr.
  case_decide as Hh; [case_decide as Hu|].
  - rewrite IH by (done || intros; apply Hle; by right). repeat rewrite ?regions_cover_app, ?regions_cover_cons.
    assert (hits a lst ∨ hits a (with_start r (hi lst * PAGE_SIZE)) ↔ hits a lst ∨ hits a r).
    2:{ unfold covers. setoid_rewrite elem_of_nil. naive_solver. }
    unfold hits. rewrite lo_with_start. unfold proper, PAGE_SIZE in *. cbn [range with_start set_start_addr end_frame_number]. lia.
  - rewrite IH by (done || by apply merged_proper). repeat rewrite ?regions_cover_app, ?regions_cover_cons.
    assert (hits a (with_end lst (lo r * PAGE_SIZE)) ∨ hits a (with_end r (Z.max (hi lst) (hi r) * PAGE_SIZE)) ↔ hits a lst ∨ hits a r).
    2:{ unfold covers. setoid_rewrite elem_of_nil. naive_solver. }
    unfold hits. rewrite !hi_with_end. unfold proper, PAGE_SIZE in *. cbn [range with_end set_end_addr start_frame_number]. lia.
  - rewrite IH by done. repeat rewrite ?regions_cover_app, ?regions_cover_cons. unfold covers. setoid_rewrite elem_of_nil. naive_solver.
Qed.

(** *** When the result is in order *)
(** What the repair needs of a usable region that starts before the end of an earlier region: it
    reaches at least as far as all earlier regions, and a later region starts at its end at the
    earliest, unless it is usable itself and this one ends where an earlier region does. *)
Definition tame (l : list MemoryRegion) : Prop :=
  ∀ p r q, l = p ++ r :: q → region_type r = Usable → (∃ x, x ∈ p ∧ lo r < hi x) →
    (∀ x, x ∈ p → hi x ≤ hi r)
    ∧ ∀ y, y ∈ q → hi r ≤ lo y ∨ (region_type y = Usable ∧ ∃ x, x ∈ p ∧ hi x = hi r).

Record fix_inv (seen : list MemoryRegion) (pre : list MemoryRegion) (lst : MemoryRegion) (mid rest : list MemoryRegion)
    : Prop := {
  fx_out : laid_out (pre ++ lst :: mid);
  fx_lst : proper lst ∧ ∃ x, x ∈ seen ∧ hi x = hi lst;
  fx_mid u y : u ∈ mid → y ∈ rest → hi u ≤ lo y ∨ (region_type y = Usable ∧ hi u = hi lst);
  fx_reach x : x ∈ seen → ∃ u, u ∈ lst :: mid ∧ hi x ≤ hi u;
  fx_rest y : y ∈ rest → lo lst ≤ lo y;
  fx_cover a : covers (pre ++ lst :: mid) a ↔ covers seen a;
  fx_safe : usable_safe (pre ++ lst :: mid) seen
}.
(** The parts of a list that is laid out. *)
Lemma laid_out_before p x q u : laid_out (p ++ x :: q) → u ∈ p → hi u ≤ lo x.
Proof. intros [_ Hs] Hu. apply StronglySorted_app in Hs as (Hs & _ & _). apply Hs; [done|by left]. Qed.
Lemma laid_out_in l x : laid_out l → x ∈ l → 0 ≤ lo x ≤ hi x.
Proof. intros [Hf _]. rewrite Forall_forall in Hf. auto. Qed.
Lemma laid_out_mid pre lst mid u : laid_out (pre ++ lst :: mid) → u ∈ mid → hi lst ≤ lo u ≤ hi u.
Proof.
  intros Ho [l1 [l2 ->]]%list_elem_of_split. split.
  - apply (laid_out_before (pre ++ lst :: l1) u l2); [by rewrite <- app_assoc|]. apply elem_of_app. right. by left.
  - apply (laid_out_in (pre ++ lst :: l1 ++ u :: l2)); [done|]. rewrite elem_of_app, elem_of_cons, elem_of_app, elem_of_cons. auto.
Qed.
Lemma laid_out_last pre lst mid z : laid_out (pre ++ lst :: mid) → z ∈ pre ++ [lst] → hi z ≤ hi lst.
Proof.
  intros Ho [Hz|Hz%list_elem_of_singleton]%elem_of_app; [|by subst]. pose proof (laid_out_before _ _ _ _ Ho Hz).
  assert (lst ∈ pre ++ lst :: mid) as Hin by (apply elem_of_app; right; by left). pose proof (laid_out_in _ _ Ho Hin). lia.
Qed.

(** A region that starts after the last one. *)
Lemma fix_append seen pre lst mid r rest :
  fix_inv seen pre lst mid (r :: rest) → proper r → (∀ y, y ∈ rest → lo r ≤ lo y) → hi lst ≤ lo r →
  fix_inv (seen ++ [r]) (pre ++ lst :: mid) r [] rest.
Proof.
  intros [Ho [Hp Hl] Hm Hre Hrest Hc Hs] Hr Hsort Hge.
  assert (∀ x, x ∈ pre ++ lst :: mid → hi x ≤ lo r) as Hle.
  { intros x. replace (pre ++ lst :: mid) with ((pre ++ [lst]) ++ mid) by (by rewrite <- app_assoc).
    intros [Hx|Hx]%elem_of_app; [pose proof (laid_out_last _ _ _ _ Ho Hx); lia|]. destruct (Hm x r Hx) as [|[_ ?]]; [by left|lia|lia]. }
  split.
  - rewrite laid_out_snoc. unfold proper in Hr. split_and!; [done|lia|lia|done].
  - split; [done|]. exists r. split; [set_solver|done].
  - intros u y Hu. by apply elem_of_nil in Hu.
  - intros x [Hx|Hx%list_elem_of_singleton]%elem_of_app; (exists r; split; [by left|]); [|by subst].
    destruct (Hre x Hx) as (u & Hu & Hxu). assert (u ∈ pre ++ lst :: mid) as Hin by (apply elem_of_app; by right).
    specialize (Hle u Hin). unfold proper in Hr. lia.
  - exact Hsort.
  - intros a. by rewrite (regions_cover_app (pre ++ _)), (regions_cover_app seen), Hc.
  - intros a x y Hx Hu Hax Hy Hay. rewrite elem_of_app, list_elem_of_singleton in Hx, Hy.
    assert (∀ z, z ∈ pre ++ lst :: mid → hits a z → hits a r → False) as Hno.
    { intros z Hz Haz Har. specialize (Hle z Hz). unfold hits, PAGE_SIZE in *. lia. }
    destruct Hx as [Hx| ->], Hy as [Hy| ->]; [by eapply Hs| |..|done].
    + by destruct (Hno x).
    + destruct (proj2 (Hc a)) as (z & Hz & Haz); [by exists y|]. by destruct (Hno z).
Qed.

(** An overlapped usable region is cut at the end of [lst]. *)
Lemma fix_trim seen pre lst mid r rest :
  fix_inv seen pre lst mid (r :: rest) → proper r → region_type r = Usable → lo r < hi lst →
  (∀ x, x ∈ seen → hi x ≤ hi r) → (∀ y, y ∈ rest → hi r ≤ lo y ∨ (region_type y = Usable ∧ ∃ x, x ∈ seen ∧ hi x = hi r)) →
  fix_inv (seen ++ [r]) pre lst (mid ++ [with_start r (hi lst * PAGE_SIZE)]) rest.
Proof.
  intros [Ho [Hl (x & Hx & Hhx)] Hm Hre Hrest Hc Hs] Hr Hu Hh Hle Hy.
  set (u := with_start r (hi lst * PAGE_SIZE)). assert (lo u = hi lst) as Hlo by apply lo_with_start.
  assert (hi u = hi r) as Hhi by done. pose proof (Hle x Hx) as Hxr. pose proof (Hrest r ltac:(by left)) as Hlr.
  assert (∀ z, z ∈ lst :: mid → hi z = hi lst) as Hmid.
  { intros z [->|Hz]%elem_of_cons; [done|]. destruct (Hm z r Hz) as [|[_ ?]]; [by left| |done]. pose proof (laid_out_mid _ _ _ _ Ho Hz). lia. }
  assert (∀ z, z ∈ pre ++ lst :: mid → hi z ≤ lo u) as Hbefore.
  { intros z [Hz|Hz]%elem_of_app; [|rewrite Hmid by done; lia]. rewrite Hlo. apply (laid_out_last _ _ _ _ Ho), elem_of_app. by left. }
  replace (pre ++ lst :: mid ++ [u]) with ((pre ++ lst :: mid) ++ [u]) in * by (by rewrite <- app_assoc).
  split; replace (pre ++ lst :: mid ++ [u]) with ((pre ++ lst :: mid) ++ [u]) by (by rewrite <- app_assoc).
  - rewrite laid_out_snoc. unfold proper in *. split_and!; [done|lia|lia|done].
  - split; [done|]. exists x. split; [set_solver|done].
  - intros w y [Hw|Hw%list_elem_of_singleton]%elem_of_app Hin; [apply (Hm w y Hw); by right|]. subst w. rewrite Hhi.
    destruct (Hy y Hin) as [|[Hty (x' & Hx' & Hxx)]]; [by left|right]. split; [done|]. destruct (Hre x' Hx') as (w & Hw & Hxw).
    rewrite (Hmid w Hw) in Hxw. lia.
  - intros y [Hin|Hin%list_elem_of_singleton]%elem_of_app.
    + destruct (Hre y Hin) as (w & Hw & Hyw). exists w. split; [set_solver|done].
    + subst y. exists u. split; [set_solver|]. by rewrite Hhi.
  - intros y Hin. apply Hrest. by right.
  - intros a. rewrite (regions_cover_app (pre ++ _)), (regions_cover_app seen), <- Hc, !regions_cover_one.
    assert (hits a u ∨ hits a lst ↔ hits a r ∨ hits a lst) as Ha by (unfold hits; rewrite Hlo, Hhi; unfold proper, PAGE_SIZE in *; lia).
    rewrite regions_cover_app, regions_cover_cons. tauto.
  - intros a z w Hz Huz Haz Hw Haw. rewrite elem_of_app, list_elem_of_singleton in Hz, Hw.
    destruct Hw as [Hw| ->]; [|done]. destruct Hz as [Hz| ->]; [by eapply Hs|]. exfalso.
    destruct (proj2 (Hc a)) as (z & Hz & Haz'); [by exists w|]. specialize (Hbefore z Hz).
    unfold hits, PAGE_SIZE in *. lia.
Qed.

(** An overlapped region of another type takes the rest of [lst]. *)
Lemma fix_merge seen pre lst mid r rest :
  fix_inv seen pre lst mid (r :: rest) → proper r → region_type r ≠ Usable → lo r < hi lst → (∀ y, y ∈ rest → lo r ≤ lo y) →
  fix_inv (seen ++ [r]) (pre ++ with_end lst (lo r * PAGE_SIZE) :: mid) (with_end r (Z.max (hi lst) (hi r) * PAGE_SIZE)) [] rest.
Proof.
  intros [Ho [Hl (x & Hx & Hhx)] Hm Hre Hrest Hc Hs] Hr Hu Hh Hsort. pose proof (Hrest r ltac:(by left)) as Hlr.
  assert (mid = []) as ->.
  { destruct mid as [|u mid]; [done|exfalso]. pose proof (laid_out_mid _ _ _ u Ho ltac:(by left)). destruct (Hm u r ltac:(by left)) as [|[? _]]; [by left|lia|done]. }
  set (lst' := with_end lst (lo r * PAGE_SIZE)). set (r' := with_end r (Z.max (hi lst) (hi r) * PAGE_SIZE)).
  assert (hi lst' = lo r) as Hhl by apply hi_with_end. assert (hi r' = Z.max (hi lst) (hi r)) as Hhr by apply hi_with_end.
  assert (lo lst' = lo lst ∧ lo r' = lo r) as [Hll Hlr'] by done. pose proof (merged_proper _ _ Hl Hr) as Hp'. fold r' in Hp'.
  rewrite laid_out_snoc in Ho. destruct Ho as (Hop & Hol & Hob). unfold proper in *.
  split.
  - rewrite !laid_out_snoc, Hhr, Hlr', Hhl, Hll. split_and!; [done|lia|lia|done|lia|lia|].
    intros z [Hz|Hz%list_elem_of_singleton]%elem_of_app; [specialize (Hob z Hz); lia|subst z; lia].
  - split; [done|]. rewrite Hhr. destruct (Z.max_spec (hi lst) (hi r)) as [[_ ->]|[_ ->]].
    + exists r. split; [set_solver|done].
    + exists x. split; [set_solver|done].
  - intros w y Hw. by apply elem_of_nil in Hw.
  - intros y [Hin|Hin%list_elem_of_singleton]%elem_of_app; (exists r'; split; [by left|]; rewrite Hhr); [|subst; lia].
    destruct (Hre y Hin) as (w & Hw%list_elem_of_singleton & Hyw). subst w. lia.
  - by rewrite Hlr'.
  - intros a. rewrite (regions_cover_app seen), <- Hc, !regions_cover_app, !regions_cover_one. unfold hits. rewrite Hhr, Hlr', Hhl, Hll.
    unfold PAGE_SIZE. cover_lia.
  - intros a z w Hz Huz Haz Hw Haw. rewrite elem_of_app, list_elem_of_singleton in Hz, Hw.
    destruct Hz as [[Hz|Hz%list_elem_of_singleton]%elem_of_app| ->]; [|subst z|by destruct Hu].
    + destruct Hw as [Hw| ->]; [eapply Hs; try done; set_solver|]. specialize (Hob z Hz). unfold hits, PAGE_SIZE in *. lia.
    + destruct Hw as [Hw| ->]; [|unfold hits, PAGE_SIZE in *; lia]. eapply (Hs a lst); try done; [set_solver|].
      unfold hits, PAGE_SIZE in *. lia.
Qed.

Lemma settle_ordered rest : ∀ seen pre lst mid,
  by_start rest → tame (seen ++ rest) → fix_inv seen pre lst mid rest →
  laid_out (settle pre lst mid rest) ∧ usable_safe (settle pre lst mid rest) (seen ++ rest).
Proof.
  induction rest as [|r rest IH]; intros seen pre lst mid Hbs Htame Hinv; cbn [settle].
  { rewrite app_nil_r. split; [apply (fx_out _ _ _ _ _ Hinv)|apply (fx_safe _ _ _ _ _ Hinv)]. }
  apply by_start_cons in Hbs as (Hr & Hbs & Hrest). pose proof (Htame seen r rest eq_refl) as Hhere.
  replace (seen ++ r :: rest) with ((seen ++ [r]) ++ rest) in * by (by rewrite <- app_assoc).
  case_decide as Hh; [case_decide as Hu|]; apply IH; try done.
  - destruct (fx_lst _ _ _ _ _ Hinv) as [_ (x & Hx & Hhx)]. destruct Hhere as [H1 H2]; [done|exists x; split; [done|lia]|]. by apply fix_trim.
  - by apply fix_merge.
  - apply fix_append; [done..|lia].
Qed.

(** *** And when it is not *)
Lemma settle_shape rest : ∀ pre lst mid, ∃ lst' tail, settle pre lst mid rest = pre ++ lst' :: mid ++ tail ∧ lo lst' = lo lst.
Proof.
  induction rest as [|r rest IH]; intros pre lst mid; cbn [settle]; [exists lst, []; by rewrite app_nil_r|].
  repeat case_decide.
  - destruct (IH pre lst (mid ++ [with_start r (hi lst * PAGE_SIZE)])) as (lst' & tail & -> & E).
    exists lst', (with_start r (hi lst * PAGE_SIZE) :: tail). by rewrite <- app_assoc.
  - destruct (IH (pre ++ with_end lst (lo r * PAGE_SIZE) :: mid) (with_end r (Z.max (hi lst) (hi r) * PAGE_SIZE)) []) as (lst' & tail & -> & _).
    exists (with_end lst (lo r * PAGE_SIZE)), (lst' :: tail). by rewrite <- app_assoc.
  - destruct (IH (pre ++ lst :: mid) r []) as (lst' & tail & -> & _). exists lst, (lst' :: tail). by rewrite <- app_assoc.
Qed.
(** What is in front of [lst], and of the region behind [mid], in the end. *)
Lemma settle_before pre lst mid rest u : laid_out (settle pre lst mid rest) → u ∈ pre → hi u ≤ lo lst.
Proof. destruct (settle_shape rest pre lst mid) as (lst' & tail & -> & <-). apply laid_out_before. Qed.
Lemma settle_trimmed pre lst mid w rest :
  laid_out (settle pre lst (mid ++ [w]) rest) → lo w ≤ hi w ∧ ∀ u, u ∈ mid → hi u ≤ lo w.
Proof.
  destruct (settle_shape rest pre lst (mid ++ [w])) as (lst' & tail & -> & _). intros Ho.
  replace (pre ++ lst' :: (mid ++ [w]) ++ tail) with ((pre ++ lst' :: mid) ++ w :: tail) in Ho by (by rewrite <- !app_assoc). split.
  - apply (laid_out_in _ w Ho). apply elem_of_app. right. by left.
  - intros u Hu. apply (laid_out_before _ _ _ _ Ho), elem_of_app. right. by right.
Qed.
Lemma settle_later rest : ∀ pre lst mid u,
  by_start rest → laid_out (settle pre lst mid rest) → u ∈ mid →
  ∀ y, y ∈ rest → hi u ≤ lo y ∨ (region_type y = Usable ∧ hi u ≤ hi lst).
Proof.
  induction rest as [|r rest IH]; intros pre lst mid u Hbs Ho Hu y Hy; [by apply elem_of_nil in Hy|].
  apply by_start_cons in Hbs as (Hr & Hbs & Hrest). cbn [settle] in Ho.
  assert (hi u ≤ lo r → hi u ≤ lo y) as Hfirst.
  { intros Hur. apply elem_of_cons in Hy as [->|Hy]; [done|]. specialize (Hrest y Hy). lia. }
  case_decide as Hh; [case_decide as Hty|].
  - apply elem_of_cons in Hy as [->|Hy].
    + right. split; [done|]. destruct (settle_trimmed _ _ _ _ _ Ho) as [_ Hm]. specialize (Hm u Hu). by rewrite lo_with_start in Hm.
    + apply (IH _ _ _ u Hbs Ho); [|done]. apply elem_of_app. by left.
  - left. apply Hfirst. apply (settle_before _ _ _ _ u Ho). apply elem_of_app. right. by right.
  - left. apply Hfirst. apply (settle_before _ _ _ _ u Ho). apply elem_of_app. right. by right.
Qed.
Lemma settle_tame rest : ∀ seen pre lst mid,
  by_start rest → proper lst → laid_out (settle pre lst mid rest) →
  (∀ x, x ∈ seen → hi x ≤ hi lst ∨ ∃ u, u ∈ pre ++ mid ∧ hi x ≤ hi u) → (∃ x, x ∈ seen ∧ hi x = hi lst) →
  ∀ p r q, rest = p ++ r :: q → region_type r = Usable → (∃ x, x ∈ seen ++ p ∧ lo r < hi x) →
    (∀ x, x ∈ seen ++ p → hi x ≤ hi r) ∧ ∀ y, y ∈ q → hi r ≤ lo y ∨ (region_type y = Usable ∧ ∃ x, x ∈ seen ++ p ∧ hi x = hi r).
Proof.
  induction rest as [|r0 rest IH]; intros seen pre lst mid Hbs Hl Ho HJ (x1 & Hx1 & Hhx1) p r q Heq Hu Hx.
  { by destruct p. }
  apply by_start_cons in Hbs as (Hr0 & Hbs & Hrest). cbn [settle] in Ho. destruct p as [|r1 p].
  - cbn [app] in Heq. injection Heq as -> ->. rewrite app_nil_r in *. rewrite (decide_True (P := region_type r = Usable)) in Ho by done.
    case_decide as Hh.
    + destruct (settle_trimmed _ _ _ _ _ Ho) as [Hrr Hm]. rewrite lo_with_start in Hrr, Hm. change (hi (with_start _ _)) with (hi r) in Hrr. split.
      * intros x Hin. destruct (HJ x Hin) as [|(u & [Hup|Hum]%elem_of_app & Hxu)]; [lia| |specialize (Hm u Hum); lia].
        pose proof (settle_before _ _ _ _ u Ho Hup). unfold proper in Hl. lia.
      * intros y Hy. destruct (settle_later q _ _ _ (with_start r (hi lst * PAGE_SIZE)) Hbs Ho) with y as [H1|[H1 H2]]; [set_solver|done|by left|].
        right. split; [done|]. exists x1. split; [done|]. change (hi (with_start _ _)) with (hi r) in H2. lia.
    + exfalso. destruct Hx as (x & Hin & Hlt). destruct (HJ x Hin) as [|(u & Hup & Hxu)]; [lia|].
      assert (u ∈ pre ++ lst :: mid) as Hu' by (apply elem_of_app in Hup as [?|?]; apply elem_of_app; [by left|right; by right]).
      pose proof (settle_before _ _ _ _ u Ho Hu'). lia.
  - cbn [app] in Heq. injection Heq as <- ->. replace (seen ++ r0 :: p) with ((seen ++ [r0]) ++ p) in * by (by rewrite <- app_assoc).
    case_decide as Hh; [case_decide as Hty|]; (eapply IH; [exact Hbs| |exact Ho| | |done|done|done]).
    + done.
    + intros x [Hin|Hin%list_elem_of_singleton]%elem_of_app; [|subst x; right; exists (with_start r0 (hi lst * PAGE_SIZE)); split; [set_solver|done]].
      destruct (HJ x Hin) as [|(u & Hup & ?)]; [by left|right]. exists u. split; [set_solver|done].
    + exists x1. split; [set_solver|done].
    + by apply merged_proper.
    + rewrite hi_with_end. intros x [Hin|Hin%list_elem_of_singleton]%elem_of_app; [|subst x; left; lia].
      destruct (HJ x Hin) as [|(u & Hup & ?)]; [left; lia|right]. exists u. split; [set_solver|done].
    + rewrite hi_with_end. destruct (Z.max_spec (hi lst) (hi r0)) as [[_ ->]|[_ ->]]; [exists r0|exists x1]; (split; [set_solver|done]).
    + done.
    + intros x [Hin|Hin%list_elem_of_singleton]%elem_of_app; [|subst x; by left]. right.
      destruct (HJ x Hin) as [|(u & Hup & ?)]; [exists lst|exists u]; (split; [set_solver|done]).
    + exists r0. split; [set_solver|done].
Qed.

(** *** The whole repair *)
Record repaired (l l' : list MemoryRegion) : Prop := {
  rp_types : region_type <$> l' = region_type <$> l;
  rp_covers a : covers l' a ↔ covers l a;
  rp_ordered : laid_out l' ↔ tame l;
  rp_safe : tame l → usable_safe l' l
}.
Lemma fix_list l :
  by_start l → ∃ l' last, for_each fix_step (seq 0 (List.length l)) (l, None) = Ret (l', last) ∧ repaired l l'.
Proof.
  intros Hbs. destruct l as [|r l].
  { do 2 eexists. split; [done|]. split; [done|done| |by intros _ a x y Hx%elem_of_nil]. split; [by intros _ [|? p] ? ? ?|]. by repeat constructor. }
  apply by_start_cons in Hbs as (Hr & Hbs & Hle). cbn [List.length seq for_each]. cbn [fix_step]. change (index (r :: l) 0) with (Ret r : run MemoryRegion).
  cbn [mbind run_bind]. destruct (fix_loop l [] r [] Hr Hbs Hle) as [last E]. cbn [app List.length] in E.
  exists (settle [] r [] l), last. split; [exact E|].
  assert (fix_inv [r] [] r [] l) as Hinv.
  { unfold proper in Hr. split; cbn [app].
    - split; [apply Forall_singleton; lia|repeat constructor].
    - split; [done|]. exists r. split; [by left|done].
    - intros u y Hu. by apply elem_of_nil in Hu.
    - intros x Hx%list_elem_of_singleton. exists r. split; [by left|]. by subst.
    - exact Hle.
    - done.
    - intros a x y Hx%list_elem_of_singleton Hu _ Hy%list_elem_of_singleton _. by subst. }
  split.
  - by rewrite settle_types.
  - intros a. by rewrite settle_covers.
  - split; [|intros Ht; by apply (settle_ordered l [r])]. intros Ho [|r0 p] r1 q Heq Hu Hx.
    { destruct Hx as (x & Hx & _). by apply elem_of_nil in Hx. }
    cbn [app] in Heq. injection Heq as <- Heq. apply (settle_tame l [r] [] r [] Hbs Hr Ho); [|exists r; split; [by left|done]|done..].
    intros x Hin%list_elem_of_singleton. left. by subst.
  - intros Ht. by apply (settle_ordered l [r]).
Qed.

Lemma fix_overlaps_cases m :
  wf m → ∃ m', fix_overlaps m = Ret m' ∧ next_entry_index m' = next_entry_index m ∧ repaired (live m) (live m').
Proof.
  intros Hwf. unfold fix_overlaps, deref. rewrite deref_live by done. cbn [mbind run_bind].
  destruct (fix_list (live m)) as (l' & last & -> & Hr); [by apply wf_by_start|]. cbn [mbind run_bind].
  eexists. split; [done|]. split; [done|]. unfold live at 2. cbn [entries next_entry_index].
  assert (List.length l' = next_entry_index m) as Hl.
  { pose proof (rp_types _ _ Hr) as Hty. apply (f_equal List.length) in Hty. rewrite !length_fmap in Hty.
    by rewrite Hty, live_length. }
  by rewrite take_app_length' by done.
Qed.

(** ** Partitions that are unwrapped *)
Section partitions.
Context `{!SortUnstable MemoryRegion}.

Definition sound (m : MemoryMap) : Prop := wf m ∧ disjoint (live m).

Lemma unique_hit l r r' a : disjoint l → r ∈ l → r' ∈ l → hits a r → hits a r' → r' = r.
Proof.
  intros Hd Hr Hr' Ha Ha'. apply elem_of_Permutation in Hr as (l' & Hl). rewrite Hl in Hr'.
  apply elem_of_cons in Hr' as [->|Hr']; [done|]. pose proof (disjoint_owner _ _ _ a Hd Hl Ha) as Hn.
  assert (region_type r' ∈ owners l' a) as Hin.
  { unfold owners. apply list_elem_of_fmap_2, list_elem_of_filter. done. }
  rewrite Hn in Hin. by apply elem_of_nil in Hin.
Qed.

Lemma region_at m r a : sound m → r ∈ live m → hits a r → get_region_by_addr m a = Ret (Some r).
Proof.
  intros [Hwf Hd] Hr Ha. destruct (get_region_by_addr_spec m a Hwf) as (o & -> & Ho). do 2 f_equal.
  destruct o as [r'|].
  - destruct Ho as [Hin Hh]. f_equal. by eapply unique_hit.
  - exfalso. assert (region_type r ∈ owners (live m) a) as Hin.
    { unfold owners. apply list_elem_of_fmap_2, list_elem_of_filter. done. }
    rewrite Ho in Hin. by apply elem_of_nil in Hin.
Qed.

(** The part [s, e) of a usable region can be retyped. *)
Lemma partition_part m r s e t :
  sound m → (next_entry_index m + 2 ≤ MAX_MEMORY_MAP_SIZE)%nat → r ∈ live m → is_usable (region_type r) = true → t ≠ Empty →
  lo r * PAGE_SIZE ≤ s → s < e → e ≤ hi r * PAGE_SIZE → s mod PAGE_SIZE = 0 → e mod PAGE_SIZE = 0 →
  ∃ m', partition_unwrap m s e t = Ret m' ∧ sound m'
    ∧ (next_entry_index m ≤ next_entry_index m' ≤ next_entry_index m + 2)%nat
    ∧ ∀ a, owners (live m') a ≡ₚ if decide (s ≤ a < e) then [t] else owners (live m) a.
Proof.
  intros Hs Hn Hr Hu Ht Hlo Hse Hhi Hsm Hem. pose proof Hs as [Hwf Hd].
  assert (proper r) as Hp by (destruct Hwf as (_ & _ & Hp & _); rewrite Forall_forall in Hp; by apply Hp).
  unfold proper in Hp. unfold partition_unwrap.
  destruct (partition_ok m s e t r) as (m' & l & -> & Hwf' & Hd' & Hn' & Ho);
    [done..|unfold PAGE_SIZE in *; lia|done|done|apply region_at; try done; unfold hits; lia
    |apply region_at; try done; unfold hits; lia|done|].
  cbn [mbind run_bind unwrap]. by exists m'.
Qed.

(** If the call was accepted, the range was usable. *)
Lemma partition_unwrap_inv m s e t m' :
  sound m → (next_entry_index m + 2 ≤ MAX_MEMORY_MAP_SIZE)%nat → 0 ≤ s < e → partition_unwrap m s e t = Ret m' →
  sound m' ∧ (next_entry_index m' ≤ next_entry_index m + 2)%nat
  ∧ (∀ a, s ≤ a < e → ∃ u, is_usable u = true ∧ owners (live m) a ≡ₚ [u])
  ∧ ∀ a, owners (live m') a ≡ₚ if decide (s ≤ a < e) then [t] else owners (live m) a.
Proof.
  intros [Hwf Hd] Hn Hse. unfold partition_unwrap.
  destruct (partition_cases m s e t) as [[err ->]|(m1 & l & u & -> & Hwf' & Hd' & Hn' & Hu & Hus & Ho)]; [done..|].
  cbn [mbind run_bind unwrap]. intros [= <-]. split; [done|]. split; [lia|]. split; [|done]. intros a Ha.
  exists u. auto.
Qed.

(** ** Memory below 1 MiB *)
(** An address keeps its owner, or it was usable below 1 MiB and is now marked. *)
Definition marked (m m' : MemoryMap) : Prop :=
  ∀ a, owners (live m') a ≡ₚ owners (live m) a
     ∨ (a < one_mib ∧ owners (live m) a ≡ₚ [Usable] ∧ owners (live m') a ≡ₚ [UsableButDangerous]).
#[local] Instance marked_preorder : PreOrder marked.
Proof.
  split; [intros m a; by left|]. intros m1 m2 m3 H12 H23 a.
  destruct (H12 a) as [E1|(L1 & A1 & B1)], (H23 a) as [E2|(L2 & A2 & B2)].
  - left. by rewrite E2.
  - right. by rewrite <- E1.
  - right. by rewrite E2.
  - exfalso. rewrite A2 in B1. by apply Permutation_singleton_inj in B1.
Qed.

Lemma live_entry m i r : wf m → (i < next_entry_index m)%nat → entries m !! i = Some r → r ∈ live m.
Proof. intros Hwf Hi Hr. apply (list_elem_of_lookup_2 _ i). unfold live. by rewrite lookup_take_lt. Qed.

Lemma mark_part m r e :
  sound m → (next_entry_index m + 2 ≤ MAX_MEMORY_MAP_SIZE)%nat → r ∈ live m → region_type r = Usable →
  lo r * PAGE_SIZE < e ≤ hi r * PAGE_SIZE → e ≤ one_mib → e mod PAGE_SIZE = 0 →
  ∃ m', partition_unwrap m (lo r * PAGE_SIZE) e UsableButDangerous = Ret m' ∧ sound m'
    ∧ (next_entry_index m ≤ next_entry_index m' ≤ next_entry_index m + 2)%nat ∧ marked m m'.
Proof.
  intros Hs Hn Hr Ht He Hm Hem.
  destruct (partition_part m r (lo r * PAGE_SIZE) e UsableButDangerous) as (m' & Hrun & Hs' & Hn' & Ho);
    [done|done|done|by rewrite Ht|done|lia|lia|lia|apply Z.mod_mul; done|done|].
  exists m'. split; [done|]. split; [done|]. split; [done|]. intros a. specialize (Ho a). case_decide as Ha; [|by left].
  right. split; [lia|]. split; [|done]. destruct Hs as [_ Hd]. apply elem_of_Permutation in Hr as (l & Hl).
  assert (hits a r) as Hh by (unfold hits; lia).
  rewrite Hl, owners_cons, decide_True, Ht by done. by rewrite (disjoint_owner _ _ _ a Hd Hl Hh).
Qed.

Lemma mark_step_spec m i :
  sound m → (next_entry_index m + 2 ≤ MAX_MEMORY_MAP_SIZE)%nat → (i < next_entry_index m)%nat →
  ∃ m', mark_step i m = Ret m' ∧ sound m'
    ∧ (next_entry_index m ≤ next_entry_index m' ≤ next_entry_index m + 2)%nat ∧ marked m m'.
Proof.
  intros Hs Hn Hi. pose proof Hs as [Hwf Hd].
  destruct (lookup_lt_is_Some_2 (entries m) i) as [r Hr]; [destruct Hwf as (-> & _); lia|].
  pose proof (live_entry _ _ _ Hwf Hi Hr) as Hin.
  assert (proper r) as Hp by (destruct Hwf as (_ & _ & Hp & _); rewrite Forall_forall in Hp; by apply Hp).
  assert (∃ m', Ret m = Ret m' ∧ sound m'
    ∧ (next_entry_index m ≤ next_entry_index m' ≤ next_entry_index m + 2)%nat ∧ marked m m') as Hsame.
  { exists m. split; [done|]. split; [done|]. split; [lia|reflexivity]. }
  unfold mark_step. rewrite (proj2 (index_Ret _ _ _) Hr). cbn [mbind run_bind]. case_decide as Ht; [|exact Hsame].
  rewrite start_addr_spec, end_addr_spec by done. cbn [mbind run_bind]. unfold proper in Hp.
  destruct (Z.ltb_spec (lo r * PAGE_SIZE) one_mib); cbn [andb]; [|exact Hsame].
  destruct (Z.ltb_spec (hi r * PAGE_SIZE) one_mib).
  - apply mark_part; try done; [unfold PAGE_SIZE in *; lia..|]. apply Z.mod_mul. done.
  - destruct (Z.ltb_spec one_mib (hi r * PAGE_SIZE)); [|exact Hsame].
    apply mark_part; try done; unfold PAGE_SIZE in *; lia.
Qed.

Lemma mark_loop ix m :
  sound m → (next_entry_index m + 2 * List.length ix ≤ MAX_MEMORY_MAP_SIZE)%nat →
  Forall (λ i, i < next_entry_index m)%nat ix →
  ∃ m', for_each mark_step ix m = Ret m' ∧ sound m' ∧ marked m m'.
Proof.
  revert m. induction ix as [|i ix IH]; intros m Hs Hn Hi; cbn [for_each].
  { exists m. split; [done|]. split; [done|reflexivity]. }
  apply Forall_cons in Hi as [Hi His]. simpl in Hn.
  destruct (mark_step_spec m i) as (m1 & -> & Hs1 & Hn1 & Hm1); [done|lia|done|]. cbn [mbind run_bind].
  destruct (IH m1) as (m2 & -> & Hs2 & Hm2); [done|lia|eapply Forall_impl; [done|simpl; lia]|].
  exists m2. split; [done|]. split; [done|]. by etrans.
Qed.

Lemma mark_low_cases m :
  sound m → (3 * next_entry_index m ≤ MAX_MEMORY_MAP_SIZE)%nat →
  ∃ m', mark_low_memory m = Ret m' ∧ sound m' ∧ marked m m'.
Proof.
  intros Hs Hn. pose proof Hs as [Hwf _]. unfold mark_low_memory, deref. rewrite deref_live by done. cbn [mbind run_bind].
  rewrite live_length by done. apply mark_loop; [done|rewrite length_seq; lia|].
  apply Forall_forall. intros i. rewrite elem_of_seq. lia.
Qed.

(** ** The image check *)
Definition usable_at (m : MemoryMap) (a : Z) : Prop := ∃ r, r ∈ live m ∧ hits a r ∧ is_usable (region_type r) = true.

Lemma check_page_spec m a : sound m → check_page m a tt = Ret tt ↔ usable_at m a.
Proof.
  intros Hs. pose proof Hs as [Hwf _]. unfold check_page, usable_at.
  destruct (get_region_by_addr m a) as [o|] eqn:Hg; cbn [mbind run_bind].
  2:{ destruct (get_region_by_addr_spec m a Hwf) as (o & Ho & _). congruence. }
  split.
  - destruct (get_region_by_addr_spec m a Hwf) as (o' & Ho & Hin). rewrite Hg in Ho. injection Ho as <-.
    destruct o as [r|]; [|done]. destruct Hin as [Hin Hh]. intros Hc. exists r. split_and!; [done..|].
    unfold is_usable. do 2 case_bool_decide; cbn in Hc; try done; by rewrite bool_decide_eq_true_2 by auto.
  - intros (r & Hr & Hh & Hu). rewrite (region_at m r a) in Hg by done. injection Hg as <-.
    unfold is_usable in Hu. apply bool_decide_eq_true in Hu. do 2 case_bool_decide; cbn; try done. naive_solver.
Qed.

Lemma for_each_unit {A} (f : A → unit → run unit) l :
  for_each f l tt = Ret tt ↔ ∀ x, x ∈ l → f x tt = Ret tt.
Proof.
  induction l as [|x l IH]; cbn [for_each]; [split; [by intros _ ? ?%elem_of_nil|done]|].
  setoid_rewrite elem_of_cons. destruct (f x tt) as [[]|e] eqn:Hx; cbn [mbind run_bind].
  - rewrite IH. naive_solver.
  - split; [done|]. intros H. specialize (H x (or_introl eq_refl)). congruence.
Qed.

(** A page is in a region as a whole. *)
Lemma usable_page m p a : usable_at m p → p mod 4096 = 0 → p ≤ a < p + 4096 → usable_at m a.
Proof.
  intros (r & Hr & Hh & Hu) Hp Ha. exists r. split_and!; [done| |done]. unfold hits, PAGE_SIZE in *.
  apply Z.mod_divide in Hp as [k ->]; [|lia]. lia.
Qed.

Lemma check_cases m s e :
  sound m → check m s e = Ret tt ↔ s mod 4096 = 0 ∧ s < e ∧ ∀ a, s ≤ a < e → usable_at m a.
Proof.
  intros Hs. unfold check. rewrite urem_Ret by done. cbn [mbind run_bind].
  destruct (Z.eqb_spec (s mod 4096) 0) as [Hm|]; cbn [negb]; [|naive_solver].
  destruct (Z.leb_spec e s) as [|Hlt]; [split; [done|lia]|]. rewrite for_each_unit.
  setoid_rewrite elem_of_step_by; [|lia]. split.
  - intros Hall. split_and!; [done..|]. intros a Ha.
    pose proof (Z.div_mod (a - s) 4096 ltac:(lia)). pose proof (Z.mod_pos_bound (a - s) 4096 ltac:(lia)).
    apply (usable_page _ (s + (a - s) / 4096 * 4096)); [|by rewrite Z_mod_plus_full|lia].
    apply check_page_spec, Hall; [done|]. exists ((a - s) / 4096). split_and!; [apply Z.div_pos; lia|done|lia].
  - intros (_ & _ & Hall) x (i & Hi & -> & Hlt'). apply check_page_spec; [done|]. apply Hall. lia.
Qed.

(** ** The reservation of the image *)
Lemma keep_owner m s e t m' a u :
  sound m → (next_entry_index m + 2 ≤ MAX_MEMORY_MAP_SIZE)%nat → 0 ≤ s < e → partition_unwrap m s e t = Ret m' →
  is_usable u = false → owners (live m) a ≡ₚ [u] → owners (live m') a ≡ₚ [u].
Proof.
  intros Hs Hn Hse Hrun Hu Hown. destruct (partition_unwrap_inv _ _ _ _ _ Hs Hn Hse Hrun) as (_ & _ & Hbefore & Hafter).
  rewrite Hafter. case_decide as Ha; [|done]. destruct (Hbefore a Ha) as (v & Hv & Hown').
  rewrite Hown in Hown'. apply Permutation_singleton_inj in Hown'. congruence.
Qed.

Definition in_image (im : image) (a : Z) : Prop :=
  0 ≤ a < 4096 ∨ smp_trampoline_start im ≤ a < smp_trampoline_end im ∨ bootloader_start im ≤ a < bootloader_end im
  ∨ kernel_start im ≤ a < kernel_end im ∨ page_table_start im ≤ a < page_table_end im.

Definition image_ok (im : image) : Prop :=
  0 ≤ smp_trampoline_start im < smp_trampoline_end im ∧ 0 ≤ bootloader_start im < bootloader_end im
  ∧ 0 ≤ kernel_start im < kernel_end im ∧ 0 ≤ page_table_start im < page_table_end im.

Definition reserved (m : MemoryMap) (im : image) (m' : MemoryMap) : Prop :=
  (∀ a, 0 ≤ a < 4096 → owners (live m') a ≡ₚ [FrameZero])
  ∧ (∀ a, smp_trampoline_start im ≤ a < smp_trampoline_end im → owners (live m') a ≡ₚ [SmpTrampoline])
  ∧ (∀ a, bootloader_start im ≤ a < bootloader_end im → owners (live m') a ≡ₚ [Bootloader])
  ∧ (∀ a, kernel_start im ≤ a < kernel_end im → owners (live m') a ≡ₚ [Kernel])
  ∧ (∀ a, page_table_start im ≤ a < page_table_end im → owners (live m') a ≡ₚ [PageTable])
  ∧ ∀ a, ¬ in_image im a → owners (live m') a ≡ₚ owners (live m) a.

Lemma reserve_image_cases m im m' :
  sound m → (next_entry_index m + 10 ≤ MAX_MEMORY_MAP_SIZE)%nat → image_ok im → reserve_image m im = Ret m' →
  sound m' ∧ reserved m im m'.
Proof.
  intros Hs Hn (I1 & I2 & I3 & I4) Hrun. unfold reserve_image in Hrun.
  destruct (partition_unwrap m 0 4096 FrameZero) as [m1|] eqn:R1; cbn [mbind run_bind] in Hrun; [|done].
  destruct (partition_unwrap m1 _ _ SmpTrampoline) as [m2|] eqn:R2; cbn [mbind run_bind] in Hrun; [|done].
  destruct (partition_unwrap m2 _ _ Bootloader) as [m3|] eqn:R3; cbn [mbind run_bind] in Hrun; [|done].
  destruct (partition_unwrap m3 _ _ Kernel) as [m4|] eqn:R4; cbn [mbind run_bind] in Hrun; [|done].
  destruct (partition_unwrap_inv m 0 4096 FrameZero m1 Hs) as (S1 & N1 & _ & O1); [lia|done|done|].
  destruct (partition_unwrap_inv _ _ _ _ _ S1 ltac:(lia) I1 R2) as (S2 & N2 & _ & O2).
  destruct (partition_unwrap_inv _ _ _ _ _ S2 ltac:(lia) I2 R3) as (S3 & N3 & _ & O3).
  destruct (partition_unwrap_inv _ _ _ _ _ S3 ltac:(lia) I3 R4) as (S4 & N4 & _ & O4).
  destruct (partition_unwrap_inv _ _ _ _ _ S4 ltac:(lia) I4 Hrun) as (S5 & N5 & _ & O5).
  assert (∀ a u, is_usable u = false → owners (live m1) a ≡ₚ [u] → owners (live m2) a ≡ₚ [u]) as K2
    by (intros a u Hu; eapply keep_owner; [exact S1|lia|exact I1|done..]).
  assert (∀ a u, is_usable u = false → owners (live m2) a ≡ₚ [u] → owners (live m3) a ≡ₚ [u]) as K3
    by (intros a u Hu; eapply keep_owner; [exact S2|lia|exact I2|done..]).
  assert (∀ a u, is_usable u = false → owners (live m3) a ≡ₚ [u] → owners (live m4) a ≡ₚ [u]) as K4
    by (intros a u Hu; eapply keep_owner; [exact S3|lia|exact I3|done..]).
  assert (∀ a u, is_usable u = false → owners (live m4) a ≡ₚ [u] → owners (live m') a ≡ₚ [u]) as K5
    by (intros a u Hu; eapply keep_owner; [exact S4|lia|exact I4|done..]).
  split; [done|]. split_and!.
  - intros a Ha. apply K5, K4, K3, K2; try done. by rewrite O1, decide_True.
  - intros a Ha. apply K5, K4, K3; try done. by rewrite O2, decide_True.
  - intros a Ha. apply K5, K4; try done. by rewrite O3, decide_True.
  - intros a Ha. apply K5; try done. by rewrite O4, decide_True.
  - intros a Ha. by rewrite O5, decide_True.
  - intros a Ha. unfold in_image in Ha. rewrite O5, decide_False by tauto. rewrite O4, decide_False by tauto.
    rewrite O3, decide_False by tauto. rewrite O2, decide_False by tauto. by rewrite O1, decide_False by tauto.
Qed.

(** No usable region holds an address of the image, so no allocator hands it out. *)
Lemma reserved_not_usable m im m' a :
  reserved m im m' → in_image im a → ∀ r, r ∈ live m' → hits a r → region_type r ≠ Usable.
Proof.
  intros (H1 & H2 & H3 & H4 & H5 & _) Ha r Hr Hh Hu.
  assert (Usable ∈ owners (live m') a) as Hin.
  { unfold owners. rewrite <- Hu. apply list_elem_of_fmap_2, list_elem_of_filter. done. }
  unfold in_image in Ha. destruct Ha as [Ha|[Ha|[Ha|[Ha|Ha]]]];
    [rewrite H1 in Hin|rewrite H2 in Hin|rewrite H3 in Hin|rewrite H4 in Hin|rewrite H5 in Hin]; try done;
    by apply list_elem_of_singleton in Hin.
Qed.

(** C14: The repair of overlapping memory areas, on any well-formed map.  It never panics,
    keeps the number and the types of the regions, and they cover exactly the same addresses.
    Afterwards the regions lie one after another without overlap exactly if the map is [tame]:
    each usable region that starts inside an earlier one reaches at least as far as all
    earlier ones, and later regions start behind it, unless it ends with an earlier one and
    they are usable as well.  In that case no address is usable that any area declared
    otherwise.  ([nested_usable_inverted] and [reserved_stays_usable] are maps that are not
    tame.) *)
Theorem fix_overlaps_safe m :
  wf m →
  ∃ m', fix_overlaps m = Ret m' ∧ next_entry_index m' = next_entry_index m
    ∧ region_type <$> live m' = region_type <$> live m ∧ (∀ a, covers (live m') a ↔ covers (live m) a)
    ∧ (laid_out (live m') ↔ tame (live m)) ∧ (tame (live m) → usable_safe (live m') (live m)).
Proof.
  intros Hwf. destruct (fix_overlaps_cases m Hwf) as (m' & E & Hn & [H1 H2 H3 H4]). by exists m'.
Qed.

(** C28: the marking of memory below 1 MiB on a well-formed, disjoint map, although
    it changes the map while iterating over it, never panics, keeps the map
    well-formed and disjoint, and changes nothing but usable addresses below
    1 MiB, which become usable but dangerous. *)
Theorem mark_low_marks m :
  sound m → (3 * next_entry_index m ≤ MAX_MEMORY_MAP_SIZE)%nat →
  ∃ m', mark_low_memory m = Ret m' ∧ sound m' ∧ marked m m'.
Proof. apply mark_low_cases. Qed.

(** The check of a part of the loaded image, which looks at one address per
    page, succeeds exactly when the part is page aligned, not empty, and every
    byte of it is in usable memory. *)
Theorem check_decides m s e :
  sound m → check m s e = Ret tt ↔ s mod 4096 = 0 ∧ s < e ∧ ∀ a, s ≤ a < e → usable_at m a.
Proof. apply check_cases. Qed.

(** C13: When the reservation of frame zero, the trampoline, the bootloader, the
    kernel and the page tables goes through, each of their addresses has exactly
    its own type, every other address keeps its owner, the map stays well-formed
    and disjoint, and the kernel's frame allocator never hands out a frame of the
    image. *)
Theorem reserve_image_protects m im m' :
  sound m → (next_entry_index m + 10 ≤ MAX_MEMORY_MAP_SIZE)%nat → image_ok im → reserve_image m im = Ret m' →
  sound m' ∧ reserved m im m' ∧ ∀ f, free_frame (FrameAlloc.new m') f → ¬ in_image im f.
Proof.
  intros Hs Hn Hi Hrun. destruct (reserve_image_cases _ _ _ Hs Hn Hi Hrun) as [Hs' Hres]. split; [done|]. split; [done|].
  intros f (i & _ & Hf) Him. apply list_elem_of_lookup_2 in Hf. cbn [FrameAlloc.memory_map FrameAlloc.new] in Hf.
  rewrite FrameAlloc.elem_of_usable_pages in Hf by apply Hs'. destruct Hf as (_ & r & Hr & Hu & Hh).
  by apply (reserved_not_usable _ _ _ _ Hres Him r Hr Hh).
Qed.
End partitions.

(** *** Instances *)
(** A reserved area with usable memory behind it that starts inside it, and the end of
    conventional memory as PC firmware reports it, rounded to whole frames. *)
Definition overlapping : list MemoryRegion :=
  [mkRegion (mkFrameRange 0 5) MemoryMap.Reserved; mkRegion (mkFrameRange 4 9) Usable;
   mkRegion (mkFrameRange 0x20 0xa0) Usable; mkRegion (mkFrameRange 0x9f 0xa0) MemoryMap.Reserved].
Definition overlap_map : MemoryMap := {| entries := overlapping ++ replicate 3836 MemoryMap.empty; next_entry_index := 4 |}.
Definition untangled : list MemoryRegion :=
  [mkRegion (mkFrameRange 0 5) MemoryMap.Reserved; mkRegion (mkFrameRange 5 9) Usable;
   mkRegion (mkFrameRange 0x20 0x9f) Usable; mkRegion (mkFrameRange 0x9f 0xa0) MemoryMap.Reserved].

Lemma fix_overlaps_safe_witness :
  ∃ m', fix_overlaps overlap_map = Ret m' ∧ live m' = untangled ∧ tame (live overlap_map) ∧ usable_safe (live m') (live overlap_map).
Proof.
  destruct (fix_overlaps_safe overlap_map) as (m' & H & _ & _ & _ & Ht & Hs).
  - assert (live overlap_map = overlapping) as Hl by reflexivity.
    split; [by vm_compute|]. split; [by apply Nat.leb_le; vm_compute|]. rewrite Hl.
    split; [by repeat constructor; vm_compute|]. split; [by apply (Forall_replicate _ 3836)|].
    repeat constructor.
  - assert (live m' = untangled) as Hl by (vm_compute in H; by injection H as <-).
    assert (laid_out (live m')) as Ho by (rewrite Hl; split; repeat constructor; by vm_compute).
    apply Ht in Ho. exists m'. split; [exact H|]. split; [exact Hl|]. split; [exact Ho|exact (Hs Ho)].
Defined.

Definition two_mib : MemoryMap := single (mkRegion (mkFrameRange 0 0x200) Usable).
Lemma two_mib_sound : sound two_mib.
Proof. split; [by apply single_wf; vm_compute|apply single_disjoint]. Qed.

Lemma mark_low_marks_witness :
  ∃ m', mark_low_memory two_mib = Ret m' ∧ sound m' ∧ marked two_mib m'
    ∧ live m' = [mkRegion (mkFrameRange 0 0x100) UsableButDangerous; mkRegion (mkFrameRange 0x100 0x200) Usable].
Proof.
  destruct (mark_low_marks two_mib) as (m' & H & Hs & Hm); [exact two_mib_sound|by apply Nat.leb_le; vm_compute|].
  exists m'. split; [done|]. split; [done|]. split; [done|]. vm_compute in H. by injection H as <-.
Defined.

Lemma check_decides_witness : check two_mib 0x100000 0x110001 = Ret tt.
Proof.
  apply (check_decides two_mib); [exact two_mib_sound|]. split_and!; [done..|]. intros a Ha.
  exists (mkRegion (mkFrameRange 0 0x200) Usable). split_and!; [by left| |done]. unfold hits, PAGE_SIZE. simpl. lia.
Defined.

Definition small_image : image := mkImage 0x8000 0x9000 0x100000 0x110000 0x120000 0x140000 0x140000 0x150000 0.
Definition reserved_map : MemoryMap :=
  match reserve_image two_mib small_image with Ret m => m | Panic _ => two_mib end.
Lemma reserve_image_protects_witness :
  reserve_image two_mib small_image = Ret reserved_map ∧ sound reserved_map ∧ reserved two_mib small_image reserved_map
    ∧ ∀ f, free_frame (FrameAlloc.new reserved_map) f → ¬ in_image small_image f.
Proof.
  assert (reserve_image two_mib small_image = Ret reserved_map) as Hrun by (vm_compute; reflexivity).
  assert (next_entry_index two_mib + 10 ≤ MAX_MEMORY_MAP_SIZE)%nat as Hn by (apply Nat.leb_le; vm_compute; reflexivity).
  assert (image_ok small_image) as Hi by (repeat split; vm_compute; congruence).
  split; [exact Hrun|]. exact (reserve_image_protects two_mib small_image reserved_map two_mib_sound Hn Hi Hrun).
Defined.

(** ** Where the repair and the marking fall short *)
Definition fixed_areas (areas : list MemoryArea) : run (list MemoryRegion) :=
  '(m, _, _) ← convert_areas areas; m' ← fix_overlaps m; Ret (live m').

(** A usable area inside a reserved one becomes an inverted range. *)
Lemma nested_usable_inverted :
  fixed_areas [mkArea 0 0x9000 Reserved; mkArea 0x4000 0x2000 Available]
  = Ret [mkRegion (mkFrameRange 0 9) MemoryMap.Reserved; mkRegion (mkFrameRange 9 6) Usable].
Proof. by vm_compute. Qed.

(** After a usable area was trimmed, the next one is compared with the area before it: a
    reserved area inside the trimmed one stays usable as well. *)
Lemma reserved_stays_usable :
  fixed_areas [mkArea 0 0x5000 Reserved; mkArea 0x4000 0x5000 Available; mkArea 0x6000 0x1000 Reserved]
  = Ret [mkRegion (mkFrameRange 0 5) MemoryMap.Reserved; mkRegion (mkFrameRange 5 9) Usable;
         mkRegion (mkFrameRange 6 7) MemoryMap.Reserved].
Proof. by vm_compute. Qed.

(** A usable region that ends exactly at 1 MiB is not marked. *)
Lemma usable_up_to_1mib_unmarked :
  mark_low_memory (single (mkRegion (mkFrameRange 1 0x100) Usable)) = Ret (single (mkRegion (mkFrameRange 1 0x100) Usable)).
Proof. vm_compute. reflexivity. Qed.
End Boot.
