(* ===== verification/Multiboot.v ===== *)
(** * crates/multiboot2/multiboot2: the multiboot2 information

    The boot loader leaves a block of tags in memory; [load] checks it, [TagIter] walks
    the tags, and the bootloader takes its memory areas from the memory map tag
    ([read_multiboot], the beginning of [bootloader_main]).  A reference to a tag is its
    address.  Reading an enum with a number that is not one of its discriminants is
    undefined behaviour.  The iterators are followed with one unit of fuel per 8 bytes
    (tags) or per entry (areas).  The bootloader runs in 32-bit mode: [usize] has 32 bits. *)
From S2P Require Import Prelude Bytes MemoryMap FrameAlloc Boot.
Import Bytes.

Module Multiboot.

(** ** header.rs *)
Definition MULTIBOOT2_BOOTLOADER_MAGIC : Z := 0x36d76289.
Inductive TagType :=
  | End | Cmdline | BootLoaderName | Module_ | BasicMeminfo | Bootdev | Mmap | Vbe | Framebuffer | ElfSections | Apm
  | Efi32 | Efi64 | Smbios | AcpiV1 | AcpiV2 | Network | EfiMmap | EfiBs | Efi32Ih | Efi64Ih | LoadBaseAddr.
#[global] Instance TagType_eq_dec : EqDecision TagType.
Proof. solve_decision. Defined.
Definition all_types : list TagType :=
  [End; Cmdline; BootLoaderName; Module_; BasicMeminfo; Bootdev; Mmap; Vbe; Framebuffer; ElfSections; Apm;
   Efi32; Efi64; Smbios; AcpiV1; AcpiV2; Network; EfiMmap; EfiBs; Efi32Ih; Efi64Ih; LoadBaseAddr].
Definition tag_number (t : TagType) : Z :=
  match t with
  | End => 0 | Cmdline => 1 | BootLoaderName => 2 | Module_ => 3 | BasicMeminfo => 4 | Bootdev => 5 | Mmap => 6 | Vbe => 7
  | Framebuffer => 8 | ElfSections => 9 | Apm => 10 | Efi32 => 11 | Efi64 => 12 | Smbios => 13 | AcpiV1 => 14 | AcpiV2 => 15
  | Network => 16 | EfiMmap => 17 | EfiBs => 18 | Efi32Ih => 19 | Efi64Ih => 20 | LoadBaseAddr => 21
  end.
Definition tag_type_of (n : Z) : option TagType := all_types !! Z.to_nat n.

(** ** memory_map.rs: the types of areas *)
Definition area_type_number (t : Boot.MemoryAreaType) : Z :=
  match t with Boot.Available => 1 | Boot.Reserved => 2 | Boot.AcpiAvailable => 3 | Boot.ReservedHibernate => 4 | Boot.Defective => 5 end.
Definition area_type_of (n : Z) : option Boot.MemoryAreaType :=
  if n =? 1 then Some Boot.Available else if n =? 2 then Some Boot.Reserved else if n =? 3 then Some Boot.AcpiAvailable
  else if n =? 4 then Some Boot.ReservedHibernate else if n =? 5 then Some Boot.Defective else None.

(** ** lib.rs *)
Inductive MbiLoadError := IllegalAddress | IllegalTotalSize (n : Z) | NoEndTag.
Record BootInformation := mkInfo { inner : Z; offset : Z }.

(** The value of an enum that was read from memory. *)
Definition discriminant {A} (o : option A) : run A := match o with Some a => Ret a | None => Panic Undefined end.

Section parser.
(** Memory. *)
Variable mem : Z → Z.

Definition read_tag (ptr : Z) : run (TagType * Z) :=
  t ← discriminant (tag_type_of (read_uint mem ptr 4));
  Ret (t, read_uint mem (ptr + 4) 4).
Definition is_end (t : TagType * Z) : bool := bool_decide (t = (End, 8)).

Definition inner_total_size (self : Z) : Z := read_uint mem self 4.
Definition has_valid_end_tag (self : Z) : run bool :=
  d ← usub (inner_total_size self) 8;
  end_tag_addr ← uadd 32 self d;
  end_tag ← read_tag end_tag_addr;
  Ret (is_end end_tag).

Definition load_with_offset (address offset : Z) : run (result BootInformation MbiLoadError) :=
  address ← uadd 32 address offset;
  if (address =? 0) || negb (Z.land address 7 =? 0) then Ret (Err IllegalAddress) else
  if negb (Z.land (inner_total_size address) 7 =? 0) then Ret (Err (IllegalTotalSize (inner_total_size address))) else
  ok ← has_valid_end_tag address;
  if negb ok then Ret (Err NoEndTag) else Ret (Ok (mkInfo address offset)).
Definition load (address : Z) : run (result BootInformation MbiLoadError) := load_with_offset address 0.

Definition start_address (b : BootInformation) : Z := inner b.
Definition total_size (b : BootInformation) : Z := inner_total_size (inner b).
Definition end_address (b : BootInformation) : run Z := uadd 32 (start_address b) (total_size b).

(** *** [TagIter]: the address of the next tag *)
Definition tags (b : BootInformation) : Z := inner b + 8.
Definition tag_iter_next (current : Z) : run (option Z * Z) :=
  tag ← read_tag current;
  if is_end tag then Ret (None, current) else
  s ← uadd 32 tag.2 7;
  tag_addr ← uadd 32 current (Z.land s (unot 32 7));
  Ret (Some current, tag_addr).
(** [iter.find(|tag| tag.typ == typ)]. *)
Fixpoint find_tag (fuel : nat) (typ : TagType) (current : Z) : run (option Z * Z) :=
  match fuel with
  | O => Panic NoFuel
  | S fuel' =>
      '(o, current) ← tag_iter_next current;
      match o with
      | None => Ret (None, current)
      | Some tag => t ← read_tag tag; if bool_decide (t.1 = typ) then Ret (Some tag, current) else find_tag fuel' typ current
      end
  end.
Definition tag_fuel (b : BootInformation) : nat := S (Z.to_nat (total_size b / 8)).
Definition get_tag (b : BootInformation) (typ : TagType) : run (option Z) :=
  '(o, _) ← find_tag (tag_fuel b) typ (tags b); Ret o.

Definition memory_map_tag (b : BootInformation) : run (option Z) := get_tag b Mmap.
Definition boot_loader_name_tag (b : BootInformation) : run (option Z) := get_tag b BootLoaderName.
Definition command_line_tag (b : BootInformation) : run (option Z) := get_tag b Cmdline.
Definition efi_memory_map_tag (b : BootInformation) : run (option Z) :=
  o ← get_tag b EfiBs;
  match o with Some _ => Ret None | None => get_tag b EfiMmap end.

(** *** Strings of tags: module.rs, command_line.rs, boot_loader_name.rs *)
Definition tag_string (tag header : Z) (str : Z) : run (list Z) :=
  strlen ← usub (read_uint mem (tag + 4) 4) header;
  Ret (read_bytes mem (tag + str) (Z.to_nat strlen)).
Definition name (tag : Z) : run (list Z) := tag_string tag 9 8.
Definition command_line (tag : Z) : run (list Z) := tag_string tag 9 8.
Definition cmdline (tag : Z) : run (list Z) := tag_string tag 17 16.
Definition module_start_address (tag : Z) : Z := read_uint mem (tag + 8) 4.
Definition module_end_address (tag : Z) : Z := read_uint mem (tag + 12) 4.
Definition module_size (tag : Z) : run Z := usub (module_end_address tag) (module_start_address tag).
(** [ModuleIter], collected. *)
Fixpoint module_iter (fuel limit : nat) (current : Z) : run (list Z) :=
  match fuel with
  | O => Panic NoFuel
  | S fuel' =>
      '(o, current) ← find_tag limit Module_ current;
      match o with
      | None => Ret []
      | Some tag => l ← module_iter fuel' limit current; Ret (tag :: l)
      end
  end.
Definition module_tags (b : BootInformation) : run (list Z) := module_iter (tag_fuel b) (tag_fuel b) (tags b).

(** *** [MemoryMapTag] and its areas *)
Definition read_area (ptr : Z) : run Boot.MemoryArea :=
  t ← discriminant (area_type_of (read_uint mem (ptr + 16) 4));
  Ret (Boot.mkArea (read_uint mem ptr 8) (read_uint mem (ptr + 8) 8) t).
Record MemoryAreaIter := mkAreaIter { current_area : Z; last_area : Z; entry_size : Z }.
Definition area_iter (tag : Z) : run MemoryAreaIter :=
  let entry_size := read_uint mem (tag + 8) 4 in
  d ← usub (read_uint mem (tag + 4) 4) entry_size;
  last ← uadd 64 tag d;
  Ret (mkAreaIter (tag + 16) last entry_size).
Definition area_iter_next (it : MemoryAreaIter) : run (option Boot.MemoryArea * MemoryAreaIter) :=
  if last_area it <? current_area it then Ret (None, it) else
  area ← read_area (cast 32 (current_area it));
  c ← uadd 64 (current_area it) (entry_size it);
  Ret (Some area, mkAreaIter c (last_area it) (entry_size it)).
Fixpoint collect_areas (fuel : nat) (it : MemoryAreaIter) : run (list Boot.MemoryArea) :=
  match fuel with
  | O => Panic NoFuel
  | S fuel' =>
      '(o, it) ← area_iter_next it;
      match o with
      | None => Ret []
      | Some a => l ← collect_areas fuel' it; Ret (a :: l)
      end
  end.
(** One step per entry: at most [size] entries of one byte. *)
Definition all_memory_areas (tag : Z) : run (list Boot.MemoryArea) :=
  it ← area_iter tag; collect_areas (S (Z.to_nat (read_uint mem (tag + 4) 4))) it.

(** *** [EFIMemoryMapTag] *)
Record EFIMemoryDesc := mkDesc { d_typ : Z; d_phys_addr : Z; d_virt_addr : Z; d_num_pages : Z; d_attr : Z }.
Definition read_desc (ptr : Z) : EFIMemoryDesc :=
  mkDesc (read_uint mem ptr 4) (read_uint mem (ptr + 8) 8) (read_uint mem (ptr + 16) 8) (read_uint mem (ptr + 24) 8) (read_uint mem (ptr + 32) 8).
Definition desc_size (d : EFIMemoryDesc) : run Z := umul 64 (d_num_pages d) 4096.
Definition efi_iter (tag : Z) : run MemoryAreaIter :=
  last ← uadd 64 tag (read_uint mem (tag + 4) 4);
  Ret (mkAreaIter (tag + 16) last (read_uint mem (tag + 8) 4)).
Definition efi_iter_next (it : MemoryAreaIter) : run (option EFIMemoryDesc * MemoryAreaIter) :=
  if last_area it <? current_area it then Ret (None, it) else
  let area := read_desc (cast 32 (current_area it)) in
  c ← uadd 64 (current_area it) (entry_size it);
  Ret (Some area, mkAreaIter c (last_area it) (entry_size it)).
Fixpoint collect_descs (fuel : nat) (it : MemoryAreaIter) : run (list EFIMemoryDesc) :=
  match fuel with
  | O => Panic NoFuel
  | S fuel' =>
      '(o, it) ← efi_iter_next it;
      match o with
      | None => Ret []
      | Some a => l ← collect_descs fuel' it; Ret (a :: l)
      end
  end.
Definition efi_memory_areas (tag : Z) : run (list EFIMemoryDesc) :=
  it ← efi_iter tag; collect_descs (S (Z.to_nat (read_uint mem (tag + 4) 4))) it.

(** *** rsdp.rs *)
Definition rsdp_v1_tag (b : BootInformation) : run (option Z) := get_tag b AcpiV1.
Definition rsdp_v2_tag (b : BootInformation) : run (option Z) := get_tag b AcpiV2.
Definition rsdp_v1_checksum_is_valid (tag : Z) : bool := byte_sum (read_bytes mem (tag + 8) 20) =? 0.
Definition rsdp_v2_checksum_is_valid (tag : Z) : run bool :=
  n ← uadd 32 (read_uint mem (tag + 28) 4) 8;
  Ret (byte_sum (read_bytes mem (tag + 8) (Z.to_nat (n - 8))) =? 0).
Definition rsdt_address (tag : Z) : Z := read_uint mem (tag + 24) 4.
Definition xsdt_address (tag : Z) : Z := cast 32 (read_uint mem (tag + 32) 8).

(** ** [bootloader_main]: from the pointer to the memory areas *)
Definition read_multiboot (magic ptr : Z) : run (list Boot.MemoryArea) :=
  if negb (magic =? MULTIBOOT2_BOOTLOADER_MAGIC) then Panic Explicit else
  r ← load ptr;
  match r with
  | Err _ => Panic Explicit
  | Ok b =>
      o ← boot_loader_name_tag b;
      tag ← unwrap o;
      _ ← name tag;
      o ← command_line_tag b;
      tag ← unwrap o;
      _ ← command_line tag;
      ms ← module_tags b;
      _ ← for_each (λ m _, _ ← cmdline m; Ret tt) ms tt;
      o ← memory_map_tag b;
      map_tag ← unwrap o;
      all_memory_areas map_tag
  end.
End parser.

(** ** The layout of the information by the multiboot2 specification *)
Record mtag := mkMTag { mt_typ : TagType; mt_payload : list Z }.
Definition mt_size (t : mtag) : Z := 8 + Z.of_nat (length (mt_payload t)).
(** Tags start at multiples of 8 bytes. *)
Definition mt_span (t : mtag) : Z := (mt_size t + 7) / 8 * 8.
Definition encode_tag (t : mtag) : list Z :=
  le_bytes 4 (tag_number (mt_typ t)) ++ le_bytes 4 (mt_size t) ++ mt_payload t ++ replicate (Z.to_nat (mt_span t - mt_size t)) 0.
Definition end_tag : list Z := le_bytes 4 0 ++ le_bytes 4 8.
Definition encode_tags (ts : list mtag) : list Z := concat (encode_tag <$> ts).
Definition spans (ts : list mtag) : Z := Z.of_nat (length (encode_tags ts)).
Definition mbi (ts : list mtag) : list Z := le_bytes 4 (16 + spans ts) ++ le_bytes 4 0 ++ encode_tags ts ++ end_tag.
Definition mtag_ok (t : mtag) : Prop := bytes (mt_payload t) ∧ mt_size t < 2 ^ 32 - 8 ∧ (mt_typ t, mt_size t) ≠ (End, 8).
Record mbi_at (mem : Z → Z) (a : Z) (ts : list mtag) : Prop := {
  mb_addr : 0 < a ∧ a mod 8 = 0;
  mb_holds : holds mem a (mbi ts);
  mb_fits : a + 16 + spans ts < 2 ^ 32;
  mb_ok : Forall mtag_ok ts
}.

(** Where the tags of a type lie. *)
Fixpoint positions (typ : TagType) (a : Z) (ts : list mtag) : list Z :=
  match ts with
  | [] => []
  | t :: ts' => (if decide (mt_typ t = typ) then [a] else []) ++ positions typ (a + mt_span t) ts'
  end.

(** ** Lemmas *)
Lemma tag_type_number t : tag_type_of (tag_number t) = Some t.
Proof. by destruct t. Qed.
Lemma tag_number_width t : 0 ≤ tag_number t < 2 ^ 32.
Proof. by destruct t. Qed.
Lemma area_type_of_number t : area_type_of (area_type_number t) = Some t.
Proof. by destruct t. Qed.

Lemma span_bounds t : mt_size t ≤ mt_span t < mt_size t + 8 ∧ 8 ≤ mt_span t ∧ mt_span t mod 8 = 0.
Proof.
  unfold mt_span. assert (8 ≤ mt_size t) by (unfold mt_size; lia).
  pose proof (Z.div_mod (mt_size t + 7) 8 ltac:(lia)). pose proof (Z.mod_pos_bound (mt_size t + 7) 8 ltac:(lia)).
  split; [lia|]. split; [lia|]. apply Z_mod_mult.
Qed.
Lemma length_encode_tag t : Z.of_nat (length (encode_tag t)) = mt_span t.
Proof.
  pose proof (span_bounds t). unfold encode_tag. rewrite !length_app, !length_le_bytes, length_replicate. unfold mt_size in *. lia.
Qed.
Lemma spans_cons t ts : spans (t :: ts) = mt_span t + spans ts.
Proof. unfold spans, encode_tags. cbn [fmap list_fmap concat]. rewrite length_app, <- length_encode_tag. lia. Qed.
Lemma spans_app ts us : spans (ts ++ us) = spans ts + spans us.
Proof. unfold spans, encode_tags. rewrite fmap_app, concat_app, length_app. lia. Qed.
Lemma spans_length ts : 8 * Z.of_nat (length ts) ≤ spans ts.
Proof. induction ts as [|t ts IH]; [done|]. rewrite spans_cons. pose proof (span_bounds t). cbn [length]. lia. Qed.
Lemma spans_mod ts : spans ts mod 8 = 0.
Proof.
  induction ts as [|t ts IH]; [done|]. rewrite spans_cons. pose proof (span_bounds t) as (_ & _ & H). by rewrite Z.add_mod, H, IH by lia.
Qed.

(** Reading a word that memory holds. *)
Lemma read_word mem a pre n v post :
  holds mem a (pre ++ le_bytes n v ++ post) → 0 ≤ v < 2 ^ (8 * Z.of_nat n) → read_uint mem (a + Z.of_nat (length pre)) n = v.
Proof.
  intros Hh Hv. rewrite (read_uint_holds mem a _ (length pre) n Hh); [by apply field_le_bytes|].
  rewrite !length_app, length_le_bytes. lia.
Qed.
Lemma read_tag_encoded mem a t rest :
  holds mem a (encode_tag t ++ rest) → mt_size t < 2 ^ 32 → read_tag mem a = Ret (mt_typ t, mt_size t).
Proof.
  intros Hh Hs. unfold encode_tag in Hh. rewrite <- !app_assoc in Hh. unfold read_tag.
  pose proof (read_word mem a [] 4 _ _ Hh (tag_number_width _)) as E. change (Z.of_nat (length (@nil Z))) with 0 in E.
  rewrite Z.add_0_r in E. rewrite E, tag_type_number.
  cbn [mbind run_bind discriminant]. do 2 f_equal.
  assert (a + 4 = a + Z.of_nat (length (le_bytes 4 (tag_number (mt_typ t))))) as -> by (by rewrite length_le_bytes).
  apply (read_word mem a _ 4 _ _ Hh). unfold mt_size in *. simpl. lia.
Qed.
Lemma read_end mem a rest : holds mem a (end_tag ++ rest) → read_tag mem a = Ret (End, 8).
Proof. intros Hh. by apply (read_tag_encoded mem a (mkMTag End []) rest). Qed.

Lemma land_not7 v : 0 ≤ v < 2 ^ 32 → Z.land v (unot 32 7) = v / 8 * 8.
Proof.
  intros Hv. unfold unot, umax. change (2 ^ 32 - 1 - 7) with (Z.shiftl (Z.ones 29) 3). apply Z.bits_inj'. intros n Hn.
  change 8 with (2 ^ 3). rewrite <- Z.shiftr_div_pow2, <- Z.shiftl_mul_pow2 by lia. rewrite Z.land_spec.
  destruct (Z.ltb_spec n 3).
  - rewrite !(Z.shiftl_spec_low _ _ n) by lia. apply andb_false_r.
  - rewrite !Z.shiftl_spec, Z.shiftr_spec by lia. replace (n - 3 + 3) with n by lia. destruct (Z.ltb_spec (n - 3) 29).
    + rewrite Z.ones_spec_low by lia. apply andb_true_r.
    + rewrite Z.ones_spec_high, andb_false_r by lia. symmetry. apply Z.bits_above_log2; [lia|].
      destruct (decide (v = 0)) as [->|]; [simpl; lia|]. apply Z.log2_lt_pow2; [lia|]. eapply Z.lt_le_trans; [apply Hv|]. apply Z.pow_le_mono_r; lia.
Qed.
Lemma tag_iter_step mem a t rest :
  holds mem a (encode_tag t ++ rest) → mtag_ok t → a + mt_span t < 2 ^ 32 → 0 ≤ a →
  tag_iter_next mem a = Ret (Some a, a + mt_span t).
Proof.
  intros Hh (_ & Hs & Hne) Hfit Ha. unfold tag_iter_next. rewrite (read_tag_encoded mem a t rest) by (done || lia).
  cbn [mbind run_bind]. unfold is_end. rewrite bool_decide_false by done. cbn [snd]. assert (8 ≤ mt_size t) by (unfold mt_size; lia).
  rewrite uadd_Ret by lia. cbn [mbind run_bind]. rewrite land_not7 by lia. fold (mt_span t). by rewrite uadd_Ret by lia.
Qed.
Lemma tag_iter_end mem a rest : holds mem a (end_tag ++ rest) → tag_iter_next mem a = Ret (None, a).
Proof. intros Hh. unfold tag_iter_next. by rewrite (read_end mem a rest Hh). Qed.

(** Tags of other types are passed over. *)
Lemma find_skip mem typ pre : ∀ a rest n,
  holds mem a (encode_tags pre ++ rest) → Forall mtag_ok pre → Forall (λ t, mt_typ t ≠ typ) pre → 0 ≤ a → a + spans pre < 2 ^ 32 →
  find_tag mem (length pre + n) typ a = find_tag mem n typ (a + spans pre).
Proof.
  induction pre as [|t pre IH]; intros a rest n Hh Hok Hne Ha Hfit; [by rewrite Z.add_0_r|].
  apply Forall_cons in Hok as [Ht Hok]. apply Forall_cons in Hne as [Htn Hne]. rewrite spans_cons in *.
  unfold encode_tags in Hh. cbn [fmap list_fmap concat] in Hh. rewrite <- app_assoc in Hh.
  pose proof (spans_length pre). pose proof (span_bounds t).
  cbn [length Nat.add find_tag]. rewrite (tag_iter_step mem a t _ Hh Ht) by lia. cbn [mbind run_bind].
  rewrite (read_tag_encoded mem a t _ Hh) by (destruct Ht as (_ & ? & _); lia). cbn [mbind run_bind fst]. rewrite bool_decide_false by done.
  apply holds_app in Hh as [_ Hh]. rewrite length_encode_tag in Hh.
  rewrite (IH (a + mt_span t) rest n Hh Hok Hne) by lia. f_equal. lia.
Qed.
Lemma split_first typ ts :
  Forall (λ t, mt_typ t ≠ typ) ts ∨ ∃ pre t post, ts = pre ++ t :: post ∧ Forall (λ t, mt_typ t ≠ typ) pre ∧ mt_typ t = typ.
Proof.
  induction ts as [|t ts [IH|(pre & t' & post & -> & Hpre & Ht')]]; [by left| |].
  - destruct (decide (mt_typ t = typ)) as [E|E]; [right; by exists [], t, ts|left; by constructor].
  - destruct (decide (mt_typ t = typ)) as [E|E]; [right; by exists [], t, (pre ++ t' :: post)|].
    right. exists (t :: pre), t', post. split; [done|]. split; [by constructor|done].
Qed.
Lemma positions_skip typ pre : ∀ a post, Forall (λ t, mt_typ t ≠ typ) pre → positions typ a (pre ++ post) = positions typ (a + spans pre) post.
Proof.
  induction pre as [|t pre IH]; intros a post Hne; [by rewrite Z.add_0_r|]. apply Forall_cons in Hne as [Ht Hne].
  cbn [app positions]. rewrite decide_False by done. cbn [app]. rewrite (IH _ _ Hne), spans_cons. f_equal. lia.
Qed.

Section walk.
Variable mem : Z → Z.
(** The rest of the tags, from [a] on. *)
Record walk_at (a : Z) (ts : list mtag) : Prop := {
  wk_holds : holds mem a (encode_tags ts ++ end_tag);
  wk_ok : Forall mtag_ok ts;
  wk_fits : 0 ≤ a ∧ a + spans ts < 2 ^ 32
}.
Lemma walk_split a pre t post :
  walk_at a (pre ++ t :: post) →
  holds mem (a + spans pre) (encode_tag t ++ encode_tags post ++ end_tag) ∧ mtag_ok t ∧ 0 ≤ a
  ∧ a + spans pre + mt_span t < 2 ^ 32 ∧ walk_at (a + spans pre + mt_span t) post.
Proof.
  intros [Hh Hok [Ha Hfit]]. rewrite Forall_app, Forall_cons in Hok. destruct Hok as (_ & Ht & Hpost).
  rewrite spans_app, spans_cons in Hfit. pose proof (spans_length pre). pose proof (spans_length post). pose proof (span_bounds t).
  unfold encode_tags in Hh. rewrite fmap_app, concat_app, <- app_assoc in Hh. apply holds_app in Hh as [_ Hh]. fold (encode_tags pre) in Hh.
  fold (spans pre) in Hh. cbn [fmap list_fmap concat] in Hh. rewrite <- app_assoc in Hh. fold (encode_tags post) in Hh.
  split; [done|]. split; [done|]. split; [done|]. split; [lia|].
  apply holds_app in Hh as [_ Hh]. rewrite length_encode_tag in Hh. split; [done|done|lia].
Qed.
Lemma find_none typ a ts n :
  walk_at a ts → Forall (λ t, mt_typ t ≠ typ) ts → (length ts < n)%nat → ∃ c, find_tag mem n typ a = Ret (None, c).
Proof.
  intros [Hh Hok [Ha Hfit]] Hne Hn. replace n with (length ts + S (n - length ts - 1))%nat by lia.
  rewrite (find_skip mem typ ts a end_tag) by done. cbn [find_tag].
  apply holds_app in Hh as [_ Hh]. rewrite <- (app_nil_r end_tag) in Hh. fold (spans ts) in Hh. rewrite (tag_iter_end mem _ [] Hh). by eexists.
Qed.
Lemma find_some typ a pre t post n :
  walk_at a (pre ++ t :: post) → Forall (λ t, mt_typ t ≠ typ) pre → mt_typ t = typ → (length pre < n)%nat →
  find_tag mem n typ a = Ret (Some (a + spans pre), a + spans pre + mt_span t).
Proof.
  intros Hw Hne Ht Hn. destruct (walk_split a pre t post Hw) as (Hh & Htok & Ha & Hfit & _).
  pose proof (spans_length pre). pose proof (span_bounds t).
  replace n with (length pre + S (n - length pre - 1))%nat by lia.
  destruct Hw as [Hh0 Hok0 _]. unfold encode_tags in Hh0. rewrite fmap_app, concat_app, <- app_assoc in Hh0. apply Forall_app in Hok0 as [Hok0 _].
  rewrite (find_skip mem typ pre a _ _ Hh0 Hok0 Hne) by lia. cbn [find_tag].
  rewrite (tag_iter_step mem _ t _ Hh Htok) by lia. cbn [mbind run_bind].
  rewrite (read_tag_encoded mem _ t _ Hh) by (destruct Htok as (_ & ? & _); lia). cbn [mbind run_bind fst]. by rewrite bool_decide_true.
Qed.
Lemma find_spec typ a ts n : walk_at a ts → (length ts < n)%nat → ∃ c, find_tag mem n typ a = Ret (head (positions typ a ts), c).
Proof.
  intros Hw Hn. destruct (split_first typ ts) as [Hne|(pre & t & post & -> & Hne & Ht)].
  - destruct (find_none typ a ts n Hw Hne Hn) as [c ->]. exists c. by rewrite <- (app_nil_r ts), (positions_skip typ ts a [] Hne).
  - rewrite length_app in Hn. simpl in Hn. rewrite (find_some typ a pre t post n Hw Hne Ht) by lia.
    rewrite (positions_skip typ pre a _ Hne). cbn [positions]. rewrite decide_True by done. by eexists.
Qed.
Lemma module_iter_spec limit fuel : ∀ a ts,
  walk_at a ts → (length ts < limit)%nat → (length ts < fuel)%nat → module_iter mem fuel limit a = Ret (positions Module_ a ts).
Proof.
  induction fuel as [|fuel IH]; intros a ts Hw Hl Hf; [lia|]. cbn [module_iter].
  destruct (split_first Module_ ts) as [Hne|(pre & t & post & -> & Hne & Ht)].
  - destruct (find_none Module_ a ts limit Hw Hne Hl) as [c ->]. cbn [mbind run_bind].
    by rewrite <- (app_nil_r ts), (positions_skip Module_ ts a [] Hne).
  - rewrite length_app in *. simpl in Hl, Hf. rewrite (find_some Module_ a pre t post limit Hw Hne Ht) by lia. cbn [mbind run_bind].
    destruct (walk_split a pre t post Hw) as (_ & _ & _ & _ & Hpost). rewrite (IH _ _ Hpost) by lia. cbn [mbind run_bind].
    rewrite (positions_skip Module_ pre a _ Hne). cbn [positions]. by rewrite decide_True by done.
Qed.
End walk.

(** ** Loading *)
Lemma land7 v : Z.land v 7 = v mod 8.
Proof. apply (Z.land_ones v 3). lia. Qed.
Lemma mbi_total mem a ts : mbi_at mem a ts → inner_total_size mem a = 16 + spans ts.
Proof.
  intros [[Ha _] Hh Hfit _]. unfold inner_total_size. pose proof (spans_length ts).
  pose proof (read_word mem a [] 4 (16 + spans ts) _ Hh ltac:(simpl; lia)) as E. change (Z.of_nat (length (@nil Z))) with 0 in E.
  by rewrite Z.add_0_r in E.
Qed.
Lemma mbi_walk mem a ts : mbi_at mem a ts → walk_at mem (a + 8) ts.
Proof.
  intros [Ha Hh Hfit Hok]. pose proof (spans_length ts). unfold mbi in Hh. apply holds_app in Hh as [_ Hh]. apply holds_app in Hh as [_ Hh].
  rewrite !length_le_bytes in Hh. replace (a + Z.of_nat 4 + Z.of_nat 4) with (a + 8) in Hh by lia. split; [done|done|lia].
Qed.
Lemma mbi_load mem a ts : mbi_at mem a ts → load mem a = Ret (Ok (mkInfo a 0)).
Proof.
  intros Hm. pose proof (mbi_total mem a ts Hm) as Ht. pose proof (mbi_walk mem a ts Hm) as [Hh _ _]. destruct Hm as [[Ha Ha8] _ Hfit _].
  pose proof (spans_length ts). pose proof (spans_mod ts) as Hs8. unfold load, load_with_offset. rewrite uadd_Ret by lia. cbn [mbind run_bind]. rewrite Z.add_0_r.
  rewrite (proj2 (Z.eqb_neq a 0)), !land7, Ha8, Ht by lia. cbn [orb negb Z.eqb].
  assert ((16 + spans ts) mod 8 = 0) as -> by (rewrite Z.add_mod, Hs8 by lia; done). cbn [negb Z.eqb].
  unfold has_valid_end_tag. rewrite Ht, usub_Ret by lia. cbn [mbind run_bind]. rewrite uadd_Ret by lia. cbn [mbind run_bind].
  apply holds_app in Hh as [_ Hh]. fold (spans ts) in Hh. rewrite <- (app_nil_r end_tag) in Hh.
  replace (a + (16 + spans ts - 8)) with (a + 8 + spans ts) by lia. by rewrite (read_end mem _ [] Hh).
Qed.
Lemma mbi_fuel mem a ts : mbi_at mem a ts → (length ts < tag_fuel mem (mkInfo a 0))%nat.
Proof.
  intros Hm. unfold tag_fuel, total_size. cbn [inner]. rewrite (mbi_total mem a ts Hm). pose proof (spans_length ts).
  assert (Z.of_nat (length ts) ≤ (16 + spans ts) / 8) by (apply Z.div_le_lower_bound; lia). lia.
Qed.
Lemma get_tag_spec mem a ts typ : mbi_at mem a ts → get_tag mem (mkInfo a 0) typ = Ret (head (positions typ (a + 8) ts)).
Proof.
  intros Hm. unfold get_tag, tags. cbn [inner].
  destruct (find_spec mem typ (a + 8) ts (tag_fuel mem (mkInfo a 0)) (mbi_walk mem a ts Hm) (mbi_fuel mem a ts Hm)) as [c ->]. done.
Qed.
Lemma module_tags_spec mem a ts : mbi_at mem a ts → module_tags mem (mkInfo a 0) = Ret (positions Module_ (a + 8) ts).
Proof.
  intros Hm. unfold module_tags, tags. cbn [inner]. apply module_iter_spec; [by apply mbi_walk|by apply mbi_fuel|by apply mbi_fuel].
Qed.
(** A position is that of a tag. *)
Lemma positions_elem mem typ : ∀ ts a p, walk_at mem a ts → p ∈ positions typ a ts →
  ∃ t rest, t ∈ ts ∧ mt_typ t = typ ∧ mtag_ok t ∧ holds mem p (encode_tag t ++ rest) ∧ 0 ≤ p ∧ p + mt_span t < 2 ^ 32.
Proof.
  induction ts as [|t ts IH]; intros a p Hw Hp; [by apply elem_of_nil in Hp|].
  destruct (walk_split mem a [] t ts Hw) as (Hh & Ht & Ha & Hfit & Hw'). change (spans []) with 0 in *. rewrite Z.add_0_r in *.
  cbn [positions] in Hp. apply elem_of_app in Hp as [Hp|Hp].
  - destruct (decide (mt_typ t = typ)) as [E|]; [|by apply elem_of_nil in Hp]. apply list_elem_of_singleton in Hp as ->.
    exists t, (encode_tags ts ++ end_tag). split; [by left|done].
  - destruct (IH _ _ Hw' Hp) as (t' & rest & Hin & H). exists t', rest. split; [by right|done].
Qed.

(** ** Strings and areas of a tag *)
Lemma tag_string_spec mem p t rest header str :
  holds mem p (encode_tag t ++ rest) → mtag_ok t → 8 ≤ str → header = str + 1 → header ≤ mt_size t →
  tag_string mem p header str = Ret (take (Z.to_nat (mt_size t - header)) (drop (Z.to_nat (str - 8)) (mt_payload t))).
Proof.
  intros Hh (_ & Hs & _) Hstr -> Hlen. unfold tag_string. assert (8 ≤ mt_size t) by (unfold mt_size; lia).
  unfold encode_tag in Hh. rewrite <- !app_assoc in Hh.
  pose proof (read_word mem p _ 4 _ _ Hh ltac:(simpl; lia)) as E. rewrite length_le_bytes in E. change (Z.of_nat 4) with 4 in E. rewrite E.
  rewrite usub_Ret by lia. cbn [mbind run_bind]. f_equal.
  apply holds_app in Hh as [_ Hh]. apply holds_app in Hh as [_ Hh]. rewrite !length_le_bytes in Hh.
  rewrite <- (take_drop (Z.to_nat (str - 8)) (mt_payload t)), <- app_assoc in Hh. apply holds_app in Hh as [_ Hh].
  unfold mt_size in *. rewrite length_take_le in Hh by lia.
  replace (p + Z.of_nat 4 + Z.of_nat 4 + Z.of_nat (Z.to_nat (str - 8))) with (p + str) in Hh by lia.
  rewrite (read_bytes_holds mem _ _ _ Hh) by (rewrite length_app, length_drop; lia).
  apply take_app_le. rewrite length_drop. lia.
Qed.
Definition encode_area (es : Z) (ar : Boot.MemoryArea) : list Z :=
  le_bytes 8 (Boot.base_addr ar) ++ le_bytes 8 (Boot.length ar) ++ le_bytes 4 (area_type_number (Boot.typ ar)) ++ replicate (Z.to_nat (es - 20)) 0.
Definition mmap_payload (es : Z) (areas : list Boot.MemoryArea) : list Z :=
  le_bytes 4 es ++ le_bytes 4 0 ++ concat (encode_area es <$> areas).
Definition area_ok (ar : Boot.MemoryArea) : Prop := in_width 64 (Boot.base_addr ar) ∧ in_width 64 (Boot.length ar).

Lemma length_encode_area es ar : 24 ≤ es → Z.of_nat (length (encode_area es ar)) = es.
Proof. intros H. unfold encode_area. rewrite !length_app, !length_le_bytes, length_replicate. lia. Qed.
Lemma read_area_encoded mem p es ar rest : holds mem p (encode_area es ar ++ rest) → area_ok ar → read_area mem p = Ret ar.
Proof.
  intros Hh [Hb Hl]. unfold encode_area in Hh. rewrite <- !app_assoc in Hh. unfold read_area.
  pose proof (read_word mem p [] 8 _ _ Hh Hb) as E0. change (Z.of_nat (length (@nil Z))) with 0 in E0. rewrite Z.add_0_r in E0.
  pose proof (read_word mem p _ 8 _ _ Hh Hl) as E1. rewrite length_le_bytes in E1. change (Z.of_nat 8) with 8 in E1.
  rewrite app_assoc in Hh. assert (0 ≤ area_type_number (Boot.typ ar) < 2 ^ (8 * Z.of_nat 4)) as Ht by (by destruct (Boot.typ ar)).
  pose proof (read_word mem p _ 4 _ _ Hh Ht) as E2. rewrite length_app, !length_le_bytes in E2. change (Z.of_nat (8 + 8)) with 16 in E2.
  rewrite E2, area_type_of_number. cbn [mbind run_bind discriminant]. rewrite E0, E1. by destruct ar.
Qed.
Lemma collect_areas_spec mem es rest l : ∀ c last fuel,
  24 ≤ es → holds mem c (concat (encode_area es <$> l) ++ rest) → Forall area_ok l → 0 ≤ c → c + es * Z.of_nat (length l) < 2 ^ 32 →
  c + es * Z.of_nat (length l) = last + es → (length l < fuel)%nat → collect_areas mem fuel (mkAreaIter c last es) = Ret l.
Proof.
  induction l as [|ar l IH]; intros c last fuel Hes Hh Hok Hc Hfit Hlast Hfuel; destruct fuel as [|fuel]; try (simpl in Hfuel; lia);
    cbn [collect_areas]; unfold area_iter_next; cbn [last_area current_area entry_size].
  - rewrite (proj2 (Z.ltb_lt _ _)) by (simpl in Hlast; lia). done.
  - cbn [length] in *. rewrite (proj2 (Z.ltb_ge last c)) by lia. apply Forall_cons in Hok as [Har Hok].
    cbn [fmap list_fmap concat] in Hh. rewrite <- app_assoc in Hh. unfold cast. rewrite Z.mod_small by lia.
    rewrite (read_area_encoded mem c es ar _ Hh Har). cbn [mbind run_bind]. rewrite uadd_Ret by lia. cbn [mbind run_bind].
    apply holds_app in Hh as [_ Hh]. rewrite length_encode_area in Hh by done.
    rewrite (IH (c + es) last fuel) by (done || lia). done.
Qed.
Lemma length_areas es l : 24 ≤ es → Z.of_nat (length (concat (encode_area es <$> l))) = es * Z.of_nat (length l).
Proof.
  intros Hes. induction l as [|ar l IH]; [simpl; lia|]. cbn [fmap list_fmap concat length]. rewrite length_app.
  pose proof (length_encode_area es ar Hes). lia.
Qed.
Lemma all_areas_spec mem p es areas rest :
  24 ≤ es < 2 ^ 32 → areas ≠ [] → Forall area_ok areas → mtag_ok (mkMTag Mmap (mmap_payload es areas)) →
  holds mem p (encode_tag (mkMTag Mmap (mmap_payload es areas)) ++ rest) → 0 ≤ p → p + mt_span (mkMTag Mmap (mmap_payload es areas)) < 2 ^ 32 →
  all_memory_areas mem p = Ret areas.
Proof.
  intros Hes Hne Hok (_ & Hs & _) Hh Hp Hfit. set (t := mkMTag _ _) in *. pose proof (span_bounds t) as [Hsp _].
  assert (mt_size t = 16 + es * Z.of_nat (length areas)) as Hsize.
  { unfold mt_size, t, mmap_payload. cbn [mt_payload]. rewrite !length_app, !length_le_bytes. pose proof (length_areas es areas ltac:(lia)). lia. }
  assert (0 < Z.of_nat (length areas)) by (destruct areas; [done|simpl; lia]). assert (8 ≤ mt_size t) by (unfold mt_size; lia).
  unfold encode_tag in Hh. change (mt_payload t) with (le_bytes 4 es ++ le_bytes 4 0 ++ concat (encode_area es <$> areas)) in Hh. rewrite <- !app_assoc in Hh.
  pose proof (read_word mem p _ 4 _ _ Hh ltac:(simpl; lia)) as E1. rewrite length_le_bytes in E1. change (Z.of_nat 4) with 4 in E1.
  rewrite app_assoc in Hh. pose proof (read_word mem p _ 4 es _ Hh ltac:(simpl; lia)) as E2. rewrite length_app, !length_le_bytes in E2. change (Z.of_nat (4 + 4)) with 8 in E2.
  unfold all_memory_areas, area_iter. rewrite E1, E2, usub_Ret by nia. cbn [mbind run_bind]. rewrite uadd_Ret by lia. cbn [mbind run_bind].
  apply holds_app in Hh as [_ Hh]. apply holds_app in Hh as [_ Hh]. apply holds_app in Hh as [_ Hh]. rewrite !length_app, !length_le_bytes in Hh.
  replace (p + Z.of_nat (4 + 4) + Z.of_nat 4 + Z.of_nat 4) with (p + 16) in Hh by lia.
  apply (collect_areas_spec mem es _ areas (p + 16) _ _ ltac:(lia) Hh Hok); nia.
Qed.

(** ** What the bootloader reads *)
(** The tags that the bootloader needs: name and command line with their terminating
    zero, modules with a command line, a memory map as the first of its type. *)
Record boot_tags (ts : list mtag) (es : Z) (areas : list Boot.MemoryArea) : Prop := {
  bt_name : BootLoaderName ∈ mt_typ <$> ts;
  bt_cmdline : Cmdline ∈ mt_typ <$> ts;
  bt_strings t : t ∈ ts → mt_typ t = BootLoaderName ∨ mt_typ t = Cmdline → mt_payload t ≠ [];
  bt_modules t : t ∈ ts → mt_typ t = Module_ → (9 ≤ length (mt_payload t))%nat;
  bt_map : ∃ pre post, ts = pre ++ mkMTag Mmap (mmap_payload es areas) :: post ∧ Forall (λ t, mt_typ t ≠ Mmap) pre;
  bt_areas : 24 ≤ es < 2 ^ 32 ∧ areas ≠ [] ∧ Forall area_ok areas
}.
Lemma positions_some typ : ∀ ts a, typ ∈ mt_typ <$> ts → ∃ p l, positions typ a ts = p :: l.
Proof.
  induction ts as [|t ts IH]; intros a Hin; [by apply elem_of_nil in Hin|]. cbn [positions].
  destruct (decide (mt_typ t = typ)) as [|Hne]; [by eexists _, _|]. cbn [fmap list_fmap] in Hin. apply elem_of_cons in Hin as [->|Hin]; [done|].
  apply (IH (a + mt_span t) Hin).
Qed.
(** The string of the first tag of a type can be read. *)
Lemma string_returns mem a ts typ header str :
  mbi_at mem a ts → typ ∈ mt_typ <$> ts → 8 ≤ str → header = str + 1 →
  (∀ t, t ∈ ts → mt_typ t = typ → header ≤ mt_size t) →
  ∃ p t l, positions typ (a + 8) ts = p :: l ∧ t ∈ ts ∧ mt_typ t = typ
    ∧ tag_string mem p header str = Ret (take (Z.to_nat (mt_size t - header)) (drop (Z.to_nat (str - 8)) (mt_payload t))).
Proof.
  intros Hm Hin Hstr Hh Hsz. destruct (positions_some typ ts (a + 8) Hin) as (p & l & E).
  destruct (positions_elem mem typ ts (a + 8) p (mbi_walk mem a ts Hm)) as (t & rest & Ht & Hty & Hok & Hhold & _); [rewrite E; by left|].
  exists p, t, l. split; [done|]. split; [done|]. split; [done|]. apply (tag_string_spec mem p t rest); [done|done|done|done|by apply Hsz].
Qed.

(** C20: From a block of tags that is laid out as the multiboot2 specification says,
    with any sequence of well formed tags among which are those the bootloader needs,
    [load] returns the information; the search for a tag finds the first of its type or
    reports that there is none; the module iterator finds all modules in order; and the
    bootloader obtains exactly the memory areas of the memory map, without a panic. *)
Theorem multiboot_round_trip mem a ts es areas :
  mbi_at mem a ts → boot_tags ts es areas →
  load mem a = Ret (Ok (mkInfo a 0)) ∧ end_address mem (mkInfo a 0) = Ret (a + 16 + spans ts)
  ∧ (∀ typ, get_tag mem (mkInfo a 0) typ = Ret (head (positions typ (a + 8) ts)))
  ∧ module_tags mem (mkInfo a 0) = Ret (positions Module_ (a + 8) ts)
  ∧ read_multiboot mem MULTIBOOT2_BOOTLOADER_MAGIC a = Ret areas.
Proof.
  intros Hm Hb. split; [by eapply mbi_load|]. split.
  { unfold end_address, start_address, total_size. cbn [inner]. rewrite (mbi_total mem a ts Hm). pose proof (mb_fits _ _ _ Hm). rewrite uadd_Ret by lia. f_equal. lia. }
  split; [intros typ; by apply get_tag_spec|]. split; [by apply module_tags_spec|].
  unfold read_multiboot. rewrite Z.eqb_refl. cbn [negb]. rewrite (mbi_load mem a ts Hm). cbn [mbind run_bind].
  destruct (string_returns mem a ts BootLoaderName 9 8 Hm (bt_name _ _ _ Hb)) as (p1 & t1 & l1 & E1 & _ & _ & R1); [done|done| |].
  { intros t Ht Hty. pose proof (bt_strings _ _ _ Hb t Ht (or_introl Hty)) as Hne. unfold mt_size. destruct (mt_payload t); [done|cbn [length]; lia]. }
  destruct (string_returns mem a ts Cmdline 9 8 Hm (bt_cmdline _ _ _ Hb)) as (p2 & t2 & l2 & E2 & _ & _ & R2); [done|done| |].
  { intros t Ht Hty. pose proof (bt_strings _ _ _ Hb t Ht (or_intror Hty)) as Hne. unfold mt_size. destruct (mt_payload t); [done|cbn [length]; lia]. }
  unfold boot_loader_name_tag, command_line_tag, memory_map_tag. rewrite !(get_tag_spec mem a ts) by done. rewrite E1, E2. cbn [mbind run_bind head unwrap].
  unfold name, command_line. rewrite R1, R2. cbn [mbind run_bind]. rewrite (module_tags_spec mem a ts Hm). cbn [mbind run_bind].
  destruct (for_each_inv (λ _ _, True) (λ m _, _ ← cmdline mem m; Ret tt) (positions Module_ (a + 8) ts) tt) as ([] & -> & _); [done| |].
  { intros done p rest [] Hp _. destruct (positions_elem mem Module_ ts (a + 8) p (mbi_walk mem a ts Hm)) as (t & r & Ht & Hty & Hok & Hh & _).
    { rewrite Hp. apply elem_of_app. right. by left. }
    exists tt. split; [|done]. unfold cmdline. rewrite (tag_string_spec mem p t r 17 16 Hh Hok); [done|lia|lia|].
    pose proof (bt_modules _ _ _ Hb t Ht Hty). unfold mt_size. lia. }
  cbn [mbind run_bind]. destruct (bt_map _ _ _ Hb) as (pre & post & -> & Hpre). destruct (bt_areas _ _ _ Hb) as (Hes & Hne & Hok).
  rewrite (positions_skip Mmap pre _ _ Hpre). cbn [positions mt_typ]. rewrite decide_True by done. cbn [app head unwrap mbind run_bind].
  destruct (walk_split mem (a + 8) pre _ post (mbi_walk mem a _ Hm)) as (Hh & Ht & Ha & Hfit & _). pose proof (spans_length pre).
  by apply (all_areas_spec mem _ es areas _ Hes Hne Hok Ht Hh); [lia|].
Qed.

(** [load] accepts exactly the blocks at a nonzero address that is a multiple
    of 8, whose total size is a multiple of 8, at least 8, within the 32-bit address
    space, and whose last 8 bytes are an end tag. *)
Theorem load_accepts mem a b :
  byte_memory mem → in_width 32 a →
  load mem a = Ret (Ok b) ↔
    b = mkInfo a 0 ∧ a ≠ 0 ∧ a mod 8 = 0
    ∧ (let n := read_uint mem a 4 in
       n mod 8 = 0 ∧ 8 ≤ n ∧ a + (n - 8) < 2 ^ 32 ∧ read_uint mem (a + (n - 8)) 4 = 0 ∧ read_uint mem (a + (n - 8) + 4) 4 = 8).
Proof.
  intros Hm Ha. unfold in_width in Ha. unfold load, load_with_offset. rewrite uadd_Ret by lia. cbn [mbind run_bind]. rewrite Z.add_0_r, !land7.
  destruct (Z.eqb_spec a 0) as [->|Ha0]; cbn [orb]; [split; [done|naive_solver]|].
  destruct (Z.eqb_spec (a mod 8) 0) as [Ha8|]; cbn [negb]; [|split; [done|naive_solver]].
  unfold inner_total_size, has_valid_end_tag, inner_total_size. set (n := read_uint mem a 4). cbv zeta.
  destruct (Z.eqb_spec (n mod 8) 0) as [Hn8|]; cbn [negb]; [|split; [done|naive_solver]].
  unfold usub. destruct (Z.leb_spec 8 n) as [Hn|]; cbn [mbind run_bind]; [|split; [done|intros (_ & _ & _ & _ & ? & _); lia]].
  unfold uadd. destruct (Z.ltb_spec (a + (n - 8)) (2 ^ 32)) as [Hfit|]; cbn [mbind run_bind]; [|split; [done|intros (_ & _ & _ & _ & _ & ? & _); lia]].
  unfold read_tag. pose proof (read_uint_nonneg mem (a + (n - 8)) 4 Hm) as Hx. set (x := read_uint mem (a + (n - 8)) 4) in *. set (y := read_uint mem _ 4).
  unfold tag_type_of. destruct (all_types !! Z.to_nat x) as [t|] eqn:Et; cbn [discriminant mbind run_bind].
  2:{ split; [done|]. intros (_ & _ & _ & _ & _ & _ & E & _). rewrite E in Et. done. }
  assert (t = End ↔ x = 0) as Ht.
  { split; [|intros E; rewrite E in Et; by injection Et as <-]. intros ->. assert (Z.to_nat x = 0%nat) as E0; [|lia].
    apply (NoDup_lookup all_types _ _ End); [apply (bool_decide_unpack _); by vm_compute|done|done]. }
  unfold is_end. case_bool_decide as Hend; cbn [negb].
  - injection Hend as -> ->. split; [intros [= <-]; by rewrite (proj1 Ht)|]. by intros (-> & _).
  - split; [done|]. intros (_ & _ & _ & _ & _ & _ & E1 & E2). destruct Hend. f_equal; [by apply Ht|done].
Qed.

(** ** Instances *)
Definition sample_tags : list mtag :=
  [mkMTag Cmdline [0x61; 0]; mkMTag BootLoaderName [0x47; 0x52; 0x55; 0x42; 0]; mkMTag Module_ (le_bytes 4 0x200000 ++ le_bytes 4 0x201000 ++ [0x6d; 0]);
   mkMTag Mmap (mmap_payload 24 [Boot.mkArea 0 0x9fc00 Boot.Available; Boot.mkArea 0x100000 0x7ee0000 Boot.Available])].
Definition sample_memory : Z → Z := mem_of 0x10000 (mbi sample_tags).
Lemma sample_tags_ok : Forall mtag_ok sample_tags.
Proof. unfold mtag_ok, bytes. apply (bool_decide_unpack _). by vm_compute. Qed.
Lemma sample_at : mbi_at sample_memory 0x10000 sample_tags.
Proof. split; [done|apply mem_of_holds|by vm_compute|apply sample_tags_ok]. Qed.
Lemma multiboot_round_trip_witness :
  read_multiboot sample_memory MULTIBOOT2_BOOTLOADER_MAGIC 0x10000
  = Ret [Boot.mkArea 0 0x9fc00 Boot.Available; Boot.mkArea 0x100000 0x7ee0000 Boot.Available].
Proof.
  apply (multiboot_round_trip sample_memory 0x10000 sample_tags 24 [Boot.mkArea 0 0x9fc00 Boot.Available; Boot.mkArea 0x100000 0x7ee0000 Boot.Available]).
  - exact sample_at.
  - split.
    + by right; left.
    + by left.
    + intros t Ht Hty. unfold sample_tags in Ht. rewrite !elem_of_cons, elem_of_nil in Ht. destruct Ht as [->|[->|[->|[->|[]]]]]; done.
    + intros t Ht Hty. unfold sample_tags in Ht. rewrite !elem_of_cons, elem_of_nil in Ht. destruct Ht as [->|[->|[->|[->|[]]]]]; try done. apply Nat.leb_le. reflexivity.
    + exists (take 3 sample_tags), []. split; [done|]. repeat constructor; done.
    + split; [done|]. split; [done|]. repeat constructor; done.
Defined.
Lemma load_accepts_witness : load sample_memory 0x10000 = Ret (Ok (mkInfo 0x10000 0)).
Proof.
  apply load_accepts; [|by vm_compute|by vm_compute].
  apply mem_of_bytes. apply (bool_decide_unpack _). by vm_compute.
Defined.

(** ** Malformed information *)
(** A tag of size zero, unless it is the one looked for, is visited forever. *)
Lemma zero_size_tag_loops mem a typ t fuel :
  0 ≤ a < 2 ^ 32 → read_tag mem a = Ret (t, 0) → t ≠ typ → find_tag mem fuel typ a = Panic NoFuel.
Proof.
  intros Ha Ht Hne. induction fuel as [|fuel IH]; [done|]. cbn [find_tag]. unfold tag_iter_next. rewrite Ht. cbn [mbind run_bind].
  unfold is_end. rewrite bool_decide_false by done. cbn [snd]. rewrite uadd_Ret by lia. cbn [mbind run_bind].
  change (Z.land (0 + 7) (unot 32 7)) with 0. rewrite uadd_Ret by lia. cbn [mbind run_bind]. rewrite Ht. cbn [mbind run_bind fst].
  rewrite bool_decide_false by done. by rewrite Z.add_0_r.
Qed.
(** A memory map without areas, or a total size of zero, panics. *)
Lemma empty_map_panics :
  let mem := mem_of 0x10000 (mbi [mkMTag Mmap (mmap_payload 24 [])]) in
  get_tag mem (mkInfo 0x10000 0) Mmap = Ret (Some 0x10008) ∧ all_memory_areas mem 0x10008 = Panic Overflow.
Proof. by vm_compute. Qed.
Lemma zero_total_size_panics : load (λ _, 0) 8 = Panic Overflow.
Proof. by vm_compute. Qed.
(** A tag type that the crate does not know is undefined behaviour. *)
Lemma unknown_tag_undefined : read_tag (mem_of 0x10000 (le_bytes 4 22 ++ le_bytes 4 8)) 0x10000 = Panic Undefined.
Proof. by vm_compute. Qed.
(** The EFI memory map iterator yields a descriptor behind the end of its tag. *)
Lemma efi_iterator_reads_past_end :
  let desc := le_bytes 4 7 ++ le_bytes 4 0 ++ le_bytes 8 0x100000 ++ le_bytes 8 0 ++ le_bytes 8 16 ++ le_bytes 8 0 in
  let mem := mem_of 0x10000 (encode_tag (mkMTag EfiMmap (le_bytes 4 40 ++ le_bytes 4 1 ++ desc)) ++ replicate 40 0xff) in
  length <$> efi_memory_areas mem 0x10000 = Ret 2%nat.
Proof. by vm_compute. Qed.
End Multiboot.
