(* ===== verification/CoreState.v ===== *)
(** * kernel/src/corestate.rs: comparing the registers of two cores

    [save_corestate] records the control and memory typing registers of the
    boot processor, [check_corestate] compares them on another core.  [CoreState::new]
    reads a core ([Control.cpu]); what the functions log is a list of [event]s, without
    the text of the messages. *)
From stdpp Require Import strings.
From S2P Require Import Prelude Addr Paging Msr Mtrr Control.
Import Addr Paging Msr Mtrr.
#[local] Open Scope Z_scope.

Module CoreState.

(** ** The recorded registers *)
Record CoreState := mkCoreState {
  cs_xcr0 : Z;
  cs_cr0 : Z;
  cs_cr2 : Z;
  cs_cr3 : Z * Z;
  cs_cr4 : Z;
  cs_cr8 : Z;
  cs_gdtr : Z;
  cs_idtr : Z;
  cs_efer : Z;
  cs_syscfg : Z;
  cs_star : Z * Z * Z * Z;
  cs_lstar : Z;
  cs_cstar : Z;
  cs_sfmask : Z;
  cs_fsbase : Z;
  cs_gsbase : Z;
  cs_kernel_gsbase : Z;
  mtrrcap : Z;
  mtrrdeftype : Z;
  mtrrphysbase0 : Z;
  mtrrphysbase1 : Z;
  mtrrphysbase2 : Z;
  mtrrphysbase3 : Z;
  mtrrphysbase4 : Z;
  mtrrphysbase5 : Z;
  mtrrphysbase6 : Z;
  mtrrphysbase7 : Z;
  mtrrphysmask0 : Z;
  mtrrphysmask1 : Z;
  mtrrphysmask2 : Z;
  mtrrphysmask3 : Z;
  mtrrphysmask4 : Z;
  mtrrphysmask5 : Z;
  mtrrphysmask6 : Z;
  mtrrphysmask7 : Z;
  mtrrfix64k00000 : list FixMemRange;
  mtrrfix16k80000 : list FixMemRange;
  mtrrfix16ka0000 : list FixMemRange;
  mtrrfix4kc0000 : list FixMemRange;
  mtrrfix4kc8000 : list FixMemRange;
  mtrrfix4kd0000 : list FixMemRange;
  mtrrfix4kd8000 : list FixMemRange;
  mtrrfix4ke0000 : list FixMemRange;
  mtrrfix4ke8000 : list FixMemRange;
  mtrrfix4kf0000 : list FixMemRange;
  mtrrfix4kf8000 : list FixMemRange
}.
#[global] Instance CoreState_eq_dec : EqDecision CoreState.
Proof. solve_decision. Defined.

Section reading.
Context {BF : BitField}.

(** [CoreState::new], one read per field in the order of the source. *)
Definition new (c : Control.cpu) : run CoreState :=
  let m := Control.msrs c in
  let a_xcr0 := Control.xcr0_read c in
  let a_cr0 := Control.ctl_read Control.Cr0 c in
  a_cr2 ← Control.cr2_read c;
  a_cr3 ← Control.cr3_read c;
  let a_cr4 := Control.ctl_read Control.Cr4 c in
  let a_cr8 := Control.ctl_read Control.Cr8 c in
  let a_gdtr := Control.base (Control.gdtr c) in
  let a_idtr := Control.base (Control.idtr c) in
  a_efer ← read m Efer;
  a_syscfg ← syscfg_read m;
  a_star ← star_read m;
  a_lstar ← addr_read m LStar;
  a_cstar ← addr_read m CStar;
  a_sfmask ← sfmask_read m;
  a_fsbase ← addr_read m FsBase;
  a_gsbase ← addr_read m GsBase;
  a_kernel_gsbase ← addr_read m KernelGsBase;
  a_cap ← read m MTRRcap;
  a_deftype ← read m MTRRdefType;
  a_fix64k00000 ← fix_read m MTRRfix64K00000;
  a_fix16k80000 ← fix_read m MTRRfix16K80000;
  a_fix16ka0000 ← fix_read m MTRRfix16KA0000;
  a_fix4kc0000 ← fix_read m MTRRfix4KC0000;
  a_fix4kc8000 ← fix_read m MTRRfix4KC8000;
  a_fix4kd0000 ← fix_read m MTRRfix4KD0000;
  a_fix4kd8000 ← fix_read m MTRRfix4KD8000;
  a_fix4ke0000 ← fix_read m MTRRfix4KD8000;
  a_fix4ke8000 ← fix_read m MTRRfix4KE8000;
  a_fix4kf0000 ← fix_read m MTRRfix4KF0000;
  a_fix4kf8000 ← fix_read m MTRRfix4KF8000;
  a_physmask0 ← read m MTRRphysMask0;
  a_physmask1 ← read m MTRRphysMask0;
  a_physmask2 ← read m MTRRphysMask0;
  a_physmask3 ← read m MTRRphysMask0;
  a_physmask4 ← read m MTRRphysMask0;
  a_physmask5 ← read m MTRRphysMask0;
  a_physmask6 ← read m MTRRphysMask0;
  a_physmask7 ← read m MTRRphysMask0;
  a_physbase0 ← read m MTRRphysBase0;
  a_physbase1 ← read m MTRRphysBase1;
  a_physbase2 ← read m MTRRphysBase2;
  a_physbase3 ← read m MTRRphysBase3;
  a_physbase4 ← read m MTRRphysBase4;
  a_physbase5 ← read m MTRRphysBase5;
  a_physbase6 ← read m MTRRphysBase6;
  a_physbase7 ← read m MTRRphysBase7;
  Ret {|
    cs_xcr0 := a_xcr0; cs_cr0 := a_cr0; cs_cr2 := a_cr2;
    cs_cr3 := a_cr3; cs_cr4 := a_cr4; cs_cr8 := a_cr8;
    cs_gdtr := a_gdtr; cs_idtr := a_idtr; cs_efer := a_efer;
    cs_syscfg := a_syscfg; cs_star := a_star; cs_lstar := a_lstar;
    cs_cstar := a_cstar; cs_sfmask := a_sfmask; cs_fsbase := a_fsbase;
    cs_gsbase := a_gsbase; cs_kernel_gsbase := a_kernel_gsbase; mtrrcap := a_cap;
    mtrrdeftype := a_deftype; mtrrphysbase0 := a_physbase0; mtrrphysbase1 := a_physbase1;
    mtrrphysbase2 := a_physbase2; mtrrphysbase3 := a_physbase3; mtrrphysbase4 := a_physbase4;
    mtrrphysbase5 := a_physbase5; mtrrphysbase6 := a_physbase6; mtrrphysbase7 := a_physbase7;
    mtrrphysmask0 := a_physmask0; mtrrphysmask1 := a_physmask1; mtrrphysmask2 := a_physmask2;
    mtrrphysmask3 := a_physmask3; mtrrphysmask4 := a_physmask4; mtrrphysmask5 := a_physmask5;
    mtrrphysmask6 := a_physmask6; mtrrphysmask7 := a_physmask7; mtrrfix64k00000 := a_fix64k00000;
    mtrrfix16k80000 := a_fix16k80000; mtrrfix16ka0000 := a_fix16ka0000; mtrrfix4kc0000 := a_fix4kc0000;
    mtrrfix4kc8000 := a_fix4kc8000; mtrrfix4kd0000 := a_fix4kd0000; mtrrfix4kd8000 := a_fix4kd8000;
    mtrrfix4ke0000 := a_fix4ke0000; mtrrfix4ke8000 := a_fix4ke8000; mtrrfix4kf0000 := a_fix4kf0000;
    mtrrfix4kf8000 := a_fix4kf8000
  |}.
End reading.

(** ** What is logged *)
Inductive event :=
  | FixedDisabled                              (* "Fixed MTRRs are disabled!" *)
  | FixedEnabled                               (* "Fixed MTRRs are enabled:" *)
  | RangeFrom (start : Z)                      (* "start - " *)
  | RangeTo (end_ : Z) (t : MTRRtype)          (* "end: type" *)
  | Physbase (i start end_ : Z) (t : MTRRtype) (* "Physbase{i}: start - end Type: type" *)
  | DifferentStates                            (* "First one is BSP second one is core 1" *)
  | Differs (field : string)                   (* "field: value value" *)
  | RangeDiffers (field : string) (c d : FixMemRange).
#[global] Instance event_eq_dec : EqDecision event.
Proof. solve_decision. Defined.

(** ** [print_fixed_mtrrs] *)
(** The loop body: [last] is [blast], [here] whether this is the last pair of all. *)
Definition fixed_step (here : bool) (prange range : FixMemRange) (blast : option FixMemRange)
    : option FixMemRange * list event :=
  match blast with
  | Some last =>
      let '(blast', out) :=
        if bool_decide (memory_type range ≠ memory_type last)
        then (Some range, [RangeTo (r_end (fix_range prange)) (memory_type prange); RangeFrom (r_start (fix_range range))])
        else (blast, []) in
      (blast', out ++ (if here then [RangeTo (r_end (fix_range range)) (memory_type range)] else []))
  | None => (Some range, [])
  end.
Definition fixed_register (last_register : bool) (fixreg : list FixMemRange)
    (st : option FixMemRange * list event) : option FixMemRange * list event :=
  foldl (λ '(blast, out) '(z, (prange, range)),
           let '(blast', o) := fixed_step (last_register && (z + 1 =? 7)%nat) prange range blast in (blast', out ++ o))
        st (imap pair (zip fixreg (drop 1 fixreg))).
Definition printed_registers (s : CoreState) : list (list FixMemRange) :=
  [mtrrfix64k00000 s; mtrrfix16k80000 s; mtrrfix16ka0000 s; mtrrfix4kc0000 s; mtrrfix4kc8000 s;
   mtrrfix4kd0000 s; mtrrfix4kd8000 s; mtrrfix4ke0000 s; mtrrfix4ke8000 s; mtrrfix4kf8000 s].
Definition print_fixed_mtrrs (s : CoreState) : list event :=
  if negb (contains (mtrrdeftype s) FIXED_ENABLE) then [FixedDisabled]
  else
    let arr := printed_registers s in
    let '(_, out) := foldl (λ st '(i, fixreg), fixed_register (i + 1 =? length arr)%nat fixreg st) (None, []) (imap pair arr) in
    FixedEnabled :: RangeFrom 0 :: out.

(** ** [print_variable_mtrrs] *)
(** [u64::trailing_zeros]. *)
Fixpoint pos_trailing_zeros (p : positive) : Z :=
  match p with xO q => 1 + pos_trailing_zeros q | _ => 0 end.
Definition trailing_zeros (a : Z) : Z := match a with Zpos p => pos_trailing_zeros p | _ => 64 end.
(** [u64::overflowing_shl(k).0]: the shift amount is taken modulo 64. *)
Definition overflowing_shl (a k : Z) : Z := ushl 64 a (k mod 64).

Definition variable_pairs (s : CoreState) : list (Z * Z) :=
  [(mtrrphysbase0 s, mtrrphysmask0 s); (mtrrphysbase1 s, mtrrphysmask1 s); (mtrrphysbase2 s, mtrrphysmask2 s); (mtrrphysbase3 s, mtrrphysmask3 s);
   (mtrrphysbase4 s, mtrrphysmask4 s); (mtrrphysbase5 s, mtrrphysmask5 s); (mtrrphysbase6 s, mtrrphysmask6 s); (mtrrphysbase7 s, mtrrphysmask7 s)].
Definition variable_step (p : Z * (Z * Z)) (st : bool * list event) : run (bool * list event) :=
  let '(i, (b, mask)) := p in
  let '(valid_once, out) := st in
  let physbase := Z.land b PHYS_BASE in
  let physmask := Z.land mask PHYS_MASK in
  let enabled := Z.land mask VALID =? 1 in
  mem_type ← unwrap (match type_try_from (Z.land b BASE_TYPE) with Ok t => Some t | Err _ => None end);
  let startrange := Z.land physmask physbase in
  let a := trailing_zeros startrange in
  let endmask := unot 64 (overflowing_shl (umax 64) (a - a mod 4)) in
  let endrange := Z.lor startrange endmask in
  Ret (if enabled then (true, out ++ [Physbase i startrange endrange mem_type]) else (valid_once, out)).
Definition print_variable_mtrrs (s : CoreState) : run (list event) :=
  if negb (contains (mtrrdeftype s) MTRR_ENABLE) then Panic Explicit else
  default_mem_type ← unwrap (match type_try_from (Z.land (mtrrdeftype s) DEF_TYPE) with Ok t => Some t | Err _ => None end);
  if bool_decide (default_mem_type ≠ WriteBack) then Panic Explicit else
  '(valid_once, out) ← for_each variable_step (imap (λ i p, (Z.of_nat i, p)) (variable_pairs s)) (false, []);
  if (valid_once : bool) then Panic Explicit else Ret out.

(** ** [diff_print] *)
Definition diff {A} `{!EqDecision A} (field : string) (a b : A) : list event :=
  if decide (a = b) then [] else [Differs field].
Definition print_mtrrfix_diff (field : string) (a b : list FixMemRange) : list event :=
  flat_map (λ '(c, d), if decide (c = d) then [] else [RangeDiffers field c d]) (zip a b).
Definition diff_fix (field : string) (a b : list FixMemRange) : list event :=
  if decide (a = b) then [] else print_mtrrfix_diff field a b.
Definition diff_print (a b : CoreState) : list event :=
  diff "mtrrphysmask0" (mtrrphysmask0 a) (mtrrphysmask0 b)
  ++ diff "mtrrphysmask1" (mtrrphysmask1 a) (mtrrphysmask1 b)
  ++ diff "mtrrphysmask2" (mtrrphysmask2 a) (mtrrphysmask2 b)
  ++ diff "mtrrphysmask3" (mtrrphysmask3 a) (mtrrphysmask3 b)
  ++ diff "mtrrphysmask4" (mtrrphysmask4 a) (mtrrphysmask4 b)
  ++ diff "mtrrphysmask5" (mtrrphysmask5 a) (mtrrphysmask5 b)
  ++ diff "mtrrphysmask6" (mtrrphysmask6 a) (mtrrphysmask6 b)
  ++ diff "mtrrphysmask7" (mtrrphysmask7 a) (mtrrphysmask7 b)
  ++ diff "mtrrphysbase0" (mtrrphysbase0 a) (mtrrphysbase0 b)
  ++ diff "mtrrphysbase1" (mtrrphysbase1 a) (mtrrphysbase1 b)
  ++ diff "mtrrphysbase2" (mtrrphysbase2 a) (mtrrphysbase2 b)
  ++ diff "mtrrphysbase3" (mtrrphysbase3 a) (mtrrphysbase3 b)
  ++ diff "mtrrphysbase4" (mtrrphysbase4 a) (mtrrphysbase4 b)
  ++ diff "mtrrphysbase5" (mtrrphysbase5 a) (mtrrphysbase5 b)
  ++ diff "mtrrphysbase6" (mtrrphysbase6 a) (mtrrphysbase6 b)
  ++ diff "mtrrphysbase7" (mtrrphysbase7 a) (mtrrphysbase7 b)
  ++ diff "mtrrcap" (mtrrcap a) (mtrrcap b)
  ++ diff "mtrrdeftype" (mtrrdeftype a) (mtrrdeftype b)
  ++ diff_fix "mtrrfix64k00000" (mtrrfix64k00000 a) (mtrrfix64k00000 b)
  ++ diff_fix "mtrrfix16k80000" (mtrrfix16k80000 a) (mtrrfix16k80000 b)
  ++ diff_fix "mtrrfix16ka0000" (mtrrfix16ka0000 a) (mtrrfix16ka0000 b)
  ++ diff_fix "mtrrfix16ka0000" (mtrrfix4kc0000 a) (mtrrfix4kc0000 b)
  ++ diff_fix "mtrrfix4kc8000" (mtrrfix4kc8000 a) (mtrrfix4kc8000 b)
  ++ diff_fix "mtrrfix4kd0000" (mtrrfix4kd0000 a) (mtrrfix4kd0000 b)
  ++ diff_fix "mtrrfix4kd8000" (mtrrfix4kd8000 a) (mtrrfix4kd8000 b)
  ++ diff_fix "mtrrfix4ke0000" (mtrrfix4ke0000 a) (mtrrfix4ke0000 b)
  ++ diff_fix "mtrrfix4ke8000" (mtrrfix4ke8000 a) (mtrrfix4ke8000 b)
  ++ diff_fix "mtrrfix4kf8000" (mtrrfix4kf8000 a) (mtrrfix4kf8000 b)
  ++ diff "xcr0" (cs_xcr0 a) (cs_xcr0 b)
  ++ diff "cr0" (cs_cr0 a) (cs_cr0 b)
  ++ diff "cr2" (cs_cr2 a) (cs_cr2 b)
  ++ diff "cr3" (cs_cr3 a) (cs_cr3 b)
  ++ diff "cr4" (cs_cr4 a) (cs_cr4 b)
  ++ diff "cr8" (cs_cr8 a) (cs_cr8 b)
  ++ diff "idtr" (cs_idtr a) (cs_idtr b)
  ++ diff "gdtr" (cs_gdtr a) (cs_gdtr b)
  ++ diff "efer" (cs_efer a) (cs_efer b)
  ++ diff "syscfg" (cs_syscfg a) (cs_syscfg b)
  ++ diff "star" (cs_star a) (cs_star b)
  ++ diff "lstar" (cs_lstar a) (cs_lstar b)
  ++ diff "cstar" (cs_cstar a) (cs_cstar b)
  ++ diff "sfmask" (cs_sfmask a) (cs_sfmask b)
  ++ diff "sfbase" (cs_fsbase a) (cs_fsbase b)
  ++ diff "gsbase" (cs_gsbase a) (cs_gsbase b)
  ++ diff "kernel_gsbase" (cs_kernel_gsbase a) (cs_kernel_gsbase b).

(** ** [save_corestate] and [check_corestate] *)
Section operations.
Context {BF : BitField}.
(** Returns the new [BSPCORE_STATE] and the log. *)
Definition save_corestate (c : Control.cpu) (debug : bool) : run (option CoreState * list event) :=
  s ← new c;
  let BSPCORE_STATE := Some s in
  corestate ← unwrap BSPCORE_STATE;
  let out := if debug then print_fixed_mtrrs corestate else [] in
  out' ← print_variable_mtrrs corestate;
  Ret (BSPCORE_STATE, out ++ out').
(** Returns the log and how the call ends. *)
Definition check_corestate (BSPCORE_STATE : option CoreState) (c : Control.cpu) : list event * run unit :=
  match (curr_core_state ← new c; bsp_state ← unwrap BSPCORE_STATE; Ret (curr_core_state, bsp_state)) with
  | Ret (curr_core_state, bsp_state) =>
      if bool_decide (curr_core_state ≠ bsp_state)
      then (DifferentStates :: diff_print bsp_state curr_core_state, Panic Explicit)
      else ([], Ret tt)
  | Panic e => ([], Panic e)
  end.
End operations.

(** ** Cores whose registers can be read

    Every register is present and 64 bits wide, the address registers are canonical,
    the selectors of [Star] do not overflow, [SFMask] has defined bits only and the fixed
    ranges hold memory types. *)
Definition word (m : machine) (r : Z) : Z := default 0 (m !! r).
Definition present_word (m : machine) (r : Z) : Prop := ∃ v, m !! r = Some v ∧ in_width 64 v.
Definition typed (v : Z) : Prop := ∃ ts, length ts = 8%nat ∧ v = pack ts.
Definition read_flags : list flag_register :=
  [Efer; MTRRcap; MTRRdefType; MTRRphysMask0; MTRRphysBase0; MTRRphysBase1; MTRRphysBase2; MTRRphysBase3;
   MTRRphysBase4; MTRRphysBase5; MTRRphysBase6; MTRRphysBase7].
Definition read_fixed : list fix_register :=
  [MTRRfix64K00000; MTRRfix16K80000; MTRRfix16KA0000; MTRRfix4KC0000; MTRRfix4KC8000; MTRRfix4KD0000;
   MTRRfix4KD8000; MTRRfix4KE8000; MTRRfix4KF0000; MTRRfix4KF8000].
Definition read_addresses : list Z := [LStar; CStar; FsBase; GsBase; KernelGsBase].
Record readable (c : Control.cpu) : Prop := {
  rd_xcr0 : in_width 64 (Control.xcr0 c);
  rd_cr2 : canonical (Control.cr2 c);
  rd_cr3 : in_width 64 (Control.cr3 c);
  rd_flags r : r ∈ read_flags → present_word (Control.msrs c) (MSR r);
  rd_syscfg : present_word (Control.msrs c) Syscfg;
  rd_star : present_word (Control.msrs c) Star;
  rd_star_room : word (Control.msrs c) Star / 2 ^ 48 < 2 ^ 16 - 16
                 ∧ word (Control.msrs c) Star / 2 ^ 32 mod 2 ^ 16 < 2 ^ 16 - 8;
  rd_sfmask : present_word (Control.msrs c) SFMask ∧ Z.land (word (Control.msrs c) SFMask) (unot 64 RFlags) = 0;
  rd_address r : r ∈ read_addresses → ∃ v, Control.msrs c !! r = Some v ∧ canonical v;
  rd_fixed x : x ∈ read_fixed → present_word (Control.msrs c) (fix_MSR x) ∧ typed (word (Control.msrs c) (fix_MSR x))
}.

(** The types a fixed range register holds, read off its bytes. *)
Definition types_of (v : Z) : list MTRRtype :=
  (λ i, match type_try_from (v / 2 ^ (8 * Z.of_nat i) mod 256) with Ok t => t | Err _ => Uncachable end) <$> seq 0 8.
Lemma types_of_pack ts : length ts = 8%nat → types_of (pack ts) = ts.
Proof.
  intros Hts. unfold types_of. apply list_eq. intros i. rewrite list_lookup_fmap. destruct (decide (i < 8)%nat) as [Hi|Hi].
  - rewrite lookup_seq_lt by done. destruct (lookup_lt_is_Some_2 ts i) as [t Ht]; [lia|]. cbn [fmap option_fmap option_map].
    rewrite Nat.add_0_l, (pack_byte ts i t) by done. by rewrite type_try_from_code, Ht.
  - rewrite lookup_seq_ge, lookup_ge_None_2 by lia. done.
Qed.

Section expected.
Context {BF : BitField}.
Implicit Types m : machine.

Lemma word_present m r : present_word m r → m !! r = Some (word m r) ∧ in_width 64 (word m r).
Proof. intros (v & Hv & Hw). unfold word. by rewrite Hv. Qed.
Lemma read_present m r : present_word m (MSR r) → read m r = Ret (Z.land (word m (MSR r)) (all r)).
Proof. intros [Hm Hw]%word_present. by rewrite (flag_read_spec m r (word m (MSR r))). Qed.
Lemma fix_read_typed m x :
  x ∈ fix_registers → present_word m (fix_MSR x) → typed (word m (fix_MSR x)) →
  fix_read m x = Ret (zip_with decoded (fix_ranges x) (types_of (word m (fix_MSR x)))).
Proof.
  intros Hx [Hm Hw]%word_present (ts & Hts & Hp). destruct (registers_ok x Hx) as [Hl Hok].
  unfold fix_read, fix_read_raw. rewrite (msr_read_Ret m _ (word m (fix_MSR x))) by done. cbn [mbind run_bind].
  rewrite Hp, types_of_pack by done.
  apply (fix_decode_spec (pack ts) ts (fix_ranges x) 0); [lia|done|congruence|]. intros i t Hi. by apply pack_byte.
Qed.
Lemma addr_read_canonical m r v : m !! r = Some v → canonical v → addr_read m r = Ret (word m r).
Proof.
  intros Hm Hv. unfold addr_read, word. rewrite (msr_read_Ret m r v) by (done || by apply canonical_width).
  rewrite Hm. cbn [mbind run_bind]. apply virt_new_canonical; [by apply canonical_width|done].
Qed.
Lemma star_read_room m :
  present_word m Star → word m Star / 2 ^ 48 < 2 ^ 16 - 16 → word m Star / 2 ^ 32 mod 2 ^ 16 < 2 ^ 16 - 8 →
  star_read m = Ret (word m Star / 2 ^ 48 + 16, word m Star / 2 ^ 48 + 8,
                     word m Star / 2 ^ 32 mod 2 ^ 16, word m Star / 2 ^ 32 mod 2 ^ 16 + 8).
Proof.
  intros [Hm Hw]%word_present H1 H2. unfold star_read, star_read_raw.
  rewrite (msr_read_Ret m _ (word m Star)) by done. cbn [mbind run_bind]. rewrite get_bits_top by (done || lia).
  rewrite get_bits_spec by (done || lia). change (2 ^ (48 - 32)) with (2 ^ 16).
  pose proof (Z.mod_pos_bound (word m Star / 2 ^ 32) (2 ^ 16) ltac:(lia)).
  unfold to_u16. rewrite !(proj2 (Z.ltb_lt _ _)) by lia. cbn [mbind run_bind].
  rewrite !uadd_Ret by lia. done.
Qed.
Lemma cr3_read_split (c : Control.cpu) :
  in_width 64 (Control.cr3 c) →
  Control.cr3_read c = Ret (entry_addr (Control.cr3 c), Z.land (Control.cr3 c) Control.Cr3Flags).
Proof.
  intros Hw. unfold Control.cr3_read, Control.cr3_read_raw. change 0x000ffffffffff000 with ADDR_MASK.
  pose proof (addr_spec (Control.cr3 c)) as Ha. unfold addr in Ha. rewrite Ha. cbn [mbind run_bind].
  rewrite frame_containing_page by apply entry_addr_page_frame. cbn [mbind run_bind]. do 2 f_equal.
  unfold cast. rewrite Z.mod_small.
  - rewrite <- Z.land_assoc. done.
  - change 0xfff with (2 ^ 12 - 1). rewrite land_mask by lia. pose proof (Z.mod_pos_bound (Control.cr3 c) (2 ^ 12)). lia.
Qed.

(** What [new] records of a readable core. *)
Definition flag_of (c : Control.cpu) (r : flag_register) : Z := Z.land (word (Control.msrs c) (MSR r)) (all r).
Definition ranges_of (c : Control.cpu) (x : fix_register) : list FixMemRange :=
  zip_with decoded (fix_ranges x) (types_of (word (Control.msrs c) (fix_MSR x))).
Definition expected (c : Control.cpu) : CoreState :=
  let m := Control.msrs c in
  {|
    cs_xcr0 := Z.land (Control.xcr0 c) Control.XCr0Flags;
    cs_cr0 := Control.ctl_read Control.Cr0 c;
    cs_cr2 := Control.cr2 c;
    cs_cr3 := (entry_addr (Control.cr3 c), Z.land (Control.cr3 c) Control.Cr3Flags);
    cs_cr4 := Control.ctl_read Control.Cr4 c;
    cs_cr8 := Control.ctl_read Control.Cr8 c;
    cs_gdtr := Control.base (Control.gdtr c);
    cs_idtr := Control.base (Control.idtr c);
    cs_efer := flag_of c Efer;
    cs_syscfg := Z.land (cast 32 (word m Syscfg)) SyscfgFlags;
    cs_star := (word m Star / 2 ^ 48 + 16, word m Star / 2 ^ 48 + 8,
               word m Star / 2 ^ 32 mod 2 ^ 16, word m Star / 2 ^ 32 mod 2 ^ 16 + 8);
    cs_lstar := word m LStar;
    cs_cstar := word m CStar;
    cs_sfmask := word m SFMask;
    cs_fsbase := word m FsBase;
    cs_gsbase := word m GsBase;
    cs_kernel_gsbase := word m KernelGsBase;
    mtrrcap := flag_of c MTRRcap;
    mtrrdeftype := flag_of c MTRRdefType;
    mtrrphysbase0 := flag_of c MTRRphysBase0;
    mtrrphysbase1 := flag_of c MTRRphysBase1;
    mtrrphysbase2 := flag_of c MTRRphysBase2;
    mtrrphysbase3 := flag_of c MTRRphysBase3;
    mtrrphysbase4 := flag_of c MTRRphysBase4;
    mtrrphysbase5 := flag_of c MTRRphysBase5;
    mtrrphysbase6 := flag_of c MTRRphysBase6;
    mtrrphysbase7 := flag_of c MTRRphysBase7;
    mtrrphysmask0 := flag_of c MTRRphysMask0;
    mtrrphysmask1 := flag_of c MTRRphysMask0;
    mtrrphysmask2 := flag_of c MTRRphysMask0;
    mtrrphysmask3 := flag_of c MTRRphysMask0;
    mtrrphysmask4 := flag_of c MTRRphysMask0;
    mtrrphysmask5 := flag_of c MTRRphysMask0;
    mtrrphysmask6 := flag_of c MTRRphysMask0;
    mtrrphysmask7 := flag_of c MTRRphysMask0;
    mtrrfix64k00000 := ranges_of c MTRRfix64K00000;
    mtrrfix16k80000 := ranges_of c MTRRfix16K80000;
    mtrrfix16ka0000 := ranges_of c MTRRfix16KA0000;
    mtrrfix4kc0000 := ranges_of c MTRRfix4KC0000;
    mtrrfix4kc8000 := ranges_of c MTRRfix4KC8000;
    mtrrfix4kd0000 := ranges_of c MTRRfix4KD0000;
    mtrrfix4kd8000 := ranges_of c MTRRfix4KD8000;
    mtrrfix4ke0000 := ranges_of c MTRRfix4KD8000;
    mtrrfix4ke8000 := ranges_of c MTRRfix4KE8000;
    mtrrfix4kf0000 := ranges_of c MTRRfix4KF0000;
    mtrrfix4kf8000 := ranges_of c MTRRfix4KF8000
  |}.

Lemma new_readable c : readable c → new c = Ret (expected c).
Proof.
  intros H. unfold new. set (m := Control.msrs c).
  assert (∀ r, r ∈ read_flags → read m r = Ret (flag_of c r)) as Hf by (intros r Hr; by apply read_present, (rd_flags c H)).
  assert (∀ x, x ∈ read_fixed → x ∈ fix_registers → fix_read m x = Ret (ranges_of c x)) as Hx.
  { intros x Hx Hin. destruct (rd_fixed c H x Hx). by apply fix_read_typed. }
  assert (∀ r, r ∈ read_addresses → addr_read m r = Ret (word m r)) as Ha.
  { intros r Hr. destruct (rd_address c H r Hr) as (v & Hm & Hv). by eapply addr_read_canonical. }
  unfold Control.cr2_read. rewrite (virt_new_canonical (Control.cr2 c)) by (try apply canonical_width; apply (rd_cr2 c H)).
  cbn [mbind run_bind]. rewrite (cr3_read_split c (rd_cr3 c H)). cbn [mbind run_bind].
  rewrite (Hf Efer) by (by apply (bool_decide_unpack _)). cbn [mbind run_bind].
  unfold syscfg_read, syscfg_read_raw. destruct (word_present m Syscfg (rd_syscfg c H)) as [Hs Hsw].
  rewrite (msr_read_Ret m _ _ Hs Hsw). cbn [mbind run_bind].
  destruct (rd_star_room c H). rewrite (star_read_room m) by (done || apply (rd_star c H)). cbn [mbind run_bind].
  rewrite (Ha LStar), (Ha CStar) by (by apply (bool_decide_unpack _)). cbn [mbind run_bind].
  destruct (word_present m SFMask (proj1 (rd_sfmask c H))) as [Hm Hmw]. unfold sfmask_read. rewrite (msr_read_Ret m _ _ Hm Hmw).
  cbn [mbind run_bind]. unfold rflags_from_bits. 
  assert ((Z.land (word m SFMask) (unot 64 RFlags) =? 0) = true) as -> by (apply Z.eqb_eq, (rd_sfmask c H)). cbn [unwrap mbind run_bind].
  repeat match goal with
  | |- context [addr_read m ?r] => rewrite (Ha r) by (by apply (bool_decide_unpack _)); cbn [mbind run_bind]
  | |- context [read m ?r] => rewrite (Hf r) by (by apply (bool_decide_unpack _)); cbn [mbind run_bind]
  | |- context [fix_read m ?x] => rewrite (Hx x) by (by apply (bool_decide_unpack _)); cbn [mbind run_bind]
  end.
  unfold expected, Control.xcr0_read, Control.xcr0_read_raw. rewrite join_halves by apply (rd_xcr0 c H). done.
Qed.
End expected.

(** ** [check_corestate] *)
(** Two cores agree on every bit that [new] keeps. *)
Record same_registers (c1 c2 : Control.cpu) : Prop := {
  sm_xcr0 : Z.land (Control.xcr0 c1) Control.XCr0Flags = Z.land (Control.xcr0 c2) Control.XCr0Flags;
  sm_cr0 : Control.ctl_read Control.Cr0 c1 = Control.ctl_read Control.Cr0 c2;
  sm_cr2 : Control.cr2 c1 = Control.cr2 c2;
  sm_cr3 : entry_addr (Control.cr3 c1) = entry_addr (Control.cr3 c2)
           ∧ Z.land (Control.cr3 c1) Control.Cr3Flags = Z.land (Control.cr3 c2) Control.Cr3Flags;
  sm_cr4 : Control.ctl_read Control.Cr4 c1 = Control.ctl_read Control.Cr4 c2;
  sm_cr8 : Control.ctl_read Control.Cr8 c1 = Control.ctl_read Control.Cr8 c2;
  sm_gdtr : Control.base (Control.gdtr c1) = Control.base (Control.gdtr c2);
  sm_idtr : Control.base (Control.idtr c1) = Control.base (Control.idtr c2);
  sm_flags r : r ∈ read_flags → flag_of c1 r = flag_of c2 r;
  sm_syscfg : Z.land (cast 32 (word (Control.msrs c1) Syscfg)) SyscfgFlags
              = Z.land (cast 32 (word (Control.msrs c2) Syscfg)) SyscfgFlags;
  sm_star : word (Control.msrs c1) Star / 2 ^ 32 = word (Control.msrs c2) Star / 2 ^ 32;
  sm_sfmask : word (Control.msrs c1) SFMask = word (Control.msrs c2) SFMask;
  sm_address r : r ∈ read_addresses → word (Control.msrs c1) r = word (Control.msrs c2) r;
  sm_fixed x : x ∈ read_fixed → word (Control.msrs c1) (fix_MSR x) = word (Control.msrs c2) (fix_MSR x)
}.

Lemma zip_decoded_inj l ts ts' :
  length ts = length l → length ts' = length l → zip_with decoded l ts = zip_with decoded l ts' → ts = ts'.
Proof.
  revert ts ts'. induction l as [|p l IH]; intros [|t ts] [|t' ts']; simpl; try done.
  intros Hl Hl' Heq. injection Heq as Hp Hrest. injection Hl as Hl. injection Hl' as Hl'. f_equal; [by destruct t, t'|by apply IH].
Qed.
Lemma ranges_inj c1 c2 x :
  x ∈ fix_registers → typed (word (Control.msrs c1) (fix_MSR x)) → typed (word (Control.msrs c2) (fix_MSR x)) →
  ranges_of c1 x = ranges_of c2 x → word (Control.msrs c1) (fix_MSR x) = word (Control.msrs c2) (fix_MSR x).
Proof.
  intros Hx (ts1 & H1 & E1) (ts2 & H2 & E2) Heq. unfold ranges_of in Heq. rewrite E1, E2, !types_of_pack in Heq by done.
  rewrite E1, E2. f_equal. destruct (registers_ok x Hx) as [Hl _]. eapply zip_decoded_inj; [..|exact Heq]; by rewrite Hl.
Qed.
Lemma star_digits a b :
  a / 2 ^ 48 = b / 2 ^ 48 → a / 2 ^ 32 mod 2 ^ 16 = b / 2 ^ 32 mod 2 ^ 16 → a / 2 ^ 32 = b / 2 ^ 32.
Proof.
  intros H1 H2. pose proof (Z.div_mod (a / 2 ^ 32) (2 ^ 16) ltac:(lia)) as Ha.
  pose proof (Z.div_mod (b / 2 ^ 32) (2 ^ 16) ltac:(lia)) as Hb. rewrite Z.div_div in Ha, Hb by lia.
  change (2 ^ 32 * 2 ^ 16) with (2 ^ 48) in *. lia.
Qed.
Lemma list_cases {A} `{!EqDecision A} (P : A → Prop) l : Forall P l → ∀ x, x ∈ l → P x.
Proof. by rewrite Forall_forall. Qed.

Lemma expected_same c1 c2 : readable c1 → readable c2 → expected c1 = expected c2 ↔ same_registers c1 c2.
Proof.
  intros R1 R2. split.
  - intros H. assert (∀ x, x ∈ read_fixed → x ∈ fix_registers → ranges_of c1 x = ranges_of c2 x →
      word (Control.msrs c1) (fix_MSR x) = word (Control.msrs c2) (fix_MSR x)) as Hfix.
    { intros x Hx Hin. apply ranges_inj; [done|by apply (rd_fixed c1)|by apply (rd_fixed c2)]. }
    split; [exact (f_equal cs_xcr0 H)|exact (f_equal cs_cr0 H)|exact (f_equal cs_cr2 H)|
      exact (conj (f_equal (λ s, (cs_cr3 s).1) H) (f_equal (λ s, (cs_cr3 s).2) H))|exact (f_equal cs_cr4 H)|exact (f_equal cs_cr8 H)|
      exact (f_equal cs_gdtr H)|exact (f_equal cs_idtr H)| |exact (f_equal cs_syscfg H)| |exact (f_equal cs_sfmask H)| |].
    + apply list_cases. exact (Forall_cons_2 _ _ _ (f_equal cs_efer H) (Forall_cons_2 _ _ _ (f_equal mtrrcap H)
        (Forall_cons_2 _ _ _ (f_equal mtrrdeftype H) (Forall_cons_2 _ _ _ (f_equal mtrrphysmask0 H) (Forall_cons_2 _ _ _
        (f_equal mtrrphysbase0 H) (Forall_cons_2 _ _ _ (f_equal mtrrphysbase1 H) (Forall_cons_2 _ _ _ (f_equal
        mtrrphysbase2 H) (Forall_cons_2 _ _ _ (f_equal mtrrphysbase3 H) (Forall_cons_2 _ _ _ (f_equal mtrrphysbase4 H)
        (Forall_cons_2 _ _ _ (f_equal mtrrphysbase5 H) (Forall_cons_2 _ _ _ (f_equal mtrrphysbase6 H) (Forall_cons_2 _ _
        _ (f_equal mtrrphysbase7 H) (Forall_nil_2 _))))))))))))).
    + pose proof (f_equal (λ s, (cs_star s).1.1.2) H) as H1. pose proof (f_equal (λ s, (cs_star s).1.2) H) as H2.
      cbn in H1, H2. apply star_digits; [lia|exact H2].
    + apply list_cases. exact (Forall_cons_2 _ _ _ (f_equal cs_lstar H) (Forall_cons_2 _ _ _ (f_equal cs_cstar H)
        (Forall_cons_2 _ _ _ (f_equal cs_fsbase H) (Forall_cons_2 _ _ _ (f_equal cs_gsbase H) (Forall_cons_2 _ _ _
        (f_equal cs_kernel_gsbase H) (Forall_nil_2 _)))))).
    + assert (∀ x, x ∈ read_fixed → x ∈ fix_registers) as Hin by (apply list_cases, (bool_decide_unpack _); by vm_compute).
      assert (∀ x, x ∈ read_fixed → ranges_of c1 x = ranges_of c2 x) as Hr
        by (apply list_cases; exact (Forall_cons_2 _ _ _ (f_equal mtrrfix64k00000 H) (Forall_cons_2 _ _ _ (f_equal
            mtrrfix16k80000 H) (Forall_cons_2 _ _ _ (f_equal mtrrfix16ka0000 H) (Forall_cons_2 _ _ _ (f_equal mtrrfix4kc0000
            H) (Forall_cons_2 _ _ _ (f_equal mtrrfix4kc8000 H) (Forall_cons_2 _ _ _ (f_equal mtrrfix4kd0000 H)
            (Forall_cons_2 _ _ _ (f_equal mtrrfix4kd8000 H) (Forall_cons_2 _ _ _ (f_equal mtrrfix4ke8000 H) (Forall_cons_2 _
            _ _ (f_equal mtrrfix4kf0000 H) (Forall_cons_2 _ _ _ (f_equal mtrrfix4kf8000 H) (Forall_nil_2 _)))))))))))).
      intros x Hx. by apply Hfix; [|apply Hin|apply Hr].
  - intros H. assert (∀ x, x ∈ read_fixed → ranges_of c1 x = ranges_of c2 x) as Hfix.
    { intros x Hx. unfold ranges_of. by rewrite (sm_fixed _ _ H x Hx). }
    assert (word (Control.msrs c1) Star / 2 ^ 48 = word (Control.msrs c2) Star / 2 ^ 48) as H48.
    { change (2 ^ 48) with (2 ^ 32 * 2 ^ 16). rewrite <- !Z.div_div by lia. by rewrite (sm_star _ _ H). }
    unfold expected. rewrite (sm_xcr0 _ _ H), (sm_cr0 _ _ H), (sm_cr2 _ _ H), (proj1 (sm_cr3 _ _ H)), (proj2 (sm_cr3 _ _ H)),
      (sm_cr4 _ _ H), (sm_cr8 _ _ H), (sm_gdtr _ _ H), (sm_idtr _ _ H), (sm_syscfg _ _ H), (sm_star _ _ H), H48, (sm_sfmask _ _ H).
    repeat match goal with
    | |- context [flag_of c1 ?r] => rewrite (sm_flags _ _ H r) by (by apply (bool_decide_unpack _))
    | |- context [ranges_of c1 ?x] => rewrite (Hfix x) by (by apply (bool_decide_unpack _))
    | |- context [word (Control.msrs c1) ?r] => rewrite (sm_address _ _ H r) by (by apply (bool_decide_unpack _))
    end. done.
Qed.

Section properties.
Context {BF : BitField}.

Lemma save_returns c debug st out : save_corestate c debug = Ret (st, out) → ∃ s, new c = Ret s ∧ st = Some s.
Proof.
  unfold save_corestate. intros H. destruct (new c) as [s|]; [|discriminate H]. exists s. split; [done|].
  cbn [mbind run_bind unwrap] in H. destruct (print_variable_mtrrs s); [|discriminate H]. by injection H as <- _.
Qed.

(** C31: After [save_corestate] on the boot processor, [check_corestate] on another core
    returns, and logs nothing, exactly when the two cores agree on every register
    the state records (up to reserved bits); on any difference it panics. *)
Theorem check_corestate_exact c1 c2 debug st out :
  readable c1 → readable c2 → save_corestate c1 debug = Ret (st, out) →
  (same_registers c1 c2 → check_corestate st c2 = ([], Ret tt))
  ∧ (¬ same_registers c1 c2 → (check_corestate st c2).2 = Panic Explicit).
Proof.
  intros R1 R2 (s & Hs & ->)%save_returns. rewrite new_readable in Hs by done. injection Hs as <-.
  unfold check_corestate. rewrite new_readable by done. cbn [mbind run_bind unwrap]. split; intros Hsame.
  - rewrite bool_decide_eq_false_2; [done|]. intros Hne. apply Hne. symmetry. by apply expected_same.
  - rewrite bool_decide_eq_true_2; [done|]. intros Heq. apply Hsame. by apply expected_same.
Qed.
End properties.

(** ** [diff_print] *)
(** [mtrrfix4kf0000] is not compared. *)
Definition with_f0000 (s : CoreState) (l : list FixMemRange) : CoreState :=
  mkCoreState (cs_xcr0 s) (cs_cr0 s) (cs_cr2 s) (cs_cr3 s) (cs_cr4 s) (cs_cr8 s) (cs_gdtr s) (cs_idtr s)
    (cs_efer s) (cs_syscfg s) (cs_star s) (cs_lstar s) (cs_cstar s) (cs_sfmask s) (cs_fsbase s) (cs_gsbase s)
    (cs_kernel_gsbase s) (mtrrcap s) (mtrrdeftype s) (mtrrphysbase0 s) (mtrrphysbase1 s) (mtrrphysbase2 s)
    (mtrrphysbase3 s) (mtrrphysbase4 s) (mtrrphysbase5 s) (mtrrphysbase6 s) (mtrrphysbase7 s) (mtrrphysmask0 s)
    (mtrrphysmask1 s) (mtrrphysmask2 s) (mtrrphysmask3 s) (mtrrphysmask4 s) (mtrrphysmask5 s) (mtrrphysmask6 s)
    (mtrrphysmask7 s) (mtrrfix64k00000 s) (mtrrfix16k80000 s) (mtrrfix16ka0000 s) (mtrrfix4kc0000 s)
    (mtrrfix4kc8000 s) (mtrrfix4kd0000 s) (mtrrfix4kd8000 s) (mtrrfix4ke0000 s) (mtrrfix4ke8000 s) l
    (mtrrfix4kf8000 s).
Definition fixed_fields (s : CoreState) : list (list FixMemRange) := mtrrfix4kf0000 s :: printed_registers s.
(** The arrays have eight elements. *)
Definition arrays (s : CoreState) : Prop := Forall (λ l, length l = 8%nat) (fixed_fields s).

Lemma diff_nil {A} `{!EqDecision A} field (a b : A) : diff field a b = [] ↔ a = b.
Proof. unfold diff. by case_decide. Qed.
Lemma diff_fix_nil field a b : length a = 8%nat → length b = 8%nat → diff_fix field a b = [] ↔ a = b.
Proof.
  intros Ha Hb. unfold diff_fix. case_decide as Hne; [done|]. split; [|done]. intros H. exfalso. apply Hne.
  rewrite <- Hb in Ha. clear Hb Hne. revert b Ha H. unfold print_mtrrfix_diff.
  induction a as [|x a IH]; intros [|y b]; simpl; try done. intros Hl H. case_decide as Hx; [|done].
  simpl in H. subst. f_equal. apply IH; [lia|done].
Qed.

(** [diff_print] logs nothing exactly when the states agree in every field apart from
    [mtrrfix4kf0000], which it leaves out: any other difference [check_corestate] panics on is named
    in the log. *)
Theorem diff_print_complete a b :
  arrays a → arrays b → diff_print a b = [] ↔ with_f0000 a (mtrrfix4kf0000 b) = b.
Proof.
  unfold arrays, fixed_fields, printed_registers. rewrite !Forall_cons. intros Ha Hb.
  unfold diff_print. split.
  - intros H. repeat match type of H with
    | diff _ _ _ ++ _ = [] => apply app_nil in H as [?%diff_nil H]
    | diff_fix _ _ _ ++ _ = [] => apply app_nil in H as [?%diff_fix_nil H]; [|tauto..]
    end.
    apply diff_nil in H. destruct a, b. cbn in *. unfold with_f0000. cbn. by subst.
  - intros <-. repeat (apply app_nil; split; [first [by apply diff_nil|by apply diff_fix_nil; tauto]|]). by apply diff_nil.
Qed.

(** ** Behaviour of the code that its messages do not promise *)
(** [VALID] is bit 11, so [mask & VALID == 1] never holds: no variable range is ever
    reported, and its panic is never reached. *)
Lemma valid_never_one mask : (Z.land mask VALID =? 1) = false.
Proof.
  apply Z.eqb_neq. intros H. assert (Z.testbit (Z.land mask VALID) 0 = true) as Hb by (by rewrite H).
  rewrite Z.land_spec in Hb. change (Z.testbit VALID 0) with false in Hb. by rewrite andb_false_r in Hb.
Qed.
Lemma variable_ranges_never_reported s out : print_variable_mtrrs s = Ret out → out = [].
Proof.
  unfold print_variable_mtrrs. destruct (negb _); [done|]. destruct (unwrap _); cbn [mbind run_bind]; [|done]. case_bool_decide; [done|].
  assert (∀ l st, for_each variable_step l (false, []) = Ret st → st = (false, [])) as Hl.
  { induction l as [|[i [b mask]] l IH]; intros st H'; [by injection H' as <-|]. cbn [for_each variable_step] in H'.
    rewrite valid_never_one in H'. destruct (unwrap _); cbn [mbind run_bind] in H'; [by apply IH|done]. }
  destruct (for_each _ _ _) as [st|] eqn:E; [|done]. apply Hl in E as ->. cbn [mbind run_bind]. by intros [= <-].
Qed.

(** ** Instances *)
#[local] Existing Instance bit_field_model.
Definition sample_msrs : machine :=
  list_to_map ([(MSR Efer, 0xd01); (MSR MTRRcap, 0x508); (MSR MTRRdefType, 0xc06); (Syscfg, 0x740000);
                (Star, 0x23000800000000); (SFMask, 0x200)]
               ++ ((λ r, (MSR r, 0x6)) <$> [MTRRphysBase0; MTRRphysBase1; MTRRphysBase2; MTRRphysBase3; MTRRphysBase4;
                                             MTRRphysBase5; MTRRphysBase6; MTRRphysBase7])
               ++ ((λ r, (MSR r, 0)) <$> [MTRRphysMask0; MTRRphysMask1; MTRRphysMask2; MTRRphysMask3; MTRRphysMask4;
                                           MTRRphysMask5; MTRRphysMask6; MTRRphysMask7])
               ++ ((λ x, (fix_MSR x, pack (replicate 8 WriteBack))) <$> fix_registers)
               ++ ((λ r, (r, 0xffffffff80000000)) <$> read_addresses)).
Definition core (m : machine) : Control.cpu :=
  Control.mkCpu m 0x80010011 0 0x1000 0x20 0 0x7 0x202 (Control.mkPointer 0x37 0x2000) (Control.mkPointer 0xfff 0x3000).

Lemma present_by m r :
  match m !! r with Some v => (0 <=? v) && (v <? 2 ^ 64) | None => false end = true → present_word m r.
Proof.
  destruct (m !! r) as [v|] eqn:Hm; [|done]. intros [H1%Z.leb_le H2%Z.ltb_lt]%andb_true_iff. by exists v.
Qed.
Lemma sample_readable : readable (core sample_msrs).
Proof.
  split; cbn [Control.msrs core Control.xcr0 Control.cr2 Control.cr3].
  - by vm_compute.
  - left. by vm_compute.
  - by vm_compute.
  - apply list_cases. unfold read_flags. repeat (constructor; [apply present_by; by vm_compute|]). constructor.
  - apply present_by. by vm_compute.
  - apply present_by. by vm_compute.
  - by vm_compute.
  - split; [apply present_by; by vm_compute|by vm_compute].
  - apply list_cases. unfold read_addresses.
    repeat (constructor; [exists 0xffffffff80000000; split; [by vm_compute|right; by vm_compute]|]). constructor.
  - apply list_cases. unfold read_fixed.
    repeat (constructor; [split; [apply present_by; by vm_compute|exists (replicate 8 WriteBack); by vm_compute]|]). constructor.
Qed.
Definition sample_state : CoreState := expected (core sample_msrs).
Lemma sample_saved : save_corestate (core sample_msrs) false = Ret (Some sample_state, []).
Proof. by vm_compute. Qed.

Lemma check_corestate_exact_witness : check_corestate (Some sample_state) (core sample_msrs) = ([], Ret tt).
Proof.
  apply (check_corestate_exact (core sample_msrs) (core sample_msrs) false (Some sample_state) []).
  - exact sample_readable.
  - exact sample_readable.
  - exact sample_saved.
  - by apply expected_same; [exact sample_readable|exact sample_readable|].
Defined.
Definition other_state : CoreState := with_f0000 sample_state (replicate 8 (decoded (0, 0xfff) Uncachable)).
Lemma diff_print_complete_witness : sample_state ≠ other_state ∧ diff_print sample_state other_state = [].
Proof.
  split; [apply (bool_decide_unpack _); by vm_compute|]. apply (diff_print_complete sample_state other_state).
  - unfold arrays, fixed_fields, printed_registers. repeat (constructor; [by vm_compute|]). constructor.
  - unfold arrays, fixed_fields, printed_registers. repeat (constructor; [by vm_compute|]). constructor.
  - by vm_compute.
Defined.

(** A core whose fourth variable range is enabled passes the check: its mask is never read. *)
Lemma mask_not_checked :
  check_corestate (Some sample_state) (core (<[MSR MTRRphysMask3 := 0xff00000800]> sample_msrs)) = ([], Ret tt).
Proof. by vm_compute. Qed.
(** So does one with other memory types from 0xe0000 to 0xe7fff. *)
Lemma fix4ke0000_not_checked :
  check_corestate (Some sample_state) (core (<[fix_MSR MTRRfix4KE0000 := 0]> sample_msrs)) = ([], Ret tt).
Proof. by vm_compute. Qed.
(** A difference in 0xf0000..0xf7fff is found but not logged. *)
Lemma fix4kf0000_not_logged :
  check_corestate (Some sample_state) (core (<[fix_MSR MTRRfix4KF0000 := 0]> sample_msrs)) = ([DifferentStates], Panic Explicit).
Proof. by vm_compute. Qed.

(** One memory type everywhere prints one range. *)
Lemma print_fixed_uniform : print_fixed_mtrrs sample_state = [FixedEnabled; RangeFrom 0; RangeTo 0x100000 WriteBack].
Proof. by vm_compute. Qed.
(** A change of type at the first range of a register is printed one range late and
    with the wrong type: 0x80000..0x9ffff uncachable. *)
Lemma print_fixed_misplaces :
  (s ← new (core (<[fix_MSR MTRRfix16K80000 := 0]> sample_msrs)); Ret (print_fixed_mtrrs s))
  = Ret [FixedEnabled; RangeFrom 0; RangeTo 0x84000 Uncachable; RangeFrom 0x84000; RangeTo 0xa4000 WriteBack;
         RangeFrom 0xa4000; RangeTo 0x100000 WriteBack].
Proof. by vm_compute. Qed.
End CoreState.
