(* ===== verification/Acpi.v ===== *)
(** * kernel/src/acpi.rs: the ACPI tables

    [Acpi::init] looks for the RSDP, follows the RSDT and parses the MADT (interrupt
    controllers) and the SRAT (proximity domains).  Physical memory is a function from
    addresses to bytes; [read_phys] of a packed struct decodes its bytes.  The loops over
    variable-length entries are fuelled with the number of bytes of the table, which the
    properties show to be enough.  A [BTreeMap] is a [gmap]. *)
From S2P Require Import Prelude Bytes Addr RangeSet.
Import Bytes Addr.

Module Acpi.

(** ** Packed structs *)
Record Header := mkHeader {
  h_signature : list Z; h_length : Z; h_revision : Z; h_checksum : Z; h_oemid : list Z;
  h_oem_table_id : Z; h_oem_revision : Z; h_creator_id : Z; h_creator_revision : Z
}.
Definition header_of (b : list Z) : Header :=
  mkHeader (take 4 b) (field b 4 4) (field b 8 1) (field b 9 1) (take 6 (drop 10 b))
    (field b 16 8) (field b 24 4) (field b 28 4) (field b 32 4).
Definition HEADER_SIZE : Z := 36.

Record Rsdp := mkRsdp { signature : list Z; checksum : Z; oem_id : list Z; revision : Z; rsdt_addr : Z }.
Definition rsdp_of (b : list Z) : Rsdp :=
  mkRsdp (take 8 b) (field b 8 1) (take 6 (drop 9 b)) (field b 15 1) (field b 16 4).
Definition RSDP_SIZE : Z := 20.
Definition RSDP_EXTENDED_SIZE : Z := 36.

Record LocalApic := mkLocalApic { la_typ : Z; la_length : Z; la_processor_uid : Z; la_id : Z; la_flags : Z }.
Definition local_apic_of (b : list Z) : LocalApic :=
  mkLocalApic (field b 0 1) (field b 1 1) (field b 2 1) (field b 3 1) (field b 4 4).
Record IoApic := mkIoApic { io_typ : Z; io_length : Z; io_id : Z; io_res0 : Z; io_address : Z; io_interrupt_base : Z }.
Definition io_apic_of (b : list Z) : IoApic :=
  mkIoApic (field b 0 1) (field b 1 1) (field b 2 1) (field b 3 1) (field b 4 4) (field b 8 4).
Record IntOverride := mkIntOverride { ov_typ : Z; ov_length : Z; ov_bus : Z; ov_source : Z; ov_mapped_to : Z; ov_flags : Z }.
Definition int_override_of (b : list Z) : IntOverride :=
  mkIntOverride (field b 0 1) (field b 1 1) (field b 2 1) (field b 3 1) (field b 4 4) (field b 8 2).
Record NonMaskableInts := mkNmi { nmi_typ : Z; nmi_length : Z; nmi_flags : Z; nmi_int_num : Z }.
Definition nmi_of (b : list Z) : NonMaskableInts := mkNmi (field b 0 1) (field b 1 1) (field b 2 2) (field b 4 4).

(** The strings the code compares with. *)
Definition RSD_PTR : list Z := [0x52; 0x53; 0x44; 0x20; 0x50; 0x54; 0x52; 0x20].
Definition RSDT : list Z := [0x52; 0x53; 0x44; 0x54].
Definition APIC : list Z := [0x41; 0x50; 0x49; 0x43].
Definition SRAT : list Z := [0x53; 0x52; 0x41; 0x54].

(** ** State *)
Record Acpi := mkAcpi {
  apics : option (list LocalApic);
  ioapics : option (list IoApic);
  int_overrides : option (list IntOverride);
  nmis : option (list NonMaskableInts);
  apic_domains : option (gmap Z Z);
  memory_domains : option (gmap Z RangeSet.RangeSet);
  mask_pics : bool
}.
Definition new : Acpi := mkAcpi None None None None None None false.
Definition set_madt (s : Acpi) (la : list LocalApic) (io : list IoApic) (ov : list IntOverride)
    (nm : list NonMaskableInts) (mask : bool) : Acpi :=
  let keep {A} (l : list A) (old : option (list A)) := match l with [] => old | _ => Some l end in
  mkAcpi (keep la (apics s)) (keep io (ioapics s)) (keep ov (int_overrides s)) (keep nm (nmis s))
    (apic_domains s) (memory_domains s) mask.
Definition set_srat (s : Acpi) (ad : gmap Z Z) (md : gmap Z RangeSet.RangeSet) : Acpi :=
  mkAcpi (apics s) (ioapics s) (int_overrides s) (nmis s) (Some ad) (Some md) (mask_pics s).

Section parsing.
Context {BF : BitField}.
(** Physical memory. *)
Variable mem : Z → Z.
#[local] Abbreviation read_bytes := (Bytes.read_bytes mem).
#[local] Abbreviation read_uint := (Bytes.read_uint mem).

(** ** [parse_header] *)
Definition checksum_range (a len : Z) : run Z :=
  for_each (λ i sum, p ← phys_new i; Ret (wrapping_add 8 sum (mem p))) (seqZ a len) 0.
Definition parse_header (addr : Z) : run (Header * Z * Z) :=
  let head := header_of (read_bytes addr 36) in
  table_len ← unwrap (checked_sub (h_length head) HEADER_SIZE);
  _ ← uadd 64 addr (h_length head);
  sum ← checksum_range addr (h_length head);
  if negb (sum =? 0) then Panic Explicit else
  payload ← phys_add addr HEADER_SIZE;
  Ret (head, payload, table_len).

(** ** [search_rsdp] *)
(** The body of the inner loop on one address. *)
Definition try_rsdp (addr : Z) : option Rsdp :=
  let b := read_bytes addr 20 in
  let table := rsdp_of b in
  if negb (bool_decide (signature table = RSD_PTR)) then None
  else if negb (byte_sum b =? 0) then None
  else if (0 <? revision table) && negb (byte_sum (read_bytes addr 36) =? 0) then None
  else Some table.
Fixpoint scan (start end_ : Z) (addrs : list Z) : run (option Rsdp) :=
  match addrs with
  | [] => Ret None
  | addr :: addrs' =>
      e ← uadd 64 start RSDP_SIZE;
      struct_end ← usub e 1;
      if end_ <? struct_end then Ret None else
      p ← phys_new addr;
      match try_rsdp p with
      | Some table => Ret (Some table)
      | None => scan start end_ addrs'
      end
  end.
Definition scan_region (start end_ : Z) : run (option Rsdp) :=
  start ← align_up start 16;
  scan start end_ (step_by start (end_ + 1) 16).
Definition search_rsdp : run (option Rsdp) :=
  let ebda_ptr := read_uint 0x40e 2 in
  r ← scan_region ebda_ptr (ebda_ptr + 1024 - 1);
  match r with
  | Some table => Ret (Some table)
  | None => scan_region 0xe0000 0xfffff
  end.

(** ** [parse_madt] *)
Record madt := mkMadt {
  lapics : list LocalApic; ioapcis : list IoApic; overrides : list IntOverride; nmi_list : list NonMaskableInts
}.
Definition APIC_ENABLED : Z := Z.shiftl 1 0.
Definition APIC_ONLINE_CAPABLE : Z := Z.shiftl 1 1.
Definition usable_apic (l : LocalApic) : bool :=
  negb (Z.land (la_flags l) APIC_ENABLED =? 0) || negb (Z.land (la_flags l) APIC_ONLINE_CAPABLE =? 0).
Definition push_apic (l : LocalApic) (st : madt) : madt :=
  if usable_apic l then mkMadt (lapics st ++ [l]) (ioapcis st) (overrides st) (nmi_list st) else st.
Definition push_io (i : IoApic) (st : madt) : madt := mkMadt (lapics st) (ioapcis st ++ [i]) (overrides st) (nmi_list st).
Definition push_nmi (n : NonMaskableInts) (st : madt) : madt := mkMadt (lapics st) (ioapcis st) (overrides st) (nmi_list st ++ [n]).
Definition push_override (o : IntOverride) (st : madt) : madt :=
  if negb (ov_source o =? ov_mapped_to o) then mkMadt (lapics st) (ioapcis st) (overrides st ++ [o]) (nmi_list st) else st.

Definition madt_entry (ics typ len : Z) (st : madt) : run madt :=
  if typ =? 0 then
    if negb (len =? 8) then Panic Explicit else Ret (push_apic (local_apic_of (read_bytes ics 8)) st)
  else if typ =? 1 then
    if negb (len =? 12) then Panic Explicit else Ret (push_io (io_apic_of (read_bytes ics 12)) st)
  else if typ =? 3 then
    if negb (len =? 8) then Panic Explicit else Ret (push_nmi (nmi_of (read_bytes ics 8)) st)
  else if typ =? 2 then
    if negb (len =? 10) then Panic Explicit else Ret (push_override (int_override_of (read_bytes ics 10)) st)
  else if typ =? 9 then
    if negb (len =? 16) then Panic Explicit else Ret (push_apic (local_apic_of (read_bytes ics 8)) st)
  else Ret st.

(** Both tables are lists of entries that start with a type and a length. *)
Fixpoint entries_loop {S} (entry : Z → Z → Z → S → run S) (fuel : nat) (cur end_ : Z) (st : S) : run S :=
  match fuel with
  | O => Panic NoFuel
  | Datatypes.S fuel' =>
      room ← phys_add cur 2;
      if end_ <? room then Ret st else
      let typ := mem cur in
      pl ← phys_add cur 1;
      let len := mem pl in
      next ← phys_add cur len;
      if end_ <? next then Ret st else
      if len <? 2 then Panic Explicit else
      st' ← entry cur typ len st;
      cur' ← phys_add cur len;
      entries_loop entry fuel' cur' end_ st'
  end.

Definition parse_madt (ptr : Z) : run (madt * bool) :=
  '(_, payload, size) ← parse_header ptr;
  fp ← phys_add ptr 4;
  let flags := read_uint fp 4 in
  let mask_pics := Z.land flags 1 =? 1 in
  i ← phys_add payload 4; ics ← phys_add i 4;
  end_ ← phys_add payload size;
  st ← entries_loop madt_entry (Z.to_nat size + 1) ics end_ (mkMadt [] [] [] []);
  Ret (st, mask_pics).

(** ** [parse_srat] *)
Record srat := mkSrat { apic_affinities : gmap Z Z; memory_affinities : gmap Z RangeSet.RangeSet }.
Definition FLAGS_ENABLED : Z := Z.shiftl 1 0.
(** [BTreeMap::insert], and whether the key was new. *)
Definition insert_new (m : gmap Z Z) (k v : Z) : gmap Z Z * bool :=
  (<[k := v]> m, match m !! k with Some _ => false | None => true end).
Definition add_apic (f : fault) (flags id domain : Z) (st : srat) : run srat :=
  if negb (Z.land flags FLAGS_ENABLED =? 0) then
    let '(m, fresh) := insert_new (apic_affinities st) id domain in
    if fresh : bool then Ret (mkSrat m (memory_affinities st)) else Panic f
  else Ret st.
Definition add_memory (domain base size flags : Z) (st : srat) : run srat :=
  if 0 <? size then
    if negb (Z.land flags FLAGS_ENABLED =? 0) then
      let set := default RangeSet.new (memory_affinities st !! domain) in
      n ← unwrap (checked_sub size 1);
      e ← unwrap (checked_add 64 base n);
      set' ← RangeSet.insert set (RangeSet.mkRange base e);
      Ret (mkSrat (apic_affinities st) (<[domain := set']> (memory_affinities st)))
    else Ret st
  else Ret st.
Definition srat_entry (sra typ len : Z) (st : srat) : run srat :=
  if typ =? 0 then
    if negb (len =? 16) then Panic Explicit else
    p2 ← phys_add sra 2; p9 ← phys_add sra 9; p3 ← phys_add sra 3; p4 ← phys_add sra 4;
    let domain := le (mem p2 :: read_bytes p9 3) in
    add_apic Explicit (read_uint p4 4) (mem p3) domain st
  else if typ =? 1 then
    if negb (len =? 40) then Panic Explicit else
    p2 ← phys_add sra 2; p8 ← phys_add sra 8; p16 ← phys_add sra 16; p28 ← phys_add sra 28;
    add_memory (read_uint p2 4) (read_uint p8 8) (read_uint p16 8) (read_uint p28 4) st
  else if typ =? 2 then
    if negb (len =? 24) then Panic Explicit else
    p4 ← phys_add sra 4; p8 ← phys_add sra 8; p12 ← phys_add sra 12;
    add_apic AssertFailed (read_uint p12 4) (read_uint p8 4) (read_uint p4 4) st
  else Ret st.
Definition parse_srat (ptr : Z) : run srat :=
  '(_, payload, size) ← parse_header ptr;
  s ← phys_add payload 4; sra ← phys_add s 8;
  end_ ← phys_add payload size;
  entries_loop srat_entry (Z.to_nat size + 1) sra end_ (mkSrat ∅ ∅).

(** ** [init] *)
Definition init_table (rsdt_payload : Z) (entry : Z) (s : Acpi) : run Acpi :=
  off ← umul 64 entry 4;
  entry_paddr ← phys_add rsdt_payload off;
  let table_ptr := read_uint entry_paddr 4 in
  ptr ← phys_new table_ptr;
  let sig := read_bytes ptr 4 in
  if bool_decide (sig = APIC) then
    match apics s with
    | Some _ => Panic Explicit
    | None => '(st, mask) ← parse_madt ptr; Ret (set_madt s (lapics st) (ioapcis st) (overrides st) (nmi_list st) mask)
    end
  else if bool_decide (sig = SRAT) then
    match apic_domains s, memory_domains s with
    | None, None => st ← parse_srat ptr; Ret (set_srat s (apic_affinities st) (memory_affinities st))
    | _, _ => Panic Explicit
    end
  else Ret s.
Definition acpi_init (s : Acpi) : run Acpi :=
  o ← search_rsdp;
  rsdp ← unwrap o;
  a ← phys_new (rsdt_addr rsdp);
  '(rsdt, rsdt_payload, rsdt_size) ← parse_header a;
  if negb (bool_decide (h_signature rsdt = RSDT)) then Panic Explicit else
  if negb (rsdt_size mod 4 =? 0) then Panic Explicit else
  for_each (init_table rsdt_payload) (seqZ 0 (rsdt_size / 4)) s.
(** [init]: the static [ACPI_TABLES]. *)
Definition init (ACPI_TABLES : option Acpi) : run (option Acpi * Acpi) :=
  tables ← match ACPI_TABLES with
           | Some t => Ret (Some t)
           | None => acpi ← acpi_init new; Ret (Some acpi)
           end;
  t ← unwrap tables;
  Ret (tables, t).
End parsing.

Section properties.
Context {BF : BitField}.

Lemma phys_add_Ret a n : 0 ≤ a → 0 ≤ n → a + n < 2 ^ 52 → phys_add a n = Ret (a + n).
Proof.
  intros Ha Hn Hlt. unfold phys_add. rewrite uadd_Ret by lia. cbn [mbind run_bind].
  rewrite phys_new_spec by (unfold in_width; lia). rewrite decide_True; [done|]. unfold physical. lia.
Qed.

(** ** [parse_header] *)
Lemma checksum_range_spec mem a len :
  0 ≤ a → a + len ≤ 2 ^ 52 → checksum_range mem a len = Ret (byte_sum (mem <$> seqZ a len)).
Proof.
  intros Ha Hl. unfold checksum_range, byte_sum.
  assert (∀ l acc, Forall (λ i, 0 ≤ i < 2 ^ 52) l →
    for_each (λ i sum, p ← phys_new i; Ret (wrapping_add 8 sum (mem p))) l acc
    = Ret (foldl (λ acc b, wrapping_add 8 acc b) acc (mem <$> l))) as H.
  { induction l as [|i l IH]; intros acc Hf; [done|]. apply Forall_cons in Hf as [Hi Hf]. cbn [for_each].
    rewrite phys_new_Ret by done. cbn [mbind run_bind]. rewrite IH by done. done. }
  apply H. apply Forall_forall. intros i Hi. apply elem_of_seqZ in Hi. lia.
Qed.
Lemma parse_header_spec mem a :
  let head := header_of (read_bytes mem a 36) in
  0 ≤ a → 0 ≤ h_length head → a + h_length head ≤ 2 ^ 52 → a + HEADER_SIZE < 2 ^ 52 →
  parse_header mem a =
    if h_length head <? HEADER_SIZE then Panic Unwrap
    else if byte_sum (mem <$> seqZ a (h_length head)) =? 0
         then Ret (head, a + HEADER_SIZE, h_length head - HEADER_SIZE) else Panic Explicit.
Proof.
  intros head Ha Hl Hb Hs. unfold parse_header. fold head. unfold checked_sub, HEADER_SIZE in *.
  destruct (Z.ltb_spec (h_length head) 36); [by rewrite (proj2 (Z.leb_gt _ _))|].
  rewrite (proj2 (Z.leb_le _ _)) by lia. cbn [mbind run_bind unwrap]. rewrite uadd_Ret by lia. cbn [mbind run_bind].
  rewrite checksum_range_spec by lia. cbn [mbind run_bind]. destruct (_ =? 0); cbn [negb]; [|done].
  rewrite phys_add_Ret by lia. done.
Qed.

(** ** Entries *)
(** An encoded entry: its type, its length and what follows. *)
Definition entry_ok (e : list Z) : Prop :=
  bytes e ∧ (2 ≤ length e ≤ 255)%nat ∧ e !! 1%nat = Some (Z.of_nat (length e)).
Definition typ_of (e : list Z) : Z := default 0 (e !! 0%nat).

Lemma entries_loop_spec {A S} mem (entry : Z → Z → Z → S → run S) (enc : A → list Z) (step : A → S → run S) es :
  ∀ fuel cur st,
  Forall (λ x, entry_ok (enc x)) es → holds mem cur (concat (enc <$> es)) → 0 ≤ cur →
  cur + Z.of_nat (length (concat (enc <$> es))) + 2 < 2 ^ 52 → (length (concat (enc <$> es)) < fuel)%nat →
  (∀ a x st', x ∈ es → holds mem a (enc x) → 0 ≤ a → a + Z.of_nat (length (enc x)) < 2 ^ 52 →
     entry a (typ_of (enc x)) (Z.of_nat (length (enc x))) st' = step x st') →
  entries_loop mem entry fuel cur (cur + Z.of_nat (length (concat (enc <$> es)))) st = for_each step es st.
Proof.
  induction es as [|x es IH]; intros fuel cur st Hok Hh Hc Hb Hf Hstep.
  - change (length (concat (enc <$> []))) with 0%nat in *. destruct fuel as [|fuel]; [lia|]. cbn [entries_loop].
    rewrite (phys_add_Ret cur 2) by lia. cbn [mbind run_bind]. by destruct (Z.ltb_spec (cur + Z.of_nat 0) (cur + 2)); [|lia].
  - apply Forall_cons in Hok as [He Hok]. rewrite fmap_cons in *. cbn [concat] in *. rewrite length_app in *.
    apply holds_app in Hh as [Hh1 Hh2]. pose proof (Hstep cur x st) as Hx. set (e := enc x) in *.
    destruct He as (Hby & Hl & H1). destruct fuel as [|fuel]; [lia|]. cbn [entries_loop for_each].
    rewrite (phys_add_Ret cur 2) by lia. cbn [mbind run_bind].
    rewrite (proj2 (Z.ltb_ge _ (cur + 2))) by lia.
    destruct (lookup_lt_is_Some_2 e 0) as [t Ht]; [lia|].
    assert (mem cur = typ_of e) as -> by (unfold typ_of; rewrite Ht; rewrite <- (Z.add_0_r cur); by apply (Hh1 0%nat)).
    rewrite (phys_add_Ret cur 1) by lia. cbn [mbind run_bind].
    assert (mem (cur + 1) = Z.of_nat (length e)) as -> by exact (Hh1 1%nat _ H1).
    rewrite (phys_add_Ret cur (Z.of_nat (length e))) by lia. cbn [mbind run_bind].
    rewrite (proj2 (Z.ltb_ge _ (cur + Z.of_nat (length e)))), (proj2 (Z.ltb_ge (Z.of_nat (length e)) 2)) by lia.
    rewrite Hx by (done || lia || by left). destruct (step x st) as [st'|]; [|done]. cbn [mbind run_bind].
    replace (cur + Z.of_nat (length e + length (concat (enc <$> es))))
      with (cur + Z.of_nat (length e) + Z.of_nat (length (concat (enc <$> es)))) by lia.
    apply IH; [done|done|lia|lia|lia|]. intros. apply Hstep; [by right|done..].
Qed.

(** ** Termination on arbitrary memory *)
Definition ends {A} (m : run A) : Prop := m ≠ Panic NoFuel.
Lemma ends_bind {A B} (m : run A) (f : A → run B) : ends m → (∀ a, m = Ret a → ends (f a)) → ends (m ≫= f).
Proof. intros Hm Hf. destruct m as [a|e]; cbn [mbind run_bind]; [by apply Hf|]. intros [= ->]. by apply Hm. Qed.
Lemma ends_uadd a b : ends (uadd 64 a b).
Proof. unfold uadd. by destruct (_ <? _). Qed.
Lemma ends_phys_new a : ends (phys_new a).
Proof. unfold phys_new, rust_assert. by destruct (_ =? 0). Qed.
Lemma ends_phys_add a n : ends (phys_add a n).
Proof. apply ends_bind; [apply ends_uadd|]. intros. apply ends_phys_new. Qed.
Lemma phys_add_inv a n b : phys_add a n = Ret b → b = a + n.
Proof.
  unfold phys_add. intros (c & [-> _]%uadd_Ret_inv & H)%bind_Ret. unfold phys_new, rust_assert in H.
  destruct (_ =? 0); [|done]. by injection H as <-.
Qed.
Lemma ends_unwrap {A} (o : option A) : ends (unwrap o).
Proof. by destruct o. Qed.
Lemma ends_for_each {A S} (f : A → S → run S) l s : (∀ a s, ends (f a s)) → ends (for_each f l s).
Proof. intros Hf. revert s. induction l as [|a l IH]; intros s; [done|]. apply ends_bind; [apply Hf|auto]. Qed.
Lemma ends_parse_header mem a : ends (parse_header mem a).
Proof.
  unfold parse_header, checksum_range. apply ends_bind; [apply ends_unwrap|intros n _]. apply ends_bind; [apply ends_uadd|intros _ _].
  apply ends_bind; [apply ends_for_each; intros; apply ends_bind; [apply ends_phys_new|done]|intros s _].
  destruct (negb _); [done|]. apply ends_bind; [apply ends_phys_add|done].
Qed.
Lemma parse_header_payload mem a head p n : parse_header mem a = Ret (head, p, n) → p = a + HEADER_SIZE.
Proof.
  unfold parse_header. intros (x & _ & (y & _ & (z & _ & H)%bind_Ret)%bind_Ret)%bind_Ret.
  destruct (negb _); [done|]. apply bind_Ret in H as (q & Hq%phys_add_inv & H). by injection H as <- <- <-.
Qed.

(** Every iteration moves on by at least two bytes, and stops at the end. *)
Lemma ends_entries_loop {S} (P : S → Prop) mem (entry : Z → Z → Z → S → run S) end_ :
  (∀ a t l st, P st → ends (entry a t l st) ∧ ∀ st', entry a t l st = Ret st' → P st') →
  ∀ fuel cur st, P st → (Z.to_nat (end_ - cur) < fuel)%nat → ends (entries_loop mem entry fuel cur end_ st).
Proof.
  intros Hentry. induction fuel as [|fuel IH]; intros cur st HP Hf; [lia|]. cbn [entries_loop].
  apply ends_bind; [apply ends_phys_add|]. intros room Hroom%phys_add_inv. destruct (Z.ltb_spec end_ room); [done|].
  apply ends_bind; [apply ends_phys_add|]. intros pl _. apply ends_bind; [apply ends_phys_add|]. intros next Hnext%phys_add_inv.
  destruct (Z.ltb_spec end_ next); [done|]. destruct (Z.ltb_spec (mem pl) 2); [done|].
  destruct (Hentry cur (mem cur) (mem pl) st HP) as [He HP']. apply ends_bind; [done|]. intros st' Hst.
  apply ends_bind; [apply ends_phys_add|]. intros cur' Hcur%phys_add_inv. apply IH; [by apply HP'|]. lia.
Qed.

Lemma ends_parse_madt mem ptr : ends (parse_madt mem ptr).
Proof.
  unfold parse_madt. apply ends_bind; [apply ends_parse_header|]. intros [[head payload] size] Hh.
  apply ends_bind; [apply ends_phys_add|intros fp _]. apply ends_bind; [apply ends_phys_add|intros i Hi%phys_add_inv].
  apply ends_bind; [apply ends_phys_add|intros ics Hics%phys_add_inv].
  apply ends_bind; [apply ends_phys_add|intros e He%phys_add_inv]. apply ends_bind; [|done].
  apply (ends_entries_loop (λ _, True)); [|done|lia].
  intros a t l st _. split; [|done]. unfold madt_entry. repeat case_match; done.
Qed.

(** The sets of the memory domains stay well formed. *)
Definition domains_wf (st : srat) : Prop := map_Forall (λ _ rs, RangeSet.wf rs) (memory_affinities st).
Lemma default_wf st d : domains_wf st → RangeSet.wf (default RangeSet.new (memory_affinities st !! d)).
Proof. intros H. destruct (memory_affinities st !! d) as [rs|] eqn:E; [by eapply H|apply RangeSet.rangeset_new_wf]. Qed.
Lemma ends_add_apic f flags id d st : f ≠ NoFuel → ends (add_apic f flags id d st).
Proof.
  intros Hf. unfold add_apic, insert_new. destruct (negb _); [|done]. destruct (apic_affinities st !! id); [|done]. by intros [= ->].
Qed.
Lemma add_apic_wf f flags id d st st' : domains_wf st → add_apic f flags id d st = Ret st' → domains_wf st'.
Proof.
  unfold add_apic, insert_new. intros Hwf. destruct (negb _); [|by intros [= <-]].
  destruct (apic_affinities st !! id); [done|]. by intros [= <-].
Qed.
Lemma add_memory_cases d base size flags st :
  domains_wf st → 0 ≤ base →
  ends (add_memory d base size flags st) ∧ ∀ st', add_memory d base size flags st = Ret st' → domains_wf st'.
Proof.
  intros Hwf Hb. unfold add_memory. destruct (Z.ltb_spec 0 size); [|by split; [|intros st' [= <-]]].
  destruct (negb _); [|by split; [|intros st' [= <-]]]. unfold checked_sub. rewrite (proj2 (Z.leb_le _ _)) by lia.
  cbn [unwrap mbind run_bind]. destruct (checked_add 64 base (size - 1)) as [e|] eqn:He; cbn [unwrap mbind run_bind]; [|done].
  apply checked_add_Some in He as [-> He]. pose proof (default_wf st d Hwf) as Hset.
  destruct (RangeSet.insert_cases _ (RangeSet.mkRange base (base + (size - 1))) Hset) as [(rs' & -> & Hrs & _)|[-> _]].
  - unfold RangeSet.valid, umax. simpl. lia.
  - cbn [mbind run_bind]. split; [done|]. intros st' [= <-]. by apply map_Forall_insert_2.
  - done.
Qed.
Lemma ends_srat_entry mem a t l st : byte_memory mem → domains_wf st →
  ends (srat_entry mem a t l st) ∧ ∀ st', srat_entry mem a t l st = Ret st' → domains_wf st'.
Proof.
  intros Hm Hwf. unfold srat_entry. destruct (t =? 0); [|destruct (t =? 1); [|destruct (t =? 2)]]; cycle 3.
  { split; [done|]. by intros st' [= <-]. }
  all: destruct (negb _); [done|]; split.
  1, 3, 5: repeat (apply ends_bind; [apply ends_phys_add|intros ? _]).
  1, 3: by apply ends_add_apic.
  - apply add_memory_cases; [done|by apply read_uint_nonneg].
  - intros st' (? & _ & (? & _ & (? & _ & (? & _ & H)%bind_Ret)%bind_Ret)%bind_Ret)%bind_Ret. by eapply add_apic_wf.
  - intros st' (? & _ & (? & _ & (? & _ & (? & _ & H)%bind_Ret)%bind_Ret)%bind_Ret)%bind_Ret.
    revert H. apply add_memory_cases; [done|by apply read_uint_nonneg].
  - intros st' (? & _ & (? & _ & (? & _ & H)%bind_Ret)%bind_Ret)%bind_Ret. by eapply add_apic_wf.
Qed.
Lemma ends_parse_srat mem ptr : byte_memory mem → ends (parse_srat mem ptr).
Proof.
  intros Hm. unfold parse_srat. apply ends_bind; [apply ends_parse_header|]. intros [[head payload] size] Hh.
  apply ends_bind; [apply ends_phys_add|intros i Hi%phys_add_inv].
  apply ends_bind; [apply ends_phys_add|intros sra Hs%phys_add_inv].
  apply ends_bind; [apply ends_phys_add|intros e He%phys_add_inv].
  apply (ends_entries_loop domains_wf); [|apply map_Forall_empty|lia].
  intros a t l st Hst. by apply ends_srat_entry.
Qed.
Lemma ends_search_rsdp mem : ends (search_rsdp mem).
Proof.
  assert (∀ l st e, ends (scan mem st e l)) as Hscan.
  { induction l as [|a l IH]; intros st e; [done|]. cbn [scan]. apply ends_bind; [apply ends_uadd|intros x _].
    apply ends_bind; [unfold usub; by destruct (_ <=? _)|intros y _]. destruct (_ <? _); [done|].
    apply ends_bind; [apply ends_phys_new|intros p _]. destruct (try_rsdp mem p); [done|apply IH]. }
  assert (∀ st e, ends (scan_region mem st e)) as Hregion.
  { intros st e. apply ends_bind; [|auto]. unfold align_up, rust_assert. destruct (is_power_of_two 16); cbn [mbind run_bind]; [|done].
    destruct (_ =? 0); [done|apply ends_uadd]. }
  unfold search_rsdp. apply ends_bind; [apply Hregion|]. intros [t|] _; [done|apply Hregion].
Qed.

(** C30: [init] comes to an end on any contents of physical memory: whatever lengths and
    counts the tables claim, every loop over them stops after as many steps as the table
    has bytes, by returning or by a panic. *)
Theorem acpi_init_terminates mem tables : byte_memory mem → init mem tables ≠ Panic NoFuel.
Proof.
  intros Hm. unfold init. apply ends_bind; [|intros t _; apply ends_bind; [apply ends_unwrap|done]].
  destruct tables; [done|]. apply ends_bind; [|done]. unfold acpi_init.
  apply ends_bind; [apply ends_search_rsdp|intros o _]. apply ends_bind; [apply ends_unwrap|intros r _].
  apply ends_bind; [apply ends_phys_new|intros a _]. apply ends_bind; [apply ends_parse_header|intros [[h p] n] _].
  destruct (negb _); [done|]. destruct (negb _); [done|]. apply ends_for_each. intros i s. unfold init_table.
  apply ends_bind; [unfold umul; by destruct (_ <? _)|intros off _]. apply ends_bind; [apply ends_phys_add|intros e _].
  apply ends_bind; [apply ends_phys_new|intros q _]. repeat case_match; try done.
  - apply ends_bind; [apply ends_parse_madt|]. by intros [st mk] _.
  - apply ends_bind; [by apply ends_parse_srat|done].
Qed.

(** ** Tables in memory *)
(** A table at [ptr]: a header, a fixed part [pre] and encoded entries, with the right
    length and checksum. *)
Record table_at (mem : Z → Z) (ptr : Z) (hdr pre : list Z) (es : list (list Z)) : Prop := {
  tb_holds : holds mem ptr (hdr ++ pre ++ concat es);
  tb_header : length hdr = 36%nat;
  tb_length : field hdr 4 4 = Z.of_nat (length (hdr ++ pre ++ concat es));
  tb_sum : byte_sum (hdr ++ pre ++ concat es) = 0;
  tb_range : 0 ≤ ptr ∧ ptr + Z.of_nat (length (hdr ++ pre ++ concat es)) + 2 < 2 ^ 52
}.
Lemma parse_header_table mem ptr hdr pre es :
  table_at mem ptr hdr pre es →
  parse_header mem ptr = Ret (header_of hdr, ptr + 36, Z.of_nat (length pre + length (concat es))).
Proof.
  intros [Hh Hl Hlen Hsum Hr]. assert (read_bytes mem ptr 36 = hdr) as Hb.
  { rewrite (read_bytes_holds mem ptr _ 36 Hh) by (rewrite length_app; lia). by rewrite take_app_length'. }
  pose proof (parse_header_spec mem ptr) as Hp. rewrite Hb in Hp. cbn zeta in Hp. cbn [h_length header_of] in Hp.
  rewrite Hlen in Hp. unfold HEADER_SIZE in Hp. rewrite !length_app, Hl in *. rewrite Hp by lia.
  rewrite (proj2 (Z.ltb_ge _ _)) by lia.
  assert (mem <$> seqZ ptr (Z.of_nat (36 + (length pre + length (concat es)))) = hdr ++ pre ++ concat es) as ->.
  { pose proof (read_bytes_holds mem ptr _ (length (hdr ++ pre ++ concat es)) Hh ltac:(lia)) as H.
    rewrite take_ge in H by lia. unfold read_bytes in H. rewrite !length_app, Hl in H. exact H. }
  rewrite Hsum. cbn [Z.eqb]. repeat f_equal. lia.
Qed.
Lemma entries_at mem ptr hdr pre es :
  table_at mem ptr hdr pre es → holds mem (ptr + 36 + Z.of_nat (length pre)) (concat es).
Proof.
  intros [Hh Hl _ _ _]. apply holds_app in Hh as [_ Hh]. apply holds_app in Hh as [_ Hh]. by rewrite Hl in Hh.
Qed.

(** ** The MADT *)
Inductive controller :=
  | CLapic (uid id flags : Z)
  | CIoApic (id res0 address base : Z)
  | COverride (bus source mapped_to flags : Z)
  | CNmi (flags int_num : Z)
  | COther (typ : Z) (payload : list Z).
(** The layout of the entries by the ACPI specification. *)
Definition encode (c : controller) : list Z :=
  match c with
  | CLapic uid id flags => [0; 8; uid; id] ++ le_bytes 4 flags
  | CIoApic id res0 address base => [1; 12; id; res0] ++ le_bytes 4 address ++ le_bytes 4 base
  | COverride bus source mapped_to flags => [2; 10; bus; source] ++ le_bytes 4 mapped_to ++ le_bytes 2 flags
  | CNmi flags int_num => [3; 8] ++ le_bytes 2 flags ++ le_bytes 4 int_num
  | COther typ payload => typ :: Z.of_nat (2 + length payload) :: payload
  end.
Definition controller_ok (c : controller) : Prop :=
  match c with
  | CLapic uid id flags => u8 uid ∧ u8 id ∧ u32 flags
  | CIoApic id res0 address base => u8 id ∧ u8 res0 ∧ u32 address ∧ u32 base
  | COverride bus source mapped_to flags => u8 bus ∧ u8 source ∧ u32 mapped_to ∧ u16 flags
  | CNmi flags int_num => u16 flags ∧ u32 int_num
  | COther typ payload => u8 typ ∧ typ ∉ [0; 1; 2; 3; 9] ∧ bytes payload ∧ (length payload ≤ 253)%nat
  end.
Definition step_controller (c : controller) (st : madt) : madt :=
  match c with
  | CLapic uid id flags => push_apic (mkLocalApic 0 8 uid id flags) st
  | CIoApic id res0 address base => push_io (mkIoApic 1 12 id res0 address base) st
  | COverride bus source mapped_to flags => push_override (mkIntOverride 2 10 bus source mapped_to flags) st
  | CNmi flags int_num => push_nmi (mkNmi 3 8 flags int_num) st
  | COther _ _ => st
  end.

Lemma encode_ok c : controller_ok c → entry_ok (encode c).
Proof.
  intros Hc. unfold entry_ok. destruct c; cbn [encode controller_ok app] in *; unfold in_width in *; change (2 ^ 8) with 256 in *;
    (split; [|split; [cbn [length]; rewrite ?length_app, ?length_le_bytes; lia|done]]);
    unfold bytes in *; repeat (apply Forall_cons; split; [cbn [length]; lia|]);
    repeat (apply Forall_app_2; [apply bytes_le_bytes|]); try apply bytes_le_bytes.
  apply Hc.
Qed.
Lemma typ_encode c : typ_of (encode c) = match c with CLapic _ _ _ => 0 | CIoApic _ _ _ _ => 1 | COverride _ _ _ _ => 2
                                                  | CNmi _ _ => 3 | COther t _ => t end.
Proof. by destruct c. Qed.
Lemma madt_entry_encode mem a c st :
  controller_ok c → holds mem a (encode c) →
  madt_entry mem a (typ_of (encode c)) (Z.of_nat (length (encode c))) st = Ret (step_controller c st).
Proof.
  intros Hc Hh. rewrite typ_encode. unfold madt_entry.
  assert (∀ n, (n ≤ length (encode c))%nat → read_bytes mem a n = take n (encode c)) as Hr
    by (intros; by apply read_bytes_holds).
  destruct c as [uid id fl|id res ad ba|bus so mp fl|fl n|t p]; simpl in Hc; unfold in_width in Hc.
  - change (Z.of_nat (length (encode (CLapic uid id fl)))) with 8. cbn [Z.eqb negb Pos.eqb step_controller]. rewrite Hr by done.
    do 2 f_equal. unfold local_apic_of. rewrite !field_take by lia. f_equal; try (by apply field_byte).
    rewrite <- (app_nil_r (encode _)). apply (field_le_bytes [0; 8; uid; id] 4 fl []). lia.
  - change (Z.of_nat (length (encode (CIoApic id res ad ba)))) with 12. cbn [Z.eqb negb Pos.eqb step_controller]. rewrite Hr by done.
    do 2 f_equal. unfold io_apic_of. rewrite !field_take by lia. f_equal; try (by apply field_byte).
    + apply (field_le_bytes [1; 12; id; res] 4 ad (le_bytes 4 ba)). lia.
    + rewrite <- (app_nil_r (encode _)). apply (field_le_bytes ([1; 12; id; res] ++ le_bytes 4 ad) 4 ba []). lia.
  - change (Z.of_nat (length (encode (COverride bus so mp fl)))) with 10. cbn [Z.eqb negb Pos.eqb step_controller]. rewrite Hr by done.
    do 2 f_equal. unfold int_override_of. rewrite !field_take by lia. f_equal; try (by apply field_byte).
    + apply (field_le_bytes [2; 10; bus; so] 4 mp (le_bytes 2 fl)). lia.
    + rewrite <- (app_nil_r (encode _)). apply (field_le_bytes ([2; 10; bus; so] ++ le_bytes 4 mp) 2 fl []). lia.
  - change (Z.of_nat (length (encode (CNmi fl n)))) with 8. cbn [Z.eqb negb Pos.eqb step_controller]. rewrite Hr by done.
    do 2 f_equal. unfold nmi_of. rewrite !field_take by lia. f_equal; try (by apply field_byte).
    + apply (field_le_bytes [3; 8] 2 fl (le_bytes 4 n)). lia.
    + rewrite <- (app_nil_r (encode _)). apply (field_le_bytes ([3; 8] ++ le_bytes 2 fl) 4 n []). lia.
  - destruct Hc as (_ & Ht & _). rewrite !not_elem_of_cons in Ht.
    by rewrite !(proj2 (Z.eqb_neq _ _)) by tauto.
Qed.

(** What a list of controllers should yield. *)
Definition found_apics (es : list controller) : list LocalApic :=
  omap (λ c, match c with
             | CLapic uid id flags => let l := mkLocalApic 0 8 uid id flags in if usable_apic l then Some l else None
             | _ => None end) es.
Definition found_ioapics (es : list controller) : list IoApic :=
  omap (λ c, match c with CIoApic id res0 a b => Some (mkIoApic 1 12 id res0 a b) | _ => None end) es.
Definition found_overrides (es : list controller) : list IntOverride :=
  omap (λ c, match c with
             | COverride bus source mapped_to flags =>
                 if source =? mapped_to then None else Some (mkIntOverride 2 10 bus source mapped_to flags)
             | _ => None end) es.
Definition found_nmis (es : list controller) : list NonMaskableInts :=
  omap (λ c, match c with CNmi flags n => Some (mkNmi 3 8 flags n) | _ => None end) es.

Lemma controllers_found es : ∀ st,
  for_each (λ c st, Ret (step_controller c st)) es st
  = Ret (mkMadt (lapics st ++ found_apics es) (ioapcis st ++ found_ioapics es)
                (overrides st ++ found_overrides es) (nmi_list st ++ found_nmis es)).
Proof.
  induction es as [|c es IH]; intros st; cbn [for_each].
  - cbn. rewrite !app_nil_r. by destruct st.
  - cbn [mbind run_bind]. rewrite IH. unfold found_apics, found_ioapics, found_overrides, found_nmis.
    destruct c as [uid id fl| |bus so mp fl| |]; simpl; unfold push_apic, push_override; simpl;
      [destruct (usable_apic _)| |destruct (so =? mp)| |]; simpl; by rewrite <- ?app_assoc.
Qed.

(** C29: [parse_madt] of a well-formed MADT terminates and returns what was encoded: the
    local APICs that are enabled or can be, the I/O APICs, the overrides that are not
    identities and the non-maskable sources, each in table order; entries of other
    types are skipped.  (The PIC flag it returns is the parity of the table's length.) *)
Theorem parse_madt_round_trip mem ptr hdr pre es :
  table_at mem ptr hdr pre (encode <$> es) → length pre = 8%nat → Forall controller_ok es →
  parse_madt mem ptr = Ret (mkMadt (found_apics es) (found_ioapics es) (found_overrides es) (found_nmis es),
                            Z.odd (field hdr 4 4)).
Proof.
  intros Ht Hp Hes. pose proof (entries_at _ _ _ _ _ Ht) as Hh. unfold parse_madt.
  rewrite (parse_header_table mem ptr hdr pre (encode <$> es) Ht). cbn [mbind run_bind].
  destruct Ht as [Hholds Hl Hlen _ Hr]. rewrite !length_app, Hl, Hp in Hr. rewrite Hp in Hh |- *.
  rewrite (phys_add_Ret ptr 4) by lia. cbn [mbind run_bind]. rewrite (phys_add_Ret (ptr + 36) 4) by lia. cbn [mbind run_bind].
  rewrite (phys_add_Ret (ptr + 36 + 4) 4) by lia. cbn [mbind run_bind].
  rewrite (phys_add_Ret (ptr + 36)) by lia. cbn [mbind run_bind].
  replace (ptr + 36 + Z.of_nat (8 + length (concat (encode <$> es))))
    with (ptr + 36 + Z.of_nat 8 + Z.of_nat (length (concat (encode <$> es)))) by lia.
  replace (ptr + 36 + 4 + 4) with (ptr + 36 + Z.of_nat 8) by lia.
  rewrite (entries_loop_spec mem (madt_entry mem) encode (λ c st, Ret (step_controller c st)) es);
    [|by eapply Forall_impl; [exact Hes|apply encode_ok]|exact Hh|lia|lia|lia|].
  - rewrite controllers_found. cbn [mbind run_bind]. do 2 f_equal.
    change (ptr + 4) with (ptr + Z.of_nat 4). rewrite (read_uint_holds mem ptr (hdr ++ pre ++ concat (encode <$> es)) 4 4) by (done || rewrite length_app; lia).
    assert (field (hdr ++ pre ++ concat (encode <$> es)) 4 4 = field hdr 4 4) as ->.
    { rewrite <- (field_take 36) by lia. by rewrite take_app_length'. }
    change 1 with (2 ^ 1 - 1) at 1. rewrite land_mask by lia. change (2 ^ 1) with 2. rewrite Zmod_odd.
    by destruct (Z.odd _).
  - intros a c st Hc Ha _ _. apply madt_entry_encode; [|done]. by eapply Forall_forall in Hes.
Qed.

(** ** The RSDP *)
(** The bytes at [a] are an RSDP by the ACPI specification. *)
Definition rsdp_valid (mem : Z → Z) (a : Z) : Prop :=
  read_bytes mem a 8 = RSD_PTR ∧ foldr Z.add 0 (read_bytes mem a 20) mod 256 = 0
  ∧ (mem (a + 15) = 0 ∨ foldr Z.add 0 (read_bytes mem a 36) mod 256 = 0).
#[local] Instance rsdp_valid_dec mem a : Decision (rsdp_valid mem a).
Proof. unfold rsdp_valid. apply _. Defined.

Lemma byte_sum_spec l : byte_sum l = foldr Z.add 0 l mod 256.
Proof.
  unfold byte_sum. assert (∀ acc, foldl (λ acc b, wrapping_add 8 acc b) (acc mod 256) l = (acc + foldr Z.add 0 l) mod 256) as H.
  { induction l as [|b l IH]; intros acc; simpl; [by rewrite Z.add_0_r|]. unfold wrapping_add at 2. change (2 ^ 8) with 256.
    rewrite Z.add_mod_idemp_l, IH by lia. by rewrite Z.add_assoc. }
  apply (H 0).
Qed.
Lemma try_rsdp_spec mem a :
  byte_memory mem → try_rsdp mem a = if decide (rsdp_valid mem a) then Some (rsdp_of (read_bytes mem a 20)) else None.
Proof.
  intros Hm. unfold try_rsdp. cbn [rsdp_of signature revision]. rewrite take_read_bytes by lia.
  assert (field (read_bytes mem a 20) 15 1 = mem (a + 15)) as ->
    by (apply field_byte; unfold read_bytes; rewrite list_lookup_fmap, lookup_seqZ_lt by lia; done).
  rewrite !byte_sum_spec. unfold rsdp_valid. pose proof (Hm (a + 15)).
  destruct (bool_decide_reflect (read_bytes mem a 8 = RSD_PTR)) as [Hs|Hs]; cbn [negb]; [|by rewrite decide_False by tauto].
  destruct (Z.eqb_spec (foldr Z.add 0 (read_bytes mem a 20) mod 256) 0) as [H20|H20]; cbn [negb]; [|by rewrite decide_False by tauto].
  destruct (Z.ltb_spec 0 (mem (a + 15))) as [Hr|Hr]; cbn [andb].
  - destruct (Z.eqb_spec (foldr Z.add 0 (read_bytes mem a 36) mod 256) 0); cbn [negb].
    + by rewrite decide_True by auto.
    + rewrite decide_False; [done|]. intros (_ & _ & [?|?]); [lia|done].
  - rewrite decide_True; [done|]. split; [done|]. split; [done|]. left. lia.
Qed.

(** The first valid one of the scanned addresses. *)
Fixpoint first_rsdp (mem : Z → Z) (addrs : list Z) : option Rsdp :=
  match addrs with
  | [] => None
  | a :: l => if decide (rsdp_valid mem a) then Some (rsdp_of (read_bytes mem a 20)) else first_rsdp mem l
  end.
Lemma first_rsdp_app mem l l' :
  first_rsdp mem (l ++ l') = match first_rsdp mem l with Some t => Some t | None => first_rsdp mem l' end.
Proof. induction l as [|a l IH]; simpl; [done|]. by case_decide. Qed.
Lemma scan_slots_spec mem st e l :
  byte_memory mem → 0 ≤ st < 2 ^ 52 → st + 19 ≤ e → Forall (λ a, 0 ≤ a < 2 ^ 52) l →
  scan mem st e l = Ret (first_rsdp mem l).
Proof.
  intros Hm Hst He. induction 1 as [|a l Ha Hl IH]; [done|]. cbn [scan first_rsdp]. unfold RSDP_SIZE.
  rewrite uadd_Ret by lia. cbn [mbind run_bind]. rewrite usub_Ret by lia. cbn [mbind run_bind].
  rewrite (proj2 (Z.ltb_ge _ _)) by lia. rewrite phys_new_Ret by done. cbn [mbind run_bind].
  rewrite try_rsdp_spec by done. case_decide; [done|apply IH].
Qed.

(** Multiples of 16 in the first KiB from [ebda] and in the BIOS area. *)
Definition scanned (ebda : Z) : list Z :=
  step_by (ebda + - ebda mod 16) (ebda + 1024) 16 ++ step_by 0xe0000 0x100000 16.
Lemma step_by_range s e n : 0 < n → Forall (λ a, s ≤ a < e) (step_by s e n).
Proof. intros Hn. apply Forall_forall. intros a Ha. apply elem_of_step_by in Ha as (i & Hi & -> & Hlt); [|done]. nia. Qed.
Lemma align_up_16 a : 0 ≤ a < 2 ^ 52 → align_up a 16 = Ret (a + - a mod 16) ∧ 0 ≤ - a mod 16 < 16.
Proof.
  intros Ha. pose proof (Z.mod_pos_bound (- a) 16 ltac:(lia)). split; [|done]. change 16 with (2 ^ 4) at 1.
  rewrite align_up_spec by (unfold in_width; lia). change (2 ^ 4) with 16. case_decide as H0.
  - rewrite Z.mod_opp_l_z by lia. f_equal. lia.
  - rewrite Z.mod_opp_l_nz by lia. rewrite decide_True by (pose proof (Z.mod_pos_bound a 16); lia). f_equal. lia.
Qed.

(** [search_rsdp] returns the first valid RSDP at a multiple of 16 in the first KiB from
    the address stored at 0x40e and in 0xe0000..0xfffff, and nothing when there
    is none: it is the reference search over the list of these addresses.  It never panics. *)
Theorem search_rsdp_first mem :
  byte_memory mem → search_rsdp mem = Ret (first_rsdp mem (scanned (read_uint mem 0x40e 2))).
Proof.
  intros Hm. assert (0 ≤ read_uint mem 0x40e 2 < 2 ^ 16) as He.
  { split; [by apply read_uint_nonneg|]. unfold read_uint. change (read_bytes mem 0x40e 2) with [mem 0x40e; mem 0x40f].
    cbn [le]. pose proof (Hm 0x40e). pose proof (Hm 0x40f). lia. }
  unfold search_rsdp, scan_region, scanned. set (ebda := read_uint mem 0x40e 2) in *.
  destruct (align_up_16 ebda) as [-> Hb]; [lia|]. cbn [mbind run_bind].
  assert (align_up 0xe0000 16 = Ret 0xe0000) as -> by (by vm_compute). cbn [mbind run_bind].
  replace (ebda + 1024 - 1 + 1) with (ebda + 1024) by lia. change (0xfffff + 1) with 0x100000.
  rewrite (scan_slots_spec mem (ebda + - ebda mod 16)); [|done|lia|lia|eapply Forall_impl; [by apply step_by_range|simpl; lia]].
  cbn [mbind run_bind].
  rewrite (scan_slots_spec mem 0xe0000); [|done|lia|lia|eapply Forall_impl; [by apply step_by_range|simpl; lia]].
  rewrite first_rsdp_app. by destruct (first_rsdp _ (step_by _ (ebda + 1024) 16)).
Qed.

(** ** The SRAT *)
Inductive affinity :=
  | AApic (id domain flags eid clock : Z)
  | AMemory (domain base size flags res1 res2 res3 : Z)
  | AX2apic (domain id flags res1 res2 : Z)
  | AOther (typ : Z) (payload : list Z).
Definition encode_affinity (x : affinity) : list Z :=
  match x with
  | AApic id domain flags eid clock =>
      [0; 16; domain mod 256; id] ++ le_bytes 4 flags ++ ([eid] ++ le_bytes 3 (domain / 256) ++ le_bytes 4 clock)
  | AMemory domain base size flags res1 res2 res3 =>
      [1; 40] ++ le_bytes 4 domain ++ (le_bytes 2 res1 ++ le_bytes 8 base ++ (le_bytes 8 size ++ (le_bytes 4 res2 ++ le_bytes 4 flags ++ le_bytes 8 res3)))
  | AX2apic domain id flags res1 res2 =>
      [2; 24] ++ (le_bytes 2 res1 ++ le_bytes 4 domain ++ (le_bytes 4 id ++ (le_bytes 4 flags ++ le_bytes 8 res2)))
  | AOther typ payload => typ :: Z.of_nat (2 + length payload) :: payload
  end.
Definition affinity_ok (x : affinity) : Prop :=
  match x with
  | AApic id domain flags eid _ => u8 id ∧ u32 domain ∧ u32 flags ∧ u8 eid
  | AMemory domain base size flags _ _ _ => u32 domain ∧ u64 base ∧ u64 size ∧ u32 flags ∧ base + size ≤ 2 ^ 64
  | AX2apic domain id flags _ _ => u32 domain ∧ u32 id ∧ u32 flags
  | AOther typ payload => u8 typ ∧ typ ∉ [0; 1; 2] ∧ bytes payload ∧ (length payload ≤ 253)%nat
  end.
Definition step_affinity (x : affinity) (st : srat) : run srat :=
  match x with
  | AApic id domain flags _ _ => add_apic Explicit flags id domain st
  | AMemory domain base size flags _ _ _ => add_memory domain base size flags st
  | AX2apic domain id flags _ _ => add_apic AssertFailed flags id domain st
  | AOther _ _ => Ret st
  end.
Lemma encode_affinity_ok x : affinity_ok x → entry_ok (encode_affinity x).
Proof.
  intros Hc. unfold entry_ok. destruct x; cbn [encode_affinity affinity_ok app] in *; unfold in_width in *; change (2 ^ 8) with 256 in *;
    (split; [|split; [cbn [length]; rewrite ?length_app, ?length_le_bytes; cbn [length]; rewrite ?length_app, ?length_le_bytes; lia|done]]);
    unfold bytes in *; repeat (apply Forall_cons; split; [cbn [length]; lia || (apply Z.mod_pos_bound; lia)|]);
    repeat (first [done|apply bytes_le_bytes|apply Forall_app_2; [apply bytes_le_bytes|]|apply Forall_cons; split; [lia|]]).
  apply Hc.
Qed.

(** A field behind a prefix of known length. *)
Lemma read_field mem a pre n v post :
  holds mem a (pre ++ le_bytes n v ++ post) → 0 ≤ v < 2 ^ (8 * Z.of_nat n) →
  read_uint mem (a + Z.of_nat (length pre)) n = v.
Proof.
  intros Hh Hv. rewrite (read_uint_holds mem a _ (length pre) n Hh) by (rewrite !length_app, length_le_bytes; lia).
  by apply field_le_bytes.
Qed.

Lemma srat_entry_encode mem a x st :
  affinity_ok x → holds mem a (encode_affinity x) → 0 ≤ a → a + Z.of_nat (length (encode_affinity x)) < 2 ^ 52 →
  srat_entry mem a (typ_of (encode_affinity x)) (Z.of_nat (length (encode_affinity x))) st = step_affinity x st.
Proof.
  intros Hx Hh Ha Hb. unfold srat_entry. destruct x as [id d fl eid ck|d b s fl r1 r2 r3|d id fl r1 r2|t p];
    simpl in Hx; unfold in_width in Hx; cbn [step_affinity].
  - change (Z.of_nat (length (encode_affinity _))) with 16 in *. change (typ_of _) with 0. cbn [Z.eqb Pos.eqb negb].
    rewrite (phys_add_Ret a 2), (phys_add_Ret a 9), (phys_add_Ret a 3), (phys_add_Ret a 4) by lia. cbn [mbind run_bind]. f_equal.
    + apply (read_field mem a [0; 16; d mod 256; id] 4 fl _ Hh). lia.
    + exact (Hh 3%nat id eq_refl).
    + cbn [le]. rewrite (Hh 2%nat (d mod 256) eq_refl : mem (a + 2) = _).
      assert (le (read_bytes mem (a + 9) 3) = d / 256) as ->; [|pose proof (Z.div_mod d 256 ltac:(lia)); lia].
      apply (read_field mem a ([0; 16; d mod 256; id] ++ le_bytes 4 fl ++ [eid]) 3 (d / 256) (le_bytes 4 ck) Hh).
      split; [apply Z.div_pos; lia|]. apply Z.div_lt_upper_bound; lia.
  - change (Z.of_nat (length (encode_affinity _))) with 40 in *. change (typ_of _) with 1. cbn [Z.eqb Pos.eqb negb].
    rewrite (phys_add_Ret a 2), (phys_add_Ret a 8), (phys_add_Ret a 16), (phys_add_Ret a 28) by lia. cbn [mbind run_bind]. f_equal.
    + apply (read_field mem a [1; 40] 4 d _ Hh). lia.
    + apply (read_field mem a ([1; 40] ++ le_bytes 4 d ++ le_bytes 2 r1) 8 b _ Hh). lia.
    + apply (read_field mem a ([1; 40] ++ le_bytes 4 d ++ le_bytes 2 r1 ++ le_bytes 8 b) 8 s _ Hh). lia.
    + apply (read_field mem a ([1; 40] ++ le_bytes 4 d ++ le_bytes 2 r1 ++ le_bytes 8 b ++ le_bytes 8 s ++ le_bytes 4 r2) 4 fl _ Hh). lia.
  - change (Z.of_nat (length (encode_affinity _))) with 24 in *. change (typ_of _) with 2. cbn [Z.eqb Pos.eqb negb].
    rewrite (phys_add_Ret a 4), (phys_add_Ret a 8), (phys_add_Ret a 12) by lia. cbn [mbind run_bind]. f_equal.
    + apply (read_field mem a ([2; 24] ++ le_bytes 2 r1 ++ le_bytes 4 d ++ le_bytes 4 id) 4 fl _ Hh). lia.
    + apply (read_field mem a ([2; 24] ++ le_bytes 2 r1 ++ le_bytes 4 d) 4 id _ Hh). lia.
    + apply (read_field mem a ([2; 24] ++ le_bytes 2 r1) 4 d _ Hh). lia.
  - destruct Hx as (_ & Ht & _). rewrite !not_elem_of_cons in Ht. change (typ_of _) with t.
    by rewrite !(proj2 (Z.eqb_neq _ _)) by tauto.
Qed.

(** The records that are enabled. *)
Definition enabled (flags : Z) : bool := negb (Z.land flags FLAGS_ENABLED =? 0).
Definition apic_pair (x : affinity) : option (Z * Z) :=
  match x with
  | AApic id domain flags _ _ | AX2apic domain id flags _ _ => if enabled flags then Some (id, domain) else None
  | _ => None
  end.
Definition memory_range (x : affinity) : option (Z * RangeSet.Range) :=
  match x with
  | AMemory domain base size flags _ _ _ =>
      if (0 <? size) && enabled flags then Some (domain, RangeSet.mkRange base (base + size - 1)) else None
  | _ => None
  end.
(** The domain [d] covers the address [x]. *)
Definition covers_in (md : gmap Z RangeSet.RangeSet) (d x : Z) : Prop :=
  ∃ rs, md !! d = Some rs ∧ RangeSet.member rs x.

Record srat_inv (done : list affinity) (st : srat) : Prop := {
  si_wf : domains_wf st;
  si_apics id d : apic_affinities st !! id = Some d ↔ (id, d) ∈ omap apic_pair done;
  si_memory d x : covers_in (memory_affinities st) d x
                  ↔ ∃ r, (d, r) ∈ omap memory_range done ∧ RangeSet.inside x r;
  si_size d rs : memory_affinities st !! d = Some rs → (RangeSet.in_use rs ≤ length (omap memory_range done))%nat
}.
Lemma srat_inv_skip done x st :
  apic_pair x = None → memory_range x = None → srat_inv done st → srat_inv (done ++ [x]) st.
Proof.
  intros H1 H2 [Hw Ha Hm Hs]. split; [done| | |]; setoid_rewrite omap_app; simpl; rewrite ?H1, ?H2, ?app_nil_r; auto.
Qed.
Lemma srat_inv_apic done x id d st :
  apic_pair x = Some (id, d) → memory_range x = None → id ∉ (omap apic_pair done).*1 → srat_inv done st →
  apic_affinities st !! id = None ∧ srat_inv (done ++ [x]) (mkSrat (<[id := d]> (apic_affinities st)) (memory_affinities st)).
Proof.
  intros H1 H2 Hn [Hw Ha Hm Hs]. assert (apic_affinities st !! id = None) as Hnone.
  { destruct (apic_affinities st !! id) as [d'|] eqn:E; [|done]. apply Ha in E. destruct Hn. by apply (list_elem_of_fmap_2 fst) in E. }
  split; [done|]. split; [done| | |]; setoid_rewrite omap_app; simpl; rewrite ?H1, ?H2, ?app_nil_r; auto.
  intros id' d'. rewrite elem_of_app, list_elem_of_singleton, <- Ha. destruct (decide (id' = id)) as [->|Hne].
  - rewrite lookup_insert_eq, Hnone. naive_solver.
  - rewrite lookup_insert_ne by done. naive_solver.
Qed.
Lemma new_empty x : ¬ RangeSet.member RangeSet.new x.
Proof. intros (r & Hr & _). by apply elem_of_nil in Hr. Qed.
Lemma srat_inv_memory done x d r st :
  apic_pair x = None → memory_range x = Some (d, r) → RangeSet.valid r → (length (omap memory_range done) < 256)%nat →
  srat_inv done st →
  ∃ rs', RangeSet.insert (default RangeSet.new (memory_affinities st !! d)) r = Ret rs'
    ∧ srat_inv (done ++ [x]) (mkSrat (apic_affinities st) (<[d := rs']> (memory_affinities st))).
Proof.
  intros H1 H2 Hr Hlen [Hw Ha Hm Hs]. set (rs := default _ _).
  assert (RangeSet.in_use rs ≤ length (omap memory_range done))%nat as Hu.
  { unfold rs. destruct (memory_affinities st !! d) eqn:E; simpl; [by eapply Hs|lia]. }
  assert (∀ y, RangeSet.member rs y ↔ covers_in (memory_affinities st) d y) as Hrs.
  { intros y. unfold rs, covers_in. destruct (memory_affinities st !! d); simpl; [naive_solver|].
    split; [by intros ?%new_empty|]. intros (? & ? & _). done. }
  pose proof (default_wf st d Hw) as Hwf. fold rs in Hwf.
  destruct (RangeSet.insert_cases rs r Hwf Hr) as [(rs' & Hi & Hwf' & _ & Hmem)|(_ & Hfull & _)]; [|lia].
  pose proof (RangeSet.insert_in_use rs r rs' Hwf Hr Hi) as Huse. exists rs'. split; [done|].
  split; [by apply map_Forall_insert_2| | |]; setoid_rewrite omap_app; simpl; rewrite ?H1, ?H2, ?app_nil_r; [done| |].
  - intros d' y. unfold covers_in. setoid_rewrite elem_of_app. setoid_rewrite list_elem_of_singleton.
    destruct (decide (d' = d)) as [->|Hne].
    + rewrite lookup_insert_eq. transitivity (RangeSet.member rs' y); [naive_solver|]. rewrite Hmem, Hrs, Hm. naive_solver.
    + rewrite lookup_insert_ne by done. fold (covers_in (memory_affinities st) d' y). rewrite Hm. naive_solver.
  - intros d' rs''. rewrite length_app. simpl. destruct (decide (d' = d)) as [->|Hne].
    + rewrite lookup_insert_eq. intros [= <-]. lia.
    + rewrite lookup_insert_ne by done. intros E%Hs. lia.
Qed.

Lemma step_affinity_inv done x rest st :
  affinity_ok x → NoDup (omap apic_pair (done ++ x :: rest)).*1 →
  (length (omap memory_range (done ++ x :: rest)) ≤ 256)%nat → srat_inv done st →
  ∃ st', step_affinity x st = Ret st' ∧ srat_inv (done ++ [x]) st'.
Proof.
  intros Hx Hnd Hlen Hinv. rewrite omap_app in Hnd. rewrite omap_app in Hlen.
  assert (∀ id d, apic_pair x = Some (id, d) → id ∉ (omap apic_pair done).*1) as Hfresh.
  { intros id d E Hin. rewrite fmap_app in Hnd. apply NoDup_app in Hnd as (_ & Hnd & _). apply (Hnd id Hin).
    simpl. rewrite E. simpl. by left. }
  destruct x as [id d fl eid ck|d b s fl r1 r2 r3|d id fl r1 r2|t p]; cbn [step_affinity].
  - unfold add_apic, insert_new. fold (enabled fl). destruct (enabled fl) eqn:E.
    + destruct (srat_inv_apic done (AApic id d fl eid ck) id d st) as [Hnone Hi]; [by simpl; rewrite E|done|
        eapply Hfresh; simpl; by rewrite E|done|]. rewrite Hnone. eauto.
    + exists st. split; [done|]. apply srat_inv_skip; [by simpl; rewrite E|done|done].
  - simpl in Hx. unfold in_width in Hx. unfold add_memory. fold (enabled fl). destruct (Z.ltb_spec 0 s) as [Hs|Hs].
    2:{ exists st. split; [done|]. apply srat_inv_skip; [done|simpl; by rewrite (proj2 (Z.ltb_ge _ _))|done]. }
    destruct (enabled fl) eqn:E.
    2:{ exists st. split; [done|]. apply srat_inv_skip; [done|simpl; by rewrite E, andb_false_r|done]. }
    unfold checked_sub. rewrite (proj2 (Z.leb_le _ _)) by lia. cbn [unwrap mbind run_bind].
    unfold checked_add. rewrite (proj2 (Z.ltb_lt _ _)) by lia. cbn [unwrap mbind run_bind].
    destruct (srat_inv_memory done (AMemory d b s fl r1 r2 r3) d (RangeSet.mkRange b (b + (s - 1))) st) as (rs' & -> & Hi).
    + done.
    + simpl. rewrite (proj2 (Z.ltb_lt _ _)), E by lia. simpl. do 3 f_equal. lia.
    + unfold RangeSet.valid, umax. simpl. lia.
    + rewrite length_app in Hlen. simpl in Hlen. rewrite (proj2 (Z.ltb_lt _ _)), E in Hlen by lia. simpl in Hlen. lia.
    + done.
    + eauto.
  - unfold add_apic, insert_new. fold (enabled fl). destruct (enabled fl) eqn:E.
    + destruct (srat_inv_apic done (AX2apic d id fl r1 r2) id d st) as [Hnone Hi]; [by simpl; rewrite E|done|
        eapply Hfresh; simpl; by rewrite E|done|]. rewrite Hnone. eauto.
    + exists st. split; [done|]. apply srat_inv_skip; [by simpl; rewrite E|done|done].
  - exists st. split; [done|]. by apply srat_inv_skip.
Qed.

(** [parse_srat] of a well-formed SRAT whose enabled APIC records name different APICs,
    with at most 256 enabled memory ranges: it terminates without a panic, maps exactly
    the enabled APICs to their domains, and an address belongs to the [RangeSet] of a
    domain exactly when an enabled memory record of this domain contains it. *)
Theorem parse_srat_refines mem ptr hdr pre es :
  table_at mem ptr hdr pre (encode_affinity <$> es) → length pre = 12%nat → Forall affinity_ok es →
  NoDup (omap apic_pair es).*1 → (length (omap memory_range es) ≤ 256)%nat →
  ∃ st, parse_srat mem ptr = Ret st ∧ domains_wf st
    ∧ (∀ id d, apic_affinities st !! id = Some d ↔ (id, d) ∈ omap apic_pair es)
    ∧ ∀ d x, covers_in (memory_affinities st) d x ↔ ∃ r, (d, r) ∈ omap memory_range es ∧ RangeSet.inside x r.
Proof.
  intros Ht Hp Hes Hnd Hlen. pose proof (entries_at _ _ _ _ _ Ht) as Hh. unfold parse_srat.
  rewrite (parse_header_table mem ptr hdr pre (encode_affinity <$> es) Ht). cbn [mbind run_bind].
  destruct Ht as [_ Hl _ _ Hr]. rewrite !length_app, Hl, Hp in Hr. rewrite Hp in Hh |- *.
  rewrite (phys_add_Ret (ptr + 36) 4) by lia. cbn [mbind run_bind]. rewrite (phys_add_Ret (ptr + 36 + 4) 8) by lia. cbn [mbind run_bind].
  rewrite (phys_add_Ret (ptr + 36)) by lia. cbn [mbind run_bind].
  replace (ptr + 36 + Z.of_nat (12 + length (concat (encode_affinity <$> es))))
    with (ptr + 36 + Z.of_nat 12 + Z.of_nat (length (concat (encode_affinity <$> es)))) by lia.
  replace (ptr + 36 + 4 + 8) with (ptr + 36 + Z.of_nat 12) by lia.
  rewrite (entries_loop_spec mem (srat_entry mem) encode_affinity step_affinity es);
    [|by eapply Forall_impl; [exact Hes|apply encode_affinity_ok]|exact Hh|lia|lia|lia|].
  - destruct (for_each_inv srat_inv step_affinity es (mkSrat ∅ ∅)) as (st & -> & [Hw Ha Hm _]).
    + split; simpl; [apply map_Forall_empty| | |done].
      * intros id d. rewrite lookup_empty, elem_of_nil. done.
      * intros d x. unfold covers_in. setoid_rewrite elem_of_nil. split; [|naive_solver]. intros (rs & E & _). by rewrite lookup_empty in E.
    + intros pre' x rest st Heq Hinv. apply (step_affinity_inv pre' x rest); rewrite <- ?Heq; try done.
      eapply Forall_forall in Hes; [done|]. rewrite Heq. apply elem_of_app. right. by left.
    + by exists st.
  - intros a x st Hx Ha Ha0 Hb. apply srat_entry_encode; [|done..]. by eapply Forall_forall in Hes.
Qed.
End properties.

(** ** Instances *)
#[local] Existing Instance bit_field_model.
(** A header with the right length and checksum for [body]. *)
Definition header_with (sum : Z) (sig body : list Z) : list Z :=
  sig ++ le_bytes 4 (Z.of_nat (36 + length body)) ++ [1; sum] ++ replicate 26 0.
Definition make_header (sig body : list Z) : list Z :=
  header_with ((256 - byte_sum (header_with 0 sig body ++ body)) mod 256) sig body.

Definition sample_controllers : list controller :=
  [CLapic 0 0 1; CLapic 1 1 0; CIoApic 2 0 0xfec00000 0; COverride 0 0 2 0; COverride 0 9 9 0xd; CNmi 5 1; COther 4 [0xff; 5; 0; 1]].
Definition madt_pre : list Z := le_bytes 4 0xfee00000 ++ le_bytes 4 1.
Definition madt_header : list Z := make_header APIC (madt_pre ++ concat (encode <$> sample_controllers)).
Definition madt_memory : Z → Z := mem_of 0x7fe0000 (madt_header ++ madt_pre ++ concat (encode <$> sample_controllers)).
Lemma madt_table : table_at madt_memory 0x7fe0000 madt_header madt_pre (encode <$> sample_controllers).
Proof. split; [apply mem_of_holds|by vm_compute..]. Qed.
Lemma parse_madt_round_trip_witness :
  parse_madt madt_memory 0x7fe0000
  = Ret (mkMadt [mkLocalApic 0 8 0 0 1] [mkIoApic 1 12 2 0 0xfec00000 0] [mkIntOverride 2 10 0 0 2 0] [mkNmi 3 8 5 1], false).
Proof.
  apply (parse_madt_round_trip madt_memory 0x7fe0000 madt_header madt_pre sample_controllers).
  - exact madt_table.
  - reflexivity.
  - unfold sample_controllers. repeat (apply Forall_cons; split; [simpl; unfold in_width, bytes; try lia|]); [|constructor].
    split; [lia|]. split; [set_solver|]. split; [repeat (constructor; [lia|]); constructor|lia].
Defined.

Definition sample_affinities : list affinity :=
  [AApic 0 1 1 0 0; AX2apic 2 0x100 1 0 0; AMemory 1 0 0xa0000 1 0 0 0; AMemory 1 0xa0000 0x60000 1 0 0 0; AMemory 2 0x100000000 0x1000 0 0 0 0].
Definition srat_pre : list Z := replicate 12 0.
Definition srat_header : list Z := make_header SRAT (srat_pre ++ concat (encode_affinity <$> sample_affinities)).
Definition srat_memory : Z → Z := mem_of 0x7fe1000 (srat_header ++ srat_pre ++ concat (encode_affinity <$> sample_affinities)).
Lemma srat_table : table_at srat_memory 0x7fe1000 srat_header srat_pre (encode_affinity <$> sample_affinities).
Proof. split; [apply mem_of_holds|by vm_compute..]. Qed.
Lemma parse_srat_refines_witness :
  ∃ st, parse_srat srat_memory 0x7fe1000 = Ret st ∧ apic_affinities st !! 0x100 = Some 2
    ∧ covers_in (memory_affinities st) 1 0x9ffff ∧ ¬ covers_in (memory_affinities st) 2 0x100000000.
Proof.
  destruct (parse_srat_refines srat_memory 0x7fe1000 srat_header srat_pre sample_affinities) as (st & H & _ & Ha & Hm).
  - exact srat_table.
  - reflexivity.
  - unfold sample_affinities. repeat (apply Forall_cons; split; [simpl; unfold in_width; lia|]). constructor.
  - apply (bool_decide_unpack _). by vm_compute.
  - vm_compute. lia.
  - exists st. split; [exact H|]. split; [|split].
    + apply Ha. vm_compute. right. left.
    + apply Hm. exists (RangeSet.mkRange 0 0x9ffff). split; [vm_compute; left|unfold RangeSet.inside; simpl; lia].
    + intros (r & Hr & _)%Hm. vm_compute in Hr. inversion_clear Hr as [|? ? ? Hr']. inversion_clear Hr' as [|? ? ? Hr'']. inversion Hr''.
Defined.

Definition rsdp_with (sum : Z) : list Z := RSD_PTR ++ [sum] ++ replicate 7 0 ++ le_bytes 4 0x7fe2000.
Definition rsdp_bytes : list Z := Eval cbv in rsdp_with ((256 - byte_sum (rsdp_with 0)) mod 256).
Definition rsdp_memory : Z → Z := mem_of 0xe0010 rsdp_bytes.
Lemma search_rsdp_first_witness :
  match search_rsdp rsdp_memory with Ret (Some t) => rsdt_addr t = 0x7fe2000 | _ => False end.
Proof.
  rewrite (search_rsdp_first rsdp_memory).
  - by vm_compute.
  - apply mem_of_bytes. unfold bytes. apply (bool_decide_unpack _). by vm_compute.
Defined.
Lemma acpi_init_terminates_witness : init (λ _, 0) None = Panic Unwrap ∧ init (λ _, 0) None ≠ Panic NoFuel.
Proof.
  split; [by vm_compute|]. apply (acpi_init_terminates (λ _, 0) None). intros a. lia.
Defined.

(** ** Behaviour that differs from the ACPI specification *)
(** The flags of the MADT are read from offset 4, the length of the table, instead of
    40: this table has PCAT_COMPAT set (the first bit of its flags). *)
Lemma mask_pics_from_length :
  field madt_pre 4 4 = 1 ∧ match parse_madt madt_memory 0x7fe0000 with Ret (_, mask) => mask = false | _ => False end.
Proof. split; by vm_compute. Qed.
(** An x2APIC entry is read as a local APIC: its flags are at offset 8, but the identifier at
    offset 4 decides whether it is usable.  An enabled x2APIC with identifier 0x104 is
    left out, a disabled one with identifier 0x101 is taken, as APIC 0. *)
Definition x2apic (id flags : Z) : list Z := [9; 16; 0; 0] ++ le_bytes 4 id ++ le_bytes 4 flags ++ le_bytes 4 0.
Definition x2apic_memory : Z → Z := mem_of 0x1000 (x2apic 0x104 1 ++ x2apic 0x101 0).
Lemma x2apic_misread :
  entries_loop x2apic_memory (madt_entry x2apic_memory) 33 0x1000 0x1020 (mkMadt [] [] [] [])
  = Ret (mkMadt [mkLocalApic 9 16 0 0 0x101] [] [] []).
Proof. by vm_compute. Qed.
(** The word at 0x40e is a segment; the scan takes it for an address: an RSDP in the EBDA
    (segment 0x9fc0, address 0x9fc00) is not found. *)
Definition ebda_memory (x : Z) : Z :=
  if x =? 0x40e then 0xc0 else if x =? 0x40f then 0x9f
  else mem_of 0x9fc00 rsdp_bytes x.
Lemma ebda_not_scanned : search_rsdp ebda_memory = Ret None.
Proof. by vm_compute. Qed.
End Acpi.
