(* ===== verification/LapicIter.v ===== *)
(** * crates/bootloader/src/acpi.rs: the iterator over the local APICs

    The bootloader is a 32-bit program and has no heap, so it does not collect the
    interrupt controllers the way the kernel does ([Acpi.parse_madt]): it looks for the
    MADT and walks it lazily, one usable local APIC per call of [next].  Addresses are
    32 bits wide and additions that leave them panic.  Structs are those of [Acpi]
    (acpi_regs.rs is the same file in both programs). *)
From S2P Require Import Prelude Bytes Addr Acpi.
Import Bytes Addr.Addr Acpi.Acpi.

Module LapicIter.

(** [x86::addr::align_up]: 32 bits. *)
Definition align_up (addr align : Z) : run Z :=
  _ ← rust_assert (is_power_of_two align);
  let align_mask := align - 1 in
  if Z.land addr align_mask =? 0 then Ret addr else uadd 32 (Z.lor addr align_mask) 1.

Record LapicIter := mkLapicIter { current : Z; end_ : Z }.

Section iterator.
(** Physical memory. *)
Variable mem : Z → Z.

(** ** [parse_header] *)
Definition parse_header (addr : Z) : run (Header * Z * Z) :=
  let head := header_of (read_bytes mem addr 36) in
  table_len ← unwrap (checked_sub (h_length head) HEADER_SIZE);
  _ ← uadd 32 addr (h_length head);
  let sum := foldl (λ sum i, wrapping_add 8 sum (mem i)) 0 (seqZ addr (h_length head)) in
  if negb (sum =? 0) then Panic Explicit else
  payload ← uadd 32 addr HEADER_SIZE;
  Ret (head, payload, table_len).

(** ** [search_rsdp] *)
Fixpoint scan (start stop : Z) (addrs : list Z) : run (option Rsdp) :=
  match addrs with
  | [] => Ret None
  | addr :: addrs' =>
      e ← uadd 32 start RSDP_SIZE;
      struct_end ← usub e 1;
      if stop <? struct_end then Ret None else
      match try_rsdp mem addr with
      | Some table => Ret (Some table)
      | None => scan start stop addrs'
      end
  end.
Definition scan_region (start stop : Z) : run (option Rsdp) :=
  start ← align_up start 16;
  scan start stop (step_by start (stop + 1) 16).
Definition search_rsdp : run (option Rsdp) :=
  let ebda_ptr := read_uint mem 0x40e 2 in
  r ← scan_region ebda_ptr (ebda_ptr + 1024 - 1);
  match r with
  | Some table => Ret (Some table)
  | None => scan_region 0xe0000 0xfffff
  end.

(** ** [LapicIter::new] *)
(** The loop over the entries of the RSDT returns at the first MADT. *)
Fixpoint find_madt (rsdt_payload : Z) (entries : list Z) : run (option LapicIter) :=
  match entries with
  | [] => Ret None
  | entry :: entries' =>
      off ← umul 32 entry 4;
      entry_paddr ← uadd 32 rsdt_payload off;
      let table_ptr := read_uint mem entry_paddr 4 in
      let signature := read_bytes mem table_ptr 4 in
      if bool_decide (signature = APIC) then
        '(_, payload, size) ← parse_header table_ptr;
        s ← uadd 32 payload 4; start ← uadd 32 s 4;
        e ← uadd 32 payload size;
        Ret (Some (mkLapicIter start e))
      else find_madt rsdt_payload entries'
  end.
Definition new : run (option LapicIter) :=
  o ← search_rsdp;
  rsdp ← unwrap o;
  '(rsdt, rsdt_payload, rsdt_size) ← parse_header (rsdt_addr rsdp);
  if negb (bool_decide (h_signature rsdt = RSDT)) then Panic Explicit else
  if negb (rsdt_size mod 4 =? 0) then Panic Explicit else
  find_madt rsdt_payload (seqZ 0 (rsdt_size / 4)).

(** ** [LapicIter::next] *)
Fixpoint next_loop (fuel : nat) (it : LapicIter) : run (option LocalApic * LapicIter) :=
  match fuel with
  | O => Panic NoFuel
  | S fuel' =>
      room ← uadd 32 (current it) 2;
      if end_ it <? room then Ret (None, it) else
      let typ := mem (current it) in
      pl ← uadd 32 (current it) 1;
      let len := mem pl in
      n ← uadd 32 (current it) len;
      if end_ it <? n then Ret (None, it) else
      if len <? 2 then Panic Explicit else
      if typ =? 0 then
        if negb (len =? 8) then Panic Explicit else
        let lapic := local_apic_of (read_bytes mem (current it) 8) in
        cur ← uadd 32 (current it) len;
        if usable_apic lapic then Ret (Some lapic, mkLapicIter cur (end_ it))
        else next_loop fuel' (mkLapicIter cur (end_ it))
      else if typ =? 9 then
        if negb (len =? 16) then Panic Explicit else
        let lapic := local_apic_of (read_bytes mem (current it) 8) in
        cur ← uadd 32 (current it) len;
        if usable_apic lapic then Ret (Some lapic, mkLapicIter cur (end_ it))
        else next_loop fuel' (mkLapicIter cur (end_ it))
      else
        cur ← uadd 32 (current it) len;
        next_loop fuel' (mkLapicIter cur (end_ it))
  end.
(** Every iteration moves on by two bytes at least. *)
Definition next_fuel (it : LapicIter) : nat := S (Z.to_nat (end_ it - current it)).
Definition next (it : LapicIter) : run (option LocalApic * LapicIter) := next_loop (next_fuel it) it.

(** A [for] loop over the iterator sees these items. *)
Fixpoint items_loop (fuel : nat) (it : LapicIter) : run (list LocalApic) :=
  match fuel with
  | O => Panic NoFuel
  | S fuel' =>
      '(o, it') ← next it;
      match o with
      | None => Ret []
      | Some l => ls ← items_loop fuel' it'; Ret (l :: ls)
      end
  end.
Definition items (it : LapicIter) : run (list LocalApic) := items_loop (next_fuel it) it.
(** The cores [bootloader_main] gives stacks to. *)
Definition core_apics : run (list LocalApic) :=
  o ← new;
  it ← unwrap o;
  items it.
End iterator.

Section properties.
Context {BF : BitField}.

(** ** One entry of the table *)
(** What the entry at [a] yields: the two kinds of processor entries are treated alike. *)
Definition entry_apic (mem : Z → Z) (a typ len : Z) : run (option LocalApic) :=
  if (typ =? 0) || (typ =? 9) then
    if negb (len =? (if typ =? 0 then 8 else 16)) then Panic Explicit else
    let lapic := local_apic_of (read_bytes mem a 8) in
    Ret (if usable_apic lapic then Some lapic else None)
  else Ret None.
Lemma next_loop_S mem fuel it :
  next_loop mem (S fuel) it =
    room ← uadd 32 (current it) 2;
    if end_ it <? room then Ret (None, it) else
    pl ← uadd 32 (current it) 1;
    n ← uadd 32 (current it) (mem pl);
    if end_ it <? n then Ret (None, it) else
    if mem pl <? 2 then Panic Explicit else
    o ← entry_apic mem (current it) (mem (current it)) (mem pl);
    match o with
    | Some l => Ret (Some l, mkLapicIter n (end_ it))
    | None => next_loop mem fuel (mkLapicIter n (end_ it))
    end.
Proof.
  cbn [next_loop]. destruct (uadd 32 (current it) 2); [|done]. cbn [mbind run_bind]. destruct (end_ it <? _); [done|].
  destruct (uadd 32 (current it) 1) as [pl|]; [|done]. cbn [mbind run_bind].
  destruct (uadd 32 (current it) (mem pl)) as [n|]; [|done]. cbn [mbind run_bind]. destruct (end_ it <? n); [done|].
  destruct (mem pl <? 2); [done|]. unfold entry_apic. destruct (Z.eqb_spec (mem (current it)) 0) as [->|]; cbn [orb Z.eqb].
  - destruct (negb _); [done|]. cbn [mbind run_bind]. by destruct (usable_apic _).
  - destruct (mem (current it) =? 9); [|done]. destruct (negb _); [done|]. cbn [mbind run_bind]. by destruct (usable_apic _).
Qed.

(** ** Fuel *)
Lemma next_loop_fuel mem f1 f2 it :
  (Z.to_nat (end_ it - current it) < f1)%nat → (Z.to_nat (end_ it - current it) < f2)%nat →
  next_loop mem f1 it = next_loop mem f2 it.
Proof.
  revert f2 it. induction f1 as [|f1 IH]; intros [|f2] it H1 H2; [lia..|]. rewrite !next_loop_S.
  destruct (uadd 32 (current it) 2) as [room|]; [|done]. cbn [mbind run_bind]. destruct (end_ it <? room); [done|].
  destruct (uadd 32 (current it) 1) as [pl|]; [|done]. cbn [mbind run_bind].
  destruct (uadd 32 (current it) (mem pl)) as [n|] eqn:En; [|done]. apply uadd_Ret_inv in En as [-> _]. cbn [mbind run_bind].
  destruct (Z.ltb_spec (end_ it) (current it + mem pl)); [done|]. destruct (Z.ltb_spec (mem pl) 2); [done|].
  destruct (entry_apic _ _ _ _) as [[l|]|]; [done| |done]. cbn [mbind run_bind]. apply IH; cbn [end_ current]; lia.
Qed.
(** A [next] that skips the entry at [it] goes on from the one behind it. *)
Lemma next_S mem it :
  next mem it =
    room ← uadd 32 (current it) 2;
    if end_ it <? room then Ret (None, it) else
    pl ← uadd 32 (current it) 1;
    n ← uadd 32 (current it) (mem pl);
    if end_ it <? n then Ret (None, it) else
    if mem pl <? 2 then Panic Explicit else
    o ← entry_apic mem (current it) (mem (current it)) (mem pl);
    match o with
    | Some l => Ret (Some l, mkLapicIter n (end_ it))
    | None => next mem (mkLapicIter n (end_ it))
    end.
Proof.
  unfold next, next_fuel at 1. rewrite next_loop_S.
  destruct (uadd 32 (current it) 2) as [room|]; [|done]. cbn [mbind run_bind]. destruct (end_ it <? room); [done|].
  destruct (uadd 32 (current it) 1) as [pl|]; [|done]. cbn [mbind run_bind].
  destruct (uadd 32 (current it) (mem pl)) as [n|] eqn:En; [|done]. apply uadd_Ret_inv in En as [-> _]. cbn [mbind run_bind].
  destruct (Z.ltb_spec (end_ it) (current it + mem pl)); [done|]. destruct (Z.ltb_spec (mem pl) 2); [done|].
  destruct (entry_apic _ _ _ _) as [[l|]|]; [done| |done]. cbn [mbind run_bind].
  apply next_loop_fuel; unfold next_fuel; cbn [end_ current]; lia.
Qed.
(** The items, entry by entry. *)
Lemma items_loop_S mem fuel it :
  items_loop mem (S fuel) it =
    room ← uadd 32 (current it) 2;
    if end_ it <? room then Ret [] else
    pl ← uadd 32 (current it) 1;
    n ← uadd 32 (current it) (mem pl);
    if end_ it <? n then Ret [] else
    if mem pl <? 2 then Panic Explicit else
    o ← entry_apic mem (current it) (mem (current it)) (mem pl);
    match o with
    | Some l => ls ← items_loop mem fuel (mkLapicIter n (end_ it)); Ret (l :: ls)
    | None => items_loop mem (S fuel) (mkLapicIter n (end_ it))
    end.
Proof.
  cbn [items_loop]. rewrite (next_S mem it).
  destruct (uadd 32 (current it) 2) as [room|]; [|done]. cbn [mbind run_bind]. destruct (end_ it <? room); [done|].
  destruct (uadd 32 (current it) 1) as [pl|]; [|done]. cbn [mbind run_bind].
  destruct (uadd 32 (current it) (mem pl)) as [n|] eqn:En; [|done]. cbn [mbind run_bind].
  destruct (end_ it <? n); [done|]. destruct (mem pl <? 2); [done|].
  by destruct (entry_apic _ _ _ _) as [[l|]|].
Qed.

(** ** Agreement with the kernel *)
(** A computation of the 32-bit program against the result of the 64-bit one: it gives the
    same, or it panics because an address does not fit, and then [P] holds. *)
Definition fits {A} (P : Prop) (m : run A) (x : A) : Prop := m = Ret x ∨ (m = Panic Overflow ∧ P).
Lemma fits_bind {A B} P (m : run A) (f : A → run B) x y : fits P m x → fits P (f x) y → fits P (m ≫= f) y.
Proof. intros [->|[-> HP]] H; [done|by right]. Qed.
Lemma fits_uadd (P : Prop) a b : (2 ^ 32 ≤ a + b → P) → fits P (uadd 32 a b) (a + b).
Proof. intros HP. unfold uadd. destruct (Z.ltb_spec (a + b) (2 ^ 32)); [by left|right; auto]. Qed.
Lemma phys_new_inv a b : phys_new a = Ret b → b = a.
Proof. unfold phys_new, rust_assert. destruct (_ =? 0); cbn [mbind run_bind]; [by intros [= ->]|done]. Qed.

(** The end of the table at [p], by its header. *)
Definition table_end (mem : Z → Z) (p : Z) : Z := p + h_length (header_of (read_bytes mem p 36)).

Lemma parse_header_shape mem a h p n :
  Acpi.parse_header mem a = Ret (h, p, n) →
  h = header_of (read_bytes mem a 36) ∧ p = a + HEADER_SIZE ∧ n = h_length h - HEADER_SIZE ∧ 0 ≤ n.
Proof.
  intros H. pose proof (parse_header_payload _ _ _ _ _ H) as ->. unfold Acpi.parse_header in H.
  apply bind_Ret in H as (tl & Htl & (e & He & (sum & Hs & H)%bind_Ret)%bind_Ret). destruct (negb _); [done|].
  apply bind_Ret in H as (q & _ & [= <- _ <-]). unfold checked_sub in Htl. destruct (Z.leb_spec HEADER_SIZE (h_length (header_of (read_bytes mem a 36)))) as [|];
    cbn [unwrap] in Htl; [|done]. injection Htl as <-. split; [done|]. split; [done|]. split; [done|]. apply Z.le_0_sub. done.
Qed.
Lemma parse_header_fits (P : Prop) mem a h p n :
  (2 ^ 32 ≤ table_end mem a → P) → Acpi.parse_header mem a = Ret (h, p, n) → fits P (parse_header mem a) (h, p, n).
Proof.
  intros HP H. pose proof (parse_header_shape _ _ _ _ _ H) as (Eh & -> & En & Hn). rewrite Eh in En. revert H. unfold table_end in HP.
  unfold Acpi.parse_header, parse_header. intros (tl & Htl & (e & He & (sum & Hs & H)%bind_Ret)%bind_Ret)%bind_Ret.
  rewrite Htl. cbn [mbind run_bind]. eapply fits_bind; [by apply fits_uadd|].
  assert (∀ l acc r, for_each (λ i sum, p ← phys_new i; Ret (wrapping_add 8 sum (mem p))) l acc = Ret r →
    r = foldl (λ sum i, wrapping_add 8 sum (mem i)) acc l) as Hsum.
  { induction l as [|i l IH]; intros acc r Hr; [cbn in Hr |- *; congruence|]. cbn [for_each foldl] in *.
    apply bind_Ret in Hr as (s & (q & Hq & [= <-])%bind_Ret & Hr). apply IH in Hr. by apply phys_new_inv in Hq as ->. }
  apply Hsum in Hs as <-. destruct (negb _); [done|]. apply bind_Ret in H as (q & ->%phys_add_inv & H). injection H as <- ->.
  subst n. unfold HEADER_SIZE in *. eapply fits_bind; [apply fits_uadd; intros; apply HP; lia|]. by left.
Qed.
(** The length field has four bytes. *)
Lemma le_bound l : bytes l → le l < 2 ^ (8 * Z.of_nat (length l)).
Proof.
  induction 1 as [|b l Hb Hl IH]; [done|]. cbn [le length]. replace (8 * Z.of_nat (S (length l))) with (8 * Z.of_nat (length l) + 8) by lia.
  rewrite Z.pow_add_r by lia. lia.
Qed.
Lemma h_length_bound mem a : byte_memory mem → h_length (header_of (read_bytes mem a 36)) < 2 ^ 32.
Proof.
  intros Hm. unfold header_of. cbn [h_length]. unfold field. set (b := take 4 (drop 4 (read_bytes mem a 36))).
  assert (bytes b) as Hb.
  { unfold b. apply Forall_take, Forall_drop. unfold read_bytes. apply Forall_fmap, Forall_true. intros x. apply Hm. }
  apply le_bound in Hb. unfold b in Hb at 2. rewrite length_take, length_drop, length_read_bytes in Hb. exact Hb.
Qed.

(** The search looks below 1 MiB only: no address is too large. *)
Lemma align_up_agrees a b : 0 ≤ a < 2 ^ 31 → Addr.align_up a 16 = Ret b → align_up a 16 = Ret b ∧ b ≤ 2 ^ 31.
Proof.
  intros Ha. unfold align_up, Addr.align_up. destruct (rust_assert _); [|done]. cbn [mbind run_bind].
  destruct (_ =? 0); [intros [= <-]; split; [done|lia]|]. assert (Z.lor a (16 - 1) < 2 ^ 31) as Hl.
  { destruct (decide (Z.lor a (16 - 1) = 0)) as [->|Hn]; [done|]. assert (0 ≤ Z.lor a (16 - 1)) by (apply Z.lor_nonneg; lia).
    apply Z.log2_lt_pow2; [lia|].
    rewrite Z.log2_lor by lia. apply Z.max_lub_lt; [|done].
    destruct (decide (a = 0)) as [->|]; [done|]. apply Z.log2_lt_pow2; lia. }
  rewrite !uadd_Ret by lia. intros [= <-]. split; [done|lia].
Qed.
Lemma scan_agrees mem start stop l r : start ≤ 2 ^ 31 → Acpi.scan mem start stop l = Ret r → scan mem start stop l = Ret r.
Proof.
  intros Hs. revert r. induction l as [|a l IH]; intros r H; cbn [scan Acpi.scan] in *; [done|].
  apply bind_Ret in H as (e & [-> _]%uadd_Ret_inv & (se & Hse & H)%bind_Ret). rewrite uadd_Ret by (unfold RSDP_SIZE; lia). cbn [mbind run_bind].
  rewrite Hse. cbn [mbind run_bind]. destruct (_ <? _); [done|]. apply bind_Ret in H as (p & ->%phys_new_inv & H).
  destruct (try_rsdp mem a); [done|by apply IH].
Qed.
Lemma scan_region_agrees mem start stop r :
  0 ≤ start < 2 ^ 31 → Acpi.scan_region mem start stop = Ret r → scan_region mem start stop = Ret r.
Proof.
  intros Hs. unfold Acpi.scan_region, scan_region. intros (s & Ha & H)%bind_Ret. destruct (align_up_agrees _ _ Hs Ha) as [-> Hb].
  cbn [mbind run_bind]. by apply scan_agrees.
Qed.
Lemma search_rsdp_agrees mem r : byte_memory mem → Acpi.search_rsdp mem = Ret r → search_rsdp mem = Ret r.
Proof.
  intros Hm. unfold Acpi.search_rsdp, search_rsdp. set (e := read_uint mem 0x40e 2). intros (o & Ho & H)%bind_Ret.
  assert (0 ≤ e < 2 ^ 31) as He.
  { unfold e, read_uint, read_bytes. change (seqZ 0x40e (Z.of_nat 2)) with [0x40e; 0x40f]. cbn [fmap list_fmap le].
    pose proof (Hm 0x40e). pose proof (Hm 0x40f). lia. }
  rewrite (scan_region_agrees _ _ _ _ He Ho). cbn [mbind run_bind]. destruct o as [t|]; [done|]. by apply scan_region_agrees.
Qed.

(** The entries the kernel's loop takes are those the iterator yields. *)
Lemma madt_entry_apic mem a typ len st st' :
  madt_entry mem a typ len st = Ret st' →
  ∃ o, entry_apic mem a typ len = Ret o ∧ lapics st' = lapics st ++ option_list o.
Proof.
  unfold madt_entry, entry_apic, push_apic, push_override.
  destruct (Z.eqb_spec typ 0) as [->|]; [|destruct (Z.eqb_spec typ 9) as [->|]]; cbn [orb Z.eqb Pos.eqb].
  1, 2: destruct (negb _); [done|]; intros [= <-]; eexists; split; [done|];
    destruct (usable_apic _); cbn [lapics option_list]; by rewrite ?app_nil_r.
  intros H. exists None. split; [done|]. cbn [option_list]. rewrite app_nil_r.
  repeat case_match; simplify_eq; done.
Qed.
Lemma items_fit (P : Prop) mem e kf : byte_memory mem → (2 ^ 32 ≤ e + 255 → P) → ∀ cur st st' fuel,
  entries_loop mem (madt_entry mem) kf cur e st = Ret st' → (Z.to_nat (e - cur) < fuel)%nat → cur ≤ e + 8 →
  ∃ l, lapics st' = lapics st ++ l ∧ fits P (items_loop mem fuel (mkLapicIter cur e)) l.
Proof.
  intros Hm HP. induction kf as [|kf IH]; intros cur st st' [|fuel] H Hf Hc; [done|done|lia|]. cbn [entries_loop] in H.
  apply bind_Ret in H as (room & ->%phys_add_inv & H). rewrite items_loop_S. cbn [current end_].
  destruct (Z.ltb_spec e (cur + 2)) as [Hr|Hr].
  { injection H as ->. exists []. rewrite app_nil_r. split; [done|]. eapply fits_bind; [apply fits_uadd; intros; apply HP; lia|].
    rewrite (proj2 (Z.ltb_lt _ _)) by lia. by left. }
  apply bind_Ret in H as (pl & ->%phys_add_inv & (n & ->%phys_add_inv & H)%bind_Ret). pose proof (Hm (cur + 1)) as Hb.
  assert (∀ (m : Z → Z → run (list LocalApic)) l, fits P (m (cur + 1) (cur + mem (cur + 1))) l →
    fits P (room ← uadd 32 cur 2; if e <? room then Ret [] else pl ← uadd 32 cur 1; n ← uadd 32 cur (mem pl); m pl n) l) as Hroom.
  { intros m l Hml. eapply fits_bind; [apply fits_uadd; intros; apply HP; lia|]. rewrite (proj2 (Z.ltb_ge _ _)) by lia.
    do 2 (eapply fits_bind; [apply fits_uadd; intros; apply HP; lia|]). done. }
  destruct (Z.ltb_spec e (cur + mem (cur + 1))) as [Hn|Hn].
  { injection H as ->. exists []. rewrite app_nil_r. split; [done|]. apply Hroom. rewrite (proj2 (Z.ltb_lt _ _)) by lia. by left. }
  destruct (Z.ltb_spec (mem (cur + 1)) 2) as [Hl|Hl]; [done|].
  apply bind_Ret in H as (st1 & (o & Ho & Hla)%madt_entry_apic & (n & ->%phys_add_inv & H)%bind_Ret).
  destruct (IH _ _ _ (match o with Some _ => fuel | None => S fuel end) H) as (l & Hl' & Hfit); [destruct o; lia|lia|].
  exists (option_list o ++ l). split; [by rewrite Hl', Hla, app_assoc|]. apply Hroom.
  rewrite (proj2 (Z.ltb_ge _ _)), (proj2 (Z.ltb_ge _ 2)) by lia. rewrite Ho. cbn [mbind run_bind].
  destruct o as [a|]; [|exact Hfit]. eapply fits_bind; [exact Hfit|by left].
Qed.
(** Once the kernel has processors it keeps them. *)
Lemma init_table_keeps mem payload entry s s' l :
  init_table mem payload entry s = Ret s' → apics s = Some l → apics s' = Some l.
Proof.
  unfold init_table. intros (off & _ & (ep & _ & (ptr & _ & H)%bind_Ret)%bind_Ret)%bind_Ret Hs. rewrite Hs in H.
  destruct (bool_decide _); [done|]. destruct (bool_decide _); [|by injection H as <-].
  destruct (apic_domains s), (memory_domains s); try done. apply bind_Ret in H as (st & _ & [= <-]). exact Hs.
Qed.
Lemma init_tables_keep mem payload es s s' l :
  for_each (init_table mem payload) es s = Ret s' → apics s = Some l → apics s' = Some l.
Proof.
  revert s. induction es as [|e es IH]; intros s H Hs; [by injection H as <-|].
  cbn [for_each] in H. apply bind_Ret in H as (s1 & H1 & H). eapply IH; [exact H|]. by eapply init_table_keeps.
Qed.

(** The iterator over the table at [ptr], as [new] makes it. *)
Definition iter_at (mem : Z → Z) (ptr : Z) : run (option LapicIter) :=
  '(_, payload, size) ← parse_header mem ptr;
  s ← uadd 32 payload 4; start ← uadd 32 s 4;
  e ← uadd 32 payload size;
  Ret (Some (mkLapicIter start e)).
Lemma iter_at_fits (P : Prop) mem ptr st mask :
  byte_memory mem → (2 ^ 32 ≤ table_end mem ptr + 255 → P) → parse_madt mem ptr = Ret (st, mask) →
  ∃ it, fits P (iter_at mem ptr) (Some it) ∧ fits P (items mem it) (lapics st).
Proof.
  intros Hm HP. unfold parse_madt. intros ([[h payload] size] & Hh & H)%bind_Ret.
  pose proof (parse_header_shape _ _ _ _ _ Hh) as (Eh & -> & En & Hn). unfold table_end in HP. rewrite <- Eh in HP. unfold HEADER_SIZE in *.
  apply bind_Ret in H as (fp & _ & (i & ->%phys_add_inv & (ics & ->%phys_add_inv & H)%bind_Ret)%bind_Ret).
  apply bind_Ret in H as (e & ->%phys_add_inv & (st1 & Hst & [= -> _])%bind_Ret).
  exists (mkLapicIter (ptr + 36 + 4 + 4) (ptr + 36 + size)). split.
  - unfold iter_at. eapply fits_bind; [apply parse_header_fits, Hh; unfold table_end; rewrite <- Eh; intros; apply HP; lia|]. cbv beta iota.
    do 3 (eapply fits_bind; [apply fits_uadd; intros; apply HP; lia|]). by left.
  - unfold items, next_fuel. cbn [current end_].
    destruct (items_fit P mem (ptr + 36 + size) _ Hm ltac:(intros; apply HP; lia) _ _ _ (S (Z.to_nat (ptr + 36 + size - (ptr + 36 + 4 + 4)))) Hst)
      as (l & -> & Hl); [lia|lia|]. exact Hl.
Qed.

(** The tables the RSDT points to, and the first MADT among them. *)
Definition tables_at (mem : Z → Z) (payload : Z) (es : list Z) : list Z := (λ e, read_uint mem (payload + e * 4) 4) <$> es.
Definition madt_of (mem : Z → Z) (ptrs : list Z) : option Z := head (filter (λ p, read_bytes mem p 4 = APIC) ptrs).
Definition rsdt_tables (mem : Z → Z) : list Z :=
  match Acpi.search_rsdp mem with
  | Ret (Some r) => tables_at mem (rsdt_addr r + HEADER_SIZE) (seqZ 0 ((table_end mem (rsdt_addr r) - rsdt_addr r - HEADER_SIZE) / 4))
  | _ => []
  end.
Definition first_madt (mem : Z → Z) : option Z := madt_of mem (rsdt_tables mem).
(** The RSDT ends above 4 GiB, or the first MADT does, give or take the length of an entry. *)
Definition beyond_4gib (mem : Z → Z) : Prop :=
  (∃ r, Acpi.search_rsdp mem = Ret (Some r) ∧ 2 ^ 32 ≤ table_end mem (rsdt_addr r))
  ∨ ∃ p, first_madt mem = Some p ∧ 2 ^ 32 ≤ table_end mem p + 255.

(** What [find_madt] and the iterator it returns amount to. *)
Definition found (P : Prop) (mem : Z → Z) (madt : option Z) (apics : option (list LocalApic)) (r : run (option LapicIter)) : Prop :=
  match madt with
  | None => r = Ret None ∧ apics = None
  | Some ptr => ∃ it st mask, fits P r (Some it) ∧ fits P (items mem it) (lapics st) ∧ parse_madt mem ptr = Ret (st, mask)
                  ∧ (lapics st = [] ∨ apics = Some (lapics st))
  end.
Lemma find_madt_fits (P : Prop) mem payload es : byte_memory mem → (∀ e, e ∈ es → e * 4 < 2 ^ 32 ∧ (2 ^ 32 ≤ payload + e * 4 → P)) →
  (∀ p, madt_of mem (tables_at mem payload es) = Some p → 2 ^ 32 ≤ table_end mem p + 255 → P) → ∀ s s',
  for_each (init_table mem payload) es s = Ret s' → apics s = None →
  find_madt mem payload es = Panic Overflow ∧ P ∨ found P mem (madt_of mem (tables_at mem payload es)) (apics s') (find_madt mem payload es).
Proof.
  intros Hm Hes Hend. induction es as [|e es IH]; intros s s' H Hs; cbn [for_each find_madt] in *; [injection H as <-; right; done|].
  apply bind_Ret in H as (s1 & H1 & H). pose proof H1 as Hinit. unfold init_table in H1.
  apply bind_Ret in H1 as (off & [-> _]%umul_Ret_inv & (ep & ->%phys_add_inv & (ptr & ->%phys_new_inv & H1)%bind_Ret)%bind_Ret).
  destruct (Hes e ltac:(by left)) as [He HeP].
  rewrite umul_Ret by done. cbn [mbind run_bind].
  destruct (fits_uadd P payload (e * 4) HeP) as [->|[-> HP]]; [|by left]. cbn [mbind run_bind]. rewrite Hs in H1.
  unfold tables_at, madt_of in *. cbn [fmap list_fmap] in *. rewrite filter_cons in Hend |- *. set (ptr := read_uint mem (payload + e * 4) 4) in *.
  destruct (decide (read_bytes mem ptr 4 = APIC)) as [Hapic|Hapic].
  - rewrite bool_decide_true in H1 |- * by done. apply bind_Ret in H1 as ([st mask] & Hst & [= <-]). fold (iter_at mem ptr).
    destruct (iter_at_fits P mem ptr st mask Hm (Hend ptr eq_refl) Hst) as (it & Hf & Hit). right. cbn [head].
    exists it, st, mask. split; [done|]. split; [done|]. split; [done|]. destruct (lapics st) as [|l ls] eqn:El; [by left|right].
    eapply init_tables_keep; [exact H|]. unfold set_madt. cbn [apics]. by rewrite ?El.
  - rewrite bool_decide_false in H1 |- * by done. apply (IH ltac:(intros; apply Hes; by right) Hend s1 s' H). destruct (bool_decide _); [|by injection H1 as <-].
    destruct (apic_domains s), (memory_domains s); try done. apply bind_Ret in H1 as (st & _ & [= <-]). exact Hs.
Qed.

(** C21: The bootloader and the kernel see the same processors.  On any memory from which
    the kernel's [Acpi::init] builds its tables: the iterator of the bootloader yields
    exactly the processors the kernel's parser finds in the first MADT, in order; these
    are the kernel's local APICs unless that MADT names none.  It panics for want of a
    MADT exactly if there is none, and then the kernel has no processors; an address
    overflows only if the RSDT or that MADT reaches to the end of the 32-bit space. *)
Theorem core_apics_agree mem s :
  byte_memory mem → acpi_init mem Acpi.new = Ret s →
  match core_apics mem with
  | Ret l => ∃ ptr st mask, first_madt mem = Some ptr ∧ parse_madt mem ptr = Ret (st, mask) ∧ l = lapics st ∧ (l = [] ∨ apics s = Some l)
  | Panic e => e = Unwrap ∧ first_madt mem = None ∧ apics s = None ∨ e = Overflow ∧ beyond_4gib mem
  end.
Proof.
  intros Hm H. unfold acpi_init in H. apply bind_Ret in H as (o & Ho & (rsdp & Hr & H)%bind_Ret).
  destruct o as [r|]; [|done]. injection Hr as ->.
  apply bind_Ret in H as (a & ->%phys_new_inv & ([[rsdt payload] size] & Hh & H)%bind_Ret).
  pose proof (parse_header_shape _ _ _ _ _ Hh) as (Eh & -> & En & Hn).
  unfold core_apics, new. rewrite (search_rsdp_agrees mem _ Hm Ho). cbn [mbind run_bind unwrap].
  assert (rsdt_tables mem = tables_at mem (rsdt_addr rsdp + HEADER_SIZE) (seqZ 0 (size / 4))) as Et.
  { unfold rsdt_tables, table_end. rewrite Ho. do 3 f_equal. rewrite <- Eh. lia. }
  destruct (parse_header_fits (beyond_4gib mem) mem _ _ _ _ ltac:(intros; left; by exists rsdp) Hh) as [->|[-> HP]]; [|by right]. cbn [mbind run_bind].
  destruct (negb (bool_decide _)); [done|]. destruct (negb _); [done|].
  pose proof (h_length_bound mem (rsdt_addr rsdp) Hm) as Hlen. rewrite <- Eh in Hlen. unfold HEADER_SIZE in *.
  assert (∀ e, e ∈ seqZ 0 (size / 4) → e * 4 < size) as Hsz.
  { intros e He%elem_of_seqZ. pose proof (Z.div_mod size 4 ltac:(lia)). pose proof (Z.mod_pos_bound size 4 ltac:(lia)). lia. }
  destruct (find_madt_fits (beyond_4gib mem) mem (rsdt_addr rsdp + 36) (seqZ 0 (size / 4)) Hm) with (3 := H) as [[-> HP]|Hf]; [| |done|by right|].
  - intros e He%Hsz. split; [lia|]. intros Hbig. left. exists rsdp. split; [done|]. unfold table_end. rewrite <- Eh. lia.
  - intros p Hp Hbig. right. exists p. unfold first_madt. by rewrite Et.
  - unfold first_madt. rewrite Et. unfold found in Hf. destruct (madt_of _ _) as [ptr|].
    + destruct Hf as (it & st & mask & Hfm & Hit & Hst & Hs). destruct Hfm as [->|[-> HP]]; [|by right]. cbn [mbind run_bind unwrap].
      destruct Hit as [->|[-> HP]]; [|by right]. exists ptr, st, mask. done.
    + destruct Hf as [-> Hn']. by left.
Qed.

(** ** The iterator stays in its table *)
Lemma entry_apic_local mem mem' a typ len e :
  (∀ x, a ≤ x < e → mem' x = mem x) → a + len ≤ e → entry_apic mem' a typ len = entry_apic mem a typ len.
Proof.
  intros Hmem Hle. unfold entry_apic. destruct ((typ =? 0) || (typ =? 9)); [|done].
  destruct (Z.eqb_spec len (if typ =? 0 then 8 else 16)) as [Hl|]; cbn [negb]; [|done].
  assert (read_bytes mem' a 8 = read_bytes mem a 8) as ->; [|done]. unfold read_bytes. apply list_fmap_ext. intros i x Hx.
  apply lookup_seqZ in Hx as [-> Hi]. apply Hmem. destruct (typ =? 0); lia.
Qed.
Lemma items_loop_local mem mem' e n : ∀ cur fuel,
  (Z.to_nat (e - cur) ≤ n)%nat → (Z.to_nat (e - cur) < fuel)%nat → (∀ x, cur ≤ x < e → mem' x = mem x) →
  items_loop mem' fuel (mkLapicIter cur e) = items_loop mem fuel (mkLapicIter cur e).
Proof.
  induction n as [|n IH]; intros cur [|fuel] Hn Hf Hmem; [lia| |lia|];
    rewrite !items_loop_S; cbn [current end_]; (destruct (fits_uadd True cur 2 (λ _, I)) as [->|[-> _]]; [|done]); cbn [mbind run_bind];
    destruct (Z.ltb_spec e (cur + 2)) as [|Hr]; [done|lia|done|].
  destruct (fits_uadd True cur 1 (λ _, I)) as [->|[-> _]]; [|done]. cbn [mbind run_bind].
  rewrite (Hmem (cur + 1)), (Hmem cur) by lia. destruct (fits_uadd True cur (mem (cur + 1)) (λ _, I)) as [->|[-> _]]; [|done]. cbn [mbind run_bind].
  destruct (Z.ltb_spec e (cur + mem (cur + 1))); [done|]. destruct (Z.ltb_spec (mem (cur + 1)) 2); [done|].
  rewrite (entry_apic_local mem mem' cur _ _ e) by (done || lia). destruct (entry_apic _ _ _ _) as [[l|]|]; [| |done];
    cbn [mbind run_bind]; (rewrite IH; [done|lia|lia|]); intros; apply Hmem; lia.
Qed.
Lemma entry_apic_length mem a typ len o :
  entry_apic mem a typ len = Ret o → 8 * Z.of_nat (length (option_list o)) ≤ Z.max 0 len.
Proof.
  unfold entry_apic. intros H. destruct ((typ =? 0) || (typ =? 9)); [|injection H as <-; cbn; lia].
  destruct (Z.eqb_spec len (if typ =? 0 then 8 else 16)) as [Hl|]; cbn [negb] in H; [|done].
  injection H as <-. destruct (usable_apic _); cbn; subst len; destruct (typ =? 0); lia.
Qed.
Lemma items_loop_bounds mem e n : byte_memory mem → e + 255 < 2 ^ 32 → ∀ cur fuel,
  (Z.to_nat (e - cur) ≤ n)%nat → (Z.to_nat (e - cur) < fuel)%nat → cur + 2 < 2 ^ 32 →
  match items_loop mem fuel (mkLapicIter cur e) with
  | Ret l => 8 * Z.of_nat (length l) ≤ Z.max 0 (e - cur)
  | Panic f => f = Explicit
  end.
Proof.
  intros Hm He. induction n as [|n IH]; intros cur [|fuel] Hn Hf Hc; [lia| |lia|];
    rewrite items_loop_S; cbn [current end_]; rewrite (uadd_Ret 32 cur 2) by lia; cbn [mbind run_bind];
    destruct (Z.ltb_spec e (cur + 2)) as [|Hr]; [cbn; lia|lia|cbn; lia|].
  rewrite uadd_Ret by lia. cbn [mbind run_bind]. pose proof (Hm (cur + 1)) as Hb. rewrite uadd_Ret by lia. cbn [mbind run_bind].
  destruct (Z.ltb_spec e (cur + mem (cur + 1))); [cbn; lia|]. destruct (Z.ltb_spec (mem (cur + 1)) 2); [done|].
  destruct (entry_apic mem cur (mem cur) (mem (cur + 1))) as [o|f] eqn:Eo; cbn [mbind run_bind].
  - apply entry_apic_length in Eo. specialize (IH (cur + mem (cur + 1)) (match o with Some _ => fuel | None => S fuel end)).
    destruct o as [a|]; [change (length (option_list (Some a))) with 1%nat in Eo|];
      destruct (items_loop _ _ _) as [ls|]; cbn [mbind run_bind length]; (specialize (IH ltac:(lia) ltac:(lia) ltac:(lia)); (exact IH || lia)).
  - unfold entry_apic in Eo. by repeat case_match; simplify_eq.
Qed.

(** C34: The iterator over a MADT that ends 255 bytes below 4 GiB reads nothing outside the
    table (memory that agrees on the table gives the same processors), never overflows
    an address, comes to an end, and yields at most one processor per eight bytes; the
    only fault is the panic on a malformed entry. *)
Theorem lapic_iter_in_table mem it :
  byte_memory mem → current it + 2 < 2 ^ 32 → end_ it + 255 < 2 ^ 32 →
  (∀ mem', (∀ x, current it ≤ x < end_ it → mem' x = mem x) → items mem' it = items mem it)
  ∧ match items mem it with
    | Ret l => 8 * Z.of_nat (length l) ≤ Z.max 0 (end_ it - current it)
    | Panic f => f = Explicit
    end.
Proof.
  intros Hm Hc He. destruct it as [cur e]. cbn [current end_] in *. split.
  - intros mem' Hmem. apply (items_loop_local mem mem' e (Z.to_nat (e - cur))); [done|unfold next_fuel; cbn; lia|exact Hmem].
  - apply (items_loop_bounds mem e (Z.to_nat (e - cur))); [done..|unfold next_fuel; cbn; lia|done].
Qed.
End properties.

(** ** Instances *)
#[local] Existing Instance bit_field_model.
(** An RSDP at 0xe0010, an RSDT with two tables and a MADT with two usable processors. *)
Definition rsdt_body : list Z := le_bytes 4 0x7fe1000 ++ le_bytes 4 0x7fe0000.
Definition cores_madt : list Z := madt_pre ++ concat (encode <$> [CLapic 0 0 1; CLapic 1 1 0; CIoApic 2 0 0xfec00000 0; CLapic 2 4 2]).
Definition boot_memory : Z → Z :=
  overlay 0xe0010 rsdp_bytes
    (overlay 0x7fe2000 (make_header RSDT rsdt_body ++ rsdt_body)
       (overlay 0x7fe0000 (make_header APIC cores_madt ++ cores_madt) (λ _, 0))).
Lemma boot_memory_bytes : byte_memory boot_memory.
Proof.
  repeat apply overlay_bytes; [..|intros x; lia]; unfold bytes; apply (bool_decide_unpack _); by vm_compute.
Qed.
Lemma core_apics_agree_witness :
  ∃ s, acpi_init boot_memory Acpi.new = Ret s ∧ core_apics boot_memory = Ret [mkLocalApic 0 8 0 0 1; mkLocalApic 0 8 2 4 2]
    ∧ apics s = Some [mkLocalApic 0 8 0 0 1; mkLocalApic 0 8 2 4 2].
Proof.
  destruct (acpi_init boot_memory Acpi.new) as [s|f] eqn:E; [|vm_compute in E; discriminate].
  assert (core_apics boot_memory = Ret [mkLocalApic 0 8 0 0 1; mkLocalApic 0 8 2 4 2]) as Hc by (vm_compute; reflexivity).
  exists s. split; [reflexivity|]. split; [exact Hc|].
  pose proof (core_apics_agree boot_memory s boot_memory_bytes E) as H. rewrite Hc in H.
  destruct H as (ptr & st & mask & _ & _ & _ & [H|H]); [discriminate H|exact H].
Defined.
Lemma lapic_iter_in_table_witness :
  let it := mkLapicIter 0x7fe002c 0x7fe0050 in
  match items boot_memory it with Ret l => 8 * Z.of_nat (length l) ≤ 36 | Panic f => f = Explicit end
  ∧ items (mem_of 0x7fe0000 (make_header APIC cores_madt ++ cores_madt)) it = items boot_memory it.
Proof.
  cbv zeta. destruct (lapic_iter_in_table boot_memory (mkLapicIter 0x7fe002c 0x7fe0050)) as [Hl Hb].
  - exact boot_memory_bytes.
  - cbn. lia.
  - cbn. lia.
  - split; [exact Hb|]. apply Hl. cbn [current end_]. intros x Hx. unfold boot_memory, overlay, mem_of.
    change (Z.of_nat (length rsdp_bytes)) with 20.
    change (Z.of_nat (length (make_header RSDT rsdt_body ++ rsdt_body))) with 44.
    rewrite (proj2 (Z.leb_le 0xe0010 x)), (proj2 (Z.ltb_ge x (0xe0010 + 20))), (proj2 (Z.leb_gt 0x7fe2000 x)) by lia. reflexivity.
Defined.
End LapicIter.
