(* ===== verification/Cores.v ===== *)
(** * crates/bootloader/src/bootinfo/mod.rs: the cores in the boot information

    The bootloader fills the array of cores while it enumerates the local APICs and
    allocates their stacks ([Stacks]); the kernel looks its own core up by APIC id
    and takes its stacks from there ([Gdt]). *)
From S2P Require Import Prelude.

Module Cores.

Definition MAX_CORES : nat := 256.
Definition TSS_STACKS_PER_CPU : nat := 8.

(** ** [TSS]: the interrupt stacks of a core *)
Record TSS := mkTSS { stack_starts : list Z; stack_ends : list Z }.
#[global] Instance TSS_eq_dec : EqDecision TSS.
Proof. solve_decision. Defined.
Definition tss_set_stack_start (t : TSS) (i : nat) (addr : Z) : run TSS :=
  l ← store (stack_starts t) i addr; Ret (mkTSS l (stack_ends t)).
(** [tss.stack_end_addr[i] = addr]; the field is public. *)
Definition tss_set_stack_end (t : TSS) (i : nat) (addr : Z) : run TSS :=
  l ← store (stack_ends t) i addr; Ret (mkTSS (stack_starts t) l).
Definition tss_get_stack_start (t : TSS) (i : nat) : run (option Z) :=
  val ← index (stack_starts t) i;
  Ret (if val =? 0 then None else Some val).

(** ** [Core] *)
Record Core := mkCore { apic_id : Z; stack_start_addr : Z; stack_end_addr : Z; tss : TSS }.
#[global] Instance Core_eq_dec : EqDecision Core.
Proof. solve_decision. Defined.
Definition core_empty : Core :=
  mkCore 0xffff 0 0 (mkTSS (replicate TSS_STACKS_PER_CPU 0) (replicate TSS_STACKS_PER_CPU 0)).
Definition set_apic_id (c : Core) (addr : Z) : Core := mkCore addr (stack_start_addr c) (stack_end_addr c) (tss c).
Definition get_apic_id (c : Core) : option Z :=
  if apic_id c =? 0xffff then None else Some (cast 8 (apic_id c)).
Definition set_stack_start (c : Core) (addr : Z) : Core := mkCore (apic_id c) addr (stack_end_addr c) (tss c).
Definition set_stack_end (c : Core) (addr : Z) : Core := mkCore (apic_id c) (stack_start_addr c) addr (tss c).
Definition set_tss (c : Core) (t : TSS) : Core := mkCore (apic_id c) (stack_start_addr c) (stack_end_addr c) t.
Definition get_stack_start (c : Core) : option Z :=
  if stack_start_addr c =? 0 then None else Some (stack_start_addr c).

(** ** [Cores] *)
Record Cores := mkCores { cores : list Core; num_booted_cores : Z; num_cores : Z }.
Definition cores_empty : Cores := mkCores (replicate 256 core_empty) 0 0.

(** [Deref] and [DerefMut]: the slice [cores[0..num_cores]]. *)
Definition deref (c : Cores) : run (list Core) := slice_to (cores c) (Z.to_nat (num_cores c)).
(** [BOOT_INFO.cores[i]] as a place: read, or replace what [f] makes of it. *)
Definition core_at (c : Cores) (i : nat) : run Core := l ← deref c; index l i.
Definition update_core (c : Cores) (i : nat) (f : Core → run Core) : run Cores :=
  l ← deref c;
  old ← index l i;
  new ← f old;
  Ret (mkCores (<[i := new]> (cores c)) (num_booted_cores c) (num_cores c)).
(** [num_cores += 1] on a u32. *)
Definition add_core (c : Cores) : run Cores :=
  n ← uadd 32 (num_cores c) 1; Ret (mkCores (cores c) (num_booted_cores c) n).

(** The loop of [get_by_apic_id]: [iter().take(num_cores).enumerate()]. *)
Fixpoint find_core (l : list Core) (i : nat) (id : Z) : option (Core * nat) :=
  match l with
  | [] => None
  | core :: l' => if apic_id core =? id then Some (core, i) else find_core l' (S i) id
  end.
Definition get_by_apic_id (c : Cores) (id : Z) : option (Core * nat) :=
  find_core (take (Z.to_nat (num_cores c)) (cores c)) 0 id.

(** ** Lemmas *)
(** The invariant of the array: 256 slots, at most that many in use, stack tables of
    the fixed size. *)
Definition core_ok (c : Core) : Prop :=
  length (stack_starts (tss c)) = TSS_STACKS_PER_CPU ∧ length (stack_ends (tss c)) = TSS_STACKS_PER_CPU.
Definition cores_ok (c : Cores) : Prop :=
  length (cores c) = MAX_CORES ∧ 0 ≤ num_cores c ≤ Z.of_nat MAX_CORES ∧ Forall core_ok (cores c).

Lemma find_core_spec l i id :
  match find_core l i id with
  | Some (c, k) => ∃ j, k = (i + j)%nat ∧ l !! j = Some c ∧ apic_id c = id ∧ ∀ j' c', (j' < j)%nat → l !! j' = Some c' → apic_id c' ≠ id
  | None => ∀ c, c ∈ l → apic_id c ≠ id
  end.
Proof.
  revert i. induction l as [|c l IH]; intros i; simpl; [by intros c ?%elem_of_nil|].
  destruct (Z.eqb_spec (apic_id c) id) as [E|E].
  - exists 0%nat. split; [lia|]. split; [done|]. split; [done|]. lia.
  - specialize (IH (S i)). destruct (find_core l (S i) id) as [[c' k]|].
    + destruct IH as (j & -> & Hj & Hid & Hmin). exists (S j). split; [lia|]. split; [done|]. split; [done|].
      intros [|j'] c'' Hlt Hl; simplify_eq/=; [done|]. eapply Hmin; [|done]. lia.
    + intros c' [->|H]%elem_of_cons; auto.
Qed.

(** [get_by_apic_id] finds the first of the cores in use with the given id. *)
Lemma get_by_apic_id_spec c id :
  match get_by_apic_id c id with
  | Some (core, i) =>
      (i < Z.to_nat (num_cores c))%nat ∧ cores c !! i = Some core ∧ apic_id core = id
      ∧ ∀ j core', (j < i)%nat → cores c !! j = Some core' → apic_id core' ≠ id
  | None => ∀ i core, (i < Z.to_nat (num_cores c))%nat → cores c !! i = Some core → apic_id core ≠ id
  end.
Proof.
  unfold get_by_apic_id. pose proof (find_core_spec (take (Z.to_nat (num_cores c)) (cores c)) 0 id) as H.
  destruct find_core as [[core k]|].
  - destruct H as (j & -> & Hj & Hid & Hmin). simpl in *. apply lookup_take_Some in Hj as [Hj Hlt].
    split; [done|]. split; [done|]. split; [done|]. intros j' c' Hj' Hc'. eapply Hmin; [done|].
    by apply lookup_take_Some; split; [|lia].
  - intros i core Hi Hc. apply H. apply list_elem_of_lookup. exists i. by apply lookup_take_Some.
Qed.

Lemma deref_ok c : cores_ok c → deref c = Ret (take (Z.to_nat (num_cores c)) (cores c)).
Proof. intros (Hl & Hn & _). unfold deref, slice_to. rewrite decide_True; [done|]. unfold MAX_CORES in *. lia. Qed.

Lemma core_at_Ret c i core :
  cores_ok c → core_at c i = Ret core ↔ (i < Z.to_nat (num_cores c))%nat ∧ cores c !! i = Some core.
Proof.
  intros Hc. unfold core_at. rewrite (deref_ok c Hc). cbn [mbind run_bind]. rewrite index_Ret, lookup_take_Some. tauto.
Qed.

(** Only the core at [i] changes. *)
Lemma update_core_Ret c i f c' :
  cores_ok c → update_core c i f = Ret c' →
  ∃ old new, (i < Z.to_nat (num_cores c))%nat ∧ cores c !! i = Some old ∧ f old = Ret new
    ∧ c' = mkCores (<[i := new]> (cores c)) (num_booted_cores c) (num_cores c).
Proof.
  intros Hc. unfold update_core. rewrite (deref_ok c Hc). cbn [mbind run_bind]. intros H.
  destruct (index _ i) as [old|] eqn:Ei; cbn [mbind run_bind] in H; [|done].
  destruct (f old) as [new|] eqn:Ef; cbn [mbind run_bind] in H; [|done]. injection H as <-.
  apply index_Ret, lookup_take_Some in Ei as [Ei Hi]. by exists old, new.
Qed.

Lemma update_core_ok c i f c' :
  cores_ok c → (∀ old new, core_ok old → f old = Ret new → core_ok new) → update_core c i f = Ret c' → cores_ok c'.
Proof.
  intros Hc Hf Hu. pose proof Hc as (Hl & Hn & Hall).
  destruct (update_core_Ret _ _ _ _ Hc Hu) as (old & new & Hi & Ho & Hnew & ->).
  split; [cbn [cores]; by rewrite length_insert|]. split; [done|]. cbn [cores]. apply Forall_insert; [done|].
  eapply Hf; [|done]. by eapply Forall_lookup_1.
Qed.

(** The slice of the cores in use is in range whenever it was taken. *)
Lemma update_core_bound c i f c' : update_core c i f = Ret c' → (Z.to_nat (num_cores c) ≤ length (cores c))%nat.
Proof.
  unfold update_core, deref, slice_to. case_decide; [done|]. done.
Qed.

Lemma add_core_ok c c' : add_core c = Ret c' → c' = mkCores (cores c) (num_booted_cores c) (num_cores c + 1).
Proof. unfold add_core. intros H. run_inv. by apply uadd_Ret_inv in Hrun as [-> _]. Qed.

Lemma get_set_apic_id c id : in_width 8 id → get_apic_id (set_apic_id c id) = Some id.
Proof.
  intros Hid. unfold get_apic_id, set_apic_id, cast, in_width in *. cbn [apic_id].
  rewrite (proj2 (Z.eqb_neq _ _)) by lia. by rewrite Z.mod_small by lia.
Qed.
Lemma cores_empty_ok : cores_ok cores_empty.
Proof. split; [done|]. split; [done|]. apply Forall_replicate. done. Qed.

End Cores.
