(* ===== verification/Gdt.v ===== *)
(** * Segment tables: x86_64 gdt.rs and tss.rs, kernel tss.rs

    [GlobalDescriptorTable] is the array of eight words with the next free index,
    [tss_segment] builds the descriptor of a task state segment.  [init] of the kernel
    gives a core its own GDT and TSS, the latter with the core's interrupt stacks from
    the boot information, and loads them.  The registers it loads are in [core_regs]. *)
From S2P Require Import Prelude Addr Bits Msr Cores.
Import Addr Bits.

Module Gdt.

(** ** [GlobalDescriptorTable] *)
Record GlobalDescriptorTable := mkGdt { table : list Z; next_free : nat }.
Inductive Descriptor := UserSegment (value : Z) | SystemSegment (value_low value_high : Z).

Definition gdt_new : GlobalDescriptorTable := mkGdt (replicate 8 0) 1.
Definition from_raw_slice (slice : list Z) : run GlobalDescriptorTable :=
  let next_free := length slice in
  _ ← rust_assert (next_free <=? 8)%nat;
  t ← for_each (λ idx t, v ← index slice idx; store t idx v) (seq 0 next_free) (replicate 8 0);
  Ret (mkGdt t next_free).
Definition as_raw_slice (g : GlobalDescriptorTable) : run (list Z) := slice_to (table g) (next_free g).

Definition push (g : GlobalDescriptorTable) (value : Z) : run (GlobalDescriptorTable * nat) :=
  if (next_free g <? length (table g))%nat then
    let index := next_free g in
    t ← store (table g) index value;
    Ret (mkGdt t (next_free g + 1), index)
  else Panic Explicit.

(** [DescriptorFlags]. *)
Definition ACCESSED : Z := Z.shiftl 1 40.
Definition WRITABLE : Z := Z.shiftl 1 41.
Definition CONFORMING : Z := Z.shiftl 1 42.
Definition EXECUTABLE : Z := Z.shiftl 1 43.
Definition USER_SEGMENT : Z := Z.shiftl 1 44.
Definition DPL_RING_3 : Z := Z.shiftl 3 45.
Definition PRESENT : Z := Z.shiftl 1 47.
Definition AVAILABLE : Z := Z.shiftl 1 52.
Definition LONG_MODE : Z := Z.shiftl 1 53.
Definition DEFAULT_SIZE : Z := Z.shiftl 1 54.
Definition GRANULARITY : Z := Z.shiftl 1 55.
Definition LIMIT_0_15 : Z := 0xffff.
Definition LIMIT_16_19 : Z := Z.shiftl 0xf 48.
Definition BASE_0_23 : Z := Z.shiftl 0xffffff 16.
Definition BASE_24_31 : Z := Z.shiftl 0xff 56.
Definition DescriptorFlags_all : Z :=
  Msr.union_of [ACCESSED; WRITABLE; CONFORMING; EXECUTABLE; USER_SEGMENT; DPL_RING_3; PRESENT; AVAILABLE; LONG_MODE;
                DEFAULT_SIZE; GRANULARITY; LIMIT_0_15; LIMIT_16_19; BASE_0_23; BASE_24_31].
Definition from_bits_truncate (v : Z) : Z := Z.land v DescriptorFlags_all.
Definition COMMON : Z :=
  from_bits_truncate (Msr.union_of [USER_SEGMENT; PRESENT; WRITABLE; ACCESSED; LIMIT_0_15; LIMIT_16_19; GRANULARITY]).
Definition KERNEL_DATA : Z := from_bits_truncate (Z.lor COMMON DEFAULT_SIZE).
Definition KERNEL_CODE32 : Z := from_bits_truncate (Msr.union_of [COMMON; EXECUTABLE; DEFAULT_SIZE]).
Definition KERNEL_CODE64 : Z := from_bits_truncate (Msr.union_of [COMMON; EXECUTABLE; LONG_MODE]).
Definition USER_DATA : Z := from_bits_truncate (Z.lor KERNEL_DATA DPL_RING_3).
Definition USER_CODE32 : Z := from_bits_truncate (Z.lor KERNEL_CODE32 DPL_RING_3).
Definition USER_CODE64 : Z := from_bits_truncate (Z.lor KERNEL_CODE64 DPL_RING_3).

Definition add_entry (g : GlobalDescriptorTable) (entry : Descriptor) : run (GlobalDescriptorTable * Z) :=
  '(g, index) ← match entry with
                | UserSegment value => push g value
                | SystemSegment value_low value_high =>
                    '(g, index) ← push g value_low;
                    '(g, _) ← push g value_high;
                    Ret (g, index)
                end;
  let rpl := match entry with
             | UserSegment value =>
                 if Z.land (from_bits_truncate value) DPL_RING_3 =? DPL_RING_3 then Msr.Ring3 else Msr.Ring0
             | SystemSegment _ _ => Msr.Ring0
             end in
  Ret (g, Msr.selector_new (cast 16 (Z.of_nat index)) rpl).

Definition kernel_code_segment : Descriptor := UserSegment KERNEL_CODE64.
Definition kernel_data_segment : Descriptor := UserSegment KERNEL_DATA.
Definition user_data_segment : Descriptor := UserSegment USER_DATA.
Definition user_code_segment : Descriptor := UserSegment USER_CODE64.

(** ** [TaskStateSegment] *)
Record TaskStateSegment := mkTss {
  privilege_stack_table : list Z;
  interrupt_stack_table : list Z;
  iomap_base : Z
}.
Definition tss_new : TaskStateSegment := mkTss (replicate 3 0) (replicate 7 0) 0.
(** [size_of] of the packed struct: u32, 3 addresses, u64, 7 addresses, u64, u16, u16. *)
Definition tss_size : Z := 4 + 3 * 8 + 8 + 7 * 8 + 8 + 2 + 2.

Section tables.
Context {BF : BitField}.

Definition tss_segment (ptr : Z) : run Descriptor :=
  let low := PRESENT in
  low ← set_bits low 16 40 (get_bits ptr 0 24);
  low ← set_bits low 56 64 (get_bits ptr 24 32);
  low ← set_bits low 0 16 (tss_size - 1);
  low ← set_bits low 40 44 9;
  high ← set_bits 0 0 32 (get_bits ptr 32 64);
  Ret (SystemSegment low high).

(** [pointer]: base and limit of the loaded table. *)
Definition pointer (g : GlobalDescriptorTable) (addr : Z) : run (Z * Z) :=
  base ← virt_new addr;
  limit ← usub (Z.of_nat (next_free g) * 8) 1;
  Ret (base, cast 16 limit).

(** ** kernel/src/tss.rs *)
Record StackIter := mkStackIter { curr : Z; max : Z }.
Definition stack_iter_new (max : Z) : StackIter := mkStackIter 0 max.
Definition stack_iter_next (it : StackIter) : run (option Z * StackIter) :=
  if curr it <? max it then
    c ← uadd 16 (curr it) 1;
    Ret (Some c, mkStackIter c (max it))
  else Ret (None, it).

Record statics := mkStatics {
  TSS_STACK_ITER : option StackIter;
  GDT_ARR : list (option GlobalDescriptorTable);
  TSS_ARR : list (option TaskStateSegment)
}.
Record core_regs := mkRegs { gdtr : Z * Z; cs : Z; tr : Z }.

(** Where the linker put [GDT_ARR[i]] and [TSS_ARR[i]]. *)
Variables gdt_addr tss_addr : nat → Z.

(** [ltr]: the processor marks the descriptor busy. *)
Definition mark_busy (g : GlobalDescriptorTable) (sel : Z) : run GlobalDescriptorTable :=
  low ← index (table g) (Z.to_nat (Msr.selector_index sel));
  t ← store (table g) (Z.to_nat (Msr.selector_index sel)) (Z.lor low (Z.shiftl 1 41));
  Ret (mkGdt t (next_free g)).

(** [arr[i].as_mut().unwrap().f()]. *)
Definition with_slot {A B} (arr : list (option A)) (i : nat) (f : A → run (A * B)) : run (list (option A) * B) :=
  o ← index arr i;
  a ← unwrap o;
  '(a, b) ← f a;
  arr ← store arr i (Some a);
  Ret (arr, b).

Definition fill_stack (core : Cores.Core) (i : nat) (tss : TaskStateSegment) : run TaskStateSegment :=
  o ← Cores.tss_get_stack_start (Cores.tss core) i;
  stack_start ← unwrap o;
  if (i <? 7)%nat then
    a ← virt_new stack_start;
    l ← store (interrupt_stack_table tss) i a;
    Ret (mkTss (privilege_stack_table tss) l (iomap_base tss))
  else Ret tss.

Definition init (s : statics) (r : core_regs) (cores : Cores.Cores) (apic_id : Z) : run (statics * core_regs) :=
  '(core, core_index) ← unwrap (Cores.get_by_apic_id cores apic_id);
  max ← Msr.to_u16 (Z.of_nat Cores.TSS_STACKS_PER_CPU);
  let iter := Some (stack_iter_new max) in
  tss ← for_each (fill_stack core) (seq 0 Cores.TSS_STACKS_PER_CPU) tss_new;
  tss_arr ← store (TSS_ARR s) core_index (Some tss);
  gdt_arr ← store (GDT_ARR s) core_index (Some gdt_new);
  '(gdt_arr, code_selector) ← with_slot gdt_arr core_index (λ g, add_entry g kernel_code_segment);
  o ← index tss_arr core_index;
  _ ← unwrap o;
  d ← tss_segment (tss_addr core_index);
  '(gdt_arr, tss_selector) ← with_slot gdt_arr core_index (λ g, add_entry g d);
  o ← index gdt_arr core_index;
  g ← unwrap o;
  p ← pointer g (gdt_addr core_index);
  g ← mark_busy g tss_selector;
  gdt_arr ← store gdt_arr core_index (Some g);
  Ret (mkStatics iter gdt_arr tss_arr, mkRegs p code_selector tss_selector).

(** ** Specification: what the processor finds *)
(** The words of the descriptor a selector designates in a loaded table. *)
Definition descriptor_at (g : GlobalDescriptorTable) (sel : Z) : option (Z * Z) :=
  let i := Z.to_nat (Msr.selector_index sel) in
  if decide (i < next_free g)%nat then
    lo ← table g !! i; Some (lo, default 0 (table g !! S i))
  else None.
Definition system_base (low high : Z) : Z := field low 16 40 + field low 56 64 * 2 ^ 24 + field high 0 32 * 2 ^ 32.
Definition segment_limit (low : Z) : Z := field low 0 16 + field low 48 52 * 2 ^ 16.
Definition segment_type (low : Z) : Z := field low 40 44.
Definition is_system (low : Z) : bool := field low 44 45 =? 0.
Definition segment_dpl (low : Z) : Z := field low 45 47.
Definition is_present (low : Z) : bool := field low 47 48 =? 1.

Definition gdt_ok (g : GlobalDescriptorTable) : Prop := length (table g) = 8%nat ∧ (next_free g ≤ 8)%nat.

Definition words (d : Descriptor) : list Z :=
  match d with UserSegment v => [v] | SystemSegment lo hi => [lo; hi] end.
Definition descriptor_rpl (d : Descriptor) : Z :=
  match d with UserSegment v => if decide (segment_dpl v = 3) then 3 else 0 | SystemSegment _ _ => 0 end.

(** ** Lemmas *)
Lemma push_spec g v : gdt_ok g →
  push g v = if decide (next_free g < 8)%nat then Ret (mkGdt (<[next_free g := v]> (table g)) (next_free g + 1), next_free g)
             else Panic Explicit.
Proof.
  intros [Hl Hn]. unfold push. rewrite Hl. case_decide as H.
  - rewrite (proj2 (Nat.ltb_lt _ _)) by lia. rewrite store_Ret by lia. done.
  - rewrite (proj2 (Nat.ltb_ge _ _)) by lia. done.
Qed.
Lemma push_ok g v : gdt_ok g → (next_free g < 8)%nat → gdt_ok (mkGdt (<[next_free g := v]> (table g)) (next_free g + 1)).
Proof. intros [Hl Hn] H. split; cbn [table next_free]; [by rewrite length_insert|lia]. Qed.

Lemma dpl_flag v : (Z.land (from_bits_truncate v) DPL_RING_3 =? DPL_RING_3) = bool_decide (segment_dpl v = 3).
Proof.
  unfold from_bits_truncate. rewrite <- Z.land_assoc. change (Z.land DescriptorFlags_all DPL_RING_3) with (Z.shiftl 3 45).
  change DPL_RING_3 with (Z.shiftl 3 45). unfold segment_dpl.
  assert (Z.land v (Z.shiftl 3 45) = Z.shiftl (field v 45 47) 45) as ->.
  { apply Z.bits_inj'. intros i Hi. rewrite Z.land_spec. destruct (decide (i < 45)) as [Hlt|Hge].
    - rewrite !Z.shiftl_spec_low by lia. apply andb_false_r.
    - rewrite !Z.shiftl_spec by lia. rewrite field_testbit by lia.
      change 3 with (Z.ones 2) at 1. rewrite Z.testbit_ones_nonneg by lia. case_decide.
      + rewrite (proj2 (Z.ltb_lt _ _)) by lia. rewrite andb_true_r. f_equal. lia.
      + rewrite (proj2 (Z.ltb_ge _ _)) by lia. apply andb_false_r. }
  pose proof (field_range v 45 47 ltac:(lia)) as Hf. rewrite !Z.shiftl_mul_pow2 by lia.
  case_bool_decide; [|]; [apply Z.eqb_eq|apply Z.eqb_neq]; lia.
Qed.

Lemma selector_new_spec i p : 0 ≤ i < 2 ^ 13 →
  Msr.selector_new i p = i * 8 + Msr.ring_number p.
Proof.
  intros Hi. unfold Msr.selector_new, ushl. rewrite Z.shiftl_mul_pow2, Z.mod_small by lia.
  apply (lor_disjoint _ _ 3); [lia| |destruct p; unfold in_width; simpl; lia].
  apply Z.mod_mul. lia.
Qed.
Lemma selector_index_spec i p : 0 ≤ i < 2 ^ 13 → Msr.selector_index (i * 8 + Msr.ring_number p) = i.
Proof.
  intros Hi. unfold Msr.selector_index. rewrite Z.shiftr_div_pow2 by lia. change (2 ^ 3) with 8.
  rewrite Z.div_add_l by lia. assert (0 ≤ Msr.ring_number p < 8) by (destruct p; simpl; lia).
  rewrite Z.div_small by lia. lia.
Qed.

(** [add_entry] on every branch. *)
Lemma add_entry_cases g d :
  gdt_ok g →
  let n := next_free g in let k := length (words d) in
  if decide (n + k ≤ 8)%nat then
    ∃ g', add_entry g d = Ret (g', Z.of_nat n * 8 + descriptor_rpl d) ∧ gdt_ok g' ∧ next_free g' = (n + k)%nat
      ∧ ∀ j, table g' !! j = if decide (n ≤ j < n + k)%nat then words d !! (j - n)%nat else table g !! j
  else add_entry g d = Panic Explicit.
Proof.
  intros Hg n k. pose proof Hg as [Hl Hn]. unfold add_entry. destruct d as [v|lo hi]; simpl in k; subst n k.
  - rewrite (push_spec g v Hg).  case_decide as Hd; [rewrite decide_True by lia|by rewrite decide_False by lia].
    cbn [mbind run_bind]. rewrite selector_new_spec by (unfold cast; rewrite Z.mod_small; lia).
    exists (mkGdt (<[next_free g := v]> (table g)) (next_free g + 1)). split.
    { unfold cast. rewrite Z.mod_small by lia. do 2 f_equal. f_equal. rewrite dpl_flag. simpl.
      by case_bool_decide; case_decide. }
    split; [apply (push_ok g v Hg); lia|]. split; [done|]. intros j. cbn [table]. case_decide as Hj.
    + assert (j = next_free g) as -> by lia. rewrite Nat.sub_diag. simpl. apply list_lookup_insert_eq. lia.
    + apply list_lookup_insert_ne. lia.
  - rewrite (push_spec g lo Hg).  case_decide as Hd.
    + rewrite decide_True by lia. cbn [mbind run_bind].
      pose proof (push_ok g lo Hg ltac:(lia)) as Hg1. rewrite (push_spec _ hi Hg1). cbn [next_free table]. 
      rewrite decide_True by lia. cbn [mbind run_bind].
      rewrite selector_new_spec by (unfold cast; rewrite Z.mod_small; lia).
      eexists. split. { unfold cast. rewrite Z.mod_small by lia. done. }
      pose proof (push_ok _ hi Hg1 ltac:(cbn [next_free]; lia)) as Hg2. cbn [next_free table] in Hg2. split; [exact Hg2|].
      split; [cbn [next_free]; lia|]. intros j. cbn [table]. case_decide as Hj.
      * destruct (decide (j = next_free g)) as [->|Hne].
        -- rewrite Nat.sub_diag. rewrite list_lookup_insert_ne by lia. apply list_lookup_insert_eq. lia.
        -- assert (j = next_free g + 1)%nat as -> by lia. replace (next_free g + 1 - next_free g)%nat with 1%nat by lia.
           apply list_lookup_insert_eq. rewrite length_insert. lia.
      * rewrite !list_lookup_insert_ne by lia. done.
    + case_decide; [|done]. cbn [mbind run_bind].
      pose proof (push_ok g lo Hg ltac:(lia)) as Hg1. rewrite (push_spec _ hi Hg1). cbn [next_free table]. 
      rewrite decide_False by lia. done.
Qed.

(** The descriptor the processor decodes. *)
Definition is_tss_descriptor (low high ptr type : Z) : Prop :=
  in_width 64 low ∧ in_width 32 high ∧ system_base low high = ptr ∧ segment_limit low = tss_size - 1
  ∧ segment_type low = type ∧ is_system low = true ∧ segment_dpl low = 0 ∧ is_present low = true.

Lemma base_fields ptr : in_width 64 ptr → field ptr 0 24 + field ptr 24 32 * 2 ^ 24 + field ptr 32 64 * 2 ^ 32 = ptr.
Proof.
  intros Hp. unfold field. change (2 ^ 0) with 1. rewrite Z.div_1_r. change (24 - 0) with 24. change (32 - 24) with 8.
  change (64 - 32) with 32. rewrite (Z.mod_small (ptr / 2 ^ 32)).
  2:{ unfold in_width in Hp. split; [apply Z.div_pos; lia|apply Z.div_lt_upper_bound; lia]. }
  pose proof (Z.div_mod ptr (2 ^ 24) ltac:(lia)) as E1.
  pose proof (Z.div_mod (ptr / 2 ^ 24) (2 ^ 8) ltac:(lia)) as E2. rewrite Z.div_div in E2 by lia.
  change (2 ^ 24 * 2 ^ 8) with (2 ^ 32) in E2. lia.
Qed.

Lemma tss_segment_cases ptr :
  in_width 64 ptr → ∃ low high, tss_segment ptr = Ret (SystemSegment low high) ∧ is_tss_descriptor low high ptr 9.
Proof.
  intros Hp. unfold tss_segment. rewrite !get_bits_field by (done || lia).
  set_bits_step 16 40 as H1; [by vm_compute|by apply (field_range _ 0 24)|].
  set_bits_step 56 64 as H2; [exact (proj1 H1)|by apply (field_range _ 24 32)|].
  set_bits_step 0 16 as H3; [exact (proj1 H2)|by vm_compute|].
  set_bits_step 40 44 as H4; [exact (proj1 H3)|by vm_compute|].
  set_bits_step 0 32 as H5; [by vm_compute|by apply (field_range _ 32 64)|].
  eexists _, _. split; [reflexivity|].
  destruct H1 as (W1 & F1 & O1 & _), H2 as (W2 & F2 & O2 & _), H3 as (W3 & F3 & O3 & _), H4 as (W4 & F4 & O4 & _),
    H5 as (W5 & F5 & O5 & I5).
  unfold is_tss_descriptor, system_base, segment_limit, segment_type, is_system, segment_dpl, is_present.
  split; [done|]. split; [by apply I5; [lia|vm_compute]|].
  rewrite F4, F5, !O4 by lia. rewrite F3, !O3 by lia. rewrite F2, !O2 by lia. rewrite F1, !O1 by lia.
  split; [by apply base_fields|by vm_compute].
Qed.

(** [ltr] leaves everything but the type of the descriptor alone. *)
Lemma busy_descriptor low high ptr :
  is_tss_descriptor low high ptr 9 → is_tss_descriptor (Z.lor low (Z.shiftl 1 41)) high ptr 11.
Proof.
  intros (Hlow & Hhigh & Hb & Hl & Ht & Hs & Hd & Hp).
  assert (∀ lo hi, 0 ≤ lo < hi → hi ≤ 41 ∨ 42 ≤ lo → field (Z.lor low (Z.shiftl 1 41)) lo hi = field low lo hi) as Ho.
  { intros lo hi Hlo Hd'. apply Z.bits_inj'. intros i Hi. rewrite !field_testbit by lia. case_decide; [|done].
    rewrite Z.lor_spec. change (Z.shiftl 1 41) with (2 ^ 41). rewrite Z.pow2_bits_false by lia. apply orb_false_r. }
  unfold is_tss_descriptor, system_base, segment_limit, segment_type, is_system, segment_dpl, is_present in *.
  split; [by apply Msr.lor_width; [lia|done|vm_compute]|]. rewrite (Ho 16 40), (Ho 56 64), (Ho 0 16), (Ho 48 52), (Ho 44 45), (Ho 45 47), (Ho 47 48) by lia.
  do 3 (split; [done|]). split; [|exact (conj Hs (conj Hd Hp))].
  apply Z.bits_inj'. intros i Hi. rewrite field_testbit by lia. rewrite Z.lor_spec.
  change (Z.shiftl 1 41) with (2 ^ 41). rewrite Z.pow2_bits_eqb by lia. case_decide.
  - replace (Z.testbit low (i + 40)) with (Z.testbit 9 i).
    2:{ rewrite <- Ht. rewrite field_testbit, decide_True by lia. done. }
    assert (i = 0 ∨ i = 1 ∨ i = 2 ∨ i = 3) as [->|[->|[->| ->]]] by lia; done.
  - symmetry. apply (testbit_above 4); [done|lia].
Qed.

(** The stack table of the new TSS. *)
Definition tss_of (core : Cores.Core) : TaskStateSegment :=
  mkTss (replicate 3 0) (take 7 (Cores.stack_starts (Cores.tss core))) 0.
Definition stacks_ok (core : Cores.Core) : Prop :=
  length (Cores.stack_starts (Cores.tss core)) = Cores.TSS_STACKS_PER_CPU
  ∧ Forall (λ s, 0 < s < 2 ^ 32) (Cores.stack_starts (Cores.tss core)).

Lemma fill_stack_spec core i s t :
  Cores.stack_starts (Cores.tss core) !! i = Some s → 0 < s < 2 ^ 32 → length (interrupt_stack_table t) = 7%nat →
  fill_stack core i t =
    Ret (mkTss (privilege_stack_table t) (<[i := s]> (interrupt_stack_table t)) (iomap_base t)).
Proof.
  intros Hs Hr Hl. unfold fill_stack, Cores.tss_get_stack_start. unfold index at 1. rewrite Hs. cbn [mbind run_bind].
  rewrite (proj2 (Z.eqb_neq _ _)) by lia. cbn [unwrap mbind run_bind]. destruct (Nat.ltb_spec i 7).
  - rewrite virt_new_canonical by (unfold in_width, canonical; lia). cbn [mbind run_bind]. by rewrite store_Ret by lia.
  - destruct t as [p l b]; simpl in *. by rewrite list_insert_ge by lia.
Qed.
Lemma fill_stacks core : stacks_ok core → for_each (fill_stack core) (seq 0 Cores.TSS_STACKS_PER_CPU) tss_new = Ret (tss_of core).
Proof.
  unfold stacks_ok, tss_of. destruct core as [id a b [l e]]; cbn [Cores.tss Cores.stack_starts]. intros [Hl Hf].
  do 8 (destruct l as [|? l]; [done|]). destruct l; [|done]. rewrite !Forall_cons in Hf. destruct_and!.
  cbn [Cores.TSS_STACKS_PER_CPU seq for_each]. unfold tss_new.
  do 8 (erewrite fill_stack_spec; [|reflexivity|done|done];
        cbn [mbind run_bind privilege_stack_table interrupt_stack_table iomap_base]).
  done.
Qed.

Lemma index_insert {A} (l : list A) i a : (i < length l)%nat → index (<[i := a]> l) i = Ret a.
Proof. intros H. apply index_Ret. by apply list_lookup_insert_eq. Qed.
Lemma with_slot_Ret {A B} (arr : list (option A)) i a (f : A → run (A * B)) a' b :
  arr !! i = Some (Some a) → f a = Ret (a', b) → with_slot arr i f = Ret (<[i := Some a']> arr, b).
Proof.
  intros Ha Hf. unfold with_slot. unfold index at 1. rewrite Ha. cbn [mbind run_bind unwrap]. rewrite Hf. cbn [mbind run_bind].
  rewrite store_Ret; [done|]. by eapply lookup_lt_Some.
Qed.

(** The table [init] loads: the null descriptor, the kernel code segment, the TSS. *)
Definition core_gdt (low high : Z) : GlobalDescriptorTable := mkGdt [0; KERNEL_CODE64; low; high; 0; 0; 0; 0] 4.

Lemma init_cases s r cores id core i :
  Cores.get_by_apic_id cores id = Some (core, i) → stacks_ok core →
  (i < length (GDT_ARR s))%nat → (i < length (TSS_ARR s))%nat → canonical (gdt_addr i) → in_width 64 (tss_addr i) →
  ∃ low high, is_tss_descriptor low high (tss_addr i) 11 ∧
    init s r cores id =
      Ret (mkStatics (Some (mkStackIter 0 8)) (<[i := Some (core_gdt low high)]> (GDT_ARR s)) (<[i := Some (tss_of core)]> (TSS_ARR s)),
           mkRegs (gdt_addr i, 31) 8 16).
Proof.
  intros Hc Hs Hg Ht Hga Hta. destruct (tss_segment_cases (tss_addr i) Hta) as (low & high & Hseg & Hd).
  exists (Z.lor low (Z.shiftl 1 41)), high. split; [by apply busy_descriptor|].
  unfold init. rewrite Hc. cbn [unwrap mbind run_bind]. change (Msr.to_u16 _) with (Ret 8). cbn [mbind run_bind].
  rewrite (fill_stacks core Hs). cbn [mbind run_bind]. rewrite !store_Ret by done. cbn [mbind run_bind].
  rewrite (with_slot_Ret _ i gdt_new _ (mkGdt [0; KERNEL_CODE64; 0; 0; 0; 0; 0; 0] 2) 8);
    [|by apply list_lookup_insert_eq|by vm_compute].
  cbn [mbind run_bind]. rewrite index_insert by done. cbn [mbind run_bind unwrap].
  rewrite Hseg. cbn [mbind run_bind].
  rewrite (with_slot_Ret _ i (mkGdt [0; KERNEL_CODE64; 0; 0; 0; 0; 0; 0] 2) _ (core_gdt low high) 16);
    [|rewrite list_insert_insert_eq; by apply list_lookup_insert_eq|reflexivity].
  cbn [mbind run_bind]. rewrite !list_insert_insert_eq, index_insert by done.
  cbn [mbind run_bind unwrap]. unfold pointer. rewrite virt_new_canonical by (try done; by apply canonical_width).
  cbn [mbind run_bind core_gdt next_free]. change (usub (Z.of_nat 4 * 8) 1) with (Ret 31). cbn [mbind run_bind].
  unfold mark_busy. change (Z.to_nat (Msr.selector_index 16)) with 2%nat. cbn [core_gdt table index lookup list_lookup mbind run_bind].
  rewrite store_Ret by (simpl; lia). cbn [mbind run_bind next_free core_gdt]. rewrite store_Ret by (by rewrite length_insert).
  cbn [mbind run_bind]. by rewrite list_insert_insert_eq.
Qed.

(** [tss::init] on a core that the boot information lists with its
    interrupt stacks never panics and gives it a GDT and a TSS of its own: the
    loaded table ends with the last descriptor; the code selector designates the
    64-bit kernel code segment; the task register designates a present system
    descriptor whose base, limit and type are those of this core's TSS in use;
    the k-th interrupt stack of that TSS is the k-th one allocated for the core;
    the tables of the other cores stay as they were. *)
Theorem tss_init_loads s r cores id core i :
  Cores.get_by_apic_id cores id = Some (core, i) → stacks_ok core →
  (i < length (GDT_ARR s))%nat → (i < length (TSS_ARR s))%nat → canonical (gdt_addr i) → in_width 64 (tss_addr i) →
  ∃ s' r' g t low high, init s r cores id = Ret (s', r')
    ∧ GDT_ARR s' !! i = Some (Some g) ∧ TSS_ARR s' !! i = Some (Some t)
    ∧ gdtr r' = (gdt_addr i, 8 * Z.of_nat (next_free g) - 1)
    ∧ descriptor_at g (cs r') = Some (KERNEL_CODE64, low)
    ∧ descriptor_at g (tr r') = Some (low, high) ∧ is_tss_descriptor low high (tss_addr i) 11
    ∧ (∀ k, (k < 7)%nat → interrupt_stack_table t !! k = Cores.stack_starts (Cores.tss core) !! k)
    ∧ (∀ j, j ≠ i → GDT_ARR s' !! j = GDT_ARR s !! j ∧ TSS_ARR s' !! j = TSS_ARR s !! j).
Proof.
  intros Hc Hs Hg Ht Hga Hta. destruct (init_cases s r _ _ _ _ Hc Hs Hg Ht Hga Hta) as (low & high & Hd & ->).
  eexists _, _, (core_gdt low high), (tss_of core), low, high. split; [done|]. cbn [GDT_ARR TSS_ARR gdtr cs tr].
  rewrite !list_lookup_insert_eq by done. do 6 (split; [done|]). split.
  - intros k Hk. cbn [tss_of interrupt_stack_table]. by rewrite lookup_take_lt.
  - intros j Hj. by rewrite !list_lookup_insert_ne by done.
Qed.
End tables.

(** [add_entry], with room in the table, returns a selector of the next
    free index with the privilege of the descriptor, stores the one or two words
    of the descriptor there and nothing elsewhere, and keeps the table
    well-formed; without room it panics. *)
Theorem add_entry_appends g d :
  gdt_ok g →
  let n := next_free g in let k := length (words d) in
  if decide (n + k ≤ 8)%nat then
    ∃ g', add_entry g d = Ret (g', Z.of_nat n * 8 + descriptor_rpl d) ∧ gdt_ok g' ∧ next_free g' = (n + k)%nat
      ∧ ∀ j, table g' !! j = if decide (n ≤ j < n + k)%nat then words d !! (j - n)%nat else table g !! j
  else add_entry g d = Panic Explicit.
Proof. apply add_entry_cases. Qed.

(** ** Instances *)
#[local] Existing Instance bit_field_model.
Lemma add_entry_appends_witness : ∃ g', add_entry gdt_new user_data_segment = Ret (g', 11) ∧ table g' !! 1%nat = Some 0xcff3000000ffff.
Proof.
  destruct (add_entry_appends gdt_new user_data_segment) as (g' & H & _ & _ & Ht); [by split; simpl; lia|].
  exists g'. split; [exact H|]. rewrite Ht. done.
Defined.

Definition sample_core : Cores.Core :=
  Cores.mkCore 3 0x800000 0x400000 (Cores.mkTSS (seqZ 0x1000000 8) (seqZ 0x2000000 8)).
Definition sample_cores : Cores.Cores := Cores.mkCores (<[1%nat := sample_core]> (replicate 256 Cores.core_empty)) 1 2.
Definition no_tables : statics := mkStatics None (replicate 256 None) (replicate 256 None).
Lemma tss_init_loads_witness :
  ∃ s' r', init (λ i, 0x5000 + 72 * Z.of_nat i) (λ i, 0x9000 + 104 * Z.of_nat i) no_tables (mkRegs (0, 0) 0 0) sample_cores 3 = Ret (s', r')
    ∧ ∃ g, GDT_ARR s' !! 1%nat = Some (Some g) ∧ descriptor_at g (cs r') = Some (KERNEL_CODE64, 0x8b009068 * 2 ^ 16 + 0x67).
Proof.
  destruct (tss_init_loads (λ i, 0x5000 + 72 * Z.of_nat i) (λ i, 0x9000 + 104 * Z.of_nat i) no_tables (mkRegs (0, 0) 0 0)
    sample_cores 3 sample_core 1) as (s' & r' & g & t & low & high & H & Hg & _ & _ & Hcs & _);
    [by vm_compute|split; [done|]; apply Forall_forall; intros s Hs; apply elem_of_seqZ in Hs; lia|simpl; lia..|by left|by vm_compute|].
  exists s', r'. split; [exact H|]. exists g. split; [exact Hg|]. vm_compute in H. injection H as <- <-. injection Hg as <-. done.
Defined.
End Gdt.
