(* ===== verification/Idt.v ===== *)
(** * Interrupt descriptors: x86_64 idt.rs, kernel interrupts.rs and default_interrupt.rs

    The table is the list of its 256 entries in memory order; the fields of the
    [repr(C)] struct are its first 32 positions.  [init] of the kernel builds the table
    once, taking interrupt stacks from the iterator that [Gdt.init] left, and loads
    it.  The functions the linker placed are a parameter. *)
From S2P Require Import Prelude Addr Bits Msr Cores Gdt.
Import Addr Bits.

Module Idt.

(** ** [Entry] and [EntryOptions] *)
Record Entry := mkEntry {
  pointer_low : Z; gdt_selector : Z; options : Z; pointer_middle : Z; pointer_high : Z; reserved : Z
}.
#[global] Instance Entry_eq_dec : EqDecision Entry.
Proof. solve_decision. Defined.
Definition minimal : Z := 0xe00.
Definition missing : Entry := mkEntry 0 0 minimal 0 0 0.

Abbreviation InterruptDescriptorTable := (list Entry).
Definition idt_new : InterruptDescriptorTable := replicate 256 missing.
(** [repr(C)]: the fields in the order of the struct. *)
Definition divide_error : nat := 0.
Definition debug : nat := 1.
Definition non_maskable_interrupt : nat := 2.
Definition breakpoint : nat := 3.
Definition overflow : nat := 4.
Definition bound_range_exceeded : nat := 5.
Definition invalid_opcode : nat := 6.
Definition device_not_available : nat := 7.
Definition double_fault : nat := 8.
Definition coprocessor_segment_overrun : nat := 9.
Definition invalid_tss : nat := 10.
Definition segment_not_present : nat := 11.
Definition stack_segment_fault : nat := 12.
Definition general_protection_fault : nat := 13.
Definition page_fault : nat := 14.
Definition x87_floating_point : nat := 16.
Definition alignment_check : nat := 17.
Definition machine_check : nat := 18.
Definition simd_floating_point : nat := 19.
Definition virtualization : nat := 20.
Definition security_exception : nat := 30.
Definition interrupts (i : nat) : nat := 32 + i.

(** [index_mut]: the entry of an index, or a panic for entries of another type. *)
Definition index_mut (i : nat) : run nat :=
  match i with
  | 0 => Ret divide_error | 1 => Ret debug | 2 => Ret non_maskable_interrupt | 3 => Ret breakpoint
  | 4 => Ret overflow | 5 => Ret bound_range_exceeded | 6 => Ret invalid_opcode | 7 => Ret device_not_available
  | 9 => Ret coprocessor_segment_overrun | 16 => Ret x87_floating_point | 19 => Ret simd_floating_point
  | 20 => Ret virtualization
  | _ => if (32 <=? i)%nat && (i <=? 255)%nat then Ret (interrupts (i - 32)) else Panic Explicit
  end%nat.

(** [condition_slice_bounds] and [slice]. *)
Inductive Bound := Included (n : Z) | Excluded (n : Z) | Unbounded.
Definition condition_slice_bounds (start_bound end_bound : Bound) : run (Z * Z) :=
  lower_idx ← match start_bound with Included s => Ret s | Excluded s => uadd 64 s 1 | Unbounded => Ret 0 end;
  upper_idx ← match end_bound with Included e => uadd 64 e 1 | Excluded e => Ret e | Unbounded => Ret 256 end;
  if (256 <? lower_idx) || (256 <? upper_idx) then Panic Explicit
  else if lower_idx <? 32 then Panic Explicit
  else Ret (lower_idx, upper_idx).
Definition slice (idt : InterruptDescriptorTable) (s e : Bound) : run (list Entry) :=
  '(lower_idx, upper_idx) ← condition_slice_bounds s e;
  lo ← usub lower_idx 32;
  hi ← usub upper_idx 32;
  if hi <? lo then Panic OutOfBounds
  else Ret (take (Z.to_nat (hi - lo)) (drop (Z.to_nat lo) (drop 32 idt))).

Section idt.
Context {BF : BitField}.

(** [BitField::set_bit] on the u16: bit [i] becomes [v]. *)
Definition set_bit (a i : Z) (v : bool) : run Z := set_bits a i (i + 1) (Z.b2z v).
Definition set_present (o : Z) (present : bool) : run Z := set_bit o 15 present.
Definition disable_interrupts (o : Z) (disable : bool) : run Z := set_bit o 8 (negb disable).
Definition set_privilege_level (o : Z) (dpl : Msr.PrivilegeLevel) : run Z := set_bits o 13 15 (Msr.ring_number dpl).
Definition set_stack_index (o index : Z) : run Z := i ← uadd 16 index 1; set_bits o 0 3 i.

(** [set_handler_addr]; [cs] is what [CS::get_reg()] returns. *)
Definition set_handler_addr (e : Entry) (cs addr : Z) : run Entry :=
  o ← set_present (options e) true;
  Ret (mkEntry (cast 16 addr) cs o (cast 16 (Z.shiftr addr 16)) (cast 32 (Z.shiftr addr 32)) (reserved e)).
Definition handler_addr (e : Entry) : Z :=
  Z.lor (Z.lor (pointer_low e) (ushl 64 (pointer_middle e) 16)) (ushl 64 (pointer_high e) 32).

(** ** kernel/src/interrupts.rs *)
Definition PIC_1_OFFSET : Z := 32.
Definition PIC_2_OFFSET : Z := PIC_1_OFFSET + 8.
Inductive InterruptIndex :=
  | LegacyTimer | Keyboard | Pic2 | COM2 | COM1 | IRQ5 | FloppyController | MasterPicSpurious
  | RtcTimer | ACPI | ScsiNic1 | Rtl8139 | Mouse | MathCoProcessor | AtaChannel1 | AtaChannel2
  | IRQ16 | SlavePicSpurious | Timer | Spurious.
Definition as_u8 (i : InterruptIndex) : Z :=
  match i with
  | LegacyTimer => PIC_1_OFFSET | Keyboard => 33 | Pic2 => 34 | COM2 => 35 | COM1 => 36 | IRQ5 => 37
  | FloppyController => 38 | MasterPicSpurious => 39 | RtcTimer => 40 | ACPI => 41 | ScsiNic1 => 42 | Rtl8139 => 43
  | Mouse => 44 | MathCoProcessor => 45 | AtaChannel1 => 46 | AtaChannel2 => 47 | IRQ16 => 48 | SlavePicSpurious => 49
  | Timer => 0xe0 | Spurious => 0xff
  end.
Definition as_usize (i : InterruptIndex) : nat := Z.to_nat (as_u8 i).
(** [1 << diff] is an i32: a shift by 32 or more panics. *)
Definition as_pic_enable_mask (i : InterruptIndex) : run Z :=
  diff ← usub (Z.of_nat (as_usize i)) (Z.of_nat (as_usize LegacyTimer));
  diff ← (if 7 <? diff then usub diff 8 else Ret diff);
  if 32 <=? diff then Panic Overflow
  else Ret (cast 8 (Z.land 0xff (Z.lnot (Z.shiftl 1 diff)))).

(** The handlers. *)
Inductive handler :=
  | simd_floatingpoint_handler | security_handler | virtualization_handler | machine_check_handler | alignment_handler
  | x87_floatingpoint_handler | page_fault_handler | general_prot_handler | stack_segment_handler
  | segment_not_present_handler | invalid_tss_handler | double_fault_handler | device_not_available_handler
  | invalid_op_handler | bound_range_handler | overflow_handler | breakpoint_handler | non_maskable_handler
  | debug_handler | divide_error_handler | timer_interrupt_handler | keyboard_interrupt_handler | serial_handler
  | spurious_handler | default_handler (N : nat).
#[global] Instance handler_eq_dec : EqDecision handler.
Proof. solve_decision. Defined.
Variable fn_addr : handler → Z.

(** [set_handler_fn] on the entry at a position. *)
Definition set_handler_fn (cs : Z) (v : nat) (h : handler) (idt : InterruptDescriptorTable) : run InterruptDescriptorTable :=
  e ← index idt v;
  addr ← virt_new (fn_addr h);
  e ← set_handler_addr e cs addr;
  store idt v e.
(** [.set_stack_index(stacks.next().unwrap())] on the options of the entry. *)
Definition next_stack (v : nat) (st : InterruptDescriptorTable * Gdt.StackIter) : run (InterruptDescriptorTable * Gdt.StackIter) :=
  let '(idt, stacks) := st in
  '(o, stacks) ← Gdt.stack_iter_next stacks;
  i ← unwrap o;
  e ← index idt v;
  o ← set_stack_index (options e) i;
  idt ← store idt v (mkEntry (pointer_low e) (gdt_selector e) o (pointer_middle e) (pointer_high e) (reserved e));
  Ret (idt, stacks).
(** [idt[i].set_handler_fn(h)]. *)
Definition set_indexed (cs : Z) (i : nat) (h : handler) (idt : InterruptDescriptorTable) : run InterruptDescriptorTable :=
  v ← index_mut i; set_handler_fn cs v h idt.

Definition init_default_handlers (cs : Z) (idt : InterruptDescriptorTable) : run InterruptDescriptorTable :=
  for_each (λ n, set_indexed cs n (default_handler n)) (seq 32 224) idt.

Definition build (cs : Z) (stacks : Gdt.StackIter) : run (InterruptDescriptorTable * Gdt.StackIter) :=
  let idt := idt_new in
  idt ← set_handler_fn cs simd_floating_point simd_floatingpoint_handler idt;
  idt ← set_handler_fn cs security_exception security_handler idt;
  idt ← set_handler_fn cs virtualization virtualization_handler idt;
  '(idt, stacks) ← next_stack virtualization (idt, stacks);
  idt ← set_handler_fn cs machine_check machine_check_handler idt;
  idt ← set_handler_fn cs alignment_check alignment_handler idt;
  idt ← set_handler_fn cs x87_floating_point x87_floatingpoint_handler idt;
  idt ← set_handler_fn cs page_fault page_fault_handler idt;
  '(idt, stacks) ← next_stack page_fault (idt, stacks);
  idt ← set_handler_fn cs general_protection_fault general_prot_handler idt;
  '(idt, stacks) ← next_stack general_protection_fault (idt, stacks);
  idt ← set_handler_fn cs stack_segment_fault stack_segment_handler idt;
  idt ← set_handler_fn cs segment_not_present segment_not_present_handler idt;
  idt ← set_handler_fn cs invalid_tss invalid_tss_handler idt;
  idt ← set_handler_fn cs double_fault double_fault_handler idt;
  '(idt, stacks) ← next_stack double_fault (idt, stacks);
  idt ← set_handler_fn cs device_not_available device_not_available_handler idt;
  idt ← set_handler_fn cs invalid_opcode invalid_op_handler idt;
  idt ← set_handler_fn cs bound_range_exceeded bound_range_handler idt;
  idt ← set_handler_fn cs overflow overflow_handler idt;
  idt ← set_handler_fn cs breakpoint breakpoint_handler idt;
  idt ← set_handler_fn cs non_maskable_interrupt non_maskable_handler idt;
  '(idt, stacks) ← next_stack non_maskable_interrupt (idt, stacks);
  idt ← set_handler_fn cs debug debug_handler idt;
  '(idt, stacks) ← next_stack debug (idt, stacks);
  idt ← set_handler_fn cs divide_error divide_error_handler idt;
  idt ← init_default_handlers cs idt;
  idt ← set_indexed cs (as_usize Timer) timer_interrupt_handler idt;
  idt ← set_indexed cs (as_usize Keyboard) keyboard_interrupt_handler idt;
  idt ← set_indexed cs (as_usize COM2) serial_handler idt;
  idt ← set_indexed cs (as_usize COM1) serial_handler idt;
  idt ← set_indexed cs (as_usize Spurious) spurious_handler idt;
  idt ← set_indexed cs (as_usize SlavePicSpurious) spurious_handler idt;
  idt ← set_indexed cs (as_usize MasterPicSpurious) spurious_handler idt;
  Ret (idt, stacks).

(** [init]: the static [IDT] is built on the first call; [addr] is where it lies. *)
Definition init (idt : option InterruptDescriptorTable) (s : Gdt.statics) (cs addr : Z)
    : run (option InterruptDescriptorTable * Gdt.statics * (Z * Z)) :=
  '(idt, s) ← match idt with
              | Some _ => Ret (idt, s)
              | None =>
                  stacks ← unwrap (Gdt.TSS_STACK_ITER s);
                  '(t, stacks) ← build cs stacks;
                  Ret (Some t, Gdt.mkStatics (Some stacks) (Gdt.GDT_ARR s) (Gdt.TSS_ARR s))
              end;
  _ ← unwrap idt;
  base ← virt_new addr;
  Ret (idt, s, (base, cast 16 (256 * 16 - 1))).

(** ** What the table holds *)
(** An entry for a handler, and the reading of an entry by the processor. *)
Definition entry_of (cs : Z) (h : handler) (o : Z) : Entry :=
  mkEntry (field (fn_addr h) 0 16) cs o (field (fn_addr h) 16 32) (field (fn_addr h) 32 64) 0.
Definition ist (e : Entry) : Z := field (options e) 0 3.
Definition gate_type (e : Entry) : Z := field (options e) 8 12.
Definition gate_dpl (e : Entry) : Z := field (options e) 13 15.
Definition gate_present (e : Entry) : bool := field (options e) 15 16 =? 1.

(** The entries written so far, the last one first: position, handler, options. *)
Abbreviation installed := (list (nat * (handler * Z))).
Fixpoint assoc {A} (v : nat) (l : list (nat * A)) : option A :=
  match l with [] => None | (w, a) :: l' => if decide (w = v) then Some a else assoc v l' end.
Fixpoint layout (cs : Z) (l : installed) : InterruptDescriptorTable :=
  match l with [] => idt_new | (v, (h, o)) :: l' => <[v := entry_of cs h o]> (layout cs l') end.
Definition options_of (v : nat) (l : installed) : Z := match assoc v l with Some (_, o) => o | None => minimal end.
Definition with_handler (v : nat) (h : handler) (l : installed) : installed :=
  (v, (h, Z.lor (Z.ldiff (options_of v l) 0x8000) 0x8000)) :: l.
Definition with_stack (v : nat) (h : handler) (i : Z) (l : installed) : installed :=
  (v, (h, Z.lor (Z.ldiff (options_of v l) 7) i)) :: l.
Definition installed_ok (l : installed) : Prop := Forall (λ '(v, (_, o)), (v < 256)%nat ∧ in_width 16 o) l.

Lemma ldiff_width w a b : 0 ≤ w → in_width w a → in_width w (Z.ldiff a b).
Proof.
  intros Hw Ha. apply width_of_bits; [done|apply Z.ldiff_nonneg; left; apply Ha|].
  intros i Hi. rewrite Z.ldiff_spec, (testbit_above w a i) by done. done.
Qed.
Lemma options_of_width v l : installed_ok l → in_width 16 (options_of v l).
Proof.
  intros Hl. unfold options_of. induction Hl as [|[w [h o]] l [_ Ho] _ IH]; simpl; [by vm_compute|].
  by case_decide.
Qed.
Lemma with_handler_ok v h l : installed_ok l → (v < 256)%nat → installed_ok (with_handler v h l).
Proof.
  intros Hl Hv. constructor; [|done]. split; [done|]. apply Msr.lor_width; [lia| |by vm_compute].
  apply ldiff_width; [lia|]. by apply options_of_width.
Qed.
Lemma with_stack_ok v h i l : installed_ok l → (v < 256)%nat → 0 ≤ i < 8 → installed_ok (with_stack v h i l).
Proof.
  intros Hl Hv Hi. constructor; [|done]. split; [done|]. apply Msr.lor_width; [lia| |unfold in_width; lia].
  apply ldiff_width; [lia|]. by apply options_of_width.
Qed.
Lemma layout_length cs l : length (layout cs l) = 256%nat.
Proof. induction l as [|[v [h o]] l IH]; simpl; [done|]. by rewrite length_insert. Qed.
Lemma layout_lookup cs v l : (v < 256)%nat →
  layout cs l !! v = Some (match assoc v l with Some (h, o) => entry_of cs h o | None => missing end).
Proof.
  intros Hv. induction l as [|[w [h o]] l IH]; simpl; [by apply lookup_replicate_2|]. case_decide as E.
  - subst w. apply list_lookup_insert_eq. by rewrite layout_length.
  - by rewrite list_lookup_insert_ne.
Qed.

(** The three parts of an address. *)
Lemma address_parts a : in_width 64 a →
  cast 16 a = field a 0 16 ∧ cast 16 (Z.shiftr a 16) = field a 16 32 ∧ cast 32 (Z.shiftr a 32) = field a 32 64.
Proof.
  intros Ha. unfold cast, field. rewrite !Z.shiftr_div_pow2 by lia. by rewrite Z.div_1_r.
Qed.
Lemma handler_addr_of cs h o : in_width 64 (fn_addr h) → handler_addr (entry_of cs h o) = fn_addr h.
Proof.
  intros Ha. unfold handler_addr, entry_of, ushl. cbn [pointer_low pointer_middle pointer_high].
  apply Z.bits_inj'. intros i Hi. rewrite !Z.lor_spec.
  pose proof (field_range (fn_addr h) 16 32 ltac:(lia)). pose proof (field_range (fn_addr h) 32 64 ltac:(lia)).
  rewrite !Z.mod_small by (rewrite Z.shiftl_mul_pow2 by lia; lia). rewrite field_testbit by lia.
  assert (∀ k lo hi, k = lo → 0 ≤ lo < hi → Z.testbit (Z.shiftl (field (fn_addr h) lo hi) k) i
           = if decide (lo ≤ i < hi) then Z.testbit (fn_addr h) i else false) as Hs.
  { intros k lo hi -> Hlo. destruct (decide (i < lo)).
    - rewrite Z.shiftl_spec_low, decide_False by lia. done.
    - rewrite Z.shiftl_spec, field_testbit by lia. replace (i - lo + lo) with i by lia. by repeat case_decide; try lia. }
  rewrite (Hs 16 16 32), (Hs 32 32 64) by lia. rewrite Z.add_0_r.
  destruct (decide (64 ≤ i)) as [H64|H64]; [by rewrite (testbit_above 64), !decide_False by (done || lia)|].
  repeat case_decide; try lia; by rewrite ?orb_false_r.
Qed.

Hypothesis fn_canonical : ∀ h, canonical (fn_addr h).

Lemma set_handler_fn_layout cs v h l :
  installed_ok l → (v < 256)%nat → set_handler_fn cs v h (layout cs l) = Ret (layout cs (with_handler v h l)).
Proof.
  intros Hl Hv. pose proof (canonical_width _ (fn_canonical h)) as Hw. unfold set_handler_fn. unfold index at 1.
  rewrite layout_lookup by done. cbn [mbind run_bind]. rewrite virt_new_canonical by done. cbn [mbind run_bind].
  unfold set_handler_addr, set_present, set_bit.
  pose proof (options_of_width v l Hl) as Ho.
  assert (∀ e, options e = options_of v l → reserved e = 0 →
     (o ← set_bits (options e) 15 (15 + 1) (Z.b2z true);
      Ret (mkEntry (cast 16 (fn_addr h)) cs o (cast 16 (Z.shiftr (fn_addr h) 16)) (cast 32 (Z.shiftr (fn_addr h) 32)) (reserved e)))
     = Ret (entry_of cs h (Z.lor (Z.ldiff (options_of v l) 0x8000) 0x8000))) as He.
  { intros e -> ->. rewrite set_bits_value by (unfold in_width in *; simpl; lia). cbn [mbind run_bind].
    destruct (address_parts (fn_addr h) Hw) as (-> & -> & ->). done. }
  unfold options_of in He. rewrite He by (destruct (assoc v l) as [[??]|]; done). cbn [mbind run_bind].
  rewrite store_Ret by (by rewrite layout_length). done.
Qed.

Lemma next_stack_layout cs v h o l c m :
  installed_ok l → (v < 256)%nat → assoc v l = Some (h, o) → 0 ≤ c → c < m → c + 2 < 8 → in_width 16 m →
  next_stack v (layout cs l, Gdt.mkStackIter c m) = Ret (layout cs (with_stack v h (c + 2) l), Gdt.mkStackIter (c + 1) m).
Proof.
  intros Hl Hv Ha Hc Hm H8 Hw. unfold next_stack, Gdt.stack_iter_next. cbn [Gdt.curr Gdt.max].
  rewrite (proj2 (Z.ltb_lt _ _)) by lia. rewrite uadd_Ret by (unfold in_width in *; lia). cbn [mbind run_bind unwrap].
  unfold index at 1. rewrite layout_lookup by done. rewrite Ha. cbn [mbind run_bind]. unfold set_stack_index.
  rewrite uadd_Ret by lia. cbn [mbind run_bind entry_of options].
  pose proof (options_of_width v l Hl) as Ho. unfold with_stack. unfold options_of in *. rewrite Ha in *.
  rewrite set_bits_value by (unfold in_width in *; simpl; lia). cbn [mbind run_bind].
  rewrite store_Ret by (by rewrite layout_length). cbn [mbind run_bind]. do 2 f_equal. cbn [layout]. f_equal.
  unfold entry_of. cbn [pointer_low gdt_selector pointer_middle pointer_high reserved]. f_equal.
  change (Z.shiftl (Z.ones (3 - 0)) 0) with 7. rewrite Z.shiftl_0_r. f_equal. lia.
Qed.

Lemma index_mut_user n : (32 ≤ n < 256)%nat → index_mut n = Ret n.
Proof.
  intros Hn. assert ((32 <=? n)%nat && (n <=? 255)%nat = true) as Hb by (apply andb_true_iff; split; apply Nat.leb_le; lia).
  assert (interrupts (n - 32) = n) as Hi by (unfold interrupts; lia). unfold index_mut. rewrite Hb, Hi.
  do 21 (destruct n as [|n]; [lia|]). done.
Qed.
Lemma set_indexed_layout cs n h l :
  installed_ok l → (32 ≤ n < 256)%nat → set_indexed cs n h (layout cs l) = Ret (layout cs (with_handler n h l)).
Proof.
  intros Hl Hn. unfold set_indexed. rewrite index_mut_user by done. cbn [mbind run_bind].
  apply set_handler_fn_layout; [done|lia].
Qed.
Definition with_defaults (ns : list nat) (l : installed) : installed := foldl (λ l n, with_handler n (default_handler n) l) l ns.
Lemma defaults_layout cs ns l :
  installed_ok l → Forall (λ n, 32 ≤ n < 256)%nat ns →
  for_each (λ n, set_indexed cs n (default_handler n)) ns (layout cs l) = Ret (layout cs (with_defaults ns l))
  ∧ installed_ok (with_defaults ns l).
Proof.
  intros Hl Hns. revert l Hl. induction Hns as [|n ns Hn _ IH]; intros l Hl; simpl; [done|].
  rewrite set_indexed_layout by done. cbn [mbind run_bind]. apply IH. apply with_handler_ok; [done|lia].
Qed.

(** ** The specification of the table *)
(** Exceptions: vector, handler, interrupt stack (0: none). *)
Definition exceptions : list (nat * (handler * Z)) :=
  [(divide_error, (divide_error_handler, 0)); (debug, (debug_handler, 7)); (non_maskable_interrupt, (non_maskable_handler, 6)); (breakpoint, (breakpoint_handler, 0));
   (overflow, (overflow_handler, 0)); (bound_range_exceeded, (bound_range_handler, 0)); (invalid_opcode, (invalid_op_handler, 0));
   (device_not_available, (device_not_available_handler, 0)); (double_fault, (double_fault_handler, 5)); (invalid_tss, (invalid_tss_handler, 0));
   (segment_not_present, (segment_not_present_handler, 0)); (stack_segment_fault, (stack_segment_handler, 0)); (general_protection_fault, (general_prot_handler, 4));
   (page_fault, (page_fault_handler, 3)); (x87_floating_point, (x87_floatingpoint_handler, 0)); (alignment_check, (alignment_handler, 0));
   (machine_check, (machine_check_handler, 0)); (simd_floating_point, (simd_floatingpoint_handler, 0)); (virtualization, (virtualization_handler, 2));
   (security_exception, (security_handler, 0))].
Definition devices : list (nat * (handler * Z)) :=
  [(33%nat, (keyboard_interrupt_handler, 0)); (35%nat, (serial_handler, 0)); (36%nat, (serial_handler, 0)); (39%nat, (spurious_handler, 0));
   (49%nat, (spurious_handler, 0)); (224%nat, (timer_interrupt_handler, 0)); (255%nat, (spurious_handler, 0))].
(** What an interrupt with vector [v] runs, and on which stack. *)
Definition gate_spec (v : nat) : option (handler * Z) :=
  match assoc v (exceptions ++ devices) with
  | Some g => Some g
  | None => if decide (32 ≤ v)%nat then Some (default_handler v, 0) else None
  end.

Definition before_defaults : installed :=
  with_handler divide_error divide_error_handler $
  with_stack debug debug_handler 7 $ with_handler debug debug_handler $
  with_stack non_maskable_interrupt non_maskable_handler 6 $ with_handler non_maskable_interrupt non_maskable_handler $
  with_handler breakpoint breakpoint_handler $ with_handler overflow overflow_handler $
  with_handler bound_range_exceeded bound_range_handler $ with_handler invalid_opcode invalid_op_handler $
  with_handler device_not_available device_not_available_handler $
  with_stack double_fault double_fault_handler 5 $ with_handler double_fault double_fault_handler $
  with_handler invalid_tss invalid_tss_handler $ with_handler segment_not_present segment_not_present_handler $
  with_handler stack_segment_fault stack_segment_handler $
  with_stack general_protection_fault general_prot_handler 4 $ with_handler general_protection_fault general_prot_handler $
  with_stack page_fault page_fault_handler 3 $ with_handler page_fault page_fault_handler $
  with_handler x87_floating_point x87_floatingpoint_handler $ with_handler alignment_check alignment_handler $
  with_handler machine_check machine_check_handler $
  with_stack virtualization virtualization_handler 2 $ with_handler virtualization virtualization_handler $
  with_handler security_exception security_handler $ with_handler simd_floating_point simd_floatingpoint_handler [].
Definition after_devices (l : installed) : installed :=
  with_handler 39 spurious_handler $ with_handler 49 spurious_handler $ with_handler 255 spurious_handler $
  with_handler 36 serial_handler $ with_handler 35 serial_handler $ with_handler 33 keyboard_interrupt_handler $
  with_handler 224 timer_interrupt_handler l.
Definition all_installed : installed := after_devices (with_defaults (seq 32 224) before_defaults).

Ltac ok_solve := repeat first [apply with_handler_ok; [|by apply Nat.ltb_lt] | apply with_stack_ok; [|by apply Nat.ltb_lt|lia] | apply Forall_nil_2].
Lemma before_defaults_ok : installed_ok before_defaults.
Proof. unfold before_defaults. ok_solve. Qed.
(** One statement of a sequence. *)
Lemma bind_go {A B} (m : run A) (f : A → run B) a r : m = Ret a → f a = r → m ≫= f = r.
Proof. by intros -> <-. Qed.
Ltac handler_step := eapply bind_go; [apply set_handler_fn_layout; [ok_solve|by apply Nat.ltb_lt]|cbv beta].
Ltac stack_step := eapply bind_go; [eapply next_stack_layout; [ok_solve|by apply Nat.ltb_lt|reflexivity|lia|lia|lia|done]|cbv beta iota].
Ltac indexed_step Hok :=
  eapply bind_go; [apply set_indexed_layout; [repeat first [exact Hok | apply with_handler_ok; [|lia]]|lia]|cbv beta].
Lemma build_layout cs m : 6 ≤ m → in_width 16 m →
  build cs (Gdt.mkStackIter 0 m) = Ret (layout cs all_installed, Gdt.mkStackIter 6 m).
Proof.
  intros Hm Hw. destruct (defaults_layout cs (seq 32 224) before_defaults before_defaults_ok) as [Hd Hok].
  { apply Forall_forall. intros n Hn. apply elem_of_seq in Hn. lia. }
  unfold build. cbv zeta. change idt_new with (layout cs []).
  do 3 handler_step. stack_step. do 4 handler_step. stack_step. handler_step. stack_step.
  do 4 handler_step. stack_step. do 6 handler_step. stack_step. handler_step. stack_step. handler_step.
  eapply bind_go; [exact Hd|cbv beta].
  change (as_usize Timer) with 224%nat. change (as_usize Keyboard) with 33%nat. change (as_usize COM2) with 35%nat.
  change (as_usize COM1) with 36%nat. change (as_usize Spurious) with 255%nat. change (as_usize SlavePicSpurious) with 49%nat.
  change (as_usize MasterPicSpurious) with 39%nat. unfold all_installed, after_devices.
  do 7 indexed_step Hok. reflexivity.
Qed.

(** What the processor reads from the entry at [v]. *)
Definition gate_ok (cs : Z) (v : nat) (e : Entry) : Prop :=
  match gate_spec v with
  | Some (h, i) => handler_addr e = fn_addr h ∧ gdt_selector e = cs ∧ ist e = i ∧ gate_type e = 14 ∧ gate_dpl e = 0
                   ∧ gate_present e = true
  | None => e = missing
  end.

Lemma all_installed_spec v : (v < 256)%nat →
  assoc v all_installed = (λ '(h, i), (h, 0x8e00 + i)) <$> gate_spec v ∧ (∀ h i, gate_spec v = Some (h, i) → i ∈ seqZ 0 8).
Proof.
  intros Hv.
  assert (Forall (λ v, assoc v all_installed = ((λ '(h, i), (h, 0x8e00 + i)) <$> gate_spec v)
             ∧ default 0 (snd <$> gate_spec v) ∈ seqZ 0 8) (seq 0 256)) as H by (apply (bool_decide_unpack _); by vm_compute).
  rewrite Forall_forall in H. destruct (H v) as [H1 H2]; [apply elem_of_seq; lia|]. split; [done|].
  intros h i E. by rewrite E in H2.
Qed.
Lemma options_fields i : i ∈ seqZ 0 8 →
  field (0x8e00 + i) 0 3 = i ∧ field (0x8e00 + i) 8 12 = 14 ∧ field (0x8e00 + i) 13 15 = 0 ∧ (field (0x8e00 + i) 15 16 =? 1) = true.
Proof.
  assert (Forall (λ i, field (0x8e00 + i) 0 3 = i ∧ field (0x8e00 + i) 8 12 = 14 ∧ field (0x8e00 + i) 13 15 = 0
            ∧ (field (0x8e00 + i) 15 16 =? 1) = true) (seqZ 0 8)) as H by (apply (bool_decide_unpack _); by vm_compute).
  rewrite Forall_forall in H. apply H.
Qed.
Lemma layout_gates cs v e : layout cs all_installed !! v = Some e → gate_ok cs v e.
Proof.
  intros He. assert (v < 256)%nat as Hv by (rewrite <- (layout_length cs all_installed); by eapply lookup_lt_Some).
  rewrite layout_lookup in He by done. apply (inj Some) in He. subst e. destruct (all_installed_spec v Hv) as [Ha Hi]. unfold gate_ok.
  rewrite Ha. destruct (gate_spec v) as [[h i]|]; simpl; [|done]. specialize (Hi h i eq_refl).
  rewrite handler_addr_of by (by apply canonical_width). destruct (options_fields i Hi) as (F1 & F2 & F3 & F4).
  unfold ist, gate_type, gate_dpl, gate_present. cbn [options gdt_selector entry_of]. done.
Qed.

Lemma init_installs s m cs addr :
  Gdt.TSS_STACK_ITER s = Some (Gdt.mkStackIter 0 m) → 6 ≤ m → in_width 16 m → canonical addr →
  init None s cs addr =
    Ret (Some (layout cs all_installed), Gdt.mkStatics (Some (Gdt.mkStackIter 6 m)) (Gdt.GDT_ARR s) (Gdt.TSS_ARR s), (addr, 4095)).
Proof.
  intros Hs Hm Hw Ha. unfold init. rewrite Hs. cbn [unwrap]. eapply bind_go; [|cbv beta iota].
  { eapply bind_go; [done|cbv beta iota]. eapply bind_go; [by apply build_layout|cbv beta iota]. reflexivity. }
  eapply bind_go; [done|cbv beta]. eapply bind_go; [|reflexivity].
  apply virt_new_canonical; [by apply canonical_width|done].
Qed.

(** Later calls keep the table. *)
Lemma init_keeps idt s cs addr : canonical addr → init (Some idt) s cs addr = Ret (Some idt, s, (addr, 4095)).
Proof.
  intros Ha. unfold init. cbn [unwrap]. cbv beta iota.
  eapply bind_go; [done|cbv beta iota]. eapply bind_go; [done|cbv beta]. eapply bind_go; [|reflexivity].
  apply virt_new_canonical; [by apply canonical_width|done].
Qed.

(** The first call of [interrupts::init], with the stack iterator that
    [tss::init] created, never panics and leaves a table in which every vector has
    the entry it is meant to have: the handler's address, the given code selector,
    an interrupt gate of privilege 0 that is present, and its interrupt stack, for
    all exceptions the processor can raise and all vectors from 32 on; only the
    reserved vectors are not present.  A later call keeps the table. *)
Theorem idt_init_installs s m cs addr :
  Gdt.TSS_STACK_ITER s = Some (Gdt.mkStackIter 0 m) → 6 ≤ m → in_width 16 m → canonical addr →
  ∃ idt s', init None s cs addr = Ret (Some idt, s', (addr, 4095)) ∧ length idt = 256%nat
    ∧ (∀ v e, idt !! v = Some e → gate_ok cs v e)
    ∧ ∀ s2 cs2, init (Some idt) s2 cs2 addr = Ret (Some idt, s2, (addr, 4095)).
Proof.
  intros Hs Hm Hw Ha. eexists _, _. split; [by eapply init_installs|]. split; [apply layout_length|].
  split; [intros v e; apply layout_gates|]. intros s2 cs2. by apply init_keeps.
Qed.

(** The stack an interrupt gate switches to on a core with the given TSS. *)
Definition stack_of (t : Gdt.TaskStateSegment) (e : Entry) : option Z :=
  if ist e =? 0 then None else Gdt.interrupt_stack_table t !! Z.to_nat (ist e - 1).
Definition own_stack_vectors : list nat :=
  [debug; non_maskable_interrupt; double_fault; general_protection_fault; page_fault; virtualization].

Lemma own_stacks v : v ∈ own_stack_vectors → ∃ h i, gate_spec v = Some (h, i) ∧ 2 ≤ i < 8.
Proof. intros H. repeat (apply elem_of_cons in H as [->|H]; [by eexists _, _|]). by apply elem_of_nil in H. Qed.
Lemma own_stacks_inj v w h h' i : v ∈ own_stack_vectors → w ∈ own_stack_vectors →
  gate_spec v = Some (h, i) → gate_spec w = Some (h', i) → v = w.
Proof.
  intros Hv Hw. repeat (apply elem_of_cons in Hv as [->|Hv]; [|]); [..|by apply elem_of_nil in Hv];
  intros [= <- <-]; (repeat (apply elem_of_cons in Hw as [->|Hw]; [by intros ?; simplify_eq|])); by apply elem_of_nil in Hw.
Qed.

Section together.
Variables gdt_addr tss_addr : nat → Z.

(** C22: After [tss::init] and the first [interrupts::init] on a core, the
    code selector of every present gate designates the kernel code segment in the
    core's GDT, and the six exceptions that must not run on a broken stack (debug,
    non-maskable, double fault, general protection, page fault, virtualization)
    each switch to an interrupt stack allocated for this core; when the core's
    stacks are distinct, no two of the six share one. *)
Theorem exceptions_have_own_stacks s r cores id core i addr :
  Cores.get_by_apic_id cores id = Some (core, i) → Gdt.stacks_ok core →
  (i < length (Gdt.GDT_ARR s))%nat → (i < length (Gdt.TSS_ARR s))%nat → canonical (gdt_addr i) → in_width 64 (tss_addr i) →
  canonical addr → NoDup (Cores.stack_starts (Cores.tss core)) →
  ∃ s1 r1 idt s2 p g t low, Gdt.init gdt_addr tss_addr s r cores id = Ret (s1, r1)
    ∧ init None s1 (Gdt.cs r1) addr = Ret (Some idt, s2, p)
    ∧ Gdt.GDT_ARR s2 !! i = Some (Some g) ∧ Gdt.TSS_ARR s2 !! i = Some (Some t)
    ∧ (∀ v e, idt !! v = Some e → gate_present e = true → Gdt.descriptor_at g (gdt_selector e) = Some (Gdt.KERNEL_CODE64, low))
    ∧ (∀ v, v ∈ own_stack_vectors → ∃ e a, idt !! v = Some e ∧ stack_of t e = Some a ∧ a ∈ Cores.stack_starts (Cores.tss core))
    ∧ ∀ v w e e', v ∈ own_stack_vectors → w ∈ own_stack_vectors → v ≠ w → idt !! v = Some e → idt !! w = Some e' →
        stack_of t e ≠ stack_of t e'.
Proof.
  intros Hc Hst Hg Ht Hga Hta Ha Hnd. destruct (Gdt.init_cases gdt_addr tss_addr s r _ _ _ _ Hc Hst Hg Ht Hga Hta) as (low & high & Hd & E).
  eexists _, _, (layout 8 all_installed), _, _, (Gdt.core_gdt low high), (Gdt.tss_of core), low. split; [exact E|].
  split; [by eapply init_installs|]. cbn [Gdt.GDT_ARR Gdt.TSS_ARR]. rewrite !list_lookup_insert_eq by done.
  do 2 (split; [done|]).
  assert (∀ v e, v ∈ own_stack_vectors → layout 8 all_installed !! v = Some e →
            ∃ h j, gate_spec v = Some (h, j) ∧ 2 ≤ j < 8 ∧ stack_of (Gdt.tss_of core) e = Cores.stack_starts (Cores.tss core) !! Z.to_nat (j - 1)) as Hso.
  { intros v e Hv He. destruct (own_stacks v Hv) as (h & j & Hgs & Hj). exists h, j. split; [done|]. split; [done|].
    apply layout_gates in He. unfold gate_ok in He. rewrite Hgs in He. destruct He as (_ & _ & Hi & _).
    unfold stack_of. rewrite Hi, (proj2 (Z.eqb_neq _ _)) by lia. cbn [Gdt.tss_of Gdt.interrupt_stack_table].
    by rewrite lookup_take_lt by lia. }
  destruct Hst as [Hlen _]. unfold Cores.TSS_STACKS_PER_CPU in Hlen. split; [|split].
  - intros v e He Hp. apply layout_gates in He. unfold gate_ok in He. destruct (gate_spec v) as [[h j]|]; [|by subst e].
    destruct He as (_ & -> & _). done.
  - intros v Hv. assert (v < 256)%nat as Hlt.
    { repeat (apply elem_of_cons in Hv as [->|Hv]; [by apply Nat.ltb_lt|]). by apply elem_of_nil in Hv. }
    rewrite <- (layout_length 8 all_installed) in Hlt. apply lookup_lt_is_Some_2 in Hlt as [e He].
    destruct (Hso v e Hv He) as (h & j & _ & Hj & Hse).
    assert (is_Some (Cores.stack_starts (Cores.tss core) !! Z.to_nat (j - 1))) as [a Hsa] by (apply lookup_lt_is_Some_2; lia).
    exists e, a. split; [done|]. split; [by rewrite Hse|]. by eapply list_elem_of_lookup_2.
  - intros v w e e' Hv Hw Hne He He'. destruct (Hso v e Hv He) as (h & j & Hgv & Hj & ->).
    destruct (Hso w e' Hw He') as (h' & j' & Hgw & Hj' & ->).
    assert (is_Some (Cores.stack_starts (Cores.tss core) !! Z.to_nat (j - 1))) as [a Hsa] by (apply lookup_lt_is_Some_2; lia).
    rewrite Hsa. intros E'. symmetry in E'. pose proof (NoDup_lookup _ _ _ _ Hnd Hsa E') as Hjj.
    assert (j = j') as -> by lia. apply Hne. by eapply own_stacks_inj.
Qed.
End together.
End idt.

(** ** Instances *)
#[local] Existing Instance bit_field_model.
Definition sample_fn (h : handler) : Z := 0xffff800000100000.
Lemma sample_canonical h : canonical (sample_fn h).
Proof. right. by vm_compute. Qed.
Definition fresh_tables : Gdt.statics := Gdt.mkStatics (Some (Gdt.mkStackIter 0 8)) (replicate 256 None) (replicate 256 None).
Lemma idt_init_installs_witness :
  ∃ idt s', init sample_fn None fresh_tables 8 0x7000 = Ret (Some idt, s', (0x7000, 4095))
    ∧ ∀ e, idt !! 14%nat = Some e → handler_addr e = 0xffff800000100000 ∧ ist e = 3.
Proof.
  destruct (idt_init_installs sample_fn sample_canonical fresh_tables 8 8 0x7000) as (idt & s' & H & _ & Hg & _);
    [done|lia|by vm_compute|by left|].
  exists idt, s'. split; [exact H|]. intros e He. destruct (Hg _ _ He) as (Ha & _ & Hi & _). split; [exact Ha|exact Hi].
Defined.
Lemma exceptions_have_own_stacks_witness :
  ∃ s1 r1 idt s2 p, Gdt.init (λ i, 0x5000 + 72 * Z.of_nat i) (λ i, 0x9000 + 104 * Z.of_nat i) Gdt.no_tables (Gdt.mkRegs (0, 0) 0 0) Gdt.sample_cores 3
      = Ret (s1, r1)
    ∧ init sample_fn None s1 (Gdt.cs r1) 0x7000 = Ret (Some idt, s2, p).
Proof.
  destruct (exceptions_have_own_stacks sample_fn sample_canonical (λ i, 0x5000 + 72 * Z.of_nat i) (λ i, 0x9000 + 104 * Z.of_nat i)
    Gdt.no_tables (Gdt.mkRegs (0, 0) 0 0) Gdt.sample_cores 3 Gdt.sample_core 1 0x7000)
    as (s1 & r1 & idt & s2 & p & g & t & low & H1 & H2 & _);
    [by vm_compute|split; [done|]; apply Forall_forall; intros s Hs; apply elem_of_seqZ in Hs; lia|simpl; lia..|by left|by vm_compute|by left
    |apply NoDup_seqZ|].
  exists s1, r1, idt, s2, p. split; [exact H1|exact H2].
Defined.

(** The seventh stack of the iterator has no index in the table: its number does not fit. *)
Lemma seventh_stack_refused : set_stack_index minimal 7 = Panic AssertFailed.
Proof. by vm_compute. Qed.
(** The first interrupt stack of every core is never used: the iterator starts at 1 and
    [set_stack_index] adds 1 again. *)
Lemma first_stack_unused v h i : gate_spec v = Some (h, i) → i ≠ 1.
Proof.
  unfold gate_spec. intros H. assert (Forall (λ '(_, (_, i)), i ≠ 1) (exceptions ++ devices)) as Hf by (apply (bool_decide_unpack _); by vm_compute).
  revert H Hf. generalize (exceptions ++ devices). induction l as [|[w [h' i']] l IH]; simpl; intros H Hf.
  - case_decide; [|done]. by injection H as _ <-.
  - apply Forall_cons in Hf as [H1 Hf]. case_decide; [by injection H as _ <-|by apply IH].
Qed.
End Idt.
