(* ===== verification/Pic.v ===== *)
(** * The legacy interrupt controllers: crates/pic8259_simple, kernel apic.rs

    The driver reads and writes I/O ports: it is verified against the class [PortIO] of
    machines with byte ports.  [chipset] is the machine the driver is written for, two
    8259A chips as their data sheet describes them; what the driver achieves is
    stated about the chips. *)
From S2P Require Import Prelude Addr Bits Msr Gdt Idt.

(** A machine with byte-wide ports: [in] returns a value and may change the device. *)
Class PortIO (M : Type) := {
  port_in : M → Z → Z * M;
  port_out : M → Z → Z → M
}.

Module Pic.

Definition CMD_INIT : Z := 0x11.
Definition CMD_END_OF_INTERRUPT : Z := 0x20.
Definition MODE_8086 : Z := 0x01.
Definition CMD_READ_ISR : Z := 0x0b.

(** ** [Pic] and [ChainedPics] *)
Record Pic := mkPic { offset : Z; command : Z; data : Z; orig_mask : option Z }.
Record ChainedPics := mkPics { pic0 : Pic; pic1 : Pic }.
Definition new (offset1 offset2 : Z) : ChainedPics :=
  mkPics (mkPic offset1 0x20 0x21 None) (mkPic offset2 0xa0 0xa1 None).

(** [offset <= id && id < offset + 8], on u8. *)
Definition handles_interrupt (p : Pic) (interupt_id : Z) : run bool :=
  if offset p <=? interupt_id then e ← uadd 8 (offset p) 8; Ret (interupt_id <? e) else Ret false.
(** [self.pics.iter().any(..)]. *)
Definition pics_handle_interrupt (c : ChainedPics) (interrupt_id : Z) : run bool :=
  b ← handles_interrupt (pic0 c) interrupt_id;
  if (b : bool) then Ret true else handles_interrupt (pic1 c) interrupt_id.

Section driver.
Context {M : Type} `{!PortIO M}.

Definition end_of_interrupt (p : Pic) (s : M) : M := port_out s (command p) CMD_END_OF_INTERRUPT.

(** [wait]: garbage to port 0x80. *)
Definition wait (s : M) : M := port_out s 0x80 0.

Definition initialize (c : ChainedPics) (s : M) : M :=
  let '(saved_mask1, s) := port_in s (data (pic0 c)) in
  let '(saved_mask2, s) := port_in s (data (pic1 c)) in
  let s := wait (port_out s (command (pic0 c)) CMD_INIT) in
  let s := wait (port_out s (command (pic1 c)) CMD_INIT) in
  let s := wait (port_out s (data (pic0 c)) (offset (pic0 c))) in
  let s := wait (port_out s (data (pic1 c)) (offset (pic1 c))) in
  let s := wait (port_out s (data (pic0 c)) 4) in
  let s := wait (port_out s (data (pic1 c)) 2) in
  let s := wait (port_out s (data (pic0 c)) MODE_8086) in
  let s := wait (port_out s (data (pic1 c)) MODE_8086) in
  let s := port_out s (data (pic0 c)) saved_mask1 in
  port_out s (data (pic1 c)) saved_mask2.

Definition save_and_mask (p : Pic) (s : M) : Pic * M :=
  let '(m, s) := port_in s (data p) in
  (mkPic (offset p) (command p) (data p) (Some m), port_out s (data p) 0xff).
Definition mask_all (c : ChainedPics) (s : M) : ChainedPics * M :=
  let '(p0, s) := save_and_mask (pic0 c) s in
  let '(p1, s) := save_and_mask (pic1 c) s in
  (mkPics p0 p1, s).

Definition mask (c : ChainedPics) (pic1_mask pic2_mask : Z) (s : M) : M :=
  port_out (port_out s (data (pic0 c)) pic1_mask) (data (pic1 c)) pic2_mask.

(** [f] is the closure that runs for a spurious interrupt. *)
Definition is_spurious_interrupt (c : ChainedPics) (f : M → M) (s : M) : bool * M :=
  let pic1 := pic0 c in
  let s := port_out s (command pic1) CMD_READ_ISR in
  let '(irq, s) := port_in s (command pic1) in
  if Z.land irq (Z.shiftl 1 2) =? 1 then
    let pic2 := pic0 c in
    let s := port_out s (command pic2) CMD_READ_ISR in
    let '(irq, s) := port_in s (command pic2) in
    if irq =? 0 then (true, end_of_interrupt (pic0 c) (f s)) else (false, s)
  else if irq =? 0 then (true, f s) else (false, s).

Definition notify_end_of_interrupt (c : ChainedPics) (interrupt_id : Z) (s : M) : run M :=
  b ← pics_handle_interrupt c interrupt_id;
  if (b : bool) then
    b1 ← handles_interrupt (pic1 c) interrupt_id;
    let s := if (b1 : bool) then end_of_interrupt (pic1 c) s else s in
    Ret (end_of_interrupt (pic0 c) s)
  else Ret s.

(** ** kernel/src/apic.rs: [init_chained_pics] *)
Definition PICS : ChainedPics := new Idt.PIC_1_OFFSET Idt.PIC_2_OFFSET.
Definition init_chained_pics (mask_pics : bool) (c : ChainedPics) (s : M) : run (ChainedPics * M) :=
  let s := initialize c s in
  if negb mask_pics then
    keyboard_enable ← Idt.as_pic_enable_mask Idt.Keyboard;
    com1 ← Idt.as_pic_enable_mask Idt.COM1;
    com2 ← Idt.as_pic_enable_mask Idt.COM2;
    let serial_enable := Z.land com1 com2 in
    pic2 ← Idt.as_pic_enable_mask Idt.Pic2;
    Ret (c, mask c (Z.land (Z.land keyboard_enable serial_enable) pic2) 0xff s)
  else
    let s := port_out s 0x22 0x70 in
    let s := port_out s 0x23 0x01 in
    Ret (mask_all c s).
End driver.

(** ** The 8259A *)
(** What a data byte is taken for: an initialisation word, or the mask. *)
Inductive phase := Ready | Icw2 | Icw3 | Icw4.
Record chip := mkChip {
  imr : Z; isr : Z; irr : Z;
  base : Z; cascade : Z; mode : Z;
  icw1 : Z; expect : phase; read_isr : bool
}.
(** The in-service bit of highest priority, the lowest one, is cleared. *)
Definition clear_highest (v : Z) : Z := Z.land v (v - 1).
Definition needs_icw4 (icw1 : Z) : bool := Z.testbit icw1 0.
Definition single (icw1 : Z) : bool := Z.testbit icw1 1.
Definition after_icw3 (icw1 : Z) : phase := if needs_icw4 icw1 then Icw4 else Ready.
Definition command_write (c : chip) (v : Z) : chip :=
  if Z.testbit v 4 then
    mkChip 0 (isr c) (irr c) (base c) (cascade c) (if needs_icw4 v then mode c else 0) v Icw2 false
  else if Z.testbit v 3 then
    mkChip (imr c) (isr c) (irr c) (base c) (cascade c) (mode c) (icw1 c) (expect c)
      (if Z.testbit v 1 then Z.testbit v 0 else read_isr c)
  else if Z.testbit v 5 then
    mkChip (imr c) (clear_highest (isr c)) (irr c) (base c) (cascade c) (mode c) (icw1 c) (expect c) (read_isr c)
  else c.
Definition data_write (c : chip) (v : Z) : chip :=
  match expect c with
  | Ready => mkChip v (isr c) (irr c) (base c) (cascade c) (mode c) (icw1 c) Ready (read_isr c)
  | Icw2 => mkChip (imr c) (isr c) (irr c) (Z.land v 0xf8) (cascade c) (mode c) (icw1 c)
              (if single (icw1 c) then after_icw3 (icw1 c) else Icw3) (read_isr c)
  | Icw3 => mkChip (imr c) (isr c) (irr c) (base c) v (mode c) (icw1 c) (after_icw3 (icw1 c)) (read_isr c)
  | Icw4 => mkChip (imr c) (isr c) (irr c) (base c) (cascade c) v (icw1 c) Ready (read_isr c)
  end.
Definition command_read (c : chip) : Z := if read_isr c then isr c else irr c.

(** The two chips behind their ports, and the mode register of the board. *)
Record chipset := mkChipset { master : chip; slave : chip; imcr_select : Z; imcr : Z }.
#[global] Instance chipset_ports : PortIO chipset := {|
  port_in s p :=
    (if p =? 0x20 then command_read (master s) else if p =? 0x21 then imr (master s)
     else if p =? 0xa0 then command_read (slave s) else if p =? 0xa1 then imr (slave s) else 0xff, s);
  port_out s p v :=
    if p =? 0x20 then mkChipset (command_write (master s) v) (slave s) (imcr_select s) (imcr s)
    else if p =? 0x21 then mkChipset (data_write (master s) v) (slave s) (imcr_select s) (imcr s)
    else if p =? 0xa0 then mkChipset (master s) (command_write (slave s) v) (imcr_select s) (imcr s)
    else if p =? 0xa1 then mkChipset (master s) (data_write (slave s) v) (imcr_select s) (imcr s)
    else if p =? 0x22 then mkChipset (master s) (slave s) v (imcr s)
    else if (p =? 0x23) && (imcr_select s =? 0x70) then mkChipset (master s) (slave s) (imcr_select s) v
    else s
|}.

(** ** Properties *)
(** A chip that is ready to deliver its lines as the vectors [b], [b + 1], .., in
    8086 mode, with the given wiring and mask. *)
Definition programmed (c : chip) (b wiring m : Z) : Prop :=
  expect c = Ready ∧ base c = b ∧ cascade c = wiring ∧ mode c = 1 ∧ imr c = m.

Lemma initialize_programs o1 o2 s :
  let s' := initialize (new o1 o2) s in
  programmed (master s') (Z.land o1 0xf8) 4 (imr (master s)) ∧ isr (master s') = isr (master s)
  ∧ programmed (slave s') (Z.land o2 0xf8) 2 (imr (slave s)) ∧ isr (slave s') = isr (slave s)
  ∧ imcr s' = imcr s.
Proof. destruct s as [[] [] ? ?]. done. Qed.

(** The vector a line of one of the chips raises. *)
Definition vector (s : chipset) (irq : Z) : Z := if irq <? 8 then base (master s) + irq else base (slave s) + (irq - 8).
(** A line is let through by its chip, and by the master's line 2 for the slave's. *)
Definition enabled (s : chipset) (irq : Z) : bool :=
  if irq <? 8 then negb (Z.testbit (imr (master s)) irq)
  else negb (Z.testbit (imr (slave s)) (irq - 8)) && negb (Z.testbit (imr (master s)) 2).

Lemma vector_at s irq : base (master s) = 32 → base (slave s) = 40 → vector s irq = 32 + irq.
Proof. intros H1 H2. unfold vector. rewrite H1, H2. destruct (irq <? 8); lia. Qed.

(** [1 <= 2^k * (2 q + 1)] with the [k] lowest bits clear. *)
Definition highest (v k : Z) : Prop := 0 ≤ k ∧ Z.testbit v k = true ∧ ∀ j, 0 ≤ j < k → Z.testbit v j = false.
Lemma clear_highest_spec v k : highest v k → clear_highest v = v - 2 ^ k.
Proof.
  intros (Hk & Hb & Hlow). unfold clear_highest. pose proof (pow2_pos k Hk) as Hp.
  assert (v mod 2 ^ k = 0) as Hm.
  { apply Z.bits_inj'. intros j Hj. rewrite Z.bits_0. destruct (decide (j < k)).
    - rewrite Z.mod_pow2_bits_low by lia. by apply Hlow.
    - apply Z.mod_pow2_bits_high. lia. }
  assert ((v / 2 ^ k) mod 2 = 1) as Ho.
  { rewrite <- Z.bit0_mod, Z.div_pow2_bits, Z.add_0_l, Hb by lia. done. }
  apply Z.bits_inj'. intros j Hj. rewrite Z.land_spec.
  pose proof (Z.div_mod v (2 ^ k) ltac:(lia)) as Ev. pose proof (Z.div_mod (v / 2 ^ k) 2 ltac:(lia)) as Eq.
  set (q := v / 2 ^ k / 2) in *. assert (2 ^ (k + 1) = 2 * 2 ^ k) as E1 by (rewrite Z.pow_add_r; lia).
  destruct (decide (j < k + 1)) as [Hlt|Hge].
  - assert (Z.testbit (v - 2 ^ k) j = false) as ->.
    { replace (v - 2 ^ k) with (q * 2 ^ (k + 1)) by lia. by rewrite Z.mul_pow2_bits_low by lia. }
    destruct (decide (j = k)) as [->|]; [|by rewrite Hlow by lia].
    replace (v - 1) with ((2 ^ k - 1) + q * 2 ^ (k + 1)) by lia.
    rewrite <- (Z.mod_pow2_bits_low (_ + _) (k + 1) k) by lia.
    rewrite Z.mod_add by lia. rewrite Z.mod_small by lia.
    rewrite (testbit_above k (2 ^ k - 1)) by (unfold in_width; lia). by rewrite andb_false_r.
  - assert (∀ x, q * 2 ^ (k + 1) ≤ x < q * 2 ^ (k + 1) + 2 ^ (k + 1) → Z.testbit x j = Z.testbit q (j - (k + 1))) as Hs.
    { intros x Hx. rewrite (Z.div_unique x (2 ^ (k + 1)) q (x - q * 2 ^ (k + 1))) by lia.
      rewrite Z.div_pow2_bits by lia. f_equal. lia. }
    rewrite (Hs v), (Hs (v - 1)), (Hs (v - 2 ^ k)) by lia. by rewrite andb_diag.
Qed.

(** C32: [init_chained_pics] on any state of the two 8259A chips leaves both
    ready in 8086 mode, chained through line 2 and with their lines at the vectors
    32 to 39 and 40 to 47.  In virtual wire mode exactly the lines of the cascade,
    the keyboard and the two serial ports are let through, and each that is not
    the cascade runs its own handler of the kernel's IDT; otherwise every line is
    masked, the old masks are saved and interrupts are routed to the APIC. *)
Theorem init_chained_pics_routes mask_pics s :
  ∃ c' s', init_chained_pics mask_pics PICS s = Ret (c', s')
    ∧ programmed (master s') 32 4 (imr (master s')) ∧ programmed (slave s') 40 2 (imr (slave s'))
    ∧ (∀ irq, 0 ≤ irq < 16 → vector s' irq = 32 + irq)
    ∧ if mask_pics then
        imcr s' = 1 ∧ (∀ irq, 0 ≤ irq < 16 → enabled s' irq = false)
        ∧ orig_mask (pic0 c') = Some (imr (master s)) ∧ orig_mask (pic1 c') = Some (imr (slave s))
      else
        imcr s' = imcr s ∧ c' = PICS ∧ (∀ irq, 0 ≤ irq < 16 → enabled s' irq = true ↔ irq ∈ [1; 2; 3; 4])
        ∧ ∀ irq, 0 ≤ irq < 16 → enabled s' irq = true → irq ≠ 2 →
            ∃ h, Idt.gate_spec (Z.to_nat (vector s' irq)) = Some (h, 0) ∧ h ∈ [Idt.keyboard_interrupt_handler; Idt.serial_handler].
Proof.
  assert (∀ irq, 0 ≤ irq < 16 → irq ∈ seqZ 0 16) as Hin by (intros; apply elem_of_seqZ; lia).
  destruct mask_pics; destruct s as [[] [] ? ?]; (eexists _, _; split; [reflexivity|]); do 2 (split; [done|]).
  - split; [intros irq Hi; apply vector_at; done|]. split; [done|]. split; [|done].
    intros irq Hi. apply Hin in Hi. revert irq Hi. apply Forall_forall. unfold enabled. cbn [master slave imr].
    by repeat constructor.
  - match goal with |- context [enabled ?x] => set (s' := x) end.
    assert (∀ irq, 0 ≤ irq < 16 → enabled s' irq = true ↔ irq ∈ [1; 2; 3; 4]) as He.
    { intros irq Hi. apply Hin in Hi. revert irq Hi. apply Forall_forall. unfold enabled, s'. cbn [master slave imr].
      apply (bool_decide_unpack _). by vm_compute. }
    assert (∀ irq, vector s' irq = 32 + irq) as Hv by (intros; by apply vector_at).
    split; [by auto|]. do 3 (split; [done|]). intros irq Hi Hen Hne. rewrite Hv. apply He in Hen; [|done].
    repeat (apply elem_of_cons in Hen as [->|Hen]; [first [done|by eexists; split; [vm_compute; reflexivity|set_solver]]|]).
    by apply elem_of_nil in Hen.
Qed.

(** [notify_end_of_interrupt] acknowledges an interrupt exactly where it came
    from: for a vector of the first controller there, for one of the second at
    both, for any other vector nowhere; an acknowledged controller drops its
    interrupt of highest priority and nothing else changes. *)
Theorem end_of_interrupt_exact s id :
  0 ≤ id < 256 →
  ∃ s', notify_end_of_interrupt PICS id s = Ret s'
    ∧ (∀ k, highest (isr (master s)) k → isr (master s') = if decide (32 ≤ id < 48) then isr (master s) - 2 ^ k else isr (master s))
    ∧ (∀ k, highest (isr (slave s)) k → isr (slave s') = if decide (40 ≤ id < 48) then isr (slave s) - 2 ^ k else isr (slave s))
    ∧ imr (master s') = imr (master s) ∧ imr (slave s') = imr (slave s)
    ∧ (id < 32 ∨ 48 ≤ id → s' = s).
Proof.
  intros Hid. unfold notify_end_of_interrupt, pics_handle_interrupt, handles_interrupt. cbn [PICS new pic0 pic1 offset].
  change Idt.PIC_1_OFFSET with 32. change Idt.PIC_2_OFFSET with 40.
  change (uadd 8 32 8) with (Ret 40). change (uadd 8 40 8) with (Ret 48). cbn [mbind run_bind].
  destruct (Z.leb_spec 32 id), (Z.ltb_spec id 40), (Z.leb_spec 40 id), (Z.ltb_spec id 48); try lia; cbn [mbind run_bind];
    (eexists; split; [reflexivity|]); cbn; (split; [intros k Hk; case_decide; try lia; try done; by apply clear_highest_spec|]);
    (split; [intros k Hk; case_decide; try lia; try done; by apply clear_highest_spec|]); (split; [done|]);
    (split; [done|]); intros ?; try lia; done.
Qed.

(** ** Instances *)
Definition idle_chip : chip := mkChip 0xff 0 0 8 0 1 0x11 Ready false.
(** A keyboard interrupt and one of the second controller are in service. *)
Definition busy_chips : chipset :=
  mkChipset (mkChip 0 6 0 32 4 1 0x11 Ready false) (mkChip 0 0x10 0 40 2 1 0x11 Ready false) 0 0.
Lemma end_of_interrupt_exact_witness :
  ∃ s', notify_end_of_interrupt PICS 33 busy_chips = Ret s' ∧ isr (master s') = 4 ∧ imr (slave s') = 0.
Proof.
  destruct (end_of_interrupt_exact busy_chips 33) as (s' & H & Hm & _ & _ & Hi & _); [lia|].
  exists s'. split; [exact H|]. split; [|exact Hi]. rewrite (Hm 1); [done|].
  split; [lia|]. split; [done|]. intros j Hj. assert (j = 0) as -> by lia. done.
Defined.

(** The test for the cascade compares a bit of weight 4 with 1: the second controller is
    never asked, an interrupt is taken for spurious exactly when the first one has
    none in service. *)
Lemma is_spurious_master_only f s :
  (is_spurious_interrupt PICS f s).1 = (isr (master s) =? 0).
Proof.
  assert (∀ i, (Z.land i (Z.shiftl 1 2) =? 1) = false) as Hb.
  { intros i. apply Z.eqb_neq. intros E. assert (Z.testbit (Z.land i (Z.shiftl 1 2)) 0 = true) as Hb by (by rewrite E).
    rewrite Z.land_spec in Hb. by rewrite andb_false_r in Hb. }
  unfold is_spurious_interrupt. destruct (port_in _ _) as [i s'] eqn:E. rewrite Hb.
  injection E as <- <-. cbn. by destruct (isr (master s) =? 0).
Qed.
(** A spurious interrupt of the second controller: its cascade is in service at the first,
    nothing is in service at the second, and it is not recognised. *)
Lemma slave_spurious_missed :
  (is_spurious_interrupt PICS id (mkChipset (mkChip 0 4 0 32 4 1 0x11 Ready false) idle_chip 0 0)).1 = false.
Proof. by vm_compute. Qed.
(** An offset above 247 overflows a u8 in the range test. *)
Lemma handles_interrupt_overflows : handles_interrupt (mkPic 248 0x20 0x21 None) 250 = Panic Overflow.
Proof. by vm_compute. Qed.
End Pic.
