(* ===== verification/Apic.v ===== *)
(** * kernel/src/apic.rs, apic_regs.rs and the busy wait of time.rs: the local APIC

    The register words are built with the accessors that the modular_bitfield crate
    generates ([ModularBitfield]); the registers lie in memory and the processor has a
    time stamp counter ([LapicIO], what the driver relies on).  [mp_init] starts
    another core, [init] brings the local APIC of a core into service. *)
From S2P Require Import Prelude MemoryMap FrameAlloc Addr Bits Paging Msr Mapper KernelMemory Gdt Idt Pic.
Import Addr Bits.

(** The accessors of a [#[bitfield]] struct, by the documentation of the crate: fields are
    packed from the least significant bit on; [with_x] and [set_x] panic when the
    value does not fit the field; [into_bytes] is the little endian word. *)
Class ModularBitfield := { modular : BitField }.
Definition bf_get {MB : ModularBitfield} : Z → Z → Z → Z := @get_bits modular.
Definition bf_with {MB : ModularBitfield} : Z → Z → Z → Z → run Z := @set_bits modular.

Module Apic.

(** ** apic_regs.rs *)
Inductive Register :=
  | ApicId | SpurInterVecReg | ApicVersion | EndOfInterrupt | ApicTimer | TimerCurrentCount | TimerInitialCount
  | DivideConfReg | TaskPrioReg | DestFormatReg | LogicalDestReg | InterCmdRegLow | InterCmdRegHigh.
Definition register_offset (r : Register) : Z :=
  match r with
  | ApicId => 0x20 | SpurInterVecReg => 0xf0 | ApicVersion => 0x30 | EndOfInterrupt => 0xb0 | ApicTimer => 0x320
  | TimerCurrentCount => 0x390 | TimerInitialCount => 0x380 | DivideConfReg => 0x3e0 | TaskPrioReg => 0x80
  | DestFormatReg => 0xe0 | LogicalDestReg => 0xd0 | InterCmdRegLow => 0x300 | InterCmdRegHigh => 0x310
  end.
#[global] Instance Register_eq_dec : EqDecision Register.
Proof. solve_decision. Defined.

(** What the processor sees of its local APIC: the words last written, the interrupts
    sent to other processors (both command words), acknowledgements. *)
Record view := mkView { regs : Register → Z; sent : list (Z * Z); eois : nat }.
Definition written (w : view) (r : Register) (v : Z) : view :=
  mkView (λ q, if decide (q = r) then v else regs w q)
         (if decide (r = InterCmdRegLow) then sent w ++ [(regs w InterCmdRegHigh, v)] else sent w)
         (if decide (r = EndOfInterrupt) then S (eois w) else eois w).
End Apic.

(** A processor with a local APIC, its registers in the page at [APIC_BASE]. *)
Class LapicIO (M : Type) := {
  mmio_read : M → Z → Z * M;
  mmio_write : M → Z → Z → M;
  rdtsc : M → Z * M;
  (** the state the hardware documentation speaks about *)
  lapic_view : M → Apic.view;
  clock : M → Z;
  prompt : M → Prop;
  (** most ticks between two accesses *)
  stride : Z;
  (** the counter runs, and nothing else happens *)
  rdtsc_law m : ∃ m', rdtsc m = (clock m, m') ∧ clock m < clock m' ≤ clock m + stride ∧ lapic_view m' = lapic_view m ∧ (prompt m → prompt m');
  clock_nonneg m : 0 ≤ clock m;
  mmio_write_law m r v :
    let m' := mmio_write m (0xfee00000 + Apic.register_offset r) v in
    lapic_view m' = Apic.written (lapic_view m) r v ∧ clock m ≤ clock m' ≤ clock m + stride ∧ (prompt m → prompt m');
  (** reading changes nothing; a prompt APIC has delivered what was sent *)
  mmio_read_law m r :
    ∃ v m', mmio_read m (0xfee00000 + Apic.register_offset r) = (v, m') ∧ in_width 32 v ∧ lapic_view m' = lapic_view m
      ∧ clock m ≤ clock m' ≤ clock m + stride ∧ (prompt m → prompt m')
      ∧ (prompt m → r = Apic.InterCmdRegLow → field v 12 13 = 0)
}.

Module Lapic.
Import Apic.
(** ** Register words *)
Section words.
Context {MB : ModularBitfield}.
Lemma bf_get_field w lo hi : 0 ≤ lo < hi → hi ≤ 64 → in_width 64 w → bf_get w lo hi = field w lo hi.
Proof. apply (@get_bits_field modular). Qed.
Lemma bf_with_stored w lo hi v :
  0 ≤ lo < hi → hi ≤ 64 → in_width 64 w → 0 ≤ v < 2 ^ (hi - lo) → ∃ b, bf_with w lo hi v = Ret b ∧ stored w lo hi v b.
Proof. apply (@set_bits_stored modular). Qed.
Lemma width_32_64 v : in_width 32 v → in_width 64 v.
Proof. unfold in_width. lia. Qed.
(** Words that are built from constants. *)
Lemma bf_with_value w lo hi v b :
  0 ≤ lo < hi → hi ≤ 64 → in_width 64 w → 0 ≤ v < 2 ^ (hi - lo) →
  Z.lor (Z.ldiff w (Z.shiftl (Z.ones (hi - lo)) lo)) (Z.shiftl v lo) = b → bf_with w lo hi v = Ret b.
Proof. intros H1 H2 H3 H4 <-. by apply (@set_bits_value modular). Qed.
End words.
Tactic Notation "bf_const" constr(w) constr(lo) constr(hi) constr(v) "=>" constr(b) :=
  rewrite (bf_with_value w lo hi v b) by first [lia | by vm_compute]; cbn [mbind run_bind].

Section driver.
Context {MB : ModularBitfield} {M : Type} `{!LapicIO M}.
(** [RDTSC_MHZ]. *)
Variable tsc_mhz : Z.

(** ** time.rs: [future] and [sleep] *)
Definition future (microseconds : Z) (m : M) : run (Z * M) :=
  let '(now, m) := rdtsc m in
  d ← umul 64 microseconds tsc_mhz;
  w ← uadd 64 now d;
  Ret (w, m).
Fixpoint spin (fuel : nat) (waitval : Z) (m : M) : run M :=
  match fuel with
  | O => Panic NoFuel
  | S fuel' => let '(now, m) := rdtsc m in if now <? waitval then spin fuel' waitval m else Ret m
  end.
(** The counter advances with every reading: one turn per tick is enough. *)
Definition sleep (microseconds : Z) (m : M) : run M :=
  '(waitval, m) ← future microseconds m;
  spin (Z.to_nat (microseconds * tsc_mhz) + 1) waitval m.

(** ** Registers *)
Definition APIC_BASE : Z := 0xfee00000.
Definition read_apic (r : Register) (m : M) : run (Z * M) :=
  ptr ← uadd 64 APIC_BASE (register_offset r); Ret (mmio_read m ptr).
Definition write_apic (r : Register) (value : Z) (m : M) : run M :=
  ptr ← uadd 64 APIC_BASE (register_offset r); Ret (mmio_write m ptr value).
Definition end_of_interrupt (m : M) : run M := write_apic EndOfInterrupt 0 m.

(** ** Inter-processor interrupts *)
Definition ipi_pending (m : M) : run (bool * M) :=
  '(r, m) ← read_apic InterCmdRegLow m; Ret (bf_get r 12 13 =? 1, m).
Definition send_ipi (low high : Z) (m : M) : run M :=
  m ← write_apic InterCmdRegHigh high m;
  m ← write_apic InterCmdRegLow low m;
  m ← sleep 200 m;
  '(pending, m) ← ipi_pending m;
  if (pending : bool) then Panic Explicit else Ret m.

(** [InterCmdRegLow::new().with_vec(..).with_trigger_mode(0).with_msg_type(..).with_level(..)]. *)
Definition command_low (vec msg_type level : Z) : run Z :=
  w ← bf_with 0 0 8 vec;
  w ← bf_with w 15 16 0;
  w ← bf_with w 8 11 msg_type;
  bf_with w 14 15 level.
Definition command_high (dest : Z) : run Z := bf_with 0 24 32 dest.

Definition mp_init (apic_id trampoline : Z) (m : M) : run M :=
  low ← command_low 0 5 0;
  high ← command_high apic_id;
  m ← send_ipi low high m;
  if 0x100000 <=? trampoline then Panic Explicit else
  if negb (Z.land trampoline 0xfff =? 0) then Panic Explicit else
  let to_vec := cast 8 (Z.shiftr trampoline 12) in
  if (0xa0 <=? to_vec) && (to_vec <=? 0xbf) then Panic Explicit else
  m ← sleep (10 * 1000) m;
  low ← command_low to_vec 6 1;
  m ← send_ipi low high m;
  send_ipi low high m.

(** ** The timer *)
Definition init_timer (m : M) : run M :=
  div ← bf_with 0 0 2 0;
  div ← bf_with div 3 4 0;
  m ← write_apic DivideConfReg div m;
  timer ← bf_with 0 0 8 (Idt.as_u8 Idt.Timer);
  timer ← bf_with timer 12 13 0;
  timer ← bf_with timer 16 17 0;
  timer ← bf_with timer 17 18 1;
  m ← write_apic ApicTimer timer m;
  m ← write_apic TimerInitialCount (umax 32) m;
  m ← sleep (1000 * 1000) m;
  '(count, m) ← read_apic TimerCurrentCount m;
  ticks_elapsed ← usub (umax 32) count;
  write_apic TimerInitialCount ticks_elapsed m.

Definition apic_id_from_mem (m : M) : run (Z * M) :=
  '(id_reg, m) ← read_apic ApicId m; Ret (bf_get id_reg 24 32, m).

(** ** Lemmas *)
(** [d] ticks later, up to the time of [k] accesses. *)
Definition later (d k : Z) (m m' : M) : Prop :=
  clock m + d ≤ clock m' ≤ clock m + d + k * stride ∧ (prompt m → prompt m').
Lemma stride_pos (m : M) : 0 < stride.
Proof. destruct (rdtsc_law m) as (m' & _ & H & _). lia. Qed.
Lemma later_trans d1 k1 d2 k2 m1 m2 m3 : later d1 k1 m1 m2 → later d2 k2 m2 m3 → later (d1 + d2) (k1 + k2) m1 m3.
Proof. intros [H1 P1] [H2 P2]. split; [lia|auto]. Qed.

Lemma spin_spec fuel waitval m :
  Z.max 0 (waitval - clock m) < Z.of_nat fuel →
  ∃ m', spin fuel waitval m = Ret m' ∧ waitval < clock m' ≤ Z.max (waitval + stride) (clock m) + stride ∧ clock m ≤ clock m'
    ∧ lapic_view m' = lapic_view m ∧ (prompt m → prompt m').
Proof.
  revert m. induction fuel as [|fuel IH]; intros m Hf; [lia|]. cbn [spin].
  destruct (rdtsc_law m) as (m1 & -> & Hc & Hv & Hp). destruct (Z.ltb_spec (clock m) waitval) as [Hlt|Hge].
  - destruct (IH m1) as (m' & -> & H1 & H2 & H3 & H4); [lia|]. exists m'. split; [done|]. split; [lia|]. split; [lia|].
    split; [congruence|auto].
  - exists m1. split; [done|]. split; [lia|]. split; [lia|]. by split.
Qed.

(** [sleep] ends, not before the time is over, and only the clock moves. *)
Lemma sleep_spec us m :
  0 ≤ us → 0 ≤ tsc_mhz → clock m + us * tsc_mhz < 2 ^ 64 →
  ∃ m', sleep us m = Ret m' ∧ lapic_view m' = lapic_view m ∧ later (us * tsc_mhz) 2 m m'.
Proof.
  intros Hu Hm Hb. pose proof (clock_nonneg m). unfold sleep, future. destruct (rdtsc_law m) as (m1 & -> & Hc & Hv & Hp).
  rewrite umul_Ret by lia. cbn [mbind run_bind]. rewrite uadd_Ret by lia. cbn [mbind run_bind].
  destruct (spin_spec (Z.to_nat (us * tsc_mhz) + 1) (clock m + us * tsc_mhz) m1) as (m' & -> & H1 & H2 & H3 & H4); [lia|].
  exists m'. split; [done|]. split; [congruence|]. split; [lia|auto].
Qed.

Lemma write_apic_spec r v m :
  ∃ m', write_apic r v m = Ret m' ∧ lapic_view m' = written (lapic_view m) r v ∧ later 0 1 m m'.
Proof.
  destruct (mmio_write_law m r v) as (Hv & Hc & Hp). unfold write_apic, APIC_BASE.
  rewrite uadd_Ret by (destruct r; simpl; lia). eexists. split; [done|]. split; [done|]. split; [lia|done].
Qed.
Lemma read_apic_spec r m :
  ∃ v m', read_apic r m = Ret (v, m') ∧ in_width 32 v ∧ lapic_view m' = lapic_view m ∧ later 0 1 m m'
    ∧ (prompt m → r = InterCmdRegLow → field v 12 13 = 0).
Proof.
  destruct (mmio_read_law m r) as (v & m' & E & Hw & Hv & Hc & Hp & Hb). unfold read_apic, APIC_BASE.
  rewrite uadd_Ret by (destruct r; simpl; lia). cbn [mbind run_bind]. rewrite E. exists v, m'.
  split; [done|]. split; [done|]. split; [done|]. split; [split; [lia|done]|done].
Qed.

(** The registers apart from the interrupt command stay as they are. *)
Definition other_regs (m m' : M) : Prop :=
  ∀ r, r ≠ InterCmdRegLow → r ≠ InterCmdRegHigh → regs (lapic_view m') r = regs (lapic_view m) r.
Lemma other_regs_trans m1 m2 m3 : other_regs m1 m2 → other_regs m2 m3 → other_regs m1 m3.
Proof. intros H1 H2 r Hl Hh. by rewrite H2, H1. Qed.
Lemma other_regs_view m m' : lapic_view m' = lapic_view m → other_regs m m'.
Proof. intros E r _ _. by rewrite E. Qed.

Lemma send_ipi_spec low high m :
  0 ≤ tsc_mhz → prompt m → clock m + 200 * tsc_mhz + 2 * stride < 2 ^ 64 →
  ∃ m', send_ipi low high m = Ret m' ∧ sent (lapic_view m') = sent (lapic_view m) ++ [(high, low)]
    ∧ other_regs m m' ∧ later (200 * tsc_mhz) 5 m m'.
Proof.
  intros Hm Hp Hb. unfold send_ipi. destruct (write_apic_spec InterCmdRegHigh high m) as (m1 & -> & V1 & L1). cbn [mbind run_bind].
  destruct (write_apic_spec InterCmdRegLow low m1) as (m2 & -> & V2 & L2). cbn [mbind run_bind].
  destruct (sleep_spec 200 m2) as (m3 & -> & V3 & L3); [lia|lia|destruct L1, L2; lia|]. cbn [mbind run_bind].
  unfold ipi_pending. destruct (read_apic_spec InterCmdRegLow m3) as (v & m4 & -> & W & V4 & L4 & Hd). cbn [mbind run_bind].
  assert (prompt m3) as P3 by (apply L3, L2, L1; done).
  rewrite bf_get_field by (lia || by apply width_32_64). rewrite (Hd P3 eq_refl). exists m4. split; [done|]. split; [|split].
  - rewrite V4, V3, V2, V1. done.
  - intros r H1 H2. rewrite V4, V3, V2, V1. unfold written. cbn [regs]. by rewrite !decide_False by done.
  - pose proof (later_trans _ _ _ _ _ _ _ (later_trans _ _ _ _ _ _ _ (later_trans _ _ _ _ _ _ _ L1 L2) L3) L4) as L.
    replace (0 + 0 + 200 * tsc_mhz + 0) with (200 * tsc_mhz) in L by lia. done.
Qed.

(** The command words of an inter-processor interrupt: physical destination, no
    shorthand, edge triggered. *)
Definition is_ipi (w : Z * Z) (dest msg_type vec level : Z) : Prop :=
  let '(high, low) := w in
  in_width 32 high ∧ in_width 32 low ∧ field high 24 32 = dest ∧ field high 0 24 = 0
  ∧ field low 0 8 = vec ∧ field low 8 11 = msg_type ∧ field low 11 12 = 0 ∧ field low 14 15 = level ∧ field low 15 16 = 0
  ∧ field low 18 20 = 0.

Lemma command_high_spec dest : 0 ≤ dest < 256 →
  ∃ high, command_high dest = Ret high ∧ in_width 32 high ∧ field high 24 32 = dest ∧ field high 0 24 = 0.
Proof.
  intros Hd. destruct (bf_with_stored 0 24 32 dest) as (b & E & _ & F & O & I); [lia|lia|by vm_compute|lia|].
  exists b. split; [done|]. split; [by apply I; [lia|vm_compute]|]. split; [done|]. rewrite O by lia. done.
Qed.
Lemma command_low_spec vec msg_type level : 0 ≤ vec < 256 → 0 ≤ msg_type < 8 → 0 ≤ level < 2 →
  ∃ low, command_low vec msg_type level = Ret low ∧ in_width 32 low ∧ field low 0 8 = vec ∧ field low 8 11 = msg_type
    ∧ field low 11 12 = 0 ∧ field low 14 15 = level ∧ field low 15 16 = 0 ∧ field low 18 20 = 0.
Proof.
  intros Hv Ht Hl. unfold command_low.
  destruct (bf_with_stored 0 0 8 vec) as (b1 & -> & W1 & F1 & O1 & I1); [lia|lia|by vm_compute|lia|]. cbn [mbind run_bind].
  destruct (bf_with_stored b1 15 16 0) as (b2 & -> & W2 & F2 & O2 & I2); [lia|lia|done|lia|]. cbn [mbind run_bind].
  destruct (bf_with_stored b2 8 11 msg_type) as (b3 & -> & W3 & F3 & O3 & I3); [lia|lia|done|lia|]. cbn [mbind run_bind].
  destruct (bf_with_stored b3 14 15 level) as (b4 & -> & W4 & F4 & O4 & I4); [lia|lia|done|lia|].
  exists b4. split; [done|]. split; [apply I4, I3, I2, I1; (lia || by vm_compute)|].
  rewrite F4, (O4 0 8), (O4 8 11), (O4 11 12), (O4 15 16), (O4 18 20) by lia.
  rewrite F3, (O3 0 8), (O3 11 12), (O3 15 16), (O3 18 20) by lia.
  rewrite F2, (O2 0 8), (O2 11 12), (O2 18 20) by lia. rewrite F1, (O1 11 12), (O1 18 20) by lia. done.
Qed.

(** The timer runs periodically, with the vector of the IDT's timer handler and the count
    that was measured over one second. *)
Lemma init_timer_spec m :
  0 ≤ tsc_mhz → clock m + 1000000 * tsc_mhz + 3 * stride < 2 ^ 64 →
  ∃ m' count, init_timer m = Ret m' ∧ in_width 32 count
    ∧ (∀ r, r ≠ DivideConfReg → r ≠ ApicTimer → r ≠ TimerInitialCount → regs (lapic_view m') r = regs (lapic_view m) r)
    ∧ regs (lapic_view m') DivideConfReg = 0 ∧ regs (lapic_view m') ApicTimer = 0x200e0
    ∧ regs (lapic_view m') TimerInitialCount = 2 ^ 32 - 1 - count ∧ sent (lapic_view m') = sent (lapic_view m)
    ∧ later (1000000 * tsc_mhz) 7 m m'.
Proof.
  intros Hm Hb. unfold init_timer. bf_const 0 0 2 0 => 0. bf_const 0 3 4 0 => 0.
  destruct (write_apic_spec DivideConfReg 0 m) as (m1 & -> & V1 & L1). cbn [mbind run_bind].
  bf_const 0 0 8 (Idt.as_u8 Idt.Timer) => 0xe0. bf_const 0xe0 12 13 0 => 0xe0. bf_const 0xe0 16 17 0 => 0xe0.
  bf_const 0xe0 17 18 1 => 0x200e0.
  destruct (write_apic_spec ApicTimer 0x200e0 m1) as (m2 & -> & V2 & L2). cbn [mbind run_bind].
  destruct (write_apic_spec TimerInitialCount (umax 32) m2) as (m3 & -> & V3 & L3). cbn [mbind run_bind].
  destruct (sleep_spec (1000 * 1000) m3) as (m4 & -> & V4 & L4); [lia|lia|destruct L1, L2, L3; lia|]. cbn [mbind run_bind].
  destruct (read_apic_spec TimerCurrentCount m4) as (count & m5 & -> & W & V5 & L5 & _). cbn [mbind run_bind].
  rewrite usub_Ret by (unfold in_width, umax in *; lia). cbn [mbind run_bind].
  destruct (write_apic_spec TimerInitialCount (umax 32 - count) m5) as (m6 & -> & V6 & L6).
  exists m6, count. split; [done|]. split; [done|]. rewrite V6, V5, V4, V3, V2, V1. unfold written. cbn [regs sent].
  split; [intros r H1 H2 H3; by rewrite !decide_False by done|]. do 4 (split; [done|]).
  destruct L1, L2, L3, L4, L5, L6. split; [lia|tauto].
Qed.

(** A start address the STARTUP interrupt can express: a page below 1 MiB outside the
    reserved vectors. *)
Definition startable (trampoline : Z) : Prop :=
  trampoline < 2 ^ 20 ∧ trampoline mod 4096 = 0 ∧ ¬ 0xa0000 ≤ trampoline < 0xc0000.
#[global] Instance startable_dec t : Decision (startable t).
Proof. unfold startable. apply _. Defined.

Lemma mp_init_cases id trampoline m :
  0 ≤ tsc_mhz → prompt m → 0 ≤ id < 256 → 0 ≤ trampoline < 2 ^ 32 →
  clock m + 10600 * tsc_mhz + 17 * stride < 2 ^ 64 →
  if decide (startable trampoline) then
    ∃ m' i s vec, mp_init id trampoline m = Ret m' ∧ sent (lapic_view m') = sent (lapic_view m) ++ [i; s; s]
      ∧ is_ipi i id 5 0 0 ∧ is_ipi s id 6 vec 1 ∧ vec * 4096 = trampoline
      ∧ other_regs m m' ∧ later (10600 * tsc_mhz) 17 m m'
  else mp_init id trampoline m = Panic Explicit.
Proof.
  intros Hm Hp Hid Ht Hb. pose proof (stride_pos m). pose proof (clock_nonneg m). unfold mp_init.
  destruct (command_low_spec 0 5 0) as (l0 & -> & Hl0); [lia..|]. cbn [mbind run_bind].
  destruct (command_high_spec id Hid) as (h & -> & Hh). cbn [mbind run_bind].
  destruct (send_ipi_spec l0 h m) as (m1 & -> & S1 & O1 & L1); [done|done|lia|]. cbn [mbind run_bind].
  assert (Z.land trampoline 0xfff = trampoline mod 4096) as -> by apply (land_mask trampoline 12 ltac:(lia)).
  rewrite Z.shiftr_div_pow2 by lia. change (2 ^ 12) with 4096.
  pose proof (Z.div_mod trampoline 4096 ltac:(lia)) as Ed. pose proof (Z.mod_pos_bound trampoline 4096 ltac:(lia)).
  case_decide as Hs; unfold startable in Hs.
  - destruct Hs as (Hlow & Hmod & Hres). rewrite (proj2 (Z.leb_gt _ _)) by lia. rewrite Hmod. cbn [Z.eqb negb].
    unfold cast. rewrite Z.mod_small by lia. rewrite andb_comm. destruct (Z.leb_spec (trampoline / 4096) 0xbf); cbn [andb];
      [rewrite (proj2 (Z.leb_gt _ _)) by lia|].
    all: destruct (sleep_spec (10 * 1000) m1) as (m2 & -> & V2 & L2); [lia|lia|destruct L1; lia|]; cbn [mbind run_bind];
      destruct (command_low_spec (trampoline / 4096) 6 1) as (l1 & -> & Hl1); [lia..|]; cbn [mbind run_bind];
      destruct (send_ipi_spec l1 h m2) as (m3 & -> & S3 & O3 & L3); [done|by apply L2, L1|destruct L1, L2; lia|]; cbn [mbind run_bind];
      destruct (send_ipi_spec l1 h m3) as (m4 & -> & S4 & O4 & L4); [done|by apply L3, L2, L1|destruct L1, L2, L3; lia|];
      exists m4, (h, l0), (h, l1), (trampoline / 4096);
      (split; [done|]); (split; [by rewrite S4, S3, V2, S1, <- !(assoc_L app)|]);
      (split; [by split_and!; apply Hh || apply Hl0|]); (split; [by split_and!; apply Hh || apply Hl1|]); (split; [lia|]);
      (split; [exact (other_regs_trans _ _ _ (other_regs_trans _ _ _ (other_regs_trans _ _ _ O1 (other_regs_view _ _ V2)) O3) O4)|]);
      destruct L1, L2, L3, L4; (split; [lia|tauto]).
  - destruct (Z.leb_spec 0x100000 trampoline); [done|]. destruct (Z.eqb_spec (trampoline mod 4096) 0); [|done]. cbn [negb].
    unfold cast. rewrite Z.mod_small by lia. rewrite (proj2 (Z.leb_le _ _)), (proj2 (Z.leb_le _ _)) by lia. done.
Qed.
(** C23: [mp_init], on a local APIC that delivers promptly and well before the time
    stamp counter overflows, sends the given processor INIT and then two STARTUP
    interrupts, each a physical, edge triggered command to that processor, whose
    vector makes it start at exactly the trampoline; if the trampoline's address
    cannot be expressed in a vector it panics instead. *)
Theorem mp_init_starts_core id trampoline m :
  0 ≤ tsc_mhz → prompt m → 0 ≤ id < 256 → 0 ≤ trampoline < 2 ^ 32 →
  clock m + 10600 * tsc_mhz + 17 * stride < 2 ^ 64 →
  if decide (startable trampoline) then
    ∃ m' i s vec, mp_init id trampoline m = Ret m' ∧ sent (lapic_view m') = sent (lapic_view m) ++ [i; s; s]
      ∧ is_ipi i id 5 0 0 ∧ is_ipi s id 6 vec 1 ∧ vec * 4096 = trampoline
      ∧ clock m + 10600 * tsc_mhz ≤ clock m'
  else mp_init id trampoline m = Panic Explicit.
Proof.
  intros Hm Hp Hid Ht Hb. pose proof (mp_init_cases id trampoline m Hm Hp Hid Ht Hb) as H. case_decide; [|exact H].
  destruct H as (m' & i & s & vec & H1 & H2 & H3 & H4 & H5 & _ & [H6 _]). exists m', i, s, vec. split_and!; (done || lia).
Qed.
End driver.

(** ** [cpuid] leaf 1 and the base register *)
Record cpuid_leaf := mkCpuid { eax : Z; ebx : Z; ecx : Z; edx : Z }.
Definition is_supported (feature : cpuid_leaf) : bool := negb (Z.land (edx feature) (Z.shiftl 1 9) =? 0).
Definition apic_id (res : cpuid_leaf) : Z := cast 8 (Z.shiftr (ebx res) 24).
Definition IA32_APIC_BASE : Z := 0x1b.
Definition is_bsp {MB : ModularBitfield} (msrs : Msr.machine) : run bool :=
  base_reg ← Msr.msr_read msrs IA32_APIC_BASE; Ret (bf_get base_reg 8 9 =? 1).

(** ** [init] *)
Section init.
Context {BF : BitField} {MB : ModularBitfield} {M : Type} `{!LapicIO M} {P : Type} `{!PortIO P}
  `{!PageTableFrameMapping} {A : Type} `{!FrameAllocator A}.
Variable tsc_mhz : Z.

(** What [init] works on: the processor, the page tables, the interrupt controllers. *)
Record system := mkSystem {
  cpu : M; msrs : Msr.machine; leaf1 : cpuid_leaf;
  pics : Pic.ChainedPics; ports : P;
  space : Mapper.tables; allocator : A
}.

Definition apic_flags : Z :=
  Z.lor (Z.lor (Z.lor Paging.WRITABLE Paging.NO_CACHE) Paging.NO_EXECUTE) Paging.HUGE_PAGE.

Definition init (s : system) (p4 : Z) (mask_pics : bool) (memory_map : MemoryMap.MemoryMap) : run system :=
  if negb (is_supported (leaf1 s)) then Panic Explicit else
  a ← phys_new APIC_BASE;
  frame ← Paging.frame_containing_address Paging.Size2MiB a;
  '(t, fa, r) ← KernelMemory.id_map Paging.Size2MiB (space s) (allocator s) p4 frame (Some apic_flags);
  _ ← unwrap (match r with Ok p => Some p | Err _ => None end);
  base_reg ← Msr.msr_read (msrs s) IA32_APIC_BASE;
  let base_addr := ushl 64 (bf_get base_reg 12 52) 12 in
  let base_addr := if negb (base_addr =? APIC_BASE) then APIC_BASE else base_addr in
  region ← MemoryMap.get_region_by_addr memory_map base_addr;
  _ ← match region with
      | Some region => if decide (MemoryMap.region_type region = MemoryMap.Usable) then Panic Explicit else Ret tt
      | None => Ret tt
      end;
  base_reg ← bf_with base_reg 11 12 1;
  base_reg ← bf_with base_reg 12 52 (Z.shiftr APIC_BASE 12);
  ms ← Msr.msr_write (msrs s) IA32_APIC_BASE base_reg;
  '(c, io) ← (if bf_get base_reg 8 9 =? 1 then Pic.init_chained_pics mask_pics (pics s) (ports s) else Ret (pics s, ports s));
  spur_vec ← bf_with 0 0 8 (Idt.as_u8 Idt.Spurious);
  spur_vec ← bf_with spur_vec 8 9 1;
  spur_vec ← bf_with spur_vec 9 10 0;
  m ← write_apic SpurInterVecReg spur_vec (cpu s);
  '(_, m) ← read_apic ApicVersion m;
  m ← write_apic TaskPrioReg 0 m;
  m ← init_timer tsc_mhz m;
  Ret (mkSystem m ms (leaf1 s) c io t fa).

(** ** Properties of [init] *)
(** [id_map] of a huge page: the flag is set anyway. *)
Lemma id_map_huge t (a : A) p4 f fl :
  KernelMemory.id_map Paging.Size2MiB t a p4 f (Some (Z.lor fl Paging.HUGE_PAGE))
  = KernelMemory.id_map Paging.Size2MiB t a p4 f (Some fl).
Proof.
  assert (Z.lor (Z.lor Paging.PRESENT (Z.lor fl Paging.HUGE_PAGE)) Paging.HUGE_PAGE = Z.lor (Z.lor Paging.PRESENT fl) Paging.HUGE_PAGE) as E1.
  { by rewrite <- !Z.lor_assoc, Z.lor_diag. }
  assert (∀ k, Z.land Paging.HUGE_PAGE k = 0 → Z.land (Z.lor Paging.PRESENT (Z.lor fl Paging.HUGE_PAGE)) k = Z.land (Z.lor Paging.PRESENT fl) k) as E2.
  { intros k Hk. rewrite Z.lor_assoc, Z.land_lor_distr_l, Hk. apply Z.lor_0_r. }
  unfold KernelMemory.id_map. cbn [default from_option id]. cbv zeta. unfold id. unfold Mapper.update_flags, Mapper.update_flags_2mib. rewrite E1.
  unfold Mapper.identity_map, Mapper.map_to. rewrite E2 by done.
  unfold Mapper.map_to_with_table_flags, Mapper.map_to_2mib. rewrite E1. done.
Qed.

Definition page_flags : Z := Z.lor (Z.lor Paging.WRITABLE Paging.NO_CACHE) Paging.NO_EXECUTE.
(** The page of the registers, mapped to itself by the boot page tables. *)
Lemma id_map_apic t (a : A) p4 path off fl :
  Mapper.tree t p4 path → Mapper.alloc_ok t a →
  Mapper.translate t p4 APIC_BASE = Ret (Mapper.Mapped (Mapper.Frame Paging.Size2MiB APIC_BASE) off fl) →
  ∃ t' a' path', KernelMemory.id_map Paging.Size2MiB t a p4 APIC_BASE (Some apic_flags) = Ret (t', a', Ok APIC_BASE)
    ∧ Mapper.tree t' p4 path' ∧ Mapper.alloc_ok t' a'
    ∧ ∀ v, Mapper.translate t' p4 v =
        if decide (Mapper.in_page Paging.Size2MiB APIC_BASE v)
        then Ret (Mapper.Mapped (Mapper.Frame Paging.Size2MiB APIC_BASE) (v mod Paging.SIZE Paging.Size2MiB)
                    (Z.lor (Z.lor Paging.PRESENT page_flags) Paging.HUGE_PAGE))
        else Mapper.translate t p4 v.
Proof.
  intros Ht Ha Htr. change apic_flags with (Z.lor page_flags Paging.HUGE_PAGE). rewrite id_map_huge.
  destruct (KernelMemory.id_map_cases Paging.Size2MiB t a p4 path APIC_BASE (Some page_flags))
    as (t' & a' & r & path' & E & Ht' & Ha' & Ho); [done|done|by vm_compute|by vm_compute|by vm_compute|by vm_compute|].
  exists t', a', path'. destruct r as [page|[| | |]]; unfold KernelMemory.id_map_outcome in Ho.
  - destruct Ho as [-> Ho]. done.
  - destruct Ho as [Ho _]. by rewrite Htr in Ho.
  - done.
  - destruct Ho as (_ & _ & Hne & off' & fl' & Ho). rewrite Htr in Ho. congruence.
  - destruct Ho as (_ & s' & g & off' & Hne & Ho). rewrite Htr in Ho. congruence.
Qed.

Lemma init_chained_pics_returns b (c : Pic.ChainedPics) (io : P) : ∃ c' io', Pic.init_chained_pics b c io = Ret (c', io').
Proof.
  unfold Pic.init_chained_pics. destruct b; cbn [negb]; [destruct (Pic.mask_all c _) as [c' io']; by exists c', io'|].
  by eexists _, _.
Qed.

(** What [init] establishes. *)
Record in_service (s s' : system) (p4 old : Z) (mask_pics : bool) : Prop := {
  svc_base : ∃ base, msrs s' = <[IA32_APIC_BASE := base]> (msrs s) ∧ in_width 64 base
    ∧ field base 12 52 * 4096 = APIC_BASE ∧ field base 11 12 = 1
    ∧ field base 0 11 = field old 0 11 ∧ field base 52 64 = field old 52 64;
  svc_page v : Mapper.translate (space s') p4 v =
    if decide (Mapper.in_page Paging.Size2MiB APIC_BASE v)
    then Ret (Mapper.Mapped (Mapper.Frame Paging.Size2MiB APIC_BASE) (v mod Paging.SIZE Paging.Size2MiB)
                (Z.lor (Z.lor Paging.PRESENT page_flags) Paging.HUGE_PAGE))
    else Mapper.translate (space s) p4 v;
  svc_spurious : let w := regs (lapic_view (cpu s')) SpurInterVecReg in
    field w 0 8 = Idt.as_u8 Idt.Spurious ∧ field w 8 9 = 1;
  svc_priority : regs (lapic_view (cpu s')) TaskPrioReg = 0;
  svc_timer : let w := regs (lapic_view (cpu s')) ApicTimer in
    field w 0 8 = Idt.as_u8 Idt.Timer ∧ field w 16 17 = 0 ∧ field w 17 18 = 1;
  svc_count : ∃ count, in_width 32 count ∧ regs (lapic_view (cpu s')) TimerInitialCount = 2 ^ 32 - 1 - count;
  svc_pics : if decide (field old 8 9 = 1) then Pic.init_chained_pics mask_pics (pics s) (ports s) = Ret (pics s', ports s')
             else pics s' = pics s ∧ ports s' = ports s
}.

Lemma apic_init_cases s p4 path mask_pics mm old off fl o :
  is_supported (leaf1 s) = true → Mapper.tree (space s) p4 path → Mapper.alloc_ok (space s) (allocator s) →
  Mapper.translate (space s) p4 APIC_BASE = Ret (Mapper.Mapped (Mapper.Frame Paging.Size2MiB APIC_BASE) off fl) →
  msrs s !! IA32_APIC_BASE = Some old → in_width 64 old →
  MemoryMap.get_region_by_addr mm APIC_BASE = Ret o → (∀ r, o = Some r → MemoryMap.region_type r ≠ MemoryMap.Usable) →
  0 ≤ tsc_mhz → clock (cpu s) + 1000000 * tsc_mhz + 6 * stride < 2 ^ 64 →
  ∃ s' path', init s p4 mask_pics mm = Ret s' ∧ Mapper.tree (space s') p4 path' ∧ Mapper.alloc_ok (space s') (allocator s')
    ∧ in_service s s' p4 old mask_pics
    ∧ leaf1 s' = leaf1 s ∧ sent (lapic_view (cpu s')) = sent (lapic_view (cpu s)) ∧ later (1000000 * tsc_mhz) 10 (cpu s) (cpu s').
Proof.
  intros Hsup Ht Ha Htr Hmsr Hold Hreg Hus Hm Hb. pose proof (stride_pos (cpu s)). unfold init. rewrite Hsup. cbn [negb].
  rewrite phys_new_Ret by (unfold APIC_BASE; lia). cbn [mbind run_bind].
  rewrite Mapper.frame_containing_spec by (by vm_compute). change (APIC_BASE - _) with APIC_BASE. cbn [mbind run_bind].
  destruct (id_map_apic _ _ _ _ _ _ Ht Ha Htr) as (t' & a' & path' & -> & Ht' & Ha' & Htr'). cbn [mbind run_bind unwrap].
  rewrite (Msr.msr_read_Ret _ _ old) by done. cbn [mbind run_bind].
  assert (∀ b : Z, (if negb (b =? APIC_BASE) then APIC_BASE else b) = APIC_BASE) as ->.
  { intros b. destruct (Z.eqb_spec b APIC_BASE); done. }
  rewrite Hreg. cbn [mbind run_bind].
  assert (match o with Some r => if decide (MemoryMap.region_type r = MemoryMap.Usable) then Panic Explicit else Ret tt | None => Ret tt end
          = Ret tt) as ->.
  { destruct o as [r|]; [|done]. rewrite decide_False; [done|]. by apply Hus. }
  cbn [mbind run_bind].
  destruct (bf_with_stored old 11 12 1) as (b1 & -> & W1 & F1 & O1 & _); [lia|lia|done|lia|]. cbn [mbind run_bind].
  destruct (bf_with_stored b1 12 52 (Z.shiftr APIC_BASE 12)) as (b2 & -> & W2 & F2 & O2 & _); [lia|lia|done|by vm_compute|].
  cbn [mbind run_bind]. rewrite (Msr.msr_write_Ret _ _ old) by done. cbn [mbind run_bind].
  rewrite bf_get_field, (O2 8 9), (O1 8 9) by (done || lia).
  destruct (init_chained_pics_returns mask_pics (pics s) (ports s)) as (c1 & io1 & Hpic).
  assert (∃ c io, (if field old 8 9 =? 1 then Pic.init_chained_pics mask_pics (pics s) (ports s) else Ret (pics s, ports s)) = Ret (c, io)
    ∧ if decide (field old 8 9 = 1) then Pic.init_chained_pics mask_pics (pics s) (ports s) = Ret (c, io)
      else c = pics s ∧ io = ports s) as (c & io & -> & Hpics).
  { destruct (Z.eqb_spec (field old 8 9) 1) as [E|E]; [exists c1, io1; by rewrite decide_True|].
    exists (pics s), (ports s). by rewrite decide_False. }
  cbn [mbind run_bind]. bf_const 0 0 8 (Idt.as_u8 Idt.Spurious) => 0xff. bf_const 0xff 8 9 1 => 0x1ff. bf_const 0x1ff 9 10 0 => 0x1ff.
  destruct (write_apic_spec SpurInterVecReg 0x1ff (cpu s)) as (m1 & -> & V1 & L1). cbn [mbind run_bind].
  destruct (read_apic_spec ApicVersion m1) as (ver & m2 & -> & _ & V2 & L2 & _). cbn [mbind run_bind].
  destruct (write_apic_spec TaskPrioReg 0 m2) as (m3 & -> & V3 & L3). cbn [mbind run_bind].
  destruct (init_timer_spec tsc_mhz m3) as (m4 & count & -> & Wc & R4 & D4 & T4 & C4 & S4 & L4); [lia|destruct L1, L2, L3; lia|].
  cbn [mbind run_bind]. eexists _, path'. split; [done|]. cbn [space allocator]. split; [done|]. split; [done|].
  split; [|cbn [leaf1 cpu]; split; [done|]; rewrite S4, V3, V2, V1; split; [done|]; destruct L1, L2, L3, L4; split; [lia|tauto]].
  constructor; cbn [msrs space cpu pics ports]; [|exact Htr'|..|by exists count|done].
  - exists b2. split; [done|]. split; [done|]. rewrite F2, !O2, F1, !O1 by lia. done.
  - rewrite R4, V3, V2, V1 by done. unfold written. cbn [regs]. rewrite decide_False, decide_True by done. by vm_compute.
  - rewrite R4, V3 by done. unfold written. cbn [regs]. by rewrite decide_True.
  - rewrite T4. by vm_compute.
Qed.
(** [apic::init], on a processor with an APIC whose register page the boot
    page tables map to itself and which no usable memory overlaps, never panics
    and ends.  It enables the APIC at its base address keeping the other bits of
    the base register, maps the register page uncached, writable and not
    executable and changes no other translation, lets all interrupts through,
    routes spurious ones and the periodic timer to their vectors of the IDT, and
    programs the legacy controllers exactly on the bootstrap processor. *)
Theorem apic_init_serves s p4 path mask_pics mm old off fl o :
  is_supported (leaf1 s) = true → Mapper.tree (space s) p4 path → Mapper.alloc_ok (space s) (allocator s) →
  Mapper.translate (space s) p4 APIC_BASE = Ret (Mapper.Mapped (Mapper.Frame Paging.Size2MiB APIC_BASE) off fl) →
  msrs s !! IA32_APIC_BASE = Some old → in_width 64 old →
  MemoryMap.get_region_by_addr mm APIC_BASE = Ret o → (∀ r, o = Some r → MemoryMap.region_type r ≠ MemoryMap.Usable) →
  0 ≤ tsc_mhz → clock (cpu s) + 1000000 * tsc_mhz + 6 * stride < 2 ^ 64 →
  ∃ s' path', init s p4 mask_pics mm = Ret s' ∧ Mapper.tree (space s') p4 path' ∧ Mapper.alloc_ok (space s') (allocator s')
    ∧ in_service s s' p4 old mask_pics.
Proof.
  intros H1 H2 H3 H4 H5 H6 H7 H8 H9 H10.
  destruct (apic_init_cases s p4 path mask_pics mm old off fl o H1 H2 H3 H4 H5 H6 H7 H8 H9 H10) as (s' & path' & Hr & Ht & Ha & Hs & _).
  by exists s', path'.
Qed.
End init.

(** ** Instances *)
#[local] Existing Instance bit_field_model.
#[local] Instance bitfield_model : ModularBitfield := {| modular := bit_field_model |}.
(** A processor whose counter advances by one per access and whose APIC answers zeros. *)
Record quiet := mkQuiet { q_view : view; q_clock : N }.
Definition register_of (offset : Z) : option Register :=
  list_find (λ r, register_offset r = offset)
    [ApicId; SpurInterVecReg; ApicVersion; EndOfInterrupt; ApicTimer; TimerCurrentCount; TimerInitialCount; DivideConfReg;
     TaskPrioReg; DestFormatReg; LogicalDestReg; InterCmdRegLow; InterCmdRegHigh] ≫= λ '(_, r), Some r.
Definition tick (q : quiet) : quiet := mkQuiet (q_view q) (q_clock q + 1).
Lemma register_of_offset r : register_of (0xfee00000 + register_offset r - 0xfee00000) = Some r.
Proof. by destruct r; vm_compute. Qed.
#[local] Program Instance quiet_lapic : LapicIO quiet := {|
  mmio_read q p := (0, tick q);
  mmio_write q p v :=
    match register_of (p - 0xfee00000) with
    | Some r => mkQuiet (written (q_view q) r v) (q_clock q + 1)
    | None => q
    end;
  rdtsc q := (Z.of_N (q_clock q), tick q);
  lapic_view := q_view;
  clock q := Z.of_N (q_clock q);
  prompt _ := True;
  stride := 1
|}.
Next Obligation. intros m. eexists. split; [done|]. cbn [q_clock tick q_view]. split; [lia|done]. Qed.
Next Obligation. intros m. simpl. lia. Qed.
Next Obligation.
  intros m r v. simpl. rewrite register_of_offset. cbn [q_view q_clock]. split; [done|]. split; [lia|done].
Qed.
Next Obligation.
  intros m r. exists 0, (tick m). split; [done|]. split; [by vm_compute|]. split; [done|]. cbn [q_clock tick].
  split; [lia|]. by split.
Qed.
Definition idle : quiet := mkQuiet (mkView (λ _, 0) [] 0) 0.

Lemma mp_init_starts_core_witness :
  ∃ m' i s vec, mp_init 3000 1 0x8000 idle = Ret m' ∧ sent (lapic_view m') = [i; s; s] ∧ is_ipi s 1 6 vec 1 ∧ vec * 4096 = 0x8000.
Proof.
  pose proof (mp_init_starts_core 3000 1 0x8000 idle ltac:(lia) I ltac:(lia) ltac:(lia) ltac:(by vm_compute)) as H.
  rewrite decide_True in H by (split; [lia|]; split; [done|lia]). destruct H as (m' & i & s & vec & H & Hs & _ & Hi & Hv & _).
  exists m', i, s, vec. split; [exact H|]. split; [exact Hs|]. split; [exact Hi|exact Hv].
Defined.

(** A machine on which the register page is mapped with 2 MiB pages. *)
Lemma apic_space :
  ∃ t a path fl, Mapper.tree t 0x1000 path ∧ Mapper.alloc_ok (A := FrameAlloc.BootInfoFrameAllocator) t a
    ∧ Mapper.translate t 0x1000 APIC_BASE = Ret (Mapper.Mapped (Mapper.Frame Paging.Size2MiB APIC_BASE) 0 fl).
Proof.
  destruct (KernelMemory.id_map_cases Paging.Size2MiB Mapper.empty_space (FrameAlloc.new MemoryMap.sample) 0x1000 (λ _, []) APIC_BASE None)
    as (t & a & r & path & E & Ht & Ha & Ho);
    [exact Mapper.empty_tree|exact Mapper.empty_alloc_ok|by vm_compute|by vm_compute|by vm_compute|by vm_compute|].
  assert (match KernelMemory.id_map Paging.Size2MiB Mapper.empty_space (FrameAlloc.new MemoryMap.sample) 0x1000 APIC_BASE None with
          | Ret (_, _, Ok _) => true | _ => false end = true) as Hok by (vm_compute; reflexivity).
  rewrite E in Hok. destruct r as [page|]; [|discriminate Hok]. destruct Ho as [_ Ho].
  eexists t, a, path, _. split; [done|]. split; [done|]. rewrite Ho, decide_True by apply Mapper.in_page_self. done.
Qed.
Definition apic_msrs : Msr.machine := {[ IA32_APIC_BASE := 0xfee00900 ]}.
Lemma apic_init_serves_witness :
  ∃ t a (s' : system), init 3000 (mkSystem (M := quiet) idle apic_msrs (mkCpuid 0 0 0 0x200) Pic.PICS Pic.busy_chips t a) 0x1000 false MemoryMap.sample
      = Ret s' ∧ field (default 0 (msrs s' !! IA32_APIC_BASE)) 11 12 = 1.
Proof.
  destruct apic_space as (t & a & path & fl & Ht & Ha & Htr). exists t, a.
  destruct (apic_init_serves 3000 (mkSystem (M := quiet) idle apic_msrs (mkCpuid 0 0 0 0x200) Pic.PICS Pic.busy_chips t a) 0x1000 path false
    MemoryMap.sample 0xfee00900 0 fl None) as (s' & path' & H & _ & _ & [Hb _ _ _ _ _ _]);
    [by vm_compute|exact Ht|exact Ha|exact Htr|by vm_compute|by vm_compute|by vm_compute|done|lia|by vm_compute|].
  exists s'. split; [exact H|]. destruct Hb as (base & -> & _ & _ & Hen & _). rewrite lookup_insert_eq. exact Hen.
Defined.
End Lapic.
