(* ===== verification/Stacks.v ===== *)
(** * crates/bootloader/src/main.rs: stacks for the cores

    For every local APIC the bootloader takes 10 MiB of usable memory, an 8 MiB stack
    above a 2 MiB guard page, records it in the boot information and retypes the
    memory; then it takes eight smaller stacks per core for interrupts and maps them
    with 4 KiB pages.  The iterator over usable frames reads the memory map that these
    loops change ([FrameAlloc.iter_next]); what protects the stacks is the check of
    every retyping.  The 2 MiB pages that are split for the smaller stacks were usable at
    that moment, so the entries of the guard pages stay ([allocate_stacks_cases]). *)
From S2P Require Import Prelude MemoryMap FrameAlloc Addr Paging Mapper KernelMemory Mmu Boot Cores Gdt.
Import MemoryMap FrameAlloc.

Module Stacks.

Definition TWO_MEG : Z := Boot.TWO_MEG.
Definition stack_size : Z := TWO_MEG * 4.
Definition guard_page : Z := TWO_MEG.
Definition tss_stack_size : Z := 4096 * 30.
Definition tss_guard_page : Z := 4096 * 2.

(** The parts of the machine the two phases work on: the memory map and the cores of the
    boot information, and the page tables. *)
Record boot := mkBoot { mm : MemoryMap; cs : Cores.Cores; tb : Mapper.tables }.

(** [u64::try_into::<u32>().unwrap()]. *)
Definition to_u32 (v : Z) : run Z := if v <? 2 ^ 32 then Ret v else Panic Unwrap.
(** Peeking leaves the element in the iterator. *)
Definition iter_peek (m : MemoryMap) (it : FrameAlloc.frame_iter) : run (option Z * FrameAlloc.frame_iter) :=
  '(o, it') ← FrameAlloc.iter_next m it;
  Ret (o, match o with
          | Some a => FrameAlloc.mkIter (FrameAlloc.xsize it') (FrameAlloc.alignment it') (FrameAlloc.idx it')
                        (FrameAlloc.stop it') (a :: FrameAlloc.pending it')
          | None => it'
          end).

Section phases.
Context `{!SortUnstable MemoryRegion}.
(** The level 3 table, and the level 1 tables for the interrupt stacks. *)
Variables p3 p1_tss_start p1_tss_end : Z.

(** ** The entry of a 2 MiB page *)
Definition p3_index (addr : Z) : Z := Z.land (Z.shiftr (Z.shiftr (Z.shiftr addr 12) 9) 9) 0x1ff.
Definition p2_index (addr : Z) : Z := Z.land (Z.shiftr (Z.shiftr addr 12) 9) 0x1ff.
Definition p1_index (addr : Z) : Z := Z.land (Z.shiftr addr 12) 0x1ff.
(** [PageTableEntry::set_flags] of the bootloader. *)
Definition boot_set_flags (entry fl : Z) : Z := Z.lor (Mmu.boot_addr entry) fl.
Definition GUARD_FLAGS : Z := Z.lor (Z.lor Paging.PRESENT Paging.HUGE_PAGE) Paging.NO_EXECUTE.
Definition protect_guard (t : Mapper.tables) (addr : Z) : run Mapper.tables :=
  e3 ← Mapper.read_entry t p3 (p3_index addr);
  let p2 := Mmu.boot_addr e3 in
  e2 ← Mapper.read_entry t p2 (p2_index addr);
  Mapper.write_entry t p2 (p2_index addr) (boot_set_flags e2 GUARD_FLAGS).

(** ** The stack of a core *)
Definition core_stack (ix : nat * Z) (st : boot * FrameAlloc.frame_iter) : run (boot * FrameAlloc.frame_iter) :=
  let '(i, lapic_id) := ix in
  let '(b, iter) := st in
  c ← Cores.add_core (cs b);
  '(o, iter) ← FrameAlloc.iter_next (mm b) iter;
  addr ← unwrap o;
  x ← uadd 64 addr stack_size;
  stack_start ← uadd 64 x guard_page;
  c ← Cores.update_core c i (λ core, v ← to_u32 stack_start; Ret (Cores.set_stack_start core v));
  stack_end ← uadd 64 addr guard_page;
  e ← to_u32 stack_end;
  c ← Cores.update_core c i (λ core, Ret (Cores.set_stack_end core e));
  c ← Cores.update_core c i (λ core, Ret (Cores.set_apic_id core lapic_id));
  t ← protect_guard (tb b) addr;
  m ← Boot.partition_unwrap (mm b) addr stack_end GuardPage;
  m ← Boot.partition_unwrap m stack_end stack_start KernelStack;
  Ret (mkBoot m c t, iter).

Definition core_stacks (lapics : list Z) (b : boot) : run boot :=
  iter ← FrameAlloc.usable_xsize_frames (mm b) (stack_size + guard_page) TWO_MEG;
  '(b, _) ← for_each core_stack (imap pair lapics) (b, iter);
  Ret b.
Definition check_num_cores (b : boot) : run unit :=
  if Z.of_nat Cores.MAX_CORES <? Cores.num_cores (cs b) then Panic Explicit
  else if Cores.num_cores (cs b) =? 0 then Panic Explicit
  else Ret tt.

(** ** The interrupt stacks of the cores *)
(** One of the eight stacks: [p1] is the level 1 table in use. *)
Definition tss_stack (ci : nat) (p1 : Z) (i : nat) (st : boot * FrameAlloc.frame_iter) : run (boot * FrameAlloc.frame_iter) :=
  let '(b, iter) := st in
  '(o, iter) ← FrameAlloc.iter_next (mm b) iter;
  addr ← unwrap o;
  x ← uadd 64 addr tss_stack_size;
  stack_start ← uadd 64 x tss_guard_page;
  c ← Cores.update_core (cs b) ci
        (λ core, v ← to_u32 stack_start; t ← Cores.tss_set_stack_start (Cores.tss core) i v; Ret (Cores.set_tss core t));
  stack_end ← uadd 64 addr tss_guard_page;
  e ← to_u32 stack_end;
  c ← Cores.update_core c ci (λ core, t ← Cores.tss_set_stack_end (Cores.tss core) i e; Ret (Cores.set_tss core t));
  let start_index := p1_index addr in
  t ← for_each (λ ib t, let '(k, bytes) := ib in
                  a ← uadd 64 addr bytes;
                  e ← Mmu.boot_set_addr a (Z.lor Paging.PRESENT Paging.NO_EXECUTE);
                  Mapper.write_entry t p1 (start_index + Z.of_nat k) e)
         (imap pair (step_by 0 tss_guard_page 4096)) (tb b);
  m ← Boot.partition_unwrap (mm b) addr stack_end GuardPage;
  m ← Boot.partition_unwrap m stack_end stack_start TSSstack;
  Ret (mkBoot m c t, iter).

(** A level 1 table for the 2 MiB page at [addr], all of it writable. *)
Definition split_page (addr p : Z) (t : Mapper.tables) : run Mapper.tables :=
  let t := Mmu.zero_table t p in
  rest ← urem addr TWO_MEG;
  if negb (rest =? 0) then Panic Explicit else
  e3 ← Mapper.read_entry t p3 (p3_index addr);
  let p2 := Mmu.boot_addr e3 in
  entry ← Mmu.boot_set_addr p (Z.lor Paging.PRESENT Paging.WRITABLE);
  t ← Mapper.write_entry t p2 (p2_index addr) entry;
  es ← mapM (λ i, o ← umul 64 i 4096; a ← uadd 64 addr o; Mmu.boot_set_addr a (Z.lor Paging.PRESENT Paging.WRITABLE)) (seqZ 0 512);
  Ret (<[p := es]> t).

Record tss_state := mkTssState {
  ts_boot : boot; ts_iter : FrameAlloc.frame_iter; ts_tables : FrameAlloc.PageTableAllocator; ts_p1 : option Z
}.
Definition core_tss_stacks (ci : nat) (s : tss_state) : run tss_state :=
  let b := ts_boot s in
  '(o, iter) ← iter_peek (mm b) (ts_iter s);
  addr ← unwrap o;
  '(b, pa, p1_table) ←
    (if Nat.even ci then
       '(o, pa) ← FrameAlloc.page_table_next (ts_tables s);
       p ← unwrap o;
       t ← split_page addr p (tb b);
       Ret (mkBoot (mm b) (cs b) t, pa, Some p)
     else Ret (b, ts_tables s, ts_p1 s));
  p1 ← unwrap p1_table;
  '(b, iter) ← for_each (tss_stack ci p1) (seq 0 8) (b, iter);
  Ret (mkTssState b iter pa p1_table).
Definition tss_stacks (b : boot) : run boot :=
  iter ← FrameAlloc.usable_xsize_frames (mm b) (tss_stack_size + tss_guard_page) TWO_MEG;
  s ← for_each core_tss_stacks (seq 0 (Z.to_nat (Cores.num_cores (cs b))))
        (mkTssState b iter (FrameAlloc.mkPTA 0 p1_tss_start p1_tss_end) None);
  Ret (ts_boot s).

Definition allocate_stacks (lapics : list Z) (b : boot) : run boot :=
  b ← core_stacks lapics b;
  _ ← check_num_cores b;
  tss_stacks b.

(** ** Carving a stack out of usable memory *)
(** The memory of the stacks at the addresses [l]: a guard of [g] bytes below [k] bytes
    of type [ty] each; every other address as before. *)
Definition in_guard (g : Z) (l : list Z) (x : Z) : Prop := Exists (λ a, a ≤ x < a + g) l.
Definition in_stack (g k : Z) (l : list Z) (x : Z) : Prop := Exists (λ a, a + g ≤ x < a + g + k) l.
#[global] Instance in_guard_dec g l x : Decision (in_guard g l x).
Proof. unfold in_guard. apply _. Defined.
#[global] Instance in_stack_dec g k l x : Decision (in_stack g k l x).
Proof. unfold in_stack. apply _. Defined.
Record carved (g k : Z) (ty : MemoryRegionType) (m : MemoryMap) (l : list Z) (m' : MemoryMap) : Prop := {
  carved_sound : Boot.sound m';
  carved_room : (next_entry_index m' ≤ next_entry_index m + 4 * length l)%nat;
  carved_usable x : in_guard (g + k) l x → ∃ u, is_usable u = true ∧ owners (live m) x ≡ₚ [u];
  carved_owner x : owners (live m') x ≡ₚ
    if decide (in_guard g l x) then [GuardPage] else if decide (in_stack g k l x) then [ty] else owners (live m) x;
  carved_apart i j a b : l !! i = Some a → l !! j = Some b → i ≠ j → a + g + k ≤ b ∨ b + g + k ≤ a
}.

Lemma carved_nil g k ty m : Boot.sound m → carved g k ty m [] m.
Proof.
  intros Hs. split; [done|simpl; lia| | |done].
  - intros x H. by apply Exists_nil in H.
  - intros x. rewrite !decide_False; [done|by intros ?%Exists_nil|by intros ?%Exists_nil].
Qed.

Lemma in_guard_snoc g l a x : in_guard g (l ++ [a]) x ↔ in_guard g l x ∨ a ≤ x < a + g.
Proof. unfold in_guard. rewrite Exists_app, Exists_cons, Exists_nil. tauto. Qed.
Lemma in_stack_snoc g k l a x : in_stack g k (l ++ [a]) x ↔ in_stack g k l x ∨ a + g ≤ x < a + g + k.
Proof. unfold in_stack. rewrite Exists_app, Exists_cons, Exists_nil. tauto. Qed.

(** One more stack, when both retypings were accepted. *)
Lemma carve_step g k ty m l m1 a m2 m3 :
  is_usable ty = false → 0 < g → 0 < k → 0 ≤ a → (next_entry_index m + 4 * length l + 4 ≤ MAX_MEMORY_MAP_SIZE)%nat →
  carved g k ty m l m1 →
  Boot.partition_unwrap m1 a (a + g) GuardPage = Ret m2 → Boot.partition_unwrap m2 (a + g) (a + g + k) ty = Ret m3 →
  carved g k ty m (l ++ [a]) m3.
Proof.
  intros Hty Hg Hk Ha Hroom [Hs Hn Hu Ho Hap] R2 R3.
  destruct (Boot.partition_unwrap_inv m1 a (a + g) GuardPage m2 Hs ltac:(lia) ltac:(lia) R2) as (S2 & N2 & B2 & O2).
  destruct (Boot.partition_unwrap_inv m2 (a + g) (a + g + k) ty m3 S2 ltac:(lia) ltac:(lia) R3) as (S3 & N3 & B3 & O3).
  (** The new range was usable when it was taken, so it is not part of a stack. *)
  assert (∀ x, a ≤ x < a + g + k → ∃ u, is_usable u = true ∧ owners (live m1) x ≡ₚ [u]) as Hfree.
  { intros x Hx. destruct (decide (x < a + g)); [apply B2; lia|]. destruct (B3 x ltac:(lia)) as (u & Hu' & Hx').
    exists u. split; [done|]. rewrite <- Hx', O2, decide_False by lia. done. }
  assert (∀ x, a ≤ x < a + g + k → ¬ in_guard g l x ∧ ¬ in_stack g k l x) as Hnew.
  { intros x Hx. destruct (Hfree x Hx) as (u & Hu' & Hx'). rewrite Ho in Hx'. split; intros Hin.
    - rewrite decide_True in Hx' by done. apply Permutation_singleton_inj in Hx' as <-. done.
    - destruct (decide (in_guard g l x)); [|rewrite decide_True in Hx' by done];
        apply Permutation_singleton_inj in Hx' as <-; [done|congruence]. }
  split; [done|rewrite length_app; simpl; lia| | |].
  - intros x. rewrite in_guard_snoc. intros [Hx|Hx]; [by apply Hu|].
    destruct (Hnew x ltac:(lia)) as [N1 N1']. destruct (Hfree x ltac:(lia)) as (u & Hu' & Hx').
    exists u. split; [done|]. by rewrite <- Hx', Ho, !decide_False.
  - intros x. rewrite O3. destruct (decide (a + g ≤ x < a + g + k)) as [Hx|Hx].
    + destruct (Hnew x ltac:(lia)) as [N1 N1']. rewrite decide_False by (rewrite in_guard_snoc; lia || (intros [?|?]; [done|lia])).
      rewrite decide_True by (rewrite in_stack_snoc; tauto). done.
    + rewrite O2. destruct (decide (a ≤ x < a + g)) as [Hx'|Hx'].
      * rewrite decide_True by (rewrite in_guard_snoc; tauto). done.
      * rewrite Ho. rewrite (decide_ext (in_guard g (l ++ [a]) x) (in_guard g l x)) by (rewrite in_guard_snoc; tauto).
        case_decide; [done|]. rewrite (decide_ext (in_stack g k (l ++ [a]) x) (in_stack g k l x)) by (rewrite in_stack_snoc; tauto). done.
  - assert (∀ i b, l !! i = Some b → a + g + k ≤ b ∨ b + g + k ≤ a) as Hone.
    { intros i b Hb. apply list_elem_of_lookup_2 in Hb. destruct (decide (a + g + k ≤ b ∨ b + g + k ≤ a)) as [|Hov]; [done|].
      exfalso. destruct (Hnew (Z.max a b) ltac:(lia)) as [NG NS]. destruct (decide (Z.max a b < b + g)).
      - apply NG, Exists_exists. exists b. split; [done|lia].
      - apply NS, Exists_exists. exists b. split; [done|lia]. }
    intros i j b c Hb Hc Hij. apply lookup_app_Some in Hb as [Hb|[Hi Hb]], Hc as [Hc|[Hj Hc]].
    + by eapply Hap.
    + apply list_lookup_singleton_Some in Hc as [? <-]. destruct (Hone _ _ Hb); lia.
    + apply list_lookup_singleton_Some in Hb as [? <-]. apply (Hone _ _ Hc).
    + apply list_lookup_singleton_Some in Hb as [? _], Hc as [? _]. lia.
Qed.

(** ** The frames of the iterator are aligned *)
Lemma adjust_end_start xs r r' :
  0 ≤ start_frame_number (range r) → adjust_end xs r = Ret r' → start_frame_number (range r') = start_frame_number (range r).
Proof.
  intros Hr. unfold adjust_end. intros H. run_inv. destruct (negb (a0 =? 0)); run_inv; [|done].
  unfold new_range in *. run_inv. cbn [range start_frame_number]. unfold start_addr in *.
  repeat match goal with H : umul _ _ _ = Ret _ |- _ => apply umul_Ret_inv in H as [-> _] end. by apply Z.div_mul.
Qed.
Lemma adjust_start_aligned al r r' s :
  0 ≤ start_frame_number (range r) → 0 < al → al mod PAGE_SIZE = 0 → adjust_start al r = Ret r' → start_addr (range r') = Ret s →
  0 ≤ s ∧ s mod al = 0.
Proof.
  intros Hr Hal Hm. unfold adjust_start. intros H Hs. apply bind_Ret in H as (a & Ha & H). apply bind_Ret in H as (rest & Hrest & H).
  apply umul_Ret_inv in Ha as [-> _]. unfold urem in Hrest. rewrite (proj2 (Z.eqb_neq _ _)) in Hrest by lia. injection Hrest as <-.
  unfold PAGE_SIZE in *. set (b := start_frame_number (range r) * 4096) in *.
  destruct (Z.eqb_spec (b mod al) 0) as [E|E]; cbn [negb] in H.
  - injection H as <-. apply umul_Ret_inv in Hs as [-> _]. unfold PAGE_SIZE. split; [lia|exact E].
  - apply bind_Ret in H as (new & Hnew & H). apply bind_Ret in H as (e & _ & H). apply uadd_Ret_inv in Hnew as [-> _].
    destruct (e <? _); [injection H as <-; injection Hs as <-; by rewrite Z.mod_0_l by lia|].
    apply bind_Ret in H as (rg & Hrg & H). injection H as <-. unfold new_range in Hrg. run_inv. cbn [range start_frame_number] in Hs.
    apply umul_Ret_inv in Hs as [-> _]. unfold PAGE_SIZE in *. cbn [start_frame_number].
    pose proof (Z.mod_pos_bound b al Hal). pose proof (Z.div_mod b al ltac:(lia)) as Ed.
    assert (b + (al - b mod al) = (b / al + 1) * al) as -> by lia.
    assert (0 ≤ b / al) by (apply Z.div_pos; lia).
    assert ((b / al + 1) * al / 4096 * 4096 = (b / al + 1) * al) as ->.
    { pose proof (Z.div_mod ((b / al + 1) * al) 4096 ltac:(lia)) as Ep.
      assert (((b / al + 1) * al) mod 4096 = 0) as Em by (rewrite Z.mul_mod, Hm, Z.mul_0_r by lia; done). lia. }
    split; [nia|]. apply Z.mod_mul. lia.
Qed.
Lemma region_frames_shape xs al r l :
  0 ≤ start_frame_number (range r) → 0 < al → al mod PAGE_SIZE = 0 → region_frames xs al r = Ret l →
  l = [] ∨ ∃ s e, l = step_by s e xs ∧ 0 ≤ s ∧ s mod al = 0.
Proof.
  intros Hr Hal Hm. unfold region_frames. intros H. apply bind_Ret in H as (r1 & H1 & H). apply bind_Ret in H as (r2 & H2 & H).
  apply bind_Ret in H as (sz & _ & H). destruct (xs <=? sz); [|left; by injection H as <-].
  apply bind_Ret in H as (s & Hs & H). apply bind_Ret in H as (e & _ & H). injection H as <-.
  apply adjust_end_start in H1; [|done]. destruct (adjust_start_aligned al r1 r2 s) as [Hs0 Hsm]; [lia|done..|].
  right. by exists s, e.
Qed.
(** What the frames of an iterator have in common: [P]. *)
Definition iter_ok (P : Z → Prop) (xs al : Z) (it : frame_iter) : Prop :=
  xsize it = xs ∧ alignment it = al ∧ Forall P (pending it).
Lemma region_frames_vacant xs al r l : vacant r → 0 < xs → 0 < al → region_frames xs al r = Ret l → l = [].
Proof.
  unfold vacant, is_empty. intros Hv%Z.eqb_eq Hxs Hal. unfold region_frames. intros H. apply bind_Ret in H as (r1 & H1 & H).
  assert (size (range r) = Ret 0) as Hz by (unfold size; rewrite Hv, usub_Ret, Z.sub_diag by lia; done).
  unfold adjust_end in H1. rewrite Hz in H1. cbn [mbind run_bind] in H1. rewrite urem_Ret, Z.mod_0_l in H1 by lia. injection H1 as <-.
  apply bind_Ret in H as (r2 & H2 & H). apply bind_Ret in H as (sz & Hsz & H).
  assert (sz = 0) as ->; [|rewrite (proj2 (Z.leb_gt _ _)) in H by lia; by injection H as <-].
  unfold adjust_start in H2. apply bind_Ret in H2 as (s & Hs & H2). apply bind_Ret in H2 as (rest & Hr & H2).
  rewrite urem_Ret in Hr by lia. injection Hr as <-. destruct (negb (s mod al =? 0)).
  - apply bind_Ret in H2 as (new & Hn & H2). apply bind_Ret in H2 as (e & He & H2). unfold start_addr, end_addr in *.
    rewrite Hv in Hs. rewrite Hs in He. injection He as <-. apply uadd_Ret_inv in Hn as [-> _].
    pose proof (Z.mod_pos_bound s al Hal). rewrite (proj2 (Z.ltb_lt _ _)) in H2 by lia. injection H2 as <-. by injection Hsz as <-.
  - injection H2 as <-. rewrite Hz in Hsz. by injection Hsz as <-.
Qed.
Lemma entries_start m i r : wf m → entries m !! i = Some r → 0 ≤ start_frame_number (range r) ∨ vacant r.
Proof.
  intros (_ & _ & Hp & Hv & _) Hr. rewrite <- (take_drop (next_entry_index m) (entries m)) in Hr.
  apply list_elem_of_lookup_2, elem_of_app in Hr as [Hr|Hr].
  - rewrite Forall_forall in Hp. specialize (Hp r Hr). unfold proper in Hp. lia.
  - rewrite Forall_forall in Hv. right. by apply Hv.
Qed.
Lemma next_frame_ok (P : Z → Prop) fuel xs al m it o it' :
  wf m → 0 < xs → 0 < al → al mod PAGE_SIZE = 0 → (∀ s i, 0 ≤ s → s mod al = 0 → 0 ≤ i → P (s + i * xs)) →
  iter_ok P xs al it → next_frame fuel m it = Ret (o, it') →
  iter_ok P xs al it' ∧ ∀ a, o = Some a → P a.
Proof.
  intros Hm Hxs Hal Hpa HP. revert it. induction fuel as [|fuel IH]; intros it (Ex & Ea & Hp) H.
  - simpl in H. destruct (pending it) as [|a rest] eqn:Ep; [done|]. injection H as <- <-. apply Forall_cons in Hp as [Ha Hp].
    split; [done|]. by intros ? [= <-].
  - simpl in H. destruct (pending it) as [|a rest] eqn:Ep.
    2:{ injection H as <- <-. apply Forall_cons in Hp as [Ha Hp]. split; [done|]. by intros ? [= <-]. }
    case_decide as Hi; [|injection H as <- <-; split; [|done]; split; [done|]; split; [done|]; by rewrite Ep].
    apply bind_Ret in H as (r & Hr & H). apply bind_Ret in H as (fs & Hfs & H). apply index_Ret, (entries_start m) in Hr; [|done].
    apply IH in H; [done|]. split; [done|]. split; [done|]. cbn [pending].
    destruct (decide (region_type r = Usable)); [|injection Hfs as <-; constructor]. rewrite Ex, Ea in Hfs.
    destruct Hr as [Hr|Hr]; [|apply region_frames_vacant in Hfs as ->; [constructor|done..]].
    destruct (region_frames_shape xs al r fs) as [->|(s0 & e0 & -> & Hs & Hsm)]; [done..|constructor|].
    apply Forall_forall. intros x Hx. apply elem_of_step_by in Hx as (k & Hk & -> & _); [|done]. by apply HP.
Qed.
(** Frames of [k] times the alignment are aligned. *)
Definition aligned (al a : Z) : Prop := 0 ≤ a ∧ a mod al = 0.
Lemma aligned_step al xs s i : 0 < al → 0 < xs → xs mod al = 0 → 0 ≤ s → s mod al = 0 → 0 ≤ i → aligned al (s + i * xs).
Proof.
  intros Hal Hxs Hx Hs Hm Hi. split; [nia|]. rewrite Z.add_mod, Hm, Z.mul_mod, Hx, Z.mul_0_r, !Z.mod_0_l by lia. done.
Qed.
Lemma usable_iter_ok P m xs al it : usable_xsize_frames m xs al = Ret it → iter_ok P xs al it.
Proof.
  unfold usable_xsize_frames. intros H. apply bind_Ret in H as (rest & _ & H). destruct (negb (rest =? 0)); [done|].
  apply bind_Ret in H as (l & _ & [= <-]). split; [done|]. by split; [|constructor].
Qed.
End phases.

(** ** The guard page in the page tables *)
Section guard.
Import Addr Paging Mapper.
Context {BF : BitField}.
Variables p4 p3 : Z.
Hypothesis Hp3 : page_frame p3.

Lemma walk_index addr : Stacks.p3_index addr = Addr.p3_index addr ∧ Stacks.p2_index addr = Addr.p2_index addr.
Proof.
  unfold Stacks.p3_index, Stacks.p2_index. rewrite Addr.p3_index_spec, Addr.p2_index_spec.
  change 0x1ff with (2 ^ 9 - 1). rewrite !land_mask, !Z.shiftr_shiftr, !Z.shiftr_div_pow2 by lia. done.
Qed.

(** The level 2 entry of a 2 MiB page below 4 GiB. *)
Lemma walk_2mib t path addr e :
  tree t p4 path → entry_at t p4 0 = Some (Mmu.table_entry p3) → 0 ≤ addr < 2 ^ 32 →
  mapping t p4 (idxs addr) = Some (leaf_level Size2MiB, e) →
  (is_Some (t !! p3) ∧ path p3 = [0])
  ∧ ∃ e3, entry_at t p3 (Addr.p3_index addr) = Some e3 ∧ is_table e3 = true ∧ is_Some (t !! target e3)
      ∧ path (target e3) = [0; Addr.p3_index addr] ∧ entry_at t (target e3) (Addr.p2_index addr) = Some e
      ∧ present e = true ∧ huge e = true.
Proof.
  intros Ht H4 Ha Hm. destruct (Mmu.low_indices addr Ha) as (I4 & _). destruct (idx_good addr) as (_ & G3 & G2 & _).
  destruct (Mmu.table_entry_spec p3 Hp3) as (A3 & P3 & U3). pose proof (tree_root _ _ _ Ht) as Hroot.
  assert (is_table (Mmu.table_entry p3) = true) as T3 by (unfold is_table; by rewrite P3, U3).
  assert (target (Mmu.table_entry p3) = p3) as G by exact A3.
  destruct (tree_child _ _ _ Ht p4 0 _ H4) as (_ & Hpp & Hin); [lia|done|by rewrite Hroot; simpl; lia|]. rewrite G, Hroot in Hpp. rewrite G in Hin.
  split; [done|]. unfold idxs in Hm. cbn [mapping] in Hm. rewrite I4, H4, P3, U3, G in Hm. cbn [negb] in Hm.
  destruct (entry_at t p3 (Addr.p3_index addr)) as [e3|] eqn:E3; [|done]. destruct (present e3) eqn:Pr3; cbn [negb] in Hm; [|done].
  destruct (huge e3) eqn:Hu3; [by injection Hm|]. assert (is_table e3 = true) as Te3 by (unfold is_table; by rewrite Pr3, Hu3).
  destruct (tree_child _ _ _ Ht p3 _ e3 E3) as (_ & Hpq & Hq); [apply G3|done|by rewrite Hpp; simpl; lia|].
  exists e3. split; [done|]. split; [done|]. split; [done|]. split; [by rewrite Hpq, Hpp|].
  destruct (entry_at t (target e3) (Addr.p2_index addr)) as [e2|]; [|done]. destruct (present e2) eqn:Pr2; cbn [negb] in Hm; [|done].
  destruct (huge e2) eqn:Hu2; [injection Hm as <-; done|].
  exfalso. destruct (entry_at t (target e2) (p1_index addr)) as [e1|]; [|done]. by destruct (negb (present e1)).
Qed.

(** Writing the entry directly is what [update_flags] does for a mapped 2 MiB page. *)
Lemma protect_guard_updates t path addr e :
  tree t p4 path → entry_at t p4 0 = Some (Mmu.table_entry p3) → 0 ≤ addr < 2 ^ 32 →
  mapping t p4 (idxs addr) = Some (leaf_level Size2MiB, e) →
  ∃ t', protect_guard p3 t addr = Ret t' ∧ update_flags Size2MiB t p4 addr (Z.lor PRESENT NO_EXECUTE) = Ret (t', Ok tt)
    ∧ entry_at t' p4 0 = Some (Mmu.table_entry p3).
Proof.
  intros Ht H4 Ha Hm. destruct (walk_2mib t path addr e Ht H4 Ha Hm) as [_ (e3 & E3 & T3 & Hq & Hpath & He & Hpe & _)].
  destruct (walk_index addr) as [W3 W2]. destruct (mapping_leaf _ _ _ _ _ _ Ht Hm) as (q & Hd & Hr & _). cbn [leaf_path leaf_index] in *.
  destruct (Mmu.low_indices addr Ha) as (I4 & _). cbn [reach] in Hr. rewrite I4, H4 in Hr. cbn [mbind option_bind] in Hr.
  destruct (Mmu.table_entry_spec p3 Hp3) as (A3 & P3 & U3). assert (is_table (Mmu.table_entry p3) = true) as T4 by (unfold is_table; by rewrite P3, U3).
  assert (target (Mmu.table_entry p3) = p3) as G3 by exact A3. rewrite T4, G3, E3 in Hr. cbn [mbind option_bind] in Hr.
  rewrite T3 in Hr. assert (q = target e3) as -> by congruence. assert (Mmu.boot_addr e3 = target e3) as Hq2 by done.
  unfold protect_guard. rewrite W3, W2, (read_entry_spec _ _ _ _ E3). cbn [mbind run_bind]. rewrite Hq2.
  rewrite (read_entry_spec _ _ _ _ He). cbn [mbind run_bind]. destruct (leaf_good Size2MiB addr) as [_ Hi].
  cbn [leaf_index] in Hi. rewrite (write_entry_spec t p4 path) by done. eexists. split; [done|]. split.
  - rewrite update_flags_unfold. unfold set_flags_at. cbn [leaf_path leaf_index]. rewrite Hd. cbn [mbind run_bind].
    rewrite (read_entry_spec _ _ _ _ He). cbn [mbind run_bind]. unfold is_unused.
    destruct (Z.eqb_spec e 0) as [->|_]; [by rewrite (proj1 zero_entry) in Hpe|].
    rewrite set_flags_spec. cbn [mbind run_bind]. rewrite (write_entry_spec t p4 path) by done. done.
  - rewrite (entry_at_upd t p4 path) by (done || lia). rewrite decide_False; [done|]. intros [E _].
    pose proof (tree_root _ _ _ Ht) as Hroot. rewrite E in Hroot. congruence.
Qed.

Lemma same_page_2mib a v :
  0 ≤ a < 2 ^ 32 → 0 ≤ v < 2 ^ 32 → in_page Size2MiB a v → a - a mod TWO_MEG = v - v mod TWO_MEG.
Proof.
  intros Ha Hv [tl Hp]. destruct (Mmu.low_indices a Ha) as (_ & _ & _ & Ea & _). destruct (Mmu.low_indices v Hv) as (_ & _ & _ & Ev & _).
  unfold idxs in Hp. cbn [leaf_path leaf_index app] in Hp. injection Hp as _ E3 E2 _. rewrite E3, E2 in Ev.
  change TWO_MEG with Mmu.TWO_MEG. congruence.
Qed.

Lemma in_page_meet a b v : in_page Size2MiB a v → in_page Size2MiB b v → in_page Size2MiB a b.
Proof.
  intros [tl E] [tl' E']. rewrite E' in E. cbn [leaf_path leaf_index app] in E. injection E as E4 E3 E2 _.
  exists [p1_index b]. unfold idxs. cbn [leaf_path leaf_index app]. by rewrite E4, E3, E2.
Qed.

(** Reading and writing an entry through a pointer. *)
Lemma read_entry_inv t ptr i e : read_entry t ptr i = Ret e → entry_at t ptr i = Some e.
Proof. unfold read_entry, entry_at. destruct (t !! ptr) as [es|]; [|done]. apply index_Ret. Qed.
Lemma entry_at_other (t : tables) ptr es q j : q ≠ ptr → entry_at (<[ptr := es]> t) q j = entry_at t q j.
Proof. intros Hq. unfold entry_at. by rewrite lookup_insert_ne by congruence. Qed.
Lemma write_entry_inv t ptr i e t' :
  0 ≤ i → write_entry t ptr i e = Ret t' →
  (∀ q j, 0 ≤ j → ¬ (q = ptr ∧ j = i) → entry_at t' q j = entry_at t q j) ∧ (∀ q, t !! q = None → t' !! q = None).
Proof.
  intros Hi. unfold write_entry. destruct (t !! ptr) as [es|] eqn:E; [|done]. intros H. apply bind_Ret in H as (es' & Hst & [= <-]).
  unfold store in Hst. case_decide; [injection Hst as <-|done]. split.
  - intros q j Hj Hn. destruct (decide (q = ptr)) as [->|Hq]; [|by apply entry_at_other]. unfold entry_at. rewrite lookup_insert_eq, E.
    cbn [mbind option_bind]. apply list_lookup_insert_ne. intros Ej. apply Hn. split; [done|lia].
  - intros q Hq. rewrite lookup_insert_ne by congruence. done.
Qed.

(** ** The stacks of the cores *)
Context `{!SortUnstable MemoryRegion}.
(** Every address from 2 MiB to 4 GiB is mapped to itself with 2 MiB pages. *)
Definition coarse (t : tables) : Prop :=
  ∀ a, TWO_MEG ≤ a < 2 ^ 32 → a mod TWO_MEG = 0 → ∃ off fl, translate t p4 a = Ret (Mapped (Frame Size2MiB a) off fl).

(** The state [b'] after the stacks at [l] were given to the cores with the ids [ids]. *)
Record stacks_given (b : boot) (ids l : list Z) (b' : boot) : Prop := {
  sg_length : length l = length ids;
  sg_map : carved guard_page stack_size KernelStack (mm b) l (mm b');
  sg_cores : Cores.cores_ok (cs b') ∧ Cores.num_cores (cs b') = Z.of_nat (length l);
  sg_core i a id : l !! i = Some a → ids !! i = Some id →
    ∃ c, Cores.cores (cs b') !! i = Some c ∧ Cores.apic_id c = id
      ∧ Cores.stack_end_addr c = a + guard_page ∧ Cores.stack_start_addr c = a + guard_page + stack_size;
  sg_addr a : a ∈ l → TWO_MEG ≤ a ∧ a mod TWO_MEG = 0 ∧ a + guard_page + stack_size < 2 ^ 32;
  sg_tree : (∃ path, tree (tb b') p4 path) ∧ entry_at (tb b') p4 0 = Some (Mmu.table_entry p3);
  sg_guard a v : a ∈ l → in_page Size2MiB a v →
    translate (tb b') p4 v = Ret (Mapped (Frame Size2MiB a) (v mod SIZE Size2MiB) (leaf_bits false false true true));
  sg_rest v : (∀ a, a ∈ l → ¬ in_page Size2MiB a v) → translate (tb b') p4 v = translate (tb b) p4 v;
  sg_dom q : tb b !! q = None → tb b' !! q = None
}.

(** The guard pages keep their size, so the memory stays mapped in the same way. *)
Lemma given_coarse b ids l b1 : coarse (tb b) → stacks_given b ids l b1 → coarse (tb b1).
Proof.
  intros Hc Hg a Ha Hm. destruct (decide (Exists (λ c, in_page Size2MiB c a) l)) as [(c & Hcl & Hin)%Exists_exists|Hn].
  - destruct (sg_addr _ _ _ _ Hg c Hcl) as (Hc1 & Hc2 & Hc3). unfold guard_page, stack_size, TWO_MEG, Boot.TWO_MEG in Ha, Hc1, Hc3.
    pose proof (same_page_2mib c a ltac:(lia) ltac:(lia) Hin) as E. rewrite Hm, Hc2 in E. assert (c = a) as -> by lia.
    eexists _, _. by apply (sg_guard _ _ _ _ Hg).
  - rewrite (sg_rest _ _ _ _ Hg); [by apply Hc|]. intros c Hcl Hin. apply Hn, Exists_exists. by exists c.
Qed.

(** The page tables after one more guard page. *)
Lemma guard_step b ids l b1 a t :
  coarse (tb b) → stacks_given b ids l b1 → TWO_MEG ≤ a → a mod TWO_MEG = 0 → a + guard_page + stack_size < 2 ^ 32 →
  protect_guard p3 (tb b1) a = Ret t →
  (∃ path, tree t p4 path) ∧ entry_at t p4 0 = Some (Mmu.table_entry p3)
  ∧ (∀ v, translate t p4 v = if decide (in_page Size2MiB a v) then Ret (Mapped (Frame Size2MiB a) (v mod SIZE Size2MiB) (leaf_bits false false true true))
                            else translate (tb b1) p4 v)
  ∧ ∀ q, tb b1 !! q = None → t !! q = None.
Proof.
  intros Hc Hg Ha Hm Hlt Hrun. destruct (sg_tree _ _ _ _ Hg) as [[path Ht] H4].
  unfold guard_page, stack_size, TWO_MEG, Boot.TWO_MEG in Hlt, Ha.
  destruct (given_coarse _ _ _ _ Hc Hg a) as (off & fl & Htr); [unfold TWO_MEG, Boot.TWO_MEG; lia|done|].
  destruct (KernelMemory.mapped_inv _ _ _ _ _ _ _ _ Ht Htr) as (e & He & Hf).
  destruct (protect_guard_updates (tb b1) path a e Ht H4 ltac:(lia) He) as (t' & E & Hu & H4').
  rewrite Hrun in E. injection E as <-.
  destruct (update_flags_cases Size2MiB (tb b1) p4 path a e (Z.lor PRESENT NO_EXECUTE)) as (t'' & Hu' & Ht' & _ & Hv);
    [done|done|by vm_compute|]. rewrite Hu in Hu'. injection Hu' as <-.
  split; [by exists path|]. split; [done|]. rewrite <- Hf in Hv. split; [exact Hv|].
  unfold protect_guard in Hrun. run_inv. eapply write_entry_inv; [|done]. apply Z.land_nonneg. by right.
Qed.

(** The record of one more core. *)
Lemma core_update c n v e id c1 c2 c3 c4 :
  Cores.cores_ok c → Cores.num_cores c = Z.of_nat n →
  Cores.add_core c = Ret c1 → Cores.update_core c1 n (λ core, x ← v; Ret (Cores.set_stack_start core x)) = Ret c2 →
  Cores.update_core c2 n (λ core, Ret (Cores.set_stack_end core e)) = Ret c3 →
  Cores.update_core c3 n (λ core, Ret (Cores.set_apic_id core id)) = Ret c4 →
  ∃ s new, v = Ret s ∧ Cores.cores_ok c4 ∧ Cores.num_cores c4 = Z.of_nat (S n) ∧ (n < length (Cores.cores c))%nat
    ∧ Cores.cores c4 = <[n := new]> (Cores.cores c)
    ∧ Cores.apic_id new = id ∧ Cores.stack_start_addr new = s ∧ Cores.stack_end_addr new = e.
Proof.
  intros (Hl & Hn & Hf) En H1 H2 H3 H4. apply Cores.add_core_ok in H1 as ->.
  pose proof (Cores.update_core_bound _ _ _ _ H2) as Hb. cbn [Cores.num_cores Cores.cores] in Hb.
  assert (Cores.cores_ok (Cores.mkCores (Cores.cores c) (Cores.num_booted_cores c) (Cores.num_cores c + 1))) as Ok1
    by (split; [done|]; split; [cbn [Cores.num_cores]; lia|done]).
  assert (Cores.cores_ok c2) as Ok2.
  { eapply Cores.update_core_ok; [exact Ok1| |exact H2]. intros old new Ho Hnew. by apply bind_Ret in Hnew as (x & _ & [= <-]). }
  assert (Cores.cores_ok c3) as Ok3.
  { eapply Cores.update_core_ok; [exact Ok2| |exact H3]. by intros old new Ho [= <-]. }
  assert (Cores.cores_ok c4) as Ok4.
  { eapply Cores.update_core_ok; [exact Ok3| |exact H4]. by intros old new Ho [= <-]. }
  destruct (Cores.update_core_Ret _ _ _ _ Ok1 H2) as (o1 & n1 & _ & L1 & N1 & ->). apply bind_Ret in N1 as (s & Hv & [= <-]).
  destruct (Cores.update_core_Ret _ _ _ _ Ok2 H3) as (o2 & n2 & _ & L2 & [= <-] & ->).
  destruct (Cores.update_core_Ret _ _ _ _ Ok3 H4) as (o3 & n3 & _ & L3 & [= <-] & ->).
  cbn [Cores.cores Cores.num_cores] in *. apply lookup_lt_Some in L1. rewrite list_lookup_insert_eq in L2 by done. injection L2 as <-.
  rewrite list_insert_insert_eq, list_lookup_insert_eq in L3 by done. injection L3 as <-.
  eexists s, _. split; [done|]. split; [done|]. split; [lia|]. split; [done|].
  split; [by rewrite !list_insert_insert_eq|]. done.
Qed.

Lemma core_stack_step b ids l b1 it id b2 it2 :
  coarse (tb b) → owners (live (mm b)) 0 ≡ₚ [FrameZero] → wf (mm b) →
  (next_entry_index (mm b) + 4 * length l + 4 ≤ MAX_MEMORY_MAP_SIZE)%nat →
  iter_ok (aligned TWO_MEG) (stack_size + guard_page) TWO_MEG it → stacks_given b ids l b1 →
  core_stack p3 (length l, id) (b1, it) = Ret (b2, it2) →
  iter_ok (aligned TWO_MEG) (stack_size + guard_page) TWO_MEG it2 ∧ ∃ a, stacks_given b (ids ++ [id]) (l ++ [a]) b2.
Proof.
  intros Hc H0 _ Hroom Hit Hg Hrun. pose proof Hg as [Hlen Hmap [Hok Hnum] Hcore Haddr _ Hguard Hrest Hdom].
  unfold core_stack in Hrun. apply bind_Ret in Hrun as (c1 & A1 & Hrun). apply bind_Ret in Hrun as ([o it'] & A2 & Hrun).
  apply bind_Ret in Hrun as (a & A3 & Hrun). apply bind_Ret in Hrun as (x & A4 & Hrun). apply bind_Ret in Hrun as (ss & A5 & Hrun).
  apply bind_Ret in Hrun as (c2 & A6 & Hrun). apply bind_Ret in Hrun as (se & A7 & Hrun). apply bind_Ret in Hrun as (e & A8 & Hrun).
  apply bind_Ret in Hrun as (c3 & A9 & Hrun). apply bind_Ret in Hrun as (c4 & A10 & Hrun). apply bind_Ret in Hrun as (t & A11 & Hrun).
  apply bind_Ret in Hrun as (m2 & A12 & Hrun). apply bind_Ret in Hrun as (m3 & A13 & Hrun). injection Hrun as <- <-.
  destruct o as [a'|]; [|done]. injection A3 as ->.
  apply uadd_Ret_inv in A4 as [-> _]. apply uadd_Ret_inv in A5 as [-> _]. apply uadd_Ret_inv in A7 as [-> _].
  destruct (next_frame_ok (aligned TWO_MEG) (S (stop it - idx it)) (stack_size + guard_page) TWO_MEG (mm b1) it (Some a) it')
    as [Hit2 Hal]; [apply (carved_sound _ _ _ _ _ _ Hmap)|by vm_compute|by vm_compute|by vm_compute| |done|done|].
  { intros s i Hs Hsm Hi. by apply aligned_step; [vm_compute..| | |]. }
  split; [exact Hit2|]. destruct (Hal a eq_refl) as [Ha0 Ham].
  replace (a + stack_size + guard_page) with (a + guard_page + stack_size) in * by lia.
  pose proof (carve_step guard_page stack_size KernelStack (mm b) l (mm b1) a m2 m3 eq_refl ltac:(by vm_compute) ltac:(by vm_compute)
    Ha0 Hroom Hmap A12 A13) as Hmap'.
  destruct (core_update _ _ _ _ _ _ _ _ _ Hok Hnum A1 A6 A9 A10) as (s & new & Hs & Ok4 & N4 & Hlt & C4 & Hid & Hst & Hen).
  unfold to_u32 in Hs, A8. destruct (Z.ltb_spec (a + guard_page + stack_size) (2 ^ 32)) as [Hs32|]; [|done]. injection Hs as <-.
  destruct (Z.ltb_spec (a + guard_page) (2 ^ 32)); [|done]. injection A8 as <-.
  assert (TWO_MEG ≤ a) as Hbig.
  { destruct (decide (a = 0)) as [->|Hne].
    - exfalso. destruct (carved_usable _ _ _ _ _ _ Hmap' 0) as (u & Hu & Hown).
      { apply Exists_exists. exists 0. split; [apply elem_of_app; right; by apply list_elem_of_singleton|]. by vm_compute. }
      rewrite H0 in Hown. apply Permutation_singleton_inj in Hown as <-. done.
    - pose proof (Z.div_mod a TWO_MEG ltac:(by vm_compute)) as Ed. rewrite Ham in Ed.
      unfold TWO_MEG, Boot.TWO_MEG in *. assert (a / (1048576 * 2) ≠ 0) by lia.
      assert (0 ≤ a / (1048576 * 2)) by (apply Z.div_pos; lia). lia. }
  destruct (guard_step b ids l b1 a t Hc Hg Hbig Ham Hs32 A11) as (Htree & H4 & Hv & Hd).
  exists a. split; cbn [mm cs tb].
  - rewrite !length_app. simpl. lia.
  - exact Hmap'.
  - split; [exact Ok4|]. rewrite N4, length_app. simpl. lia.
  - intros i a' id' Hl Hids. rewrite C4. destruct (decide (i = length l)) as [->|Hi].
    + rewrite list_lookup_insert_eq by done. exists new. rewrite lookup_app_r, Nat.sub_diag in Hl by lia. injection Hl as <-.
      rewrite Hlen, lookup_app_r, Nat.sub_diag in Hids by lia. injection Hids as <-. done.
    + assert (i < length l)%nat as Hil by (apply lookup_lt_Some in Hl; rewrite length_app in Hl; simpl in Hl; lia).
      rewrite list_lookup_insert_ne by lia. rewrite lookup_app_l in Hl by done. rewrite lookup_app_l in Hids by lia.
      by apply Hcore.
  - intros a' [Ha'|Ha'%list_elem_of_singleton]%elem_of_app; [by apply Haddr|]. by subst a'.
  - by split.
  - intros a' v [Ha'|Ha'%list_elem_of_singleton]%elem_of_app Hin; rewrite Hv.
    + case_decide as Hin'; [|by apply Hguard]. destruct (Haddr a' Ha') as (L1 & L2 & L3).
      unfold guard_page, stack_size, TWO_MEG, Boot.TWO_MEG in L1, L3, Hs32, Hbig. exfalso.
      pose proof (same_page_2mib a' a ltac:(lia) ltac:(lia) (in_page_meet _ _ _ Hin Hin')) as E. rewrite Ham, L2 in E.
      apply list_elem_of_lookup in Ha' as [i Hi]. pose proof (lookup_lt_Some _ _ _ Hi).
      destruct (carved_apart _ _ _ _ _ _ Hmap' i (length l) a' a) as [Hx|Hx];
        [by rewrite lookup_app_l|by rewrite lookup_app_r, Nat.sub_diag|lia|..];
        unfold guard_page, stack_size, TWO_MEG, Boot.TWO_MEG in Hx; lia.
    + subst a'. by rewrite decide_True.
  - intros v Hn. assert (¬ in_page Size2MiB a v) as Hna.
    { apply Hn, elem_of_app. right. by apply list_elem_of_singleton. }
    rewrite Hv. case_decide; [done|]. apply Hrest. intros a' Ha'. apply Hn, elem_of_app. by left.
  - intros q Hq. by apply Hd, Hdom.
Qed.

Lemma core_stacks_loop rest : ∀ b ids l b1 it b2 it2,
  coarse (tb b) → owners (live (mm b)) 0 ≡ₚ [FrameZero] → wf (mm b) →
  (next_entry_index (mm b) + 4 * (length l + length rest) ≤ MAX_MEMORY_MAP_SIZE)%nat →
  iter_ok (aligned TWO_MEG) (stack_size + guard_page) TWO_MEG it → stacks_given b ids l b1 →
  for_each (core_stack p3) (imap (λ i id, ((length l + i)%nat, id)) rest) (b1, it) = Ret (b2, it2) →
  ∃ l', stacks_given b (ids ++ rest) l' b2.
Proof.
  induction rest as [|id rest IH]; intros b ids l b1 it b2 it2 Hc H0 Hwf Hroom Hit Hg Hrun.
  - injection Hrun as <- <-. rewrite app_nil_r. by exists l.
  - simpl in Hroom. rewrite imap_cons in Hrun. cbn [for_each] in Hrun. rewrite Nat.add_0_r in Hrun.
    apply bind_Ret in Hrun as ([b3 it3] & Hstep & Hrun).
    destruct (core_stack_step b ids l b1 it id b3 it3 Hc H0 Hwf ltac:(lia) Hit Hg Hstep) as [Hit3 [a Hg3]].
    destruct (IH b (ids ++ [id]) (l ++ [a]) b3 it3 b2 it2) as [l' Hg']; [done|done|done|rewrite length_app; simpl; lia|done|done| |].
    + rewrite <- Hrun. f_equal. apply imap_ext. intros i x _. simpl. rewrite length_app. simpl. f_equal. lia.
    + exists l'. by rewrite <- app_assoc in Hg'.
Qed.

Lemma core_stacks_cases b path lapics b' :
  Boot.sound (mm b) → owners (live (mm b)) 0 ≡ₚ [FrameZero] →
  (next_entry_index (mm b) + 4 * length lapics ≤ MAX_MEMORY_MAP_SIZE)%nat →
  Cores.cores_ok (cs b) → Cores.num_cores (cs b) = 0 →
  tree (tb b) p4 path → entry_at (tb b) p4 0 = Some (Mmu.table_entry p3) → coarse (tb b) →
  core_stacks p3 lapics b = Ret b' →
  ∃ l, stacks_given b lapics l b'.
Proof.
  intros Hs H0 Hroom Hok Hn Ht H4 Hc Hrun. unfold core_stacks in Hrun. apply bind_Ret in Hrun as (it & Hit & Hrun).
  apply bind_Ret in Hrun as ([b2 it2] & Hloop & [= <-]).
  destruct (core_stacks_loop lapics b [] [] b it b2 it2) as [l Hl]; [done|done|apply Hs|simpl; lia| | |done|by exists l].
  - by eapply usable_iter_ok.
  - split; [done|by apply carved_nil|done|..]; try (intros *; rewrite ?lookup_nil, ?elem_of_nil; done).
    split; [by exists path|done].
Qed.

(** C17: If the allocation of the core stacks goes through, every local APIC has a
    core entry with its id and an 8 MiB stack above a 2 MiB guard page, below
    4 GiB; all of this memory was usable before, no two stacks overlap, it is
    retyped as guard page and kernel stack and nothing else is; the guard pages
    are mapped to themselves as 2 MiB pages that are present, read-only and not
    executable ([leaf_bits]), and no other translation changes.  The map stays
    well-formed although the iterator that proposes the frames reads it while it
    changes. *)
Theorem core_stacks_protected b path lapics b' :
  Boot.sound (mm b) → owners (live (mm b)) 0 ≡ₚ [FrameZero] →
  (next_entry_index (mm b) + 4 * length lapics ≤ MAX_MEMORY_MAP_SIZE)%nat →
  Cores.cores_ok (cs b) → Cores.num_cores (cs b) = 0 →
  tree (tb b) p4 path → entry_at (tb b) p4 0 = Some (Mmu.table_entry p3) → coarse (tb b) →
  core_stacks p3 lapics b = Ret b' →
  guard_page = 2 * 2 ^ 20 ∧ stack_size = 8 * 2 ^ 20 ∧ ∃ l, stacks_given b lapics l b'.
Proof. intros. split; [done|]. split; [done|]. by eapply core_stacks_cases. Qed.

(** ** The interrupt stacks *)
Record tss_given (b : boot) (l : list Z) (b' : boot) : Prop := {
  tg_map : carved tss_guard_page tss_stack_size TSSstack (mm b) l (mm b');
  tg_cores : Cores.cores_ok (cs b') ∧ Cores.num_cores (cs b') = Cores.num_cores (cs b);
  tg_core ci c' : Cores.cores (cs b') !! ci = Some c' →
    ∃ c, Cores.cores (cs b) !! ci = Some c ∧ Cores.apic_id c' = Cores.apic_id c
      ∧ Cores.stack_start_addr c' = Cores.stack_start_addr c ∧ Cores.stack_end_addr c' = Cores.stack_end_addr c;
  tg_tss n a : l !! n = Some a →
    ∃ c, Cores.cores (cs b') !! (n / 8)%nat = Some c
      ∧ Cores.stack_starts (Cores.tss c) !! (n mod 8)%nat = Some (a + tss_guard_page + tss_stack_size)
      ∧ Cores.stack_ends (Cores.tss c) !! (n mod 8)%nat = Some (a + tss_guard_page);
  tg_addr a : a ∈ l → 0 ≤ a ∧ a + tss_guard_page + tss_stack_size < 2 ^ 32
}.

Lemma tss_update c ci i v e c1 c2 :
  Cores.cores_ok c →
  Cores.update_core c ci (λ core, x ← v; t ← Cores.tss_set_stack_start (Cores.tss core) i x; Ret (Cores.set_tss core t)) = Ret c1 →
  Cores.update_core c1 ci (λ core, t ← Cores.tss_set_stack_end (Cores.tss core) i e; Ret (Cores.set_tss core t)) = Ret c2 →
  ∃ s old, v = Ret s ∧ Cores.cores c !! ci = Some old ∧ (i < Cores.TSS_STACKS_PER_CPU)%nat
    ∧ Cores.cores_ok c2 ∧ Cores.num_cores c2 = Cores.num_cores c
    ∧ Cores.cores c2 = <[ci := Cores.set_tss old (Cores.mkTSS (<[i := s]> (Cores.stack_starts (Cores.tss old)))
                                                     (<[i := e]> (Cores.stack_ends (Cores.tss old))))]> (Cores.cores c).
Proof.
  intros Hok H1 H2. assert (Cores.cores_ok c1) as Ok1.
  { eapply Cores.update_core_ok; [exact Hok| |exact H1]. intros old new [Ho1 Ho2] Hnew.
    apply bind_Ret in Hnew as (x & _ & Hnew). apply bind_Ret in Hnew as (t & Ht & [= <-]).
    unfold Cores.tss_set_stack_start in Ht. apply bind_Ret in Ht as (l & Hl & [= <-]). unfold store in Hl.
    case_decide; [injection Hl as <-|done]. split; cbn; [by rewrite length_insert|done]. }
  assert (Cores.cores_ok c2) as Ok2.
  { eapply Cores.update_core_ok; [exact Ok1| |exact H2]. intros old new [Ho1 Ho2] Hnew.
    apply bind_Ret in Hnew as (t & Ht & [= <-]).
    unfold Cores.tss_set_stack_end in Ht. apply bind_Ret in Ht as (l & Hl & [= <-]). unfold store in Hl.
    case_decide; [injection Hl as <-|done]. split; cbn; [done|by rewrite length_insert]. }
  destruct (Cores.update_core_Ret _ _ _ _ Hok H1) as (o1 & n1 & _ & L1 & N1 & ->). apply bind_Ret in N1 as (s & Hv & N1).
  apply bind_Ret in N1 as (t1 & T1 & [= <-]). unfold Cores.tss_set_stack_start in T1. apply bind_Ret in T1 as (l1 & S1 & [= <-]).
  unfold store in S1. destruct (decide (i < length (Cores.stack_starts (Cores.tss o1)))%nat) as [Hi|]; [injection S1 as <-|done].
  destruct (Cores.update_core_Ret _ _ _ _ Ok1 H2) as (o2 & n2 & _ & L2 & N2 & ->).
  apply bind_Ret in N2 as (t2 & T2 & [= <-]). unfold Cores.tss_set_stack_end in T2. apply bind_Ret in T2 as (l2 & S2 & [= <-]).
  cbn [Cores.cores Cores.num_cores] in *. pose proof (lookup_lt_Some _ _ _ L1). rewrite list_lookup_insert_eq in L2 by done.
  injection L2 as <-. unfold store in S2. case_decide; [injection S2 as <-|done].
  exists s, o1. split; [done|]. split; [done|]. destruct Hok as (_ & _ & Hf). pose proof (Forall_lookup_1 _ _ _ _ Hf L1) as [Hl _].
  split; [lia|]. split; [done|]. split; [done|]. by rewrite list_insert_insert_eq.
Qed.

Lemma tss_stack_step b l b1 it ci i p1 b2 it2 :
  length l = (8 * ci + i)%nat → (i < 8)%nat → (next_entry_index (mm b) + 4 * length l + 4 ≤ MAX_MEMORY_MAP_SIZE)%nat →
  iter_ok (λ a, 0 ≤ a) (tss_stack_size + tss_guard_page) TWO_MEG it → tss_given b l b1 →
  tss_stack ci p1 i (b1, it) = Ret (b2, it2) →
  iter_ok (λ a, 0 ≤ a) (tss_stack_size + tss_guard_page) TWO_MEG it2
  ∧ ∃ a it', FrameAlloc.iter_next (mm b1) it = Ret (Some a, it') ∧ tss_given b (l ++ [a]) b2.
Proof.
  intros Hlen Hi8 Hroom Hit [Hmap [Hok Hnum] Hcore Htss Haddr] Hrun. unfold tss_stack in Hrun.
  apply bind_Ret in Hrun as ([o it'] & A2 & Hrun). apply bind_Ret in Hrun as (a & A3 & Hrun).
  apply bind_Ret in Hrun as (x & A4 & Hrun). apply bind_Ret in Hrun as (ss & A5 & Hrun). apply bind_Ret in Hrun as (c1 & A6 & Hrun).
  apply bind_Ret in Hrun as (se & A7 & Hrun). apply bind_Ret in Hrun as (e & A8 & Hrun). apply bind_Ret in Hrun as (c2 & A9 & Hrun).
  apply bind_Ret in Hrun as (t & _ & Hrun). apply bind_Ret in Hrun as (m2 & A12 & Hrun). apply bind_Ret in Hrun as (m3 & A13 & Hrun).
  injection Hrun as <- <-. destruct o as [a'|]; [|done]. injection A3 as ->.
  apply uadd_Ret_inv in A4 as [-> _]. apply uadd_Ret_inv in A5 as [-> _]. apply uadd_Ret_inv in A7 as [-> _].
  destruct (next_frame_ok (λ a, 0 ≤ a) (S (stop it - idx it)) (tss_stack_size + tss_guard_page) TWO_MEG (mm b1) it (Some a) it')
    as [Hit2 Hal]; [apply (carved_sound _ _ _ _ _ _ Hmap)|by vm_compute|by vm_compute|by vm_compute| |done|done|].
  { intros s k Hs _ Hk. unfold tss_stack_size, tss_guard_page. lia. }
  split; [exact Hit2|]. pose proof (Hal a eq_refl) as Ha0. cbn beta in Ha0.
  replace (a + tss_stack_size + tss_guard_page) with (a + tss_guard_page + tss_stack_size) in * by lia.
  destruct (tss_update _ _ _ _ _ _ _ Hok A6 A9) as (s & old & Hs & Hold & Hi & Ok2 & N2 & C2).
  unfold to_u32 in Hs, A8. destruct (Z.ltb_spec (a + tss_guard_page + tss_stack_size) (2 ^ 32)) as [Hs32|]; [|done]. injection Hs as <-.
  destruct (Z.ltb_spec (a + tss_guard_page) (2 ^ 32)); [|done]. injection A8 as <-.
  destruct Hok as (_ & _ & Hf). pose proof (Forall_lookup_1 _ _ _ _ Hf Hold) as [L1 L2].
  assert (ci < length (Cores.cores (cs b1)))%nat as Hci by (by eapply lookup_lt_Some).
  exists a, it'. split; [done|]. split; cbn [mm cs tb].
  - apply (carve_step tss_guard_page tss_stack_size TSSstack (mm b) l (mm b1) a m2 m3); (done || by vm_compute).
  - split; [exact Ok2|]. by rewrite N2.
  - intros cj c'. rewrite C2. destruct (decide (cj = ci)) as [->|Hne].
    + rewrite list_lookup_insert_eq by done. intros [= <-]. exact (Hcore ci old Hold).
    + rewrite list_lookup_insert_ne by done. apply Hcore.
  - intros n a' Hn. rewrite C2. destruct (decide (n = length l)) as [->|Hne].
    + rewrite lookup_app_r, Nat.sub_diag in Hn by lia. injection Hn as <-.
      assert (length l / 8 = ci)%nat as -> by (rewrite Hlen; symmetry; apply (Nat.div_unique _ 8 ci i); lia).
      assert (length l mod 8 = i)%nat as -> by (rewrite Hlen; symmetry; apply (Nat.mod_unique _ 8 ci i); lia).
      rewrite list_lookup_insert_eq by done. eexists. split; [done|]. cbn [Cores.tss Cores.set_tss Cores.stack_starts Cores.stack_ends].
      rewrite !list_lookup_insert_eq by (unfold Cores.TSS_STACKS_PER_CPU in *; lia). done.
    + assert (n < length l)%nat as Hnl by (apply lookup_lt_Some in Hn; rewrite length_app in Hn; simpl in Hn; lia).
      rewrite lookup_app_l in Hn by done. destruct (Htss n a' Hn) as (c & Hc & Hs & He).
      destruct (decide (n / 8 = ci)%nat) as [E|E].
      * rewrite E in *. rewrite list_lookup_insert_eq by done. rewrite Hold in Hc. injection Hc as <-. eexists. split; [done|].
        cbn [Cores.tss Cores.set_tss Cores.stack_starts Cores.stack_ends].
        assert (n mod 8 ≠ i)%nat. { intros E'. pose proof (Nat.div_mod n 8 ltac:(lia)). lia. }
        by rewrite !list_lookup_insert_ne by done.
      * rewrite list_lookup_insert_ne by done. by exists c.
  - intros a' [Ha'|Ha'%list_elem_of_singleton]%elem_of_app; [by apply Haddr|]. by subst a'.
Qed.

Lemma tss_stack_loop n : ∀ b l b1 it ci i p1 b2 it2,
  length l = (8 * ci + i)%nat → (i + n ≤ 8)%nat → (next_entry_index (mm b) + 4 * (length l + n) ≤ MAX_MEMORY_MAP_SIZE)%nat →
  iter_ok (λ a, 0 ≤ a) (tss_stack_size + tss_guard_page) TWO_MEG it → tss_given b l b1 →
  for_each (tss_stack ci p1) (seq i n) (b1, it) = Ret (b2, it2) →
  iter_ok (λ a, 0 ≤ a) (tss_stack_size + tss_guard_page) TWO_MEG it2
  ∧ ∃ l', length l' = n ∧ tss_given b (l ++ l') b2
      ∧ ∀ o it', n ≠ 0%nat → FrameAlloc.iter_next (mm b1) it = Ret (o, it') → ∃ a, o = Some a ∧ a ∈ l'.
Proof.
  induction n as [|n IH]; intros b l b1 it ci i p1 b2 it2 Hl Hi Hroom Hit Hg Hrun.
  - injection Hrun as <- <-. split; [done|]. exists []. rewrite app_nil_r. split; [done|]. split; [done|]. by intros o it' ?.
  - cbn [seq for_each] in Hrun. apply bind_Ret in Hrun as ([b3 it3] & Hstep & Hrun).
    destruct (tss_stack_step b l b1 it ci i p1 b3 it3) as [Hit3 (a & ita & Ha & Hg3)]; [done|lia|lia|done..|].
    destruct (IH b (l ++ [a]) b3 it3 ci (S i) p1 b2 it2) as [Hit2 (l' & Hl' & Hg' & _)];
      [rewrite length_app; simpl; lia|lia|rewrite length_app; simpl; lia|done..|].
    split; [done|]. exists (a :: l'). rewrite <- app_assoc in Hg'. split; [simpl; lia|]. split; [done|].
    intros o it' _ Ho. rewrite Ha in Ho. injection Ho as <- _. exists a. split; [done|by left].
Qed.

Lemma iter_peek_ok m it o it' :
  wf m → iter_ok (λ a, 0 ≤ a) (tss_stack_size + tss_guard_page) TWO_MEG it → iter_peek m it = Ret (o, it') →
  iter_ok (λ a, 0 ≤ a) (tss_stack_size + tss_guard_page) TWO_MEG it'.
Proof.
  intros Hm Hit. unfold iter_peek. intros H. apply bind_Ret in H as ([o1 it1] & H1 & [= <- <-]).
  destruct (next_frame_ok (λ a, 0 ≤ a) (S (stop it - idx it)) (tss_stack_size + tss_guard_page) TWO_MEG m it o1 it1)
    as [(Hx & Ha & Hf) Hal]; [done|by vm_compute|by vm_compute|by vm_compute| |done|done|].
  { intros s k Hs _ Hk. unfold tss_stack_size, tss_guard_page. lia. }
  destruct o1 as [a|]; [|done]. split; [done|]. split; [done|]. constructor; [|done]. by apply Hal.
Qed.

Lemma peek_next m m' it a it' : iter_peek m it = Ret (Some a, it') → ∃ it2, FrameAlloc.iter_next m' it' = Ret (Some a, it2).
Proof. unfold iter_peek. intros H. apply bind_Ret in H as ([o1 it1] & _ & [= -> <-]). by eexists. Qed.

Lemma core_tss_step b l s s' ci :
  length l = (8 * ci)%nat → (next_entry_index (mm b) + 4 * (length l + 8) ≤ MAX_MEMORY_MAP_SIZE)%nat →
  iter_ok (λ a, 0 ≤ a) (tss_stack_size + tss_guard_page) TWO_MEG (ts_iter s) → tss_given b l (ts_boot s) →
  core_tss_stacks p3 ci s = Ret s' →
  iter_ok (λ a, 0 ≤ a) (tss_stack_size + tss_guard_page) TWO_MEG (ts_iter s')
  ∧ ∃ l', length l' = 8%nat ∧ tss_given b (l ++ l') (ts_boot s')
      ∧ ∀ o it, iter_peek (mm (ts_boot s)) (ts_iter s) = Ret (o, it) → ∃ a, o = Some a ∧ a ∈ l'.
Proof.
  intros Hl Hroom Hit Hg Hrun. unfold core_tss_stacks in Hrun. apply bind_Ret in Hrun as ([o it] & Hpeek & Hrun).
  pose proof (iter_peek_ok _ _ _ _ (proj1 (carved_sound _ _ _ _ _ _ (tg_map _ _ _ Hg))) Hit Hpeek) as Hit1.
  apply bind_Ret in Hrun as (a & Ha & Hrun). apply bind_Ret in Hrun as ([[b1 pa] p1t] & Hsplit & Hrun).
  assert (tss_given b l b1) as Hg1.
  { destruct (Nat.even ci).
    - apply bind_Ret in Hsplit as ([o1 pa1] & _ & Hsplit). apply bind_Ret in Hsplit as (p & _ & Hsplit).
      apply bind_Ret in Hsplit as (t & _ & [= <- _ _]). by destruct Hg; split.
    - by injection Hsplit as <- _ _. }
  apply bind_Ret in Hrun as (p1 & _ & Hrun). apply bind_Ret in Hrun as ([b2 it2] & Hloop & [= <-]). cbn [ts_iter ts_boot].
  destruct (tss_stack_loop 8 b l b1 it ci 0 p1 b2 it2) as [Hit2 (l' & Hl' & Hg' & Hfirst)]; [lia|lia|done..|].
  split; [done|]. exists l'. split; [done|]. split; [done|]. intros o' it' Hpeek'. rewrite Hpeek in Hpeek'. injection Hpeek' as <- <-.
  destruct o as [x|]; [|done]. destruct (peek_next _ (mm b1) _ _ _ Hpeek) as [it3 Hnext]. by apply (Hfirst (Some x) it3).
Qed.

Lemma core_tss_loop n : ∀ b l s s' ci,
  length l = (8 * ci)%nat → (next_entry_index (mm b) + 4 * (length l + 8 * n) ≤ MAX_MEMORY_MAP_SIZE)%nat →
  iter_ok (λ a, 0 ≤ a) (tss_stack_size + tss_guard_page) TWO_MEG (ts_iter s) → tss_given b l (ts_boot s) →
  for_each (core_tss_stacks p3) (seq ci n) s = Ret s' →
  ∃ l', length l' = (8 * (ci + n))%nat ∧ tss_given b l' (ts_boot s').
Proof.
  induction n as [|n IH]; intros b l s s' ci Hl Hroom Hit Hg Hrun.
  - injection Hrun as <-. exists l. split; [lia|done].
  - cbn [seq for_each] in Hrun. apply bind_Ret in Hrun as (s1 & Hstep & Hrun).
    destruct (core_tss_step b l s s1 ci) as [Hit1 (l1 & Hl1 & Hg1 & _)]; [done|lia|done..|].
    destruct (IH b (l ++ l1) s1 s' (S ci)) as (l' & Hl' & Hg'); [rewrite length_app; lia|rewrite length_app; lia|done..|].
    exists l'. split; [lia|done].
Qed.

(** ** The page tables while the interrupt stacks are set up

    The level 2 entry of a page that is split is overwritten, and level 1 tables are filled
    that nothing referred to before.  The page tables start as those of [b]. *)
Section split.
Variables (b : boot) (path : Z → list Z) (p1s p1e : Z).
Hypothesis Htree : tree (tb b) p4 path.
Hypothesis Hroot : entry_at (tb b) p4 0 = Some (Mmu.table_entry p3).
Hypothesis Hcoarse : coarse (tb b).
Hypothesis Hzero : owners (live (mm b)) 0 ≡ₚ [FrameZero].
Hypothesis Hfresh : ∀ i, 0 ≤ i → p1s + 4096 * i ≤ p1e → tb b !! (p1s + 4096 * i) = None.

(** The addresses at which a page may be split: they were usable. *)
Definition splittable (a : Z) : Prop :=
  0 ≤ a < 2 ^ 32 ∧ a mod TWO_MEG = 0 ∧ ∃ u, is_usable u = true ∧ owners (live (mm b)) a ≡ₚ [u].
Definition split_entry (q i : Z) : Prop :=
  ∃ a e3, splittable a ∧ entry_at (tb b) p3 (Addr.p3_index a) = Some e3 ∧ q = target e3 ∧ i = Addr.p2_index a.
Definition kept (t : tables) : Prop :=
  ∀ q i, is_Some (tb b !! q) → 0 ≤ i → ¬ split_entry q i → entry_at t q i = entry_at (tb b) q i.

Lemma aligned_big a : 0 ≤ a → a mod TWO_MEG = 0 → a ≠ 0 → TWO_MEG ≤ a.
Proof.
  intros H0 Hm Hne. unfold TWO_MEG, Boot.TWO_MEG in *. pose proof (Z.div_mod a (1048576 * 2) ltac:(lia)).
  assert (0 ≤ a / (1048576 * 2)) by (apply Z.div_pos; lia). lia.
Qed.
Lemma splittable_big a : splittable a → TWO_MEG ≤ a.
Proof.
  intros ((Ha & _) & Hm & u & Hu & Ho). apply aligned_big; [done..|]. intros ->. rewrite Hzero in Ho.
  apply Permutation_singleton_inj in Ho as <-. done.
Qed.
Lemma coarse_walk a : TWO_MEG ≤ a < 2 ^ 32 → a mod TWO_MEG = 0 →
  ∃ e3 e, (is_Some (tb b !! p3) ∧ path p3 = [0]) ∧ entry_at (tb b) p3 (Addr.p3_index a) = Some e3 ∧ is_table e3 = true
    ∧ is_Some (tb b !! target e3) ∧ path (target e3) = [0; Addr.p3_index a]
    ∧ entry_at (tb b) (target e3) (Addr.p2_index a) = Some e ∧ present e = true ∧ huge e = true.
Proof.
  intros Ha Hm. destruct (Hcoarse a Ha Hm) as (off & fl & Htr). destruct (KernelMemory.mapped_inv _ _ _ _ _ _ _ _ Htree Htr) as (e & He & _).
  destruct (walk_2mib (tb b) path a e Htree Hroot) as [Hpp (e3 & ?)]; [unfold TWO_MEG, Boot.TWO_MEG in Ha; lia|done|]. by exists e3, e.
Qed.
Lemma split_entry_path q i : split_entry q i → ∃ a, splittable a ∧ path q = [0; Addr.p3_index a] ∧ i = Addr.p2_index a.
Proof.
  intros (a & e3 & Hs & E3 & -> & ->). exists a. pose proof (splittable_big a Hs) as Hb. destruct Hs as (Ha & Hm & Hu).
  destruct (coarse_walk a ltac:(lia) Hm) as (e3' & e & _ & E3' & _ & _ & Hp & _). assert (e3' = e3) as -> by congruence. by split.
Qed.
Lemma kept_p3 t a e3 : kept t → splittable a → entry_at t p3 (Addr.p3_index a) = Some e3 → entry_at (tb b) p3 (Addr.p3_index a) = Some e3.
Proof.
  intros Hk Hs E3. pose proof (splittable_big a Hs) as Hb. destruct Hs as (Ha & Hm & _). destruct (idx_good a) as (_ & G3 & _).
  destruct (coarse_walk a ltac:(lia) Hm) as (e3' & e & (Hin & Hp3p) & _). rewrite <- (Hk p3); [done|done|apply G3|].
  intros (a' & _ & Hp & _)%split_entry_path. by rewrite Hp3p in Hp.
Qed.
(** A write of a table that [b] does not have. *)
Lemma kept_fresh t t' p : kept t → tb b !! p = None → (∀ q j, 0 ≤ j → q ≠ p → entry_at t' q j = entry_at t q j) → kept t'.
Proof.
  intros Hk Hp Ht' q i Hq Hi Hn. rewrite Ht'; [by apply Hk|done|]. intros ->. rewrite Hp in Hq. by destruct Hq.
Qed.
Lemma split_page_kept t a p t' : kept t → splittable a → tb b !! p = None → split_page p3 a p t = Ret t' → kept t'.
Proof.
  intros Hk Hs Hp H. unfold split_page in H. destruct (walk_index a) as [W3 W2]. rewrite W3, W2 in H.
  apply bind_Ret in H as (rest & _ & H). destruct (negb (rest =? 0)); [done|]. apply bind_Ret in H as (e3 & E3 & H).
  apply bind_Ret in H as (entry & _ & H). apply bind_Ret in H as (t1 & Hw & H). apply bind_Ret in H as (es & _ & [= <-]).
  assert (kept (Mmu.zero_table t p)) as Hz by (apply (kept_fresh t _ p); [done..|intros; by apply entry_at_other]).
  destruct (idx_good a) as (_ & _ & G2 & _). apply write_entry_inv in Hw as [Hw _]; [|apply G2].
  apply (kept_fresh t1 _ p); [|done|intros; by apply entry_at_other]. apply read_entry_inv, (kept_p3 _ _ _ Hz Hs) in E3.
  intros q i Hq Hi Hn. rewrite Hw; [by apply Hz|done|]. intros [-> ->]. apply Hn. by exists a, e3.
Qed.
Lemma for_each_kept {X S} (f : X → S → run S) (P : S → Prop) l s s' :
  (∀ x s s', P s → f x s = Ret s' → P s') → P s → for_each f l s = Ret s' → P s'.
Proof.
  intros Hf. revert s. induction l as [|x l IH]; intros s Hs H; [by injection H as <-|].
  apply bind_Ret in H as (s1 & H1 & H). by apply (IH s1); [eapply Hf|].
Qed.
Lemma tss_stack_kept ci p1 i st st' :
  tb b !! p1 = None → kept (tb st.1) → tss_stack ci p1 i st = Ret st' → kept (tb st'.1).
Proof.
  intros Hp Hk H. destruct st as [b1 it], st' as [b2 it2]. cbn [fst] in *. unfold tss_stack in H.
  apply bind_Ret in H as ([o it'] & _ & H). do 7 apply bind_Ret in H as (? & _ & H).
  apply bind_Ret in H as (t1 & Ht1 & H). do 2 apply bind_Ret in H as (? & _ & H). injection H as <- _. cbn [tb].
  eapply (for_each_kept _ kept); [|exact Hk|exact Ht1]. intros [k bytes] t t' Ht Hw.
  apply bind_Ret in Hw as (? & _ & Hw). apply bind_Ret in Hw as (? & _ & Hw).
  apply write_entry_inv in Hw as [Hw _]; [|unfold p1_index; apply Z.add_nonneg_nonneg; [apply Z.land_nonneg; by right|lia]].
  apply (kept_fresh t _ p1); [done..|]. intros q j Hj Hq. apply Hw; [done|by intros [? _]].
Qed.

(** The allocator hands out tables of its range only. *)
Definition fresh_tables (pa : PageTableAllocator) : Prop := 0 ≤ pt_index pa ∧ pt_start pa = p1s ∧ pt_end pa = p1e.
Lemma page_table_fresh pa o pa' : fresh_tables pa → page_table_next pa = Ret (o, pa') → fresh_tables pa' ∧ ∀ p, o = Some p → tb b !! p = None.
Proof.
  intros (Hi & Hs & He) H. unfold page_table_next in H. apply bind_Ret in H as (off & Ho & H). apply bind_Ret in H as (a & Ha & H).
  apply bind_Ret in H as (_ & _ & H). apply umul_Ret_inv in Ho as [-> _]. apply uadd_Ret_inv in Ha as [-> _].
  destruct (Z.ltb_spec (pt_end pa) (pt_start pa + 4096 * pt_index pa)) as [|Hle]; [by injection H as <- <-|].
  apply bind_Ret in H as (i & Hi' & [= <- <-]). apply uadd_Ret_inv in Hi' as [-> _]. split.
  - split; [cbn; lia|done].
  - intros p [= <-]. rewrite Hs. apply Hfresh; lia.
Qed.
Definition tables_kept (s : tss_state) : Prop :=
  kept (tb (ts_boot s)) ∧ fresh_tables (ts_tables s) ∧ ∀ p, ts_p1 s = Some p → tb b !! p = None.

(** The page that is split is that of the first of the next stacks. *)
Lemma core_tss_kept l s s' ci :
  length l = (8 * ci)%nat → (next_entry_index (mm b) + 4 * (length l + 8) ≤ MAX_MEMORY_MAP_SIZE)%nat →
  iter_ok (λ a, 0 ≤ a) (tss_stack_size + tss_guard_page) TWO_MEG (ts_iter s) → tss_given b l (ts_boot s) → tables_kept s →
  core_tss_stacks p3 ci s = Ret s' →
  iter_ok (λ a, 0 ≤ a) (tss_stack_size + tss_guard_page) TWO_MEG (ts_iter s') ∧ tables_kept s'
  ∧ ∃ l', length l' = (length l + 8)%nat ∧ tss_given b l' (ts_boot s').
Proof.
  intros Hl Hroom Hit Hg (Hk & Hpa & Hp1) Hrun. destruct (core_tss_step b l s s' ci Hl Hroom Hit Hg Hrun) as [Hit' (l' & Hl' & Hg' & Hpeek)].
  split; [done|]. split; [|exists (l ++ l'); rewrite length_app; split; [lia|done]].
  unfold core_tss_stacks in Hrun. apply bind_Ret in Hrun as ([o it] & Hnext & Hrun). destruct (Hpeek o it Hnext) as (a & -> & Hin).
  cbn [unwrap mbind run_bind] in Hrun. apply bind_Ret in Hrun as ([[b1 pa] p1t] & Hsplit & Hrun).
  assert (kept (tb b1) ∧ fresh_tables pa ∧ ∀ p, p1t = Some p → tb b !! p = None) as (Hk1 & Hpa1 & Hp1').
  { destruct (Nat.even ci); [|by injection Hsplit as <- <- <-].
    apply bind_Ret in Hsplit as ([o1 pa1] & Hpt & Hsplit). apply bind_Ret in Hsplit as (p & Ho1 & Hsplit).
    apply bind_Ret in Hsplit as (t & Hsp & [= <- <- <-]). destruct o1 as [p'|]; [|done]. injection Ho1 as ->.
    destruct (page_table_fresh _ _ _ Hpa Hpt) as [Hpa' Hp]. specialize (Hp p eq_refl). split; [|split; [done|by intros ? [= <-]]]. cbn [tb].
    apply (split_page_kept (tb (ts_boot s)) a p); [done| |done|done]. destruct (tg_addr _ _ _ Hg' a) as [Ha0 Ha32]; [set_solver|].
    split; [unfold tss_guard_page, tss_stack_size in Ha32; lia|]. split.
    - unfold split_page in Hsp. apply bind_Ret in Hsp as (rest & Hr & Hsp). unfold urem in Hr. destruct (TWO_MEG =? 0); [done|]. injection Hr as <-.
      by destruct (Z.eqb_spec (a mod TWO_MEG) 0).
    - apply (carved_usable _ _ _ _ _ _ (tg_map _ _ _ Hg')), Exists_exists. exists a. split; [set_solver|unfold tss_guard_page, tss_stack_size; lia]. }
  apply bind_Ret in Hrun as (p1 & Hp & Hrun). apply bind_Ret in Hrun as ([b2 it2] & Hloop & [= <-]). cbn [ts_boot ts_tables ts_p1].
  destruct p1t as [p|]; [|done]. injection Hp as ->. specialize (Hp1' p1 eq_refl). split; [|split; [done|by intros ? [= <-]]].
  apply (for_each_kept (tss_stack ci p1) (λ st : boot * frame_iter, kept (tb st.1)) (seq 0 8) (b1, it) (b2, it2)); [|done..].
  intros i st st'. by apply tss_stack_kept.
Qed.
Lemma core_tss_kept_loop n : ∀ l s s' ci,
  length l = (8 * ci)%nat → (next_entry_index (mm b) + 4 * (length l + 8 * n) ≤ MAX_MEMORY_MAP_SIZE)%nat →
  iter_ok (λ a, 0 ≤ a) (tss_stack_size + tss_guard_page) TWO_MEG (ts_iter s) → tss_given b l (ts_boot s) → tables_kept s →
  for_each (core_tss_stacks p3) (seq ci n) s = Ret s' → tables_kept s' ∧ ∃ l', tss_given b l' (ts_boot s').
Proof.
  induction n as [|n IH]; intros l s s' ci Hl Hroom Hit Hg Hk Hrun.
  - injection Hrun as <-. split; [done|by exists l].
  - cbn [seq for_each] in Hrun. apply bind_Ret in Hrun as (s1 & Hstep & Hrun).
    destruct (core_tss_kept l s s1 ci) as (Hit1 & Hk1 & l1 & Hl1 & Hg1); [done|lia|done..|].
    apply (IH l1 s1 s' (S ci)); [lia|lia|done..].
Qed.

(** A page whose first byte was not usable is translated as before. *)
Lemma kept_translate t a v :
  kept t → TWO_MEG ≤ a < 2 ^ 32 → a mod TWO_MEG = 0 → ¬ splittable a → in_page Size2MiB a v → translate t p4 v = translate (tb b) p4 v.
Proof.
  intros Hk Ha Hm Hn [tl Hv]. destruct (coarse_walk a Ha Hm) as (e3 & e & (Hin3 & Hpath3) & E3 & T3 & Hq & Hpath & He & Hpe & Hhe).
  unfold idxs in Hv. cbn [leaf_path leaf_index app] in Hv. injection Hv as Ev4 Ev3 Ev2 _.
  assert (0 ≤ a < 2 ^ 32) as Ha' by (unfold TWO_MEG, Boot.TWO_MEG in Ha; lia). destruct (Mmu.low_indices a Ha') as (I4 & _ & _ & Ea & _). destruct (idx_good a) as (_ & G3 & G2 & _).
  destruct (tree_child _ _ _ Htree p4 0 _ Hroot) as (Hc4 & _); [lia| |by rewrite (tree_root _ _ _ Htree); simpl; lia|].
  { destruct (Mmu.table_entry_spec p3 Hp3) as (_ & P3 & U3). unfold is_table. by rewrite P3, U3. }
  assert (entry_at t p4 0 = entry_at (tb b) p4 0) as F4.
  { apply Hk; [apply Htree|lia|]. intros (c & _ & Hp & _)%split_entry_path. by rewrite (tree_root _ _ _ Htree) in Hp. }
  assert (entry_at t p3 (Addr.p3_index a) = entry_at (tb b) p3 (Addr.p3_index a)) as F3.
  { apply Hk; [done|apply G3|]. intros (c & _ & Hp & _)%split_entry_path. by rewrite Hpath3 in Hp. }
  assert (entry_at t (target e3) (Addr.p2_index a) = entry_at (tb b) (target e3) (Addr.p2_index a)) as F2.
  { apply Hk; [done|apply G2|]. intros (c & Hc & Hp & Hi)%split_entry_path. rewrite Hpath in Hp. injection Hp as Hp.
    pose proof Hc as (Hc0 & Hcm & _). destruct (Mmu.low_indices c Hc0) as (_ & _ & _ & Ec & _). rewrite <- Hp, <- Hi, Ea in Ec.
    change Mmu.TWO_MEG with TWO_MEG in Ec. rewrite Hm, Hcm in Ec. assert (c = a) as -> by lia. done. }
  assert (p3_index v = Addr.p3_index a ∧ p2_index v = Addr.p2_index a ∧ p4_index v = 0) as (V3 & V2 & V4) by (by rewrite Ev3, Ev2, Ev4, I4).
  rewrite Hroot in F4. rewrite E3 in F3. rewrite He in F2. unfold translate. rewrite V4, V3, V2.
  rewrite (read_entry_spec _ _ _ _ F4), (read_entry_spec _ _ _ _ Hroot). cbn [mbind run_bind]. rewrite next_table_spec.
  destruct (Mmu.table_entry_spec p3 Hp3) as (A3 & P3 & U3). rewrite P3, U3. cbn [negb]. rewrite (frame_to_pointer_covered _ Hc4).
  cbn [mbind run_bind]. change (pointer_of (entry_addr (Mmu.table_entry p3))) with (entry_addr (Mmu.table_entry p3)). rewrite A3.
  rewrite (read_entry_spec _ _ _ _ F3), (read_entry_spec _ _ _ _ E3). cbn [mbind run_bind]. rewrite next_table_spec.
  destruct (tree_child _ _ _ Htree p3 _ e3 E3) as (Hc3 & _); [apply G3|done|by rewrite Hpath3; simpl; lia|].
  unfold is_table in T3. apply andb_true_iff in T3 as [-> T3%negb_true_iff]. rewrite T3. cbn [negb].
  rewrite (frame_to_pointer_covered _ Hc3). cbn [mbind run_bind]. change (pointer_of (entry_addr e3)) with (target e3).
  rewrite (read_entry_spec _ _ _ _ F2), (read_entry_spec _ _ _ _ He). cbn [mbind run_bind]. rewrite next_table_spec, Hpe, Hhe. done.
Qed.
End split.

(** Eight stacks of a core are what [tss::init] of the kernel expects. *)
Lemma tss_given_core b l b' ci c :
  tss_given b l b' → (8 * ci + 8 ≤ length l)%nat → Cores.cores (cs b') !! ci = Some c →
  Gdt.stacks_ok c ∧ NoDup (Cores.stack_starts (Cores.tss c)).
Proof.
  intros Hg Hl Hc. destruct (tg_cores _ _ _ Hg) as [(_ & _ & Hf) _]. pose proof (Forall_lookup_1 _ _ _ _ Hf Hc) as [L8 _].
  assert (∀ i s, Cores.stack_starts (Cores.tss c) !! i = Some s →
            (i < 8)%nat ∧ ∃ a, l !! (8 * ci + i)%nat = Some a ∧ s = a + tss_guard_page + tss_stack_size ∧ 0 ≤ a ∧ s < 2 ^ 32) as Hs.
  { intros i s Hi. assert (i < 8)%nat as Hi8 by (apply lookup_lt_Some in Hi; unfold Cores.TSS_STACKS_PER_CPU in L8; lia).
    split; [done|]. destruct (lookup_lt_is_Some_2 l (8 * ci + i)) as [a Ha]; [lia|]. exists a. split; [done|].
    destruct (tg_tss _ _ _ Hg _ _ Ha) as (c' & Hc' & Hs' & _).
    assert ((8 * ci + i) / 8 = ci)%nat as Ed by (symmetry; apply (Nat.div_unique _ 8 ci i); lia).
    assert ((8 * ci + i) mod 8 = i)%nat as Em by (symmetry; apply (Nat.mod_unique _ 8 ci i); lia).
    rewrite Ed, Hc in Hc'. injection Hc' as <-. rewrite Em, Hi in Hs'. injection Hs' as ->.
    apply list_elem_of_lookup_2 in Ha. destruct (tg_addr _ _ _ Hg a Ha). done. }
  split; [split; [done|]|].
  - apply Forall_lookup. intros i s Hi. destruct (Hs i s Hi) as (_ & a & _ & -> & Ha & Hlt).
    unfold tss_guard_page, tss_stack_size in *. lia.
  - apply NoDup_alt. intros i j s Hi Hj. destruct (Hs i s Hi) as (_ & a & Ha & Es & _). destruct (Hs j s Hj) as (_ & a' & Ha' & Es' & _).
    destruct (decide (i = j)) as [|Hne]; [done|]. exfalso. assert (a = a') as -> by lia.
    destruct (carved_apart _ _ _ _ _ _ (tg_map _ _ _ Hg) _ _ _ _ Ha Ha') as [H|H]; [lia|..]; unfold tss_guard_page, tss_stack_size in H; lia.
Qed.

(** If the allocation of the interrupt stacks goes through, every core in use
    has eight stacks of 120 KiB, each above a guard of 8 KiB: all of this memory
    was usable before, no two of the stacks overlap, it is retyped as guard page
    and TSS stack and nothing else is, and the other data of the cores stays.  So
    each core's entry satisfies what the kernel's [tss::init] requires, with
    distinct stacks. *)
Theorem tss_stacks_reserved p1s p1e b b' :
  Boot.sound (mm b) → Cores.cores_ok (cs b) →
  (next_entry_index (mm b) + 32 * Z.to_nat (Cores.num_cores (cs b)) ≤ MAX_MEMORY_MAP_SIZE)%nat →
  tss_stacks p3 p1s p1e b = Ret b' →
  ∃ l, length l = (8 * Z.to_nat (Cores.num_cores (cs b)))%nat ∧ tss_given b l b'
    ∧ ∀ ci c, (ci < Z.to_nat (Cores.num_cores (cs b)))%nat → Cores.cores (cs b') !! ci = Some c →
        Gdt.stacks_ok c ∧ NoDup (Cores.stack_starts (Cores.tss c)).
Proof.
  intros Hs Hok Hroom Hrun. unfold tss_stacks in Hrun. apply bind_Ret in Hrun as (it & Hit & Hrun).
  apply bind_Ret in Hrun as (s & Hloop & [= <-]).
  destruct (core_tss_loop (Z.to_nat (Cores.num_cores (cs b))) b [] (mkTssState b it (mkPTA 0 p1s p1e) None) s 0) as (l & Hl & Hg);
    [done|cbn [length]; lia|by eapply usable_iter_ok| |done|].
  - split; [by apply carved_nil|done|intros ci c Hc; by exists c|intros n a Hn; by rewrite lookup_nil in Hn|intros a Ha; by apply elem_of_nil in Ha].
  - exists l. split; [lia|]. split; [done|]. intros ci c Hci Hc. apply (tss_given_core b l (ts_boot s) ci); [done|lia|done].
Qed.
(** *** Both phases *)
(** The guard pages of the core stacks are as [core_stacks] left them when the interrupt
    stacks of all cores are set up as well. *)
Lemma allocate_stacks_cases b path p1s p1e lapics b' :
  Boot.sound (mm b) → owners (live (mm b)) 0 ≡ₚ [FrameZero] →
  (next_entry_index (mm b) + 36 * length lapics ≤ MAX_MEMORY_MAP_SIZE)%nat →
  Cores.cores_ok (cs b) → Cores.num_cores (cs b) = 0 →
  tree (tb b) p4 path → entry_at (tb b) p4 0 = Some (Mmu.table_entry p3) → coarse (tb b) →
  (∀ i, 0 ≤ i → p1s + 4096 * i ≤ p1e → tb b !! (p1s + 4096 * i) = None) →
  allocate_stacks p3 p1s p1e lapics b = Ret b' →
  ∃ l b1 ts, stacks_given b lapics l b1 ∧ tss_given b1 ts b'
    ∧ ∀ a v, a ∈ l → in_page Size2MiB a v →
        translate (tb b') p4 v = Ret (Mapped (Frame Size2MiB a) (v mod SIZE Size2MiB) (leaf_bits false false true true)).
Proof.
  intros Hs H0 Hroom Hok Hn Ht H4 Hc Hfresh Hrun. unfold allocate_stacks in Hrun. apply bind_Ret in Hrun as (b1 & Hcore & Hrun).
  apply bind_Ret in Hrun as (_ & _ & Hrun). destruct (core_stacks_cases b path lapics b1) as [l Hl]; [done|done|lia|done..|].
  pose proof Hl as [Hlen Hmap [Hok1 Hn1] _ Haddr [[path1 Ht1] H41] Hguard _ Hdom].
  assert (∀ a, a ∈ l → owners (live (mm b1)) a ≡ₚ [GuardPage]) as Hown.
  { intros a Ha. rewrite (carved_owner _ _ _ _ _ _ Hmap), decide_True; [done|]. apply Exists_exists. exists a. split; [done|].
    unfold guard_page, TWO_MEG, Boot.TWO_MEG. lia. }
  assert (owners (live (mm b1)) 0 ≡ₚ [FrameZero]) as H01.
  { rewrite (carved_owner _ _ _ _ _ _ Hmap). unfold in_guard, in_stack.
    rewrite !decide_False; [done|..]; intros (a & Ha & Hx)%Exists_exists; destruct (Haddr a Ha) as (Hb & _);
      unfold guard_page, TWO_MEG, Boot.TWO_MEG in *; lia. }
  unfold tss_stacks in Hrun. apply bind_Ret in Hrun as (it & Hit & Hrun). apply bind_Ret in Hrun as (s & Hloop & [= <-]).
  destruct (core_tss_kept_loop b1 path1 p1s p1e Ht1 H41 (given_coarse _ _ _ _ Hc Hl) H01 (λ i Hi Hle, Hdom _ (Hfresh i Hi Hle))
              (Z.to_nat (Cores.num_cores (cs b1))) [] (mkTssState b1 it (mkPTA 0 p1s p1e) None) s 0) as [[Hk _] [ts Hts]];
    [done|pose proof (carved_room _ _ _ _ _ _ Hmap); cbn [length]; lia|by eapply usable_iter_ok| | |done|].
  - split; [by apply carved_nil, Hmap|done|intros ci c Hci; by exists c|intros n a Ha; by rewrite lookup_nil in Ha|intros a Ha; by apply elem_of_nil in Ha].
  - split; [by intros q i _ _ _|done].
  - exists l, b1, ts. split; [done|]. split; [done|]. intros a v Ha Hv. destruct (Haddr a Ha) as (Hbig & Hm & Hlt).
    rewrite <- (Hguard a v Ha Hv). unfold guard_page, stack_size, TWO_MEG, Boot.TWO_MEG in Hlt.
    apply (kept_translate b1 path1 Ht1 H41 (given_coarse _ _ _ _ Hc Hl) H01 (tb (ts_boot s)) a v); [done|lia|done| |done].
    intros (_ & _ & u & Hu & Ho). rewrite (Hown a Ha) in Ho. apply Permutation_singleton_inj in Ho as <-. done.
Qed.
End guard.

(** ** Instances *)
#[local] Existing Instance Addr.bit_field_model.
(** Usable memory from 2 MiB to 32 MiB. *)
Definition regions : list MemoryRegion :=
  [mkRegion (mkFrameRange 0 1) FrameZero; mkRegion (mkFrameRange 0x200 0x2000) Usable].
Definition small_map : MemoryMap := {| entries := regions ++ replicate 3838 MemoryMap.empty; next_entry_index := 2 |}.
Lemma small_map_sound : Boot.sound small_map.
Proof.
  assert (live small_map = regions) as Hl by reflexivity. split.
  - split; [by vm_compute|]. split; [by apply Nat.leb_le; vm_compute|]. rewrite Hl.
    split; [by repeat constructor; vm_compute|]. split; [by apply (Forall_replicate _ 3838)|]. repeat constructor.
  - rewrite Hl. intros a. unfold regions. rewrite !owners_cons. unfold hits, PAGE_SIZE. simpl.
    repeat case_decide; simpl; lia.
Qed.
Definition sample_tables : Mapper.tables :=
  match (Mmu.generate_page_table ∅ 0x1000 0x2000 0x3000 0x7000 small_map ≫= λ '(t, _), Mmu.remap_first_2mb_with_4kb t 0x2000 0x8000 small_map)
  with Ret t => t | Panic _ => ∅ end.
Lemma sample_tables_ok : (∃ path, Mapper.tree sample_tables 0x1000 path) ∧ coarse 0x1000 sample_tables.
Proof.
  destruct (Mmu.generate_spec 0x1000 0x2000 0x3000 0x7000 0x8000 Mmu.sample_layout small_map small_map (proj1 small_map_sound)) as (t & Hg & Hb).
  destruct (Mmu.remap_spec 0x1000 0x2000 0x3000 0x7000 0x8000 Mmu.sample_layout small_map small_map (proj1 small_map_sound) t Hb) as (t' & Hr & Hb').
  assert (sample_tables = t') as ->.
  { unfold sample_tables. rewrite Hg. cbn [mbind run_bind]. by rewrite Hr. }
  split; [eexists; by eapply (Mmu.boot_tree 0x1000 0x2000 0x3000 0x7000 0x8000 Mmu.sample_layout)|].
  intros a Ha Hm. eexists _, _. rewrite (Mmu.boot_translate 0x1000 0x2000 0x3000 0x7000 0x8000 Mmu.sample_layout small_map small_map true t' a Hb').
  2:{ left. unfold TWO_MEG, Boot.TWO_MEG in Ha. lia. }
  unfold Mmu.boot_translation. unfold TWO_MEG, Boot.TWO_MEG in Ha, Hm. rewrite decide_True, decide_False by lia.
  change (1048576 * 2) with (2 ^ 21) in Hm. by rewrite Hm, Z.sub_0_r.
Qed.
Definition sample_boot : boot := mkBoot small_map Cores.cores_empty sample_tables.
Definition after_core_stacks : boot := match core_stacks 0x2000 [0; 3] sample_boot with Ret b => b | Panic _ => sample_boot end.

Lemma sample_p3 : Paging.page_frame 0x2000.
Proof. split; [unfold Addr.physical; lia|done]. Qed.

Lemma core_stacks_protected_witness :
  core_stacks 0x2000 [0; 3] sample_boot = Ret after_core_stacks ∧ guard_page = 2 * 2 ^ 20 ∧ stack_size = 8 * 2 ^ 20
  ∧ ∃ l, stacks_given 0x1000 0x2000 sample_boot [0; 3] l after_core_stacks.
Proof.
  assert (core_stacks 0x2000 [0; 3] sample_boot = Ret after_core_stacks) as Hrun.
  { unfold after_core_stacks.
    assert (match core_stacks 0x2000 [0; 3] sample_boot with Ret _ => true | Panic _ => false end = true) as H by (vm_compute; reflexivity).
    by destruct (core_stacks 0x2000 [0; 3] sample_boot). }
  split; [exact Hrun|]. destruct sample_tables_ok as [[path Ht] Hc].
  apply (core_stacks_protected 0x1000 0x2000 sample_p3 sample_boot path);
    [exact small_map_sound|by vm_compute|by apply Nat.leb_le; vm_compute|exact Cores.cores_empty_ok|reflexivity|exact Ht|by vm_compute|exact Hc|exact Hrun].
Defined.

(** All stacks of one core. *)
Definition after_stacks : boot := match allocate_stacks 0x2000 0x9000 0xb000 [0] sample_boot with Ret b => b | Panic _ => sample_boot end.
Lemma after_stacks_run : allocate_stacks 0x2000 0x9000 0xb000 [0] sample_boot = Ret after_stacks.
Proof.
  unfold after_stacks.
  assert (match allocate_stacks 0x2000 0x9000 0xb000 [0] sample_boot with Ret _ => true | Panic _ => false end = true) as H by (vm_compute; reflexivity).
  by destruct (allocate_stacks 0x2000 0x9000 0xb000 [0] sample_boot).
Qed.
Lemma sample_fresh i : 0 ≤ i → 0x9000 + 4096 * i ≤ 0xb000 → tb sample_boot !! (0x9000 + 4096 * i) = None.
Proof.
  intros H0 H1. assert (i = 0 ∨ i = 1 ∨ i = 2) as [-> | [-> | ->]] by lia; by vm_compute.
Qed.

(** One core, and its eight interrupt stacks. *)
Definition before_tss : boot := mkBoot small_map (Cores.mkCores (Cores.cores Cores.cores_empty) 0 1) sample_tables.
Definition after_tss : boot := match tss_stacks 0x2000 0x9000 0xb000 before_tss with Ret b => b | Panic _ => before_tss end.

Lemma tss_stacks_reserved_witness :
  tss_stacks 0x2000 0x9000 0xb000 before_tss = Ret after_tss ∧ ∃ l, length l = 8%nat ∧ tss_given before_tss l after_tss.
Proof.
  assert (tss_stacks 0x2000 0x9000 0xb000 before_tss = Ret after_tss) as Hrun.
  { unfold after_tss.
    assert (match tss_stacks 0x2000 0x9000 0xb000 before_tss with Ret _ => true | Panic _ => false end = true) as H by (vm_compute; reflexivity).
    by destruct (tss_stacks 0x2000 0x9000 0xb000 before_tss). }
  split; [exact Hrun|].
  assert (Cores.cores_ok (cs before_tss)) as Hok.
  { destruct Cores.cores_empty_ok as (H1 & _ & H3). split; [exact H1|]. split; [split; done|exact H3]. }
  assert (next_entry_index (mm before_tss) + 32 * Z.to_nat (Cores.num_cores (cs before_tss)) ≤ MAX_MEMORY_MAP_SIZE)%nat as Hroom
    by (apply Nat.leb_le; vm_compute; reflexivity).
  destruct (tss_stacks_reserved 0x2000 0x9000 0xb000 before_tss after_tss small_map_sound Hok Hroom Hrun) as (l & Hl & Hg & _).
  exists l. split; [exact Hl|exact Hg].
Defined.

(** The frame iterator walks the regions that were in use when it was created.  The
    regions that the partitions add move the later usable memory out of its sight:
    here 10 MiB stay usable and the second core gets no stack. *)
Definition split_map : MemoryMap :=
  {| entries := [mkRegion (mkFrameRange 0 1) FrameZero; mkRegion (mkFrameRange 0x200 0xc00) Usable;
                 mkRegion (mkFrameRange 0x1000 0x1a00) Usable] ++ replicate 3837 MemoryMap.empty; next_entry_index := 3 |}.
Definition split_boot : boot := mkBoot split_map Cores.cores_empty sample_tables.
Lemma later_region_missed :
  core_stacks 0x2000 [0; 1] split_boot = Panic Unwrap
  ∧ ∃ b, core_stacks 0x2000 [0] split_boot = Ret b ∧ mkRegion (mkFrameRange 0x1000 0x1a00) Usable ∈ live (mm b).
Proof.
  split; [by vm_compute|].
  assert (match core_stacks 0x2000 [0] split_boot with
          | Ret b => bool_decide (mkRegion (mkFrameRange 0x1000 0x1a00) Usable ∈ live (mm b)) | Panic _ => false end = true) as H
    by (vm_compute; reflexivity).
  destruct (core_stacks 0x2000 [0] split_boot) as [b|]; [|done]. exists b. split; [done|]. by apply bool_decide_eq_true in H.
Qed.
End Stacks.
