(* ===== verification/Smp.v ===== *)
(** * kernel/src/smp.rs: the states of the cores

    One byte per APIC identifier holds the state of a core; it is written with its number
    and read back through [From<u8>].  The counter of cores online has eight bits. *)
From S2P Require Import Prelude Cores.

Module Smp.

Inductive ApicState := Online | Launched | Offline | NoApic | Halted.
#[global] Instance ApicState_eq_dec : EqDecision ApicState.
Proof. solve_decision. Defined.
Definition state_u8 (s : ApicState) : Z :=
  match s with Online => 1 | Launched => 2 | Offline => 3 | NoApic => 4 | Halted => 5 end.
Definition state_from (val : Z) : run ApicState :=
  if val =? 1 then Ret Online else if val =? 2 then Ret Launched else if val =? 3 then Ret Offline
  else if val =? 4 then Ret NoApic else if val =? 5 then Ret Halted else Panic Explicit.

Record statics := mkStatics { CORES : option (list Z); NUM_CORES_ONLINE : Z }.

Definition init (s : statics) : statics :=
  match CORES s with
  | Some _ => s
  | None => mkStatics (Some (replicate Cores.MAX_CORES (state_u8 Offline))) (NUM_CORES_ONLINE s)
  end.
Definition set_state (s : statics) (id : nat) (state : ApicState) : run statics :=
  cores ← unwrap (CORES s);
  _ ← unwrap (cores !! id);
  Ret (mkStatics (Some (<[id := state_u8 state]> cores)) (NUM_CORES_ONLINE s)).
Definition get_state (s : statics) (id : nat) : run ApicState :=
  cores ← unwrap (CORES s);
  v ← unwrap (cores !! id);
  state_from v.
(** [fetch_add] wraps around. *)
Definition set_core_ready (s : statics) (apic_id : Z) : run statics :=
  s ← set_state s (Z.to_nat apic_id) Online;
  Ret (mkStatics (CORES s) (wrapping_add 8 (NUM_CORES_ONLINE s) 1)).

(** Every byte is the number of a state. *)
Definition states_ok (s : statics) : Prop :=
  ∃ l, CORES s = Some l ∧ length l = Cores.MAX_CORES ∧ Forall (λ v, ∃ st, v = state_u8 st) l.
Lemma state_round_trip st : state_from (state_u8 st) = Ret st.
Proof. by destruct st. Qed.
Lemma init_ok s : (CORES s = None ∨ states_ok s) → states_ok (init s).
Proof.
  unfold init. intros [->|(l & E & H)]; [|rewrite E; by exists l]. eexists. split; [done|]. split; [apply length_replicate|].
  apply Forall_replicate. by exists Offline.
Qed.
Lemma init_idempotent s : init (init s) = init s.
Proof. unfold init. by destruct (CORES s) eqn:E; cbn [CORES]; rewrite ?E. Qed.
Lemma set_state_ok s id st : states_ok s → (id < Cores.MAX_CORES)%nat →
  ∃ s', set_state s id st = Ret s' ∧ states_ok s' ∧ NUM_CORES_ONLINE s' = NUM_CORES_ONLINE s
    ∧ ∀ j, (j < Cores.MAX_CORES)%nat → get_state s' j = if decide (j = id) then Ret st else get_state s j.
Proof.
  intros (l & E & Hl & Hf) Hid. unfold set_state, get_state. rewrite E. cbn [unwrap mbind run_bind].
  destruct (lookup_lt_is_Some_2 l id) as [v Hv]; [lia|]. rewrite Hv. cbn [unwrap mbind run_bind].
  eexists. split; [done|]. cbn [CORES NUM_CORES_ONLINE]. split; [|split; [done|]].
  - eexists. split; [done|]. split; [by rewrite length_insert|]. apply Forall_insert; [done|by exists st].
  - intros j Hj. cbn [unwrap mbind run_bind]. case_decide as Hji.
    + subst j. rewrite list_lookup_insert_eq by lia. apply state_round_trip.
    + by rewrite list_lookup_insert_ne by done.
Qed.

(** With 256 cores the counter is back at zero. *)
Lemma online_count_wraps :
  match for_each (λ id s, set_core_ready s id) (seqZ 0 256) (init (mkStatics None 0)) with
  | Ret s => NUM_CORES_ONLINE s = 0
  | Panic _ => False
  end.
Proof. by vm_compute. Qed.
End Smp.
