(* ===== verification/KernelInit.v ===== *)
(** * kernel/src/lib.rs: [init] on all cores

    Every core runs [init]; the bootstrap processor prepares what the cores share and then
    wakes the others one after the other, which run [init] while it goes on.  A core is
    at a [phase] of [init]; [run_phase] executes it, the shared statics are [globals].  The
    cores are interleaved phase by phase ([step]): the page tables and the frame allocator
    are locked during a phase that uses them, and the other statics a phase writes belong
    to the core or are written by the bootstrap processor before the others start. *)
From S2P Require Import Prelude MemoryMap FrameAlloc Heap Addr Bits Paging Msr Control Mapper KernelMemory Acpi LapicIter Cores Gdt Idt Pic Apic Smp.
Import Addr.

Module KernelInit.
Import Apic.Apic Apic.Lapic.

(** ** The program *)
Section program.
Context {BF : BitField} {MB : ModularBitfield} {M : Type} `{!LapicIO M} {P : Type} `{!PortIO P}.
(** The measured rate of the time stamp counter, the addresses of the statics and of the
    handlers, and physical memory with the ACPI tables. *)
Variables (tsc_mhz : Z) (gdt_addr tss_addr : nat → Z) (fn_addr : Idt.handler → Z) (idt_addr : Z) (mem : Z → Z).

Record BootInfo := mkBootInfo {
  memory_map : MemoryMap.MemoryMap; smp_trampoline : Z; physical_memory_offset : Z;
  page_table_addr : Z; kernel_entry_addr : Z; boot_cores : Cores.Cores; max_phys_memory : Z
}.
(** The statics of the kernel, the page tables and the legacy controllers. *)
Record globals := mkGlobals {
  smp : Smp.statics; segments : Gdt.statics; idt : option Idt.InterruptDescriptorTable;
  memory : KernelMemory.statics; acpi : option Acpi.Acpi;
  space : Mapper.tables; pics : Pic.ChainedPics; ports : P
}.

(** Where a core is in [init]. *)
Inductive phase :=
  | Waiting
  | Enter | LoadSegments | LoadIdt | GetMapper | PrepareHeap | ParseAcpi | StartApic | EnableInterrupts
  | WakeCores (ids : list Z)
  | Running.
#[global] Instance phase_eq_dec : EqDecision phase.
Proof. solve_decision. Defined.
Record core := mkCore {
  at_phase : phase;
  regs : Control.cpu; segment_regs : Gdt.core_regs; idtr : Z * Z;
  leaf1 : cpuid_leaf; ext_edx : Z;
  lapic : M
}.
Definition goto (p : phase) (c : core) : core :=
  mkCore p (regs c) (segment_regs c) (idtr c) (leaf1 c) (ext_edx c) (lapic c).

(** [mapper.lock()], [frame_allocator.lock()]. *)
Definition locked (g : globals) : run (Z * FrameAlloc.BootInfoFrameAllocator) :=
  '(p4, _) ← unwrap (KernelMemory.PAGE_TABLE (memory g));
  fa ← unwrap (KernelMemory.FRAME_ALLOCATOR (memory g));
  Ret (p4, fa).
Definition unlock (g : globals) (t : Mapper.tables) (fa : FrameAlloc.BootInfoFrameAllocator) : globals :=
  mkGlobals (smp g) (segments g) (idt g) (KernelMemory.mkStatics (KernelMemory.PAGE_TABLE (memory g)) (Some fa)) (acpi g) t (pics g) (ports g).

(** [bench::check_support]. *)
Definition check_support (c : core) : run unit := if ext_edx c =? 0 then Panic Explicit else Ret tt.
(** [sti]. *)
Definition enable (c : core) : core :=
  mkCore (at_phase c) (Control.set_rflags (regs c) (Z.lor (Control.rflags (regs c)) (Z.shiftl 1 9)))
    (segment_regs c) (idtr c) (leaf1 c) (ext_edx c) (lapic c).

(** One phase on a core; the last component is the core that is sent INIT and STARTUP. *)
Definition run_phase (b : BootInfo) (g : globals) (c : core) : run (globals * core * option Z) :=
  match at_phase c with
  | Waiting | Running => Ret (g, c, None)
  | Enter =>
      Ret (mkGlobals (Smp.init (smp g)) (segments g) (idt g) (memory g) (acpi g) (space g) (pics g) (ports g), goto LoadSegments c, None)
  | LoadSegments =>
      '(s, r) ← Gdt.init gdt_addr tss_addr (segments g) (segment_regs c) (boot_cores b) (apic_id (leaf1 c));
      Ret (mkGlobals (smp g) s (idt g) (memory g) (acpi g) (space g) (pics g) (ports g),
           mkCore LoadIdt (regs c) r (idtr c) (leaf1 c) (ext_edx c) (lapic c), None)
  | LoadIdt =>
      '(t, s, p) ← Idt.init fn_addr (idt g) (segments g) (Gdt.cs (segment_regs c)) idt_addr;
      Ret (mkGlobals (smp g) s t (memory g) (acpi g) (space g) (pics g) (ports g),
           mkCore GetMapper (regs c) (segment_regs c) p (leaf1 c) (ext_edx c) (lapic c), None)
  | GetMapper =>
      '(k, _, _) ← KernelMemory.init (memory g) (regs c) (physical_memory_offset b) (memory_map b);
      bsp ← is_bsp (Control.msrs (regs c));
      Ret (mkGlobals (smp g) (segments g) (idt g) k (acpi g) (space g) (pics g) (ports g),
           goto (if bsp : bool then PrepareHeap else ParseAcpi) c, None)
  | PrepareHeap =>
      _ ← check_support c;
      '(p4, fa) ← locked g;
      '(t, fa, r) ← KernelMemory.init_heap (space g) fa p4;
      match r with
      | Err _ => Panic Unwrap
      | Ok _ => Ret (unlock g t fa, goto ParseAcpi c, None)
      end
  | ParseAcpi =>
      '(tables, _) ← Acpi.init mem (acpi g);
      Ret (mkGlobals (smp g) (segments g) (idt g) (memory g) tables (space g) (pics g) (ports g), goto StartApic c, None)
  | StartApic =>
      a ← unwrap (acpi g);
      '(p4, fa) ← locked g;
      s ← Lapic.init tsc_mhz (mkSystem (lapic c) (Control.msrs (regs c)) (leaf1 c) (pics g) (ports g) (space g) fa) p4 (Acpi.mask_pics a) (memory_map b);
      let g' := unlock g (Lapic.space s) (allocator s) in
      let r := regs c in
      Ret (mkGlobals (smp g') (segments g') (idt g') (memory g') (acpi g') (space g') (Lapic.pics s) (Lapic.ports s),
           mkCore EnableInterrupts
             (Control.mkCpu (Lapic.msrs s) (Control.cr0 r) (Control.cr2 r) (Control.cr3 r) (Control.cr4 r) (Control.cr8 r) (Control.xcr0 r) (Control.rflags r) (Control.gdtr r) (Control.idtr r))
             (segment_regs c) (idtr c) (leaf1 c) (ext_edx c) (cpu s), None)
  | EnableInterrupts =>
      '(k, _) ← unwrap (Cores.get_by_apic_id (boot_cores b) (apic_id (leaf1 c)));
      _ ← unwrap (Cores.get_apic_id k);
      let c := enable c in
      bsp ← is_bsp (Control.msrs (regs c));
      if (bsp : bool) then
        a ← unwrap (acpi g);
        l ← unwrap (Acpi.apics a);
        Ret (g, goto (WakeCores (Acpi.la_id <$> drop 1 l)) c, None)
      else Ret (g, goto Running c, None)
  | WakeCores [] => Ret (g, goto Running c, None)
  | WakeCores (id :: ids) =>
      m ← mp_init tsc_mhz id (smp_trampoline b) (lapic c);
      Ret (g, mkCore (WakeCores ids) (regs c) (segment_regs c) (idtr c) (leaf1 c) (ext_edx c) m, Some id)
  end.

(** ** The cores together *)
Record system := mkSys { glob : globals; cpus : list core }.
Definition active (c : core) : bool := match at_phase c with Waiting | Running => false | _ => true end.
(** INIT and STARTUP: the core with this identifier runs the trampoline and enters [init]. *)
Definition wake (o : option Z) (c : core) : core :=
  match o with
  | Some id => if apic_id (leaf1 c) =? id then goto Enter c else c
  | None => c
  end.
Inductive step (b : BootInfo) (s : system) : system → Prop :=
  | step_core i c g' c' o :
      cpus s !! i = Some c → active c = true → run_phase b (glob s) c = Ret (g', c', o) →
      step b s (mkSys g' (wake o <$> <[i := c']> (cpus s))).
(** Some core is about to panic. *)
Definition faulty (b : BootInfo) (s : system) : Prop :=
  ∃ i c f, cpus s !! i = Some c ∧ active c = true ∧ run_phase b (glob s) c = Panic f.

(** ** What the bootloader must leave behind *)
Section boot.
Variables (b : BootInfo) (t0 : Mapper.tables) (p4 : Z) (tables : Acpi.Acpi) (ids : list Z).

(** A processor the boot information lists, with its interrupt stacks and an APIC; [bsp]
    is the bit of the base register. *)
Record listed (bsp : bool) (c : core) (k : Cores.Core) (i : nat) : Prop := {
  ls_apic : is_supported (leaf1 c) = true;
  ls_core : Cores.get_by_apic_id (boot_cores b) (apic_id (leaf1 c)) = Some (k, i);
  ls_stacks : Gdt.stacks_ok k;
  ls_index : (i < 256)%nat;
  ls_addrs : canonical (gdt_addr i) ∧ in_width 64 (tss_addr i);
  ls_base : ∃ base, Control.msrs (regs c) !! IA32_APIC_BASE = Some base ∧ in_width 64 base ∧ Bits.field base 8 9 = Z.b2z bsp
}.
(** Ticks of the time stamp counter a core needs from a phase on. *)
Definition wake_ticks : Z := 10600 * tsc_mhz + 17 * stride.
Definition stage (p : phase) : nat :=
  match p with
  | Waiting => 0 | Enter => 1 | LoadSegments => 2 | LoadIdt => 3 | GetMapper => 4 | PrepareHeap => 5 | ParseAcpi => 6
  | StartApic => 7 | EnableInterrupts => 8 | WakeCores _ => 9 | Running => 10
  end.
Definition need (bsp : bool) (p : phase) : Z :=
  (if (stage p <? 8)%nat then 1000000 * tsc_mhz + 10 * stride else 0)
  + (if bsp then Z.of_nat (length (match p with WakeCores l => l | Running => [] | _ => ids end)) * wake_ticks else 0).
Definition in_time (bsp : bool) (c : core) : Prop := clock (lapic c) + need bsp (at_phase c) < 2 ^ 64.

Record environment : Prop := {
  en_rate : 0 ≤ tsc_mhz;
  en_handlers h : canonical (fn_addr h);
  en_idt : canonical idt_addr;
  en_offset : physical_memory_offset b = 0;
  en_trampoline : 0 ≤ smp_trampoline b < 2 ^ 32 ∧ startable (smp_trampoline b);
  en_tree : ∃ path, Mapper.tree t0 p4 path;
  en_alloc : Mapper.alloc_ok t0 (FrameAlloc.new (memory_map b)) ∧ FrameAlloc.allocator_inv_2m (FrameAlloc.new (memory_map b));
  en_heap : ∃ t a, KernelMemory.init_heap t0 (FrameAlloc.new (memory_map b)) p4 = Ret (t, a, Ok tt);
  en_page : ∃ off fl, Mapper.translate t0 p4 APIC_BASE = Ret (Mapper.Mapped (Mapper.Frame Paging.Size2MiB APIC_BASE) off fl);
  en_region : ∃ o, MemoryMap.get_region_by_addr (memory_map b) APIC_BASE = Ret o
                ∧ ∀ r, o = Some r → MemoryMap.region_type r ≠ MemoryMap.Usable;
  en_acpi : Acpi.acpi_init mem Acpi.new = Ret tables;
  en_apics : ∃ l ls, Acpi.apics tables = Some (l :: ls) ∧ ids = Acpi.la_id <$> ls
}.
(** The bootstrap processor at the entry of [init], the others waiting. *)
Record at_entry (s : system) (c0 : core) (cs : list core) : Prop := {
  ae_cpus : cpus s = c0 :: cs;
  ae_phase : at_phase c0 = Enter ∧ Forall (λ c, at_phase c = Waiting) cs;
  ae_ids : ids ≡ₚ (λ c, apic_id (leaf1 c)) <$> cs;
  ae_distinct : NoDup ((λ c, apic_id (leaf1 c)) <$> cpus s);
  ae_bsp : ∃ k i, listed true c0 k i;
  ae_aps : Forall (λ c, ∃ k i, listed false c k i) cs;
  ae_root : Z.land (Control.cr3 (regs c0)) 0x000ffffffffff000 = p4 ∧ 0 ≤ p4 < 2 ^ 47;
  ae_support : ext_edx c0 ≠ 0;
  ae_prompt : prompt (lapic c0);
  ae_time : in_time true c0 ∧ Forall (in_time false) cs;
  ae_arrays : length (Gdt.GDT_ARR (segments (glob s))) = 256%nat ∧ length (Gdt.TSS_ARR (segments (glob s))) = 256%nat;
  ae_statics : idt (glob s) = None ∧ memory (glob s) = KernelMemory.mkStatics None None ∧ acpi (glob s) = None ∧ space (glob s) = t0
}.

(** ** What a core has when it is through *)
Definition in_service (c : core) : Prop :=
  let w := Apic.regs (lapic_view (lapic c)) in
  (∃ base, Control.msrs (regs c) !! IA32_APIC_BASE = Some base ∧ Bits.field base 12 52 * 4096 = APIC_BASE ∧ Bits.field base 11 12 = 1)
  ∧ Bits.field (w SpurInterVecReg) 0 8 = Idt.as_u8 Idt.Spurious ∧ Bits.field (w SpurInterVecReg) 8 9 = 1
  ∧ w TaskPrioReg = 0
  ∧ Bits.field (w ApicTimer) 0 8 = Idt.as_u8 Idt.Timer ∧ Bits.field (w ApicTimer) 16 17 = 0 ∧ Bits.field (w ApicTimer) 17 18 = 1.
Definition own_tables (g : globals) (c : core) (k : Cores.Core) (i : nat) : Prop :=
  segment_regs c = Gdt.mkRegs (gdt_addr i, 31) 8 16
  ∧ Gdt.TSS_ARR (segments g) !! i = Some (Some (Gdt.tss_of k))
  ∧ ∃ low high, Gdt.GDT_ARR (segments g) !! i = Some (Some (Gdt.core_gdt low high)) ∧ Gdt.is_tss_descriptor low high (tss_addr i) 11.
(** The kernel's address space: the boot mappings, the heap and the uncached register page. *)
Definition heap_mapped (t : Mapper.tables) : Prop :=
  ∃ f, f mod Paging.SIZE Paging.Size2MiB = 0 ∧
    ∀ v, Heap.HEAP_START ≤ v < Heap.HEAP_START + Heap.HEAP_SIZE →
      Mapper.translate t p4 v = Ret (Mapper.Mapped (Mapper.Frame Paging.Size2MiB f) (v mod Paging.SIZE Paging.Size2MiB)
                                       (Z.lor KernelMemory.init_heap_flags Paging.HUGE_PAGE)).
Definition apic_mapped (t : Mapper.tables) : Prop :=
  ∀ v, Mapper.in_page Paging.Size2MiB APIC_BASE v →
    Mapper.translate t p4 v = Ret (Mapper.Mapped (Mapper.Frame Paging.Size2MiB APIC_BASE) (v mod Paging.SIZE Paging.Size2MiB)
                                     (Z.lor (Z.lor Paging.PRESENT page_flags) Paging.HUGE_PAGE)).
Definition rest_kept (t : Mapper.tables) : Prop :=
  ∀ v, ¬ Mapper.in_page Paging.Size2MiB KernelMemory.HEAP_PAGE v → ¬ Mapper.in_page Paging.Size2MiB APIC_BASE v →
    Mapper.translate t p4 v = Mapper.translate t0 p4 v.

(** ** The invariant *)
(** The statics when the bootstrap processor is at stage [n]. *)
Record shared (n : nat) (g : globals) : Prop := {
  sh_arrays : length (Gdt.GDT_ARR (segments g)) = 256%nat ∧ length (Gdt.TSS_ARR (segments g)) = 256%nat;
  sh_iter : n = 3%nat → Gdt.TSS_STACK_ITER (segments g) = Some (Gdt.mkStackIter 0 8);
  sh_idt : idt g = if (n <? 4)%nat then None else Some (Idt.layout fn_addr 8 Idt.all_installed);
  sh_memory : if (n <? 5)%nat then memory g = KernelMemory.mkStatics None None
              else ∃ a, memory g = KernelMemory.mkStatics (Some (p4, 0)) (Some a) ∧ Mapper.alloc_ok (space g) a
                     ∧ (n = 5%nat → a = FrameAlloc.new (memory_map b));
  sh_acpi : acpi g = if (n <? 7)%nat then None else Some tables;
  sh_tree : ∃ path, Mapper.tree (space g) p4 path;
  sh_heap : if (n <? 6)%nat then space g = t0 else heap_mapped (space g);
  sh_rest : rest_kept (space g);
  sh_page : ∃ off fl, Mapper.translate (space g) p4 APIC_BASE = Ret (Mapper.Mapped (Mapper.Frame Paging.Size2MiB APIC_BASE) off fl);
  sh_apic : (8 ≤ n)%nat → apic_mapped (space g)
}.
(** A core, with its entry in the boot information. *)
Record core_ok (bsp : bool) (g : globals) (c : core) (k : Cores.Core) (i : nat) : Prop := {
  co_listed : listed bsp c k i;
  co_time : in_time bsp c;
  co_bsp : if bsp then stage (at_phase c) ≠ 0%nat ∧ prompt (lapic c) ∧ ext_edx c ≠ 0
                       ∧ Z.land (Control.cr3 (regs c)) 0x000ffffffffff000 = p4 ∧ 0 ≤ p4 < 2 ^ 47
           else stage (at_phase c) ≠ 5%nat ∧ stage (at_phase c) ≠ 9%nat;
  co_tables : (3 ≤ stage (at_phase c))%nat → own_tables g c k i;
  co_idtr : (4 ≤ stage (at_phase c))%nat → idtr c = (idt_addr, 4095);
  co_service : (8 ≤ stage (at_phase c))%nat → in_service c;
  co_enabled : (9 ≤ stage (at_phase c))%nat → Z.testbit (Control.rflags (regs c)) 9 = true
}.

(** The cores still to be woken. *)
Definition todo (c : core) : list Z := match at_phase c with WakeCores l => l | Running => [] | _ => ids end.
Definition rank (p : phase) : nat :=
  match p with
  | Running => 0 | WakeCores l => 1 + length l | EnableInterrupts => 2 + length ids | StartApic => 3 + length ids
  | ParseAcpi => 4 + length ids | PrepareHeap => 5 + length ids | GetMapper => 6 + length ids | LoadIdt => 7 + length ids
  | LoadSegments => 8 + length ids | Enter => 9 + length ids | Waiting => 10 + length ids
  end.
(** INIT and two STARTUP interrupts for the trampoline. *)
Definition start_ipis (id : Z) (l : list (Z * Z)) : Prop :=
  ∃ i s vec, l = [i; s; s] ∧ is_ipi i id 5 0 0 ∧ is_ipi s id 6 vec 1 ∧ vec * 4096 = smp_trampoline b.

(** A phase went well. *)
Record progress (bsp : bool) (n : nat) (g : globals) (c : core) (k : Cores.Core) (i : nat) (g' : globals) (c' : core) (o : option Z) : Prop := {
  pr_shared : shared (if bsp then stage (at_phase c') else n) g';
  pr_core : core_ok bsp g' c' k i;
  pr_leaf : leaf1 c' = leaf1 c;
  pr_rank : (rank (at_phase c') < rank (at_phase c))%nat;
  pr_awake : at_phase c' ≠ Waiting;
  pr_others : ∀ j, j ≠ i → Gdt.GDT_ARR (segments g') !! j = Gdt.GDT_ARR (segments g) !! j
                         ∧ Gdt.TSS_ARR (segments g') !! j = Gdt.TSS_ARR (segments g) !! j;
  pr_wake : if bsp then
      todo c = option_list o ++ todo c'
      ∧ ∃ l, sent (lapic_view (lapic c')) = sent (lapic_view (lapic c)) ++ l ∧ match o with None => l = [] | Some id => start_ipis id l end
    else o = None
}.
Definition goes_on (bsp : bool) (n : nat) (g : globals) (c : core) (k : Cores.Core) (i : nat) : Prop :=
  ∃ g' c' o, run_phase b g c = Ret (g', c', o) ∧ progress bsp n g c k i g' c' o.
(** Whose turn it is: the bootstrap processor before it wakes the others, then anybody. *)
Definition turn (bsp : bool) (n : nat) (c : core) : Prop := if bsp then n = stage (at_phase c) else (9 ≤ n)%nat.

Hypothesis env : environment.

(** The fields of an invariant that a change of stage does not touch. *)
Ltac stages := constructor; try done; try (cbn [stage at_phase goto]; lia).

Ltac proceed Hp := constructor; cbn [at_phase goto leaf1 segments lapic]; rewrite ?Hp; try done; try (cbn [rank]; lia).

(** Statics that are left alone. *)
Lemma shared_smp n g sm :
  shared n g → shared n (mkGlobals sm (segments g) (idt g) (memory g) (acpi g) (space g) (pics g) (ports g)).
Proof. intros []. by constructor. Qed.

Lemma enter_ok bsp n g c k i :
  turn bsp n c → shared n g → core_ok bsp g c k i → at_phase c = Enter → goes_on bsp n g c k i.
Proof.
  intros Ht Hg [Hl Htm Hb _ _ _ _] Hp. unfold goes_on, run_phase. rewrite Hp. eexists _, _, _. split; [reflexivity|].
  unfold in_time in Htm. rewrite Hp in Htm, Hb. proceed Hp.
  - apply shared_smp. destruct bsp; [|exact Hg]. unfold turn in Ht. rewrite Hp in Ht. subst n. destruct Hg. stages.
  - constructor; try (cbn [at_phase goto stage]; lia); [by destruct Hl|exact Htm|]. destruct bsp; cbn [at_phase goto stage] in *; [|lia].
    split; [lia|apply Hb].
  - destruct bsp; [|done]. unfold todo. rewrite Hp. split; [done|]. exists []. by rewrite app_nil_r.
Qed.

Lemma own_tables_in g g' c c' k i :
  own_tables g c k i → segment_regs c' = segment_regs c → segments g' = segments g → own_tables g' c' k i.
Proof. unfold own_tables. by intros H -> ->. Qed.

Lemma segments_ok bsp n g c k i :
  turn bsp n c → shared n g → core_ok bsp g c k i → at_phase c = LoadSegments → goes_on bsp n g c k i.
Proof.
  intros Ht Hg [Hl Htm Hb _ _ _ _] Hp. unfold goes_on, run_phase. rewrite Hp.
  destruct (sh_arrays _ _ Hg) as [Hg1 Hg2]. pose proof (ls_index _ _ _ _ Hl) as Hi. destruct (ls_addrs _ _ _ _ Hl) as [Ha1 Ha2].
  destruct (Gdt.init_cases gdt_addr tss_addr (segments g) (segment_regs c) _ _ k i (ls_core _ _ _ _ Hl) (ls_stacks _ _ _ _ Hl))
    as (low & high & Hd & ->); [lia|lia|done|done|]. cbn [mbind run_bind]. eexists _, _, _. split; [reflexivity|].
  unfold in_time in Htm. rewrite Hp in Htm, Hb. proceed Hp.
  - assert (∀ m, shared n g → (m = n ∨ n = 2%nat ∧ m = 3%nat) → (n = 2%nat ∨ 9 ≤ n)%nat →
      shared m (mkGlobals (smp g) (Gdt.mkStatics (Some (Gdt.mkStackIter 0 8)) (<[i := Some (Gdt.core_gdt low high)]> (Gdt.GDT_ARR (segments g)))
          (<[i := Some (Gdt.tss_of k)]> (Gdt.TSS_ARR (segments g)))) (idt g) (memory g) (acpi g) (space g) (pics g) (ports g))) as H.
    { intros m [] Hm Hn. destruct Hm as [->|[-> ->]]; stages; cbn [segments Gdt.GDT_ARR Gdt.TSS_ARR]; by rewrite !length_insert. }
    unfold turn in Ht. rewrite Hp in Ht. destruct bsp; (apply H; [exact Hg|..]); [right; by subst|by left; subst|by left|by right].
  - stages; [by destruct Hl|destruct bsp; cbn [stage at_phase goto]; [split; [lia|apply Hb]|lia]|].
    intros _. split; [done|]. cbn [segments Gdt.GDT_ARR Gdt.TSS_ARR]. rewrite !list_lookup_insert_eq by lia. split; [done|]. by exists low, high.
  - intros j Hj. cbn [Gdt.GDT_ARR Gdt.TSS_ARR]. by rewrite !list_lookup_insert_ne by done.
  - destruct bsp; [|done]. unfold todo. rewrite Hp. split; [done|]. exists []. by rewrite app_nil_r.
Qed.

Lemma idt_ok bsp n g c k i :
  turn bsp n c → shared n g → core_ok bsp g c k i → at_phase c = LoadIdt → goes_on bsp n g c k i.
Proof.
  intros Ht Hg [Hl Htm Hb Htab _ _ _] Hp. unfold goes_on, run_phase. rewrite Hp in *. unfold turn in Ht. rewrite Hp in Ht.
  specialize (Htab ltac:(cbn; lia)). destruct Htab as (Hregs & Htab).
  assert (∃ s', Idt.init fn_addr (idt g) (segments g) (Gdt.cs (segment_regs c)) idt_addr
            = Ret (Some (Idt.layout fn_addr 8 Idt.all_installed), s', (idt_addr, 4095))
          ∧ Gdt.GDT_ARR s' = Gdt.GDT_ARR (segments g) ∧ Gdt.TSS_ARR s' = Gdt.TSS_ARR (segments g)) as (s' & -> & Hs1 & Hs2).
  { rewrite Hregs. cbn [Gdt.cs]. rewrite (sh_idt _ _ Hg). destruct bsp.
    - subst n. cbn [stage Nat.ltb Nat.leb]. rewrite (Idt.init_installs fn_addr (en_handlers env) (segments g) 8 8 idt_addr);
        [by eexists|by apply (sh_iter _ _ Hg)|lia|by vm_compute|apply (en_idt env)].
    - rewrite (proj2 (Nat.ltb_ge n 4)) by lia. rewrite (Idt.init_keeps fn_addr _ _ _ _ (en_idt env)). by eexists. }
  cbn [mbind run_bind]. eexists _, _, _. split; [reflexivity|].
  unfold in_time in Htm. rewrite Hp in Htm. proceed Hp.
  - destruct Hg. destruct bsp.
    + subst n. stages. cbn [segments]. by rewrite Hs1, Hs2.
    + stages; cbn [segments idt]; [by rewrite Hs1, Hs2|by rewrite (proj2 (Nat.ltb_ge n 4)) by lia].
  - stages; [by destruct Hl|destruct bsp; cbn [stage at_phase goto]; [split; [lia|apply Hb]|lia]|].
    intros _. split; [done|]. cbn [segments]. by rewrite Hs1, Hs2.
  - intros j Hj. by rewrite Hs1, Hs2.
  - destruct bsp; [|done]. unfold todo. rewrite Hp. split; [done|]. exists []. by rewrite app_nil_r.
Qed.

Lemma is_bsp_listed bsp c k i : listed bsp c k i → is_bsp (Control.msrs (regs c)) = Ret bsp.
Proof.
  intros Hl. destruct (ls_base _ _ _ _ Hl) as (base & Hm & Hw & Hf). unfold is_bsp. rewrite (Msr.msr_read_Ret _ _ base) by done.
  cbn [mbind run_bind]. rewrite bf_get_field, Hf by (done || lia). by destruct bsp.
Qed.
Lemma root_table c :
  Z.land (Control.cr3 (regs c)) 0x000ffffffffff000 = p4 → 0 ≤ p4 < 2 ^ 47 →
  KernelMemory.active_level_4_table (regs c) 0 = Ret p4.
Proof.
  intros Hp Hr. assert (p4 mod 4096 = 0) as Hm.
  { rewrite <- Hp. change 4096 with (2 ^ 12). rewrite <- land_mask by lia. rewrite <- Z.land_assoc.
    change (Z.land 0x000ffffffffff000 (2 ^ 12 - 1)) with 0. apply Z.land_0_r. }
  unfold KernelMemory.active_level_4_table, Control.cr3_read_raw. rewrite Hp, phys_new_Ret by lia. cbn [mbind run_bind].
  rewrite Mapper.frame_containing_spec by (split; [unfold physical; lia|done]). change (Paging.SIZE Paging.Size4KiB) with 4096. rewrite Hm, Z.sub_0_r.
  cbn [mbind run_bind]. unfold virt_add. rewrite uadd_Ret by lia. cbn [mbind run_bind]. rewrite Z.add_0_l.
  apply virt_new_canonical; [unfold in_width; lia|by left].
Qed.

Lemma mapper_ok bsp n g c k i :
  turn bsp n c → shared n g → core_ok bsp g c k i → at_phase c = GetMapper → goes_on bsp n g c k i.
Proof.
  intros Ht Hg [Hl Htm Hb Htab Hid _ _] Hp. unfold goes_on, run_phase. rewrite Hp in *. unfold turn in Ht. rewrite Hp in Ht.
  specialize (Htab ltac:(cbn; lia)). specialize (Hid ltac:(cbn; lia)). unfold in_time in Htm. rewrite Hp in Htm. destruct bsp.
  - subst n. pose proof (sh_memory _ _ Hg) as Hmem. pose proof (sh_heap _ _ Hg) as Hsp. cbn [stage Nat.ltb Nat.leb] in Hmem, Hsp.
    destruct Hb as (_ & Hpr & Hext & Hcr & Hp4). unfold KernelMemory.init. rewrite Hmem, (en_offset env). cbn [KernelMemory.PAGE_TABLE KernelMemory.FRAME_ALLOCATOR].
    rewrite virt_new_canonical by (by left || (unfold in_width; lia)). cbn [mbind run_bind]. rewrite root_table by done. cbn [mbind run_bind unwrap].
    rewrite (is_bsp_listed _ _ _ _ Hl). cbn [mbind run_bind]. eexists _, _, _. split; [reflexivity|]. proceed Hp.
    + destruct Hg. stages. eexists. split; [done|]. cbn [space]. rewrite Hsp. split; [apply (en_alloc env)|done].
    + stages; by destruct Hl.
    + unfold todo. rewrite Hp. split; [done|]. exists []. by rewrite app_nil_r.
  - pose proof (sh_memory _ _ Hg) as Hmem. rewrite (proj2 (Nat.ltb_ge n 5)) in Hmem by lia. destruct Hmem as (a & Hmem & _).
    unfold KernelMemory.init. rewrite Hmem. cbn [KernelMemory.PAGE_TABLE KernelMemory.FRAME_ALLOCATOR mbind run_bind unwrap].
    rewrite (is_bsp_listed _ _ _ _ Hl). cbn [mbind run_bind]. eexists _, _, _. split; [reflexivity|]. proceed Hp.
    + destruct Hg. rewrite Hmem in *. by constructor.
    + stages; by destruct Hl.
Qed.

Lemma heap_page_apart : ¬ Mapper.in_page Paging.Size2MiB KernelMemory.HEAP_PAGE APIC_BASE.
Proof. apply (bool_decide_unpack _). by vm_compute. Qed.
Lemma heap_ok g c k i :
  shared 5 g → core_ok true g c k i → at_phase c = PrepareHeap → goes_on true 5 g c k i.
Proof.
  intros Hg [Hl Htm Hb Htab Hid _ _] Hp. unfold goes_on, run_phase. rewrite Hp in *.
  specialize (Htab ltac:(cbn; lia)). specialize (Hid ltac:(cbn; lia)). unfold in_time in Htm. rewrite Hp in Htm.
  destruct Hb as (_ & Hpr & Hext & Hcr & Hp4). unfold check_support. rewrite (proj2 (Z.eqb_neq _ _)) by done. cbn [mbind run_bind].
  pose proof (sh_heap _ _ Hg) as Hsp. destruct (sh_memory _ _ Hg) as (a & Hmem & Hal & Ha). specialize (Ha eq_refl). subst a.
  cbn [Nat.ltb Nat.leb] in Hsp. destruct (sh_tree _ _ Hg) as [path Htree]. destruct (en_heap env) as (t1 & a1 & Hinit).
  destruct (KernelMemory.init_heap_cases (space g) (FrameAlloc.new (memory_map b)) p4 path Htree Hal) as (t' & a' & r & path' & E & Ht' & Ha' & Hout);
    [apply (en_alloc env)|].
  unfold locked. rewrite Hmem. cbn [KernelMemory.PAGE_TABLE KernelMemory.FRAME_ALLOCATOR mbind run_bind unwrap].
  rewrite Hsp in E. rewrite Hinit in E. injection E as <- <- <-. rewrite Hsp, Hinit. cbn [mbind run_bind].
  destruct Hout as (f & Hf & Hheap & Hrest). eexists _, _, _. split; [reflexivity|]. proceed Hp.
  - destruct Hg as [G1 G2 G3 G4 G5 G6 G7 G8 G9 G10]. unfold unlock. rewrite Hmem. stages; cbn [space memory].
    + by exists a1.
    + by exists path'.
    + exists f. split; [done|]. intros v Hv. by apply Hheap.
    + intros v H1 H2. by rewrite Hrest, Hsp.
    + destruct (en_page env) as (off & fl & Hpage). exists off, fl. rewrite Hrest by apply heap_page_apart. by rewrite Hsp.
  - stages; by destruct Hl.
  - unfold todo. rewrite Hp. split; [done|]. exists []. by rewrite app_nil_r.
Qed.

Lemma acpi_ok bsp n g c k i :
  turn bsp n c → shared n g → core_ok bsp g c k i → at_phase c = ParseAcpi → goes_on bsp n g c k i.
Proof.
  intros Ht Hg [Hl Htm Hb Htab Hid _ _] Hp. unfold goes_on, run_phase. rewrite Hp in *. unfold turn in Ht. rewrite Hp in Ht.
  specialize (Htab ltac:(cbn; lia)). specialize (Hid ltac:(cbn; lia)). unfold in_time in Htm. rewrite Hp in Htm.
  assert (Acpi.init mem (acpi g) = Ret (Some tables, tables)) as ->.
  { rewrite (sh_acpi _ _ Hg). unfold Acpi.init. destruct bsp; [subst n; cbn [stage Nat.ltb Nat.leb]; by rewrite (en_acpi env)|].
    by rewrite (proj2 (Nat.ltb_ge n 7)) by lia. }
  cbn [mbind run_bind]. eexists _, _, _. split; [reflexivity|]. proceed Hp.
  - destruct Hg. destruct bsp.
    { subst n. stages. destruct sh_memory0 as (a & H1 & H2 & _). by exists a. }
    stages. cbn [acpi]. by rewrite (proj2 (Nat.ltb_ge n 7)) by lia.
  - stages; [by destruct Hl|destruct bsp; cbn [stage at_phase goto]; [split; [lia|apply Hb]|lia]].
  - destruct bsp; [|done]. unfold todo. rewrite Hp. split; [done|]. exists []. by rewrite app_nil_r.
Qed.

Lemma bsp_bit base old : Bits.field base 0 11 = Bits.field old 0 11 → Bits.field base 8 9 = Bits.field old 8 9.
Proof.
  intros H. apply Z.bits_inj'. intros j Hj. rewrite !Bits.field_testbit by lia. case_decide; [|done].
  assert (Z.testbit (Bits.field base 0 11) (j + 8) = Z.testbit (Bits.field old 0 11) (j + 8)) as E by (by rewrite H).
  rewrite !Bits.field_testbit in E by lia. rewrite !decide_True in E by lia. by rewrite !Z.add_0_r in E.
Qed.
Lemma apic_not_heap v : Heap.HEAP_START ≤ v < Heap.HEAP_START + Heap.HEAP_SIZE → ¬ Mapper.in_page Paging.Size2MiB APIC_BASE v.
Proof.
  intros Hv Hin. apply KernelMemory.heap_in_page in Hv. unfold Mapper.in_page in *.
  assert (Mapper.leaf_path Paging.Size2MiB KernelMemory.HEAP_PAGE ++ [Mapper.leaf_index Paging.Size2MiB KernelMemory.HEAP_PAGE]
          = Mapper.leaf_path Paging.Size2MiB APIC_BASE ++ [Mapper.leaf_index Paging.Size2MiB APIC_BASE]) as E.
  { destruct Hv as [l1 H1], Hin as [l2 H2]. rewrite H1 in H2. by apply app_inj_1 in H2 as [E _]. }
  apply heap_page_apart. unfold Mapper.in_page. rewrite E. apply Mapper.in_page_self.
Qed.

Lemma apic_ok bsp n g c k i :
  turn bsp n c → shared n g → core_ok bsp g c k i → at_phase c = StartApic → goes_on bsp n g c k i.
Proof.
  intros Ht Hg [Hl Htm Hb Htab Hid _ _] Hp. unfold goes_on, run_phase. rewrite Hp in *. unfold turn in Ht. rewrite Hp in Ht.
  specialize (Htab ltac:(cbn; lia)). specialize (Hid ltac:(cbn; lia)). unfold in_time in Htm. rewrite Hp in Htm.
  assert (7 ≤ n)%nat as Hn by (destruct bsp; cbn in Ht; lia). pose proof (sh_acpi _ _ Hg) as Hac. rewrite (proj2 (Nat.ltb_ge n 7)) in Hac by lia.
  pose proof (sh_memory _ _ Hg) as Hmem. rewrite (proj2 (Nat.ltb_ge n 5)) in Hmem by lia. destruct Hmem as (a & Hmem & Hal & _).
  rewrite Hac. unfold locked. rewrite Hmem. cbn [KernelMemory.PAGE_TABLE KernelMemory.FRAME_ALLOCATOR mbind run_bind unwrap].
  destruct (sh_tree _ _ Hg) as [path Htree]. destruct (sh_page _ _ Hg) as (off & fl & Hpage). destruct (en_region env) as (o & Hreg & Hus).
  destruct (ls_base _ _ _ _ Hl) as (old & Hmsr & Hold & Hbit). pose proof (stride_pos (lapic c)) as Hst. pose proof (en_rate env) as Hrate.
  assert (0 ≤ wake_ticks) as Hwt by (unfold wake_ticks; lia).
  assert (clock (lapic c) + 1000000 * tsc_mhz + 6 * stride < 2 ^ 64) as Hck by (unfold need in Htm; cbn [stage Nat.ltb Nat.leb] in Htm; destruct bsp; nia).
  destruct (apic_init_cases tsc_mhz (mkSystem (lapic c) (Control.msrs (regs c)) (leaf1 c) (pics g) (ports g) (space g) a) p4 path
    (Acpi.mask_pics tables) (memory_map b) old off fl o) as (s' & path' & -> & Ht' & Ha' & Hsv & Hlf & Hsent & [Hlat Hpr]);
    [apply (ls_apic _ _ _ _ Hl)|exact Htree|exact Hal|exact Hpage|exact Hmsr|exact Hold|exact Hreg|exact Hus|exact Hrate|exact Hck|].
  cbn [mbind run_bind Lapic.space allocator cpu] in *. destruct Hsv as [(base & Hb1 & Hb2 & Hb3 & Hb4 & Hb5 & _) Hpg Hsp Hpri Htim _ _].
  cbn [Lapic.space Lapic.msrs] in Hpg, Hb1. eexists _, _, _. split; [reflexivity|]. proceed Hp.
  - assert (∀ m, shared m g → (7 ≤ m)%nat → shared (Nat.max m 8)
      (mkGlobals (smp g) (segments g) (idt g) (KernelMemory.mkStatics (Some (p4, 0)) (Some (allocator s'))) (acpi g) (Lapic.space s') (Lapic.pics s') (Lapic.ports s'))) as H.
    { intros m [] Hm. constructor; cbn [segments idt memory acpi space]; try done.
      - lia.
      - rewrite sh_idt0. by rewrite !(proj2 (Nat.ltb_ge _ _)) by lia.
      - rewrite (proj2 (Nat.ltb_ge _ _)) by lia. exists (allocator s'). split; [done|]. split; [done|lia].
      - rewrite sh_acpi0. by rewrite !(proj2 (Nat.ltb_ge _ _)) by lia.
      - by exists path'.
      - rewrite (proj2 (Nat.ltb_ge m 6)) in sh_heap0 by lia. rewrite (proj2 (Nat.ltb_ge _ 6)) by lia. destruct sh_heap0 as (f & Hf & Hh). exists f. split; [done|].
        intros v Hv. rewrite Hpg, decide_False by (by apply apic_not_heap). by apply Hh.
      - intros v H1 H2. rewrite Hpg, decide_False by done. by apply sh_rest0.
      - eexists _, _. rewrite Hpg, decide_True by apply Mapper.in_page_self. done.
      - intros _ v Hv. by rewrite Hpg, decide_True. }
    unfold unlock. rewrite Hmem. cbn [smp segments idt memory acpi space KernelMemory.PAGE_TABLE]. destruct bsp.
    + subst n. apply (H 7%nat); [done|lia].
    + specialize (H n Hg Hn). by rewrite Nat.max_l in H by lia.
  - stages; cbn [at_phase regs leaf1 Control.msrs].
    + destruct Hl as [L1 L2 L3 L4 L5 L6]. constructor; try done. cbn [regs Control.msrs]. exists base. rewrite Hb1, lookup_insert_eq.
      split; [done|]. split; [done|]. by rewrite (bsp_bit base old).
    + unfold in_time, need in *. cbn [at_phase lapic stage Nat.ltb Nat.leb] in *. lia.
    + destruct bsp; cbn [stage lapic ext_edx Control.cr3]; [|lia]. destruct Hb as (_ & Hb & Hb'). split; [lia|]. split; [by apply Hpr|done].
    + intros _. split; [exists base; cbn [regs Control.msrs]; by rewrite Hb1, lookup_insert_eq|]. cbn [lapic].
      cbv zeta in Hsp, Htim. destruct Hsp, Htim as (? & ? & ?). split_and!; try done.
  - destruct bsp; [|done]. unfold todo. rewrite Hp. split; [done|]. exists []. by rewrite app_nil_r.
Qed.

(** The statics are complete from stage 8 on. *)
Lemma shared_late n m g : shared n g → (8 ≤ n)%nat → (8 ≤ m)%nat → shared m g.
Proof.
  intros [] Hn Hm. rewrite !(proj2 (Nat.ltb_ge n _)) in * by lia.
  constructor; rewrite ?(proj2 (Nat.ltb_ge m _)) by lia; try done; [lia| |].
  - destruct sh_memory0 as (a & H1 & H2 & _). exists a. split; [done|]. split; [done|lia].
  - intros _. by apply sh_apic0.
Qed.

Lemma enable_ok bsp n g c k i :
  turn bsp n c → shared n g → core_ok bsp g c k i → at_phase c = EnableInterrupts → goes_on bsp n g c k i.
Proof.
  intros Ht Hg [Hl Htm Hb Htab Hid Hsv _] Hp. unfold goes_on, run_phase. rewrite Hp in *. unfold turn in Ht. rewrite Hp in Ht.
  specialize (Htab ltac:(cbn; lia)). specialize (Hid ltac:(cbn; lia)). specialize (Hsv ltac:(cbn; lia)). unfold in_time in Htm. rewrite Hp in Htm.
  rewrite (ls_core _ _ _ _ Hl). cbn [unwrap mbind run_bind].
  assert (Cores.apic_id k = apic_id (leaf1 c)) as Hk.
  { pose proof (Cores.get_by_apic_id_spec (boot_cores b) (apic_id (leaf1 c))) as H. rewrite (ls_core _ _ _ _ Hl) in H. apply H. }
  assert (Cores.get_apic_id k = Some (cast 8 (Cores.apic_id k))) as ->.
  { unfold Cores.get_apic_id. rewrite (proj2 (Z.eqb_neq _ _)); [done|]. rewrite Hk. unfold apic_id, cast.
    pose proof (Z.mod_pos_bound (Z.shiftr (ebx (leaf1 c)) 24) (2 ^ 8)). lia. }
  cbn [unwrap mbind run_bind enable regs Control.msrs Control.set_rflags]. rewrite (is_bsp_listed _ _ _ _ Hl). cbn [mbind run_bind].
  assert (Z.testbit (Z.lor (Control.rflags (regs c)) (Z.shiftl 1 9)) 9 = true) as Hif by (rewrite Z.lor_spec; apply orb_true_r).
  destruct bsp.
  - subst n. rewrite (sh_acpi _ _ Hg). cbn [stage Nat.ltb Nat.leb unwrap mbind run_bind]. destruct (en_apics env) as (l & ls & -> & Hids).
    cbn [unwrap mbind run_bind]. change (drop 1 (l :: ls)) with ls. rewrite <- Hids. eexists _, _, _. split; [reflexivity|]. proceed Hp.
    + by apply (shared_late _ _ _ Hg); cbn; lia.
    + stages; [by destruct Hl|]. cbn [stage at_phase goto]. split; [lia|apply Hb].
    + unfold todo. rewrite Hp. split; [done|]. exists []. by rewrite app_nil_r.
  - eexists _, _, _. split; [reflexivity|]. proceed Hp. stages. by destruct Hl.
Qed.

Lemma wake_ok n g c k i l :
  turn true n c → shared n g → core_ok true g c k i → at_phase c = WakeCores l → Forall (λ id, 0 ≤ id < 256) l → goes_on true n g c k i.
Proof.
  intros Ht Hg [Hl Htm Hb Htab Hid Hsv Hif] Hp Hids. unfold goes_on, run_phase. rewrite Hp in *. unfold turn in Ht. rewrite Hp in Ht. subst n.
  specialize (Htab ltac:(cbn; lia)). specialize (Hid ltac:(cbn; lia)). specialize (Hsv ltac:(cbn; lia)). specialize (Hif ltac:(cbn; lia)).
  unfold in_time in Htm. rewrite Hp in Htm. destruct l as [|id l].
  - eexists _, _, _. split; [reflexivity|]. proceed Hp.
    + by apply (shared_late _ _ _ Hg); cbn; lia.
    + stages; [by destruct Hl|]. cbn [stage at_phase goto]. split; [lia|apply Hb].
    + unfold todo. rewrite Hp. split; [done|]. exists []. by rewrite app_nil_r.
  - destruct Hb as (_ & Hpr & Hext & Hcr & Hp4). pose proof (stride_pos (lapic c)). destruct (en_trampoline env) as [Htr Hstart].
    assert (0 ≤ wake_ticks) as Hwt by (unfold wake_ticks; pose proof (en_rate env); lia).
    pose proof (mp_init_cases tsc_mhz id (smp_trampoline b) (lapic c) (en_rate env) Hpr) as Hmp. rewrite decide_True in Hmp by done.
    apply Forall_cons in Hids as [Hid' _].
    assert (clock (lapic c) + (1 + Z.of_nat (length l)) * wake_ticks < 2 ^ 64) as Hck.
    { unfold need in Htm. cbn [stage Nat.ltb Nat.leb length] in Htm. by replace (1 + Z.of_nat (length l)) with (Z.of_nat (S (length l))) by lia. }
    destruct Hmp as (m & i1 & i2 & vec & -> & Hsent & Hi1 & Hi2 & Hvec & Hregs & [Hlat Hpr']); [done|done|unfold wake_ticks in *; nia|].
    cbn [mbind run_bind]. eexists _, _, _. split; [reflexivity|]. proceed Hp.
    + stages; [by destruct Hl| |cbn [stage at_phase lapic ext_edx regs]; split; [lia|split; [by apply Hpr'|done]]|].
      * unfold in_time, need. cbn [at_phase lapic stage Nat.ltb Nat.leb]. unfold wake_ticks in *. nia.
      * intros _. destruct Hsv as (Hbase & Hrest). split; [exact Hbase|]. cbn [lapic]. cbv zeta in Hrest. by rewrite !Hregs.
    + cbn [rank length]. lia.
    + unfold todo. rewrite Hp. split; [done|]. cbn [lapic]. eexists. split; [exact Hsent|]. by exists i1, i2, vec.
Qed.

(** Every core whose turn it is can take its step. *)
Lemma phase_ok bsp n g c k i :
  turn bsp n c → shared n g → core_ok bsp g c k i → active c = true → Forall (λ id, 0 ≤ id < 256) (todo c) → goes_on bsp n g c k i.
Proof.
  intros Ht Hg Hc Ha Hids. pose proof (co_bsp _ _ _ _ _ Hc) as Hb. unfold active in Ha. destruct (at_phase c) as [| | | | | | | | |l|] eqn:Hp; try done.
  - by apply enter_ok.
  - by apply segments_ok.
  - by apply idt_ok.
  - by apply mapper_ok.
  - destruct bsp; [|by destruct Hb]. unfold turn in Ht. rewrite Hp in Ht. subst n. by apply heap_ok.
  - by apply acpi_ok.
  - by apply apic_ok.
  - by apply enable_ok.
  - destruct bsp; [|by destruct Hb]. apply (wake_ok n g c k i l); try done. unfold todo in Hids. by rewrite Hp in Hids.
Qed.

(** ** All cores *)
Section cores.
Variables (cpu_ids : list Z) (sent0 : list (Z * Z)).
Hypothesis ids_distinct : NoDup cpu_ids.
Hypothesis ids_others : ids ≡ₚ tail cpu_ids.

Definition id_of (c : core) : Z := apic_id (leaf1 c).
Record inv (s : system) (c0 : core) (cs : list core) : Prop := {
  iv_cpus : cpus s = c0 :: cs;
  iv_ids : id_of <$> cpus s = cpu_ids;
  iv_shared : shared (stage (at_phase c0)) (glob s);
  iv_bsp : ∃ k i, core_ok true (glob s) c0 k i;
  iv_aps : Forall (λ c, ∃ k i, core_ok false (glob s) c k i) cs;
  iv_waiting : Forall (λ c, at_phase c = Waiting ↔ id_of c ∈ todo c0) cs;
  iv_sent : ∃ woken ls, ids = woken ++ todo c0 ∧ sent (lapic_view (lapic c0)) = sent0 ++ concat ls ∧ Forall2 start_ipis woken ls
}.
Definition work (s : system) : nat := sum_list_with (λ c, rank (at_phase c)) (cpus s).

Lemma id_byte c : 0 ≤ id_of c < 256.
Proof. unfold id_of, apic_id, cast. apply Z.mod_pos_bound. lia. Qed.
Lemma ids_bytes s c0 cs : inv s c0 cs → Forall (λ id, 0 ≤ id < 256) ids.
Proof.
  intros Hi. apply Forall_forall. intros id Hid. rewrite ids_others in Hid. rewrite <- (iv_ids _ _ _ Hi), (iv_cpus _ _ _ Hi) in Hid.
  cbn [fmap list_fmap tail] in Hid. apply list_elem_of_fmap in Hid as (c & -> & _). apply id_byte.
Qed.
Lemma todo_bytes s c0 cs : inv s c0 cs → Forall (λ id, 0 ≤ id < 256) (todo c0).
Proof.
  intros Hi. pose proof (ids_bytes _ _ _ Hi) as H. destruct (iv_sent _ _ _ Hi) as (woken & ls & E & _). rewrite E in H. apply Forall_app in H as [_ H]. exact H.
Qed.
Lemma ids_of_others s c0 cs : inv s c0 cs → ids ≡ₚ id_of <$> cs ∧ NoDup (id_of c0 :: (id_of <$> cs)).
Proof.
  intros Hi. pose proof (iv_ids _ _ _ Hi) as E. rewrite (iv_cpus _ _ _ Hi) in E. cbn [fmap list_fmap] in E. pose proof ids_others as Ho.
  pose proof ids_distinct as Hd. rewrite <- E in Ho, Hd. done.
Qed.
Lemma listed_index bsp bsp' c c' k k' i : listed bsp c k i → listed bsp' c' k' i → id_of c = id_of c'.
Proof.
  intros [_ H1 _ _ _ _] [_ H2 _ _ _ _]. pose proof (Cores.get_by_apic_id_spec (boot_cores b) (id_of c)) as S1.
  pose proof (Cores.get_by_apic_id_spec (boot_cores b) (id_of c')) as S2. unfold id_of in *. rewrite H1 in S1. rewrite H2 in S2.
  destruct S1 as (_ & L1 & <- & _), S2 as (_ & L2 & <- & _). congruence.
Qed.
(** The phase of one core leaves the others as they are. *)
Lemma core_ok_other bsp g g' c k j i :
  core_ok bsp g c k j → j ≠ i →
  (∀ j, j ≠ i → Gdt.GDT_ARR (segments g') !! j = Gdt.GDT_ARR (segments g) !! j ∧ Gdt.TSS_ARR (segments g') !! j = Gdt.TSS_ARR (segments g) !! j) →
  core_ok bsp g' c k j.
Proof.
  intros [] Hj Hg. destruct (Hg j Hj) as [H1 H2]. constructor; try done. intros Hs. destruct (co_tables0 Hs) as (T1 & T2 & T3).
  split; [done|]. by rewrite H1, H2.
Qed.
Lemma wake_none (l : list core) : wake None <$> l = l.
Proof. induction l as [|c l IH]; [done|]. cbn [fmap list_fmap]. by f_equal. Qed.
Lemma wake_other o c : (∀ id, o = Some id → id_of c ≠ id) → wake o c = c.
Proof. intros H. destruct o as [id|]; [|done]. cbn [wake]. rewrite (proj2 (Z.eqb_neq _ _)); [done|]. by apply H. Qed.
Lemma wake_id o c : id_of (wake o c) = id_of c.
Proof. destruct o as [id|]; [|done]. cbn [wake]. by destruct (_ =? _). Qed.
Lemma woken_ok g c k i : core_ok false g c k i → at_phase c = Waiting → core_ok false g (goto Enter c) k i.
Proof.
  intros [] Hp. unfold in_time in *. rewrite Hp in *. stages. by destruct co_listed0.
Qed.

Lemma work_wake o cs :
  (∀ c, c ∈ cs → at_phase c = Waiting ∨ ∀ id, o = Some id → id_of c ≠ id) →
  (sum_list_with (λ c, rank (at_phase c)) (wake o <$> cs) ≤ sum_list_with (λ c, rank (at_phase c)) cs)%nat.
Proof.
  induction cs as [|c cs IH]; intros H; [done|]. cbn [fmap list_fmap sum_list_with]. specialize (IH ltac:(intros; apply H; by right)).
  assert (rank (at_phase (wake o c)) ≤ rank (at_phase c))%nat; [|lia].
  destruct (H c ltac:(by left)) as [Hwt|Hno]; [|by rewrite wake_other].
  destruct o as [id|]; [|done]. cbn [wake]. destruct (_ =? _); [|done]. rewrite Hwt. cbn [at_phase goto rank]. lia.
Qed.

(** A step of the bootstrap processor. *)
Lemma bsp_step s c0 cs g' c' o :
  inv s c0 cs → active c0 = true → run_phase b (glob s) c0 = Ret (g', c', o) →
  inv (mkSys g' (wake o <$> c' :: cs)) c' (wake o <$> cs) ∧ (work (mkSys g' (wake o <$> c' :: cs)) < work s)%nat.
Proof.
  intros Hi Ha Hrun. destruct (iv_bsp _ _ _ Hi) as (k & i & Hc). destruct (ids_of_others _ _ _ Hi) as [Hperm Hnd].
  destruct (phase_ok true (stage (at_phase c0)) (glob s) c0 k i) as (g1 & c1 & o1 & E & Hpr); [done|apply Hi|done|done|by eapply todo_bytes|].
  rewrite Hrun in E. injection E as <- <- <-. destruct Hpr as [Hsh Hc' Hleaf Hrank Haw Hoth [Htodo Hsent]].
  apply NoDup_cons in Hnd as [Hn0 Hnd].
  destruct (iv_sent _ _ _ Hi) as (woken & ls & Hw & Hs0 & Hf2). destruct Hsent as (l & Hsent & Hl).
  assert (∀ id, o = Some id → id ∈ ids) as Hoid.
  { intros id ->. rewrite Hw, Htodo. apply elem_of_app. right. by left. }
  assert (wake o c' = c') as Hwc.
  { apply wake_other. intros id Ho Heq. apply Hn0. rewrite <- Hperm. unfold id_of in *. rewrite Hleaf in Heq. rewrite Heq. by apply Hoid. }
  assert (NoDup (todo c0)) as Hntd.
  { assert (NoDup ids) as H by (by rewrite Hperm). rewrite Hw in H. by apply NoDup_app in H as (_ & _ & H). }
  assert (∀ c, c ∈ cs → at_phase c = Waiting ∨ ∀ id, o = Some id → id_of c ≠ id) as Hcs.
  { intros c Hin. pose proof (iv_waiting _ _ _ Hi) as Hwt. rewrite Forall_forall in Hwt. specialize (Hwt c Hin).
    destruct (decide (at_phase c = Waiting)) as [|Hnw]; [by left|right]. intros id -> <-. apply Hnw, Hwt. rewrite Htodo. by left. }
  split.
  - constructor; cbn [cpus glob].
    + cbn [fmap list_fmap]. by rewrite Hwc.
    + rewrite <- (iv_ids _ _ _ Hi), (iv_cpus _ _ _ Hi). cbn [fmap list_fmap]. f_equal; [rewrite wake_id; unfold id_of; by rewrite Hleaf|].
      rewrite <- list_fmap_compose. apply list_fmap_ext. intros ? c _. apply wake_id.
    + exact Hsh.
    + by exists k, i.
    + apply Forall_fmap, Forall_forall. intros c Hin. pose proof (iv_aps _ _ _ Hi) as Haps. rewrite Forall_forall in Haps.
      destruct (Haps c Hin) as (kc & j & Hck). exists kc, j.
      assert (core_ok false g' c kc j) as Hck'.
      { apply (core_ok_other _ (glob s) _ _ _ _ i); [done| |done]. intros ->. apply Hn0. apply list_elem_of_fmap. exists c. split; [|done].
        by eapply listed_index; [apply Hc|apply Hck]. }
      unfold compose. destruct o as [id|]; [|done]. cbn [wake]. destruct (Z.eqb_spec (apic_id (leaf1 c)) id) as [Heq|]; [|done].
      apply woken_ok; [done|]. destruct (Hcs c Hin) as [|H]; [done|]. by destruct (H id eq_refl).
    + apply Forall_fmap, Forall_forall. intros c Hin. unfold compose. rewrite wake_id. pose proof (iv_waiting _ _ _ Hi) as Hwt.
      rewrite Forall_forall in Hwt. specialize (Hwt c Hin). rewrite Htodo in Hwt. destruct o as [id|]; cbn [wake option_list app] in *; [|done].
      rewrite Htodo in Hntd. apply NoDup_cons in Hntd as [Hnid _].
      destruct (Z.eqb_spec (apic_id (leaf1 c)) id) as [Heq|Hne]; cbn [at_phase goto].
      * split; [done|]. unfold id_of. by rewrite Heq.
      * rewrite Hwt. change (option_list (Some id) ++ todo c') with (id :: todo c'). rewrite elem_of_cons. unfold id_of. tauto.
    + exists (woken ++ option_list o), (match o with Some _ => ls ++ [l] | None => ls end). rewrite Hw, Htodo, <- app_assoc. split; [done|].
      rewrite Hsent, Hs0. destruct o as [id|]; cbn [option_list].
      * rewrite concat_app. cbn [concat]. rewrite app_nil_r, <- app_assoc. split; [done|]. by apply Forall2_app; [|constructor].
      * subst l. by rewrite !app_nil_r.
  - unfold work. rewrite (iv_cpus _ _ _ Hi). cbn [cpus fmap list_fmap sum_list_with]. rewrite Hwc.
    pose proof (work_wake o cs Hcs) as Hle. lia.
Qed.

(** Another core that is awake: the statics are complete, its phase goes well. *)
Lemma ap_goes_on s c0 cs j c :
  inv s c0 cs → cs !! j = Some c → active c = true →
  id_of c ∉ todo c0 ∧ ∃ k i, core_ok false (glob s) c k i ∧ goes_on false (stage (at_phase c0)) (glob s) c k i.
Proof.
  intros Hi Hj Ha. destruct (ids_of_others _ _ _ Hi) as [Hperm _].
  pose proof (Forall_lookup_1 _ _ _ _ (iv_aps _ _ _ Hi) Hj) as (k & i & Hc).
  pose proof (Forall_lookup_1 _ _ _ _ (iv_waiting _ _ _ Hi) Hj) as Hwc. cbv beta in Hwc.
  assert (id_of c ∉ todo c0) as Hntd by (rewrite <- Hwc; intros E; unfold active in Ha; by rewrite E in Ha). split; [done|].
  assert (9 ≤ stage (at_phase c0))%nat as H9.
  { destruct (decide (9 ≤ stage (at_phase c0))%nat) as [|Hlt]; [done|]. destruct Hntd. assert (todo c0 = ids) as ->.
    { unfold todo. destruct (at_phase c0); cbn [stage] in Hlt; done || lia. }
    rewrite Hperm. apply list_elem_of_fmap. exists c. split; [done|]. by eapply list_elem_of_lookup_2. }
  exists k, i. split; [done|]. apply phase_ok; [done|apply Hi|done|done|].
  apply Forall_forall. intros id Hid. pose proof (ids_bytes _ _ _ Hi) as Hby. rewrite Forall_forall in Hby. apply Hby.
  pose proof (co_bsp _ _ _ _ _ Hc) as [_ Hs]. unfold todo in Hid. revert Hid Hs. destruct (at_phase c); try done. intros H _. by apply elem_of_nil in H.
Qed.
(** A step of another core. *)
Lemma ap_step s c0 cs j c g' c' o :
  inv s c0 cs → cs !! j = Some c → active c = true → run_phase b (glob s) c = Ret (g', c', o) →
  o = None ∧ inv (mkSys g' (c0 :: <[j := c']> cs)) c0 (<[j := c']> cs) ∧ (work (mkSys g' (c0 :: <[j := c']> cs)) < work s)%nat.
Proof.
  intros Hi Hj Ha Hrun. pose proof (list_elem_of_lookup_2 _ _ _ Hj) as Hin. destruct (ids_of_others _ _ _ Hi) as [Hperm Hnd].
  pose proof (iv_aps _ _ _ Hi) as Haps. pose proof (iv_waiting _ _ _ Hi) as Hwt.
  destruct (ap_goes_on s c0 cs j c Hi Hj Ha) as (Hntd & k & i & Hc & g1 & c1 & o1 & E & Hpr).
  rewrite Hrun in E. injection E as <- <- <-. destruct Hpr as [Hsh Hc' Hleaf Hrank Haw Hoth ->]. split; [done|].
  apply NoDup_cons in Hnd as [Hn0 Hnd]. split.
  - constructor; cbn [cpus glob]; [done| |exact Hsh|..].
    + rewrite <- (iv_ids _ _ _ Hi), (iv_cpus _ _ _ Hi). cbn [fmap list_fmap]. f_equal. rewrite (list_fmap_insert id_of).
      apply list_insert_id. rewrite list_lookup_fmap, Hj. cbn. unfold id_of. by rewrite Hleaf.
    + destruct (iv_bsp _ _ _ Hi) as (k0 & i0 & H0). exists k0, i0. apply (core_ok_other _ (glob s) _ _ _ _ i); [done| |done].
      intros ->. apply Hn0. apply list_elem_of_fmap. exists c. split; [|done]. by eapply listed_index; [apply H0|apply Hc].
    + apply Forall_lookup. intros j' c2. destruct (decide (j' = j)) as [->|Hne].
      * rewrite list_lookup_insert_eq by (by eapply lookup_lt_Some). intros [= <-]. by exists k, i.
      * rewrite list_lookup_insert_ne by done. intros H2. destruct (Forall_lookup_1 _ _ _ _ Haps H2) as (k2 & i2 & Hc2). exists k2, i2.
        apply (core_ok_other _ (glob s) _ _ _ _ i); [done| |done]. intros ->. apply Hne.
        assert (id_of c2 = id_of c) as Eid by (by eapply listed_index; [apply Hc2|apply Hc]).
        apply (NoDup_lookup (id_of <$> cs) _ _ (id_of c) Hnd); rewrite list_lookup_fmap; [by rewrite H2; cbn; rewrite Eid|by rewrite Hj].
    + apply Forall_insert; [done|]. unfold id_of in *. rewrite Hleaf. split; [done|]. by intros ?%Hntd.
    + apply Hi.
  - unfold work. rewrite (iv_cpus _ _ _ Hi). cbn [cpus sum_list_with].
    assert (sum_list_with (λ c, rank (at_phase c)) (<[j := c']> cs) < sum_list_with (λ c, rank (at_phase c)) cs)%nat as H; [|lia].
    rewrite <- (take_drop_middle cs j c Hj) at 2. rewrite insert_take_drop by (by eapply lookup_lt_Some).
    rewrite !sum_list_with_app. cbn [sum_list_with]. lia.
Qed.

Lemma step_inv s c0 cs s' :
  inv s c0 cs → step b s s' → ∃ c0' cs', inv s' c0' cs' ∧ (work s' < work s)%nat.
Proof.
  intros Hi Hst. destruct Hst as [i c g' c' o Hc Ha Hrun]. rewrite (iv_cpus _ _ _ Hi) in Hc. destruct i as [|j]; cbn in Hc.
  - injection Hc as ->. rewrite (iv_cpus _ _ _ Hi). cbn [insert list_insert]. destruct (bsp_step s c cs g' c' o Hi Ha Hrun). by eexists _, _.
  - destruct (ap_step s c0 cs j c g' c' o Hi Hc Ha Hrun) as (-> & H1 & H2). rewrite (iv_cpus _ _ _ Hi). cbn [insert list_insert].
    rewrite wake_none. by exists c0, (<[j := c']> cs).
Qed.
Lemma steps_inv s s' c0 cs : inv s c0 cs → rtc (step b) s s' → ∃ c0' cs', inv s' c0' cs'.
Proof.
  intros Hi Hs. revert c0 cs Hi. induction Hs as [s|s s1 s' H1 _ IH]; intros c0 cs Hi; [by exists c0, cs|].
  destruct (step_inv _ _ _ _ Hi H1) as (c1 & cs1 & Hi1 & _). by eapply IH.
Qed.
Lemma inv_sn n s c0 cs : inv s c0 cs → (work s < n)%nat → sn (step b) s.
Proof.
  revert s c0 cs. induction n as [|n IH]; intros s c0 cs Hi Hn; [lia|]. constructor. intros s' Hst.
  destruct (step_inv _ _ _ _ Hi Hst) as (c1 & cs1 & Hi1 & Hlt). eapply IH; [exact Hi1|lia].
Qed.
(** An active core does not panic. *)
Lemma inv_steps s c0 cs i c : inv s c0 cs → cpus s !! i = Some c → active c = true → ∃ r, run_phase b (glob s) c = Ret r.
Proof.
  intros Hi Hc Ha. rewrite (iv_cpus _ _ _ Hi) in Hc. destruct i as [|j]; cbn in Hc.
  - injection Hc as <-. destruct (iv_bsp _ _ _ Hi) as (k & i & Hok).
    destruct (phase_ok true (stage (at_phase c0)) (glob s) c0 k i) as (g1 & c1 & o1 & E & _); [done|apply Hi|done|done|by eapply todo_bytes|]. eauto.
  - destruct (ap_goes_on s c0 cs j c Hi Hc Ha) as (_ & k & i & _ & g1 & c1 & o1 & E & _). eauto.
Qed.
End cores.

Lemma init_inv s c0 cs : at_entry s c0 cs → inv (id_of <$> cpus s) (sent (lapic_view (lapic c0))) s c0 cs.
Proof.
  intros [Hcpus [Hp0 Hps] Hperm _ (k & i & Hbsp) Haps Hroot Hext Hpr [Ht0 Hts] Harr (Hidt & Hmem & Hac & Hsp)].
  assert (todo c0 = ids) as Htodo by (unfold todo; by rewrite Hp0). constructor; [done|done|..].
  - rewrite Hp0. constructor; cbn [stage Nat.ltb Nat.leb]; try done; [rewrite Hsp; apply (en_tree env)|intros v _ _; by rewrite Hsp|rewrite Hsp; apply (en_page env)|lia].
  - exists k, i. constructor; try done; rewrite ?Hp0; cbn [stage]; try lia. split; [lia|]. done.
  - apply Forall_forall. intros c Hin. rewrite Forall_forall in Haps, Hts, Hps. destruct (Haps c Hin) as (kc & ic & Hl). exists kc, ic.
    constructor; [done|by apply Hts|..]; rewrite (Hps c Hin); cbn [stage]; lia.
  - apply Forall_forall. intros c Hin. rewrite Forall_forall in Hps. rewrite Htodo. split; [|by intros _; apply Hps]. intros _.
    rewrite Hperm. apply list_elem_of_fmap. by exists c.
  - exists [], []. rewrite Htodo. split; [done|]. split; [by rewrite app_nil_r|constructor].
Qed.

(** A core that is through [init]. *)
Record up (g : globals) (c : core) : Prop := {
  up_running : at_phase c = Running;
  up_tables : ∃ k i, Cores.get_by_apic_id (boot_cores b) (id_of c) = Some (k, i) ∧ own_tables g c k i;
  up_idt : idtr c = (idt_addr, 4095);
  up_apic : in_service c;
  up_enabled : Z.testbit (Control.rflags (regs c)) 9 = true
}.
Lemma core_up bsp g c k i : core_ok bsp g c k i → at_phase c = Running → up g c.
Proof.
  intros [Hl _ _ H1 H2 H3 H4] Hp. rewrite Hp in *. cbn [stage] in *. split; [done| |by apply H2; lia|by apply H3; lia|by apply H4; lia].
  exists k, i. split; [apply (ls_core _ _ _ _ Hl)|apply H1; lia].
Qed.
Lemma stuck_running s i c : nf (step b) s → ¬ faulty b s → cpus s !! i = Some c → at_phase c = Waiting ∨ at_phase c = Running.
Proof.
  intros Hnf Hnp Hc. destruct (active c) eqn:Ha; [|unfold active in Ha; destruct (at_phase c); auto; done]. exfalso.
  destruct (run_phase b (glob s) c) as [[[g' c'] o]|f] eqn:Hrun.
  - apply Hnf. eexists. by econstructor.
  - apply Hnp. by exists i, c, f.
Qed.
Lemma inv_final cpu_ids sent0 s c0 cs :
  NoDup cpu_ids → ids ≡ₚ tail cpu_ids → inv cpu_ids sent0 s c0 cs → nf (step b) s → ¬ faulty b s →
  Forall (up (glob s)) (cpus s) ∧ idt (glob s) = Some (Idt.layout fn_addr 8 Idt.all_installed)
  ∧ heap_mapped (space (glob s)) ∧ apic_mapped (space (glob s)) ∧ rest_kept (space (glob s))
  ∧ ∃ ls, sent (lapic_view (lapic c0)) = sent0 ++ concat ls ∧ Forall2 start_ipis ids ls.
Proof.
  intros Hd Hperm Hi Hnf Hnp. pose proof (stuck_running s) as Hst. rewrite (iv_cpus _ _ _ _ _ Hi) in Hst.
  destruct (iv_bsp _ _ _ _ _ Hi) as (k & i & Hc). assert (at_phase c0 = Running) as H0.
  { destruct (Hst 0%nat c0 Hnf Hnp eq_refl) as [E|E]; [|done]. destruct (co_bsp _ _ _ _ _ Hc) as [H _]. by rewrite E in H. }
  pose proof (iv_shared _ _ _ _ _ Hi) as Hsh. rewrite H0 in Hsh. assert (todo c0 = []) as Htd by (unfold todo; by rewrite H0).
  split; [|split; [apply (sh_idt _ _ Hsh)|split; [apply (sh_heap _ _ Hsh)|split; [apply (sh_apic _ _ Hsh); cbn; lia|split; [apply (sh_rest _ _ Hsh)|]]]]].
  - rewrite (iv_cpus _ _ _ _ _ Hi). constructor; [by eapply core_up|]. apply Forall_lookup. intros j c Hj.
    destruct (Forall_lookup_1 _ _ _ _ (iv_aps _ _ _ _ _ Hi) Hj) as (kc & ic & Hcc). eapply core_up; [exact Hcc|].
    destruct (Hst (S j) c Hnf Hnp Hj) as [E|E]; [|done]. apply (Forall_lookup_1 _ _ _ _ (iv_waiting _ _ _ _ _ Hi) Hj) in E. rewrite Htd in E. by apply elem_of_nil in E.
  - destruct (iv_sent _ _ _ _ _ Hi) as (woken & ls & E & Hs & Hf). rewrite Htd, app_nil_r in E. subst woken. by exists ls.
Qed.

(** C4: [init] brings up all cores.  The bootloader has left the boot information,
    page tables and ACPI tables in order, the bootstrap processor enters [init] and
    the others wait.  Then on every interleaving of the cores no core ever panics;
    every interleaving comes to an end; and where nothing is left to do, every core is
    through: its own GDT and TSS with its own stacks are loaded, the complete interrupt
    table is loaded, its local APIC is in service and interrupts are enabled; the heap
    and the uncached register page are mapped and no other translation has changed; and
    each other core has received INIT and two STARTUP interrupts, in the order of the
    ACPI table. *)
Theorem kernel_init_boots s c0 cs :
  at_entry s c0 cs →
  (∀ s', rtc (step b) s s' → ¬ faulty b s')
  ∧ sn (step b) s
  ∧ ∀ s', rtc (step b) s s' → nf (step b) s' →
      id_of <$> cpus s' = id_of <$> cpus s
      ∧ Forall (up (glob s')) (cpus s') ∧ idt (glob s') = Some (Idt.layout fn_addr 8 Idt.all_installed)
      ∧ heap_mapped (space (glob s')) ∧ apic_mapped (space (glob s')) ∧ rest_kept (space (glob s'))
      ∧ ∃ c0' ls, head (cpus s') = Some c0' ∧ sent (lapic_view (lapic c0')) = sent (lapic_view (lapic c0)) ++ concat ls
          ∧ Forall2 start_ipis ids ls.
Proof.
  intros He. pose proof (init_inv s c0 cs He) as Hi. pose proof (ae_distinct _ _ _ He) as Hd.
  assert (ids ≡ₚ tail (id_of <$> cpus s)) as Hp by (rewrite (ae_cpus _ _ _ He); apply (ae_ids _ _ _ He)).
  assert (∀ s', rtc (step b) s s' → ¬ faulty b s') as Hnp.
  { intros s' Hs (i & c & f & Hc & Ha & Hr). destruct (steps_inv _ _ Hd Hp _ _ _ _ Hi Hs) as (c1 & cs1 & Hi1).
    destruct (inv_steps _ _ Hd Hp _ _ _ _ _ Hi1 Hc Ha) as [r E]. by rewrite E in Hr. }
  split; [done|]. split; [apply (inv_sn _ _ Hd Hp (S (work s)) s c0 cs Hi); lia|]. intros s' Hs Hnf. destruct (steps_inv _ _ Hd Hp _ _ _ _ Hi Hs) as (c1 & cs1 & Hi1).
  split; [apply (iv_ids _ _ _ _ _ Hi1)|]. destruct (inv_final _ _ _ _ _ Hd Hp Hi1 Hnf (Hnp _ Hs)) as (H1 & H2 & H3 & H4 & H5 & ls & H6 & H7).
  do 5 (split; [done|]). exists c1, ls. by rewrite (iv_cpus _ _ _ _ _ Hi1).
Qed.
End boot.
End program.

(** ** Instances *)
(** Two cores with the identifiers 0 and 4, as [LapicIter.boot_memory] lists them; the
    register page is mapped, 2 MiB to 16 MiB are usable. *)
#[local] Existing Instance bit_field_model.
#[local] Existing Instance Lapic.bitfield_model.
#[local] Existing Instance Lapic.quiet_lapic.
Definition low_frames : FrameAlloc.BootInfoFrameAllocator :=
  FrameAlloc.new (MemoryMap.single (MemoryMap.mkRegion (MemoryMap.mkFrameRange 0x10 0x20) MemoryMap.Usable)).
Definition two_space : Mapper.tables :=
  match KernelMemory.id_map Paging.Size2MiB Mapper.empty_space low_frames 0x1000 APIC_BASE None with
  | Ret (t, _, _) => t
  | Panic _ => Mapper.empty_space
  end.
Definition two_entry (id : Z) : Cores.Core :=
  Cores.mkCore id (0x800000 + id * 0x10000) (0x400000 + id * 0x10000) (Cores.mkTSS (seqZ (0x1000000 + 8 * id) 8) (seqZ (0x2000000 + 8 * id) 8)).
Definition two_boot : BootInfo :=
  mkBootInfo (FrameAlloc.memory_map KernelMemory.roomy) 0x8000 0 0x1000 0x200000
    (Cores.mkCores (two_entry 0 :: two_entry 4 :: replicate 254 Cores.core_empty) 2 2) 0x1000000.
Definition two_core (p : phase) (id base : Z) : core (M := quiet) :=
  mkCore p (Control.mkCpu {[ IA32_APIC_BASE := base ]} 0 0 0x1000 0 0 0 2 (Control.mkPointer 0 0) (Control.mkPointer 0 0))
    (Gdt.mkRegs (0, 0) 0 0) (0, 0) (mkCpuid 0 (Z.shiftl id 24) 0 0x200) 1 idle.
Definition two_system : system (M := quiet) (P := Pic.chipset) :=
  mkSys (mkGlobals (Smp.mkStatics None 0) Gdt.no_tables None (KernelMemory.mkStatics None None) None two_space Pic.PICS Pic.busy_chips)
    [two_core Enter 0 0xfee00900; two_core Waiting 4 0xfee00800].
Definition two_gdt (i : nat) : Z := 0x5000 + 72 * Z.of_nat i.
Definition two_tss (i : nat) : Z := 0x9000 + 104 * Z.of_nat i.
Definition two_tables : Acpi.Acpi := match Acpi.acpi_init LapicIter.boot_memory Acpi.new with Ret a => a | Panic _ => Acpi.new end.

Lemma two_space_ok :
  (∃ path, Mapper.tree two_space 0x1000 path)
  ∧ ∃ off fl, Mapper.translate two_space 0x1000 APIC_BASE = Ret (Mapper.Mapped (Mapper.Frame Paging.Size2MiB APIC_BASE) off fl).
Proof.
  destruct (KernelMemory.id_map_cases Paging.Size2MiB Mapper.empty_space low_frames 0x1000 (λ _, []) APIC_BASE None)
    as (t & a & r & path & E & Ht & Ha & Ho);
    [exact Mapper.empty_tree|apply Mapper.single_alloc_ok; by vm_compute|by vm_compute|by vm_compute|by vm_compute|by vm_compute|].
  assert (match KernelMemory.id_map Paging.Size2MiB Mapper.empty_space low_frames 0x1000 APIC_BASE None with
          | Ret (_, _, Ok _) => true | _ => false end = true) as Hok by (vm_compute; reflexivity).
  unfold two_space. rewrite E in Hok |- *. destruct r as [page|]; [|discriminate Hok]. destruct Ho as [_ Ho].
  split; [by exists path|]. eexists _, _. rewrite Ho, decide_True by apply Mapper.in_page_self. done.
Qed.
Lemma two_environment :
  environment 3000 Idt.sample_fn 0x7000 LapicIter.boot_memory two_boot two_space 0x1000 two_tables [4].
Proof.
  constructor.
  - lia.
  - apply Idt.sample_canonical.
  - left. by vm_compute.
  - done.
  - split; [cbn; lia|]. apply (bool_decide_unpack _). by vm_compute.
  - apply two_space_ok.
  - split.
    + apply Mapper.single_alloc_ok_in; [by vm_compute..|]. apply (bool_decide_unpack _). by vm_compute.
    + intros r Hr _. apply list_elem_of_singleton in Hr as ->. by vm_compute.
  - assert (match KernelMemory.init_heap two_space KernelMemory.roomy 0x1000 with Ret (_, _, Ok _) => true | _ => false end = true) as Hok
      by (vm_compute; reflexivity).
    change (FrameAlloc.new (memory_map two_boot)) with KernelMemory.roomy.
    destruct (KernelMemory.init_heap two_space KernelMemory.roomy 0x1000) as [[[t a] [[]|]]|]; [by exists t, a|discriminate..].
  - apply two_space_ok.
  - exists None. split; [by vm_compute|done].
  - unfold two_tables. destruct (Acpi.acpi_init _ _) eqn:E; [done|vm_compute in E; discriminate].
  - eexists _, _. split; by vm_compute.
Qed.
Lemma two_listed bsp p id base :
  (id = 0 ∨ id = 4) → in_width 64 base → Bits.field base 8 9 = Z.b2z bsp →
  ∃ k i, listed two_gdt two_tss two_boot bsp (two_core p id base) k i.
Proof.
  intros Hid Hw Hf. exists (two_entry id), (if id =? 0 then 0%nat else 1%nat).
  assert (∀ n, 0 ≤ n < 2 ^ 30 → canonical n ∧ in_width 64 n) as Hn by (intros n H; split; [left; lia|unfold in_width; lia]).
  destruct Hid as [-> | ->]; constructor.
  1, 7: by vm_compute.
  1, 6: by vm_compute.
  1, 5: split; [done|]; apply Forall_forall; intros x Hx; apply elem_of_seqZ in Hx; lia.
  1, 4: apply (bool_decide_unpack _); by vm_compute.
  1, 3: split; apply Hn; by vm_compute.
  1, 2: by exists base.
Qed.
Lemma two_entry_ok :
  at_entry 3000 two_gdt two_tss two_boot two_space 0x1000 [4] two_system (two_core Enter 0 0xfee00900) [two_core Waiting 4 0xfee00800].
Proof.
  constructor.
  - done.
  - split; [done|by apply Forall_singleton].
  - by vm_compute.
  - apply (bool_decide_unpack _). by vm_compute.
  - apply two_listed; [by left|by vm_compute..].
  - apply Forall_singleton, two_listed; [by right|by vm_compute..].
  - by vm_compute.
  - done.
  - done.
  - split; [by vm_compute|]. apply Forall_singleton. by vm_compute.
  - done.
  - done.
Qed.
Lemma kernel_init_boots_witness :
  sn (step 3000 two_gdt two_tss Idt.sample_fn 0x7000 LapicIter.boot_memory two_boot) two_system
  ∧ ∀ s', rtc (step 3000 two_gdt two_tss Idt.sample_fn 0x7000 LapicIter.boot_memory two_boot) two_system s' →
      ¬ faulty 3000 two_gdt two_tss Idt.sample_fn 0x7000 LapicIter.boot_memory two_boot s'.
Proof.
  destruct (kernel_init_boots 3000 two_gdt two_tss Idt.sample_fn 0x7000 LapicIter.boot_memory two_boot two_space 0x1000 two_tables [4]
    two_environment two_system _ _ two_entry_ok) as (H1 & H2 & _).
  exact (conj H2 H1).
Defined.
End KernelInit.
