(* ===== verification/Vga.v ===== *)
(** * kernel/src/vga.rs: the text screen

    [Writer] types at the bottom row of a screen of 25 rows and 80 columns and scrolls.
    The buffer is a list of rows, written one character at a time as the code does; the
    reference is the layout of a text into lines ([layout]) of which the screen shows the
    last ones.  crates/bootloader/src/vga.rs is the same code. *)
From S2P Require Import Prelude.

Module Vga.

Inductive Color :=
  | Black | Blue | Green | Cyan | Red | Magenta | Brown | LightGray
  | DarkGray | LightBlue | LightGreen | LightCyan | LightRed | Pink | Yellow | White.
Definition color_u8 (c : Color) : Z :=
  match c with
  | Black => 0 | Blue => 1 | Green => 2 | Cyan => 3 | Red => 4 | Magenta => 5 | Brown => 6 | LightGray => 7
  | DarkGray => 8 | LightBlue => 9 | LightGreen => 10 | LightCyan => 11 | LightRed => 12 | Pink => 13
  | Yellow => 14 | White => 15
  end.
Definition color_code_new (foreground background : Color) : Z :=
  Z.lor (ushl 8 (color_u8 foreground) 4) (color_u8 background).

Record ScreenChar := mkChar { ascii_character : Z; char_color : Z }.
#[global] Instance ScreenChar_eq_dec : EqDecision ScreenChar.
Proof. solve_decision. Defined.
Definition BUFFER_HEIGHT : nat := 25.
Definition BUFFER_WIDTH : nat := 80.
(** [Buffer::chars]. *)
Notation Buffer := (list (list ScreenChar)).
Record Writer := mkWriter { column_position : Z; color_code : Z; buffer : Buffer }.
Definition set_buffer (w : Writer) (b : Buffer) : Writer := mkWriter (column_position w) (color_code w) b.

(** [chars[row][col]], read and written. *)
Definition read_char (b : Buffer) (row col : nat) : run ScreenChar := r ← index b row; index r col.
Definition write_char (b : Buffer) (row col : nat) (c : ScreenChar) : run Buffer :=
  r ← index b row; r ← store r col c; store b row r.

Definition blank (color : Z) : ScreenChar := mkChar 0x20 color.
Definition clear_row (w : Writer) (row : nat) : run Writer :=
  b ← for_each (λ col b, write_char b row col (blank (color_code w))) (seq 0 BUFFER_WIDTH) (buffer w);
  Ret (set_buffer w b).
(** The inner loop of [new_line]. *)
Definition copy_up (row : nat) (b : Buffer) : run Buffer :=
  for_each (λ col b, character ← read_char b row col; write_char b (row - 1) col character) (seq 0 BUFFER_WIDTH) b.
Definition new_line (w : Writer) : run Writer :=
  b ← for_each copy_up (seq 1 (BUFFER_HEIGHT - 1)) (buffer w);
  w ← clear_row (set_buffer w b) (BUFFER_HEIGHT - 1);
  Ret (mkWriter 0 (color_code w) (buffer w)).
Definition write_byte (w : Writer) (byte : Z) : run Writer :=
  if byte =? 0x0a then new_line w
  else
    w ← (if Z.of_nat BUFFER_WIDTH <=? column_position w then new_line w else Ret w);
    let row := (BUFFER_HEIGHT - 1)%nat in
    let col := column_position w in
    b ← write_char (buffer w) row (Z.to_nat col) (mkChar byte (color_code w));
    col' ← uadd 64 col 1;
    Ret (mkWriter col' (color_code w) b).
Definition flush (w : Writer) : run Writer := for_each (λ row w, clear_row w row) (seq 0 BUFFER_HEIGHT) w.
(** What is printed for a byte: the printable characters, or a block. *)
Definition printable (byte : Z) : Z :=
  if ((0x20 <=? byte) && (byte <=? 0x7e)) || (byte =? 0x0a) then byte else 0xfe.
Definition write_string (w : Writer) (s : list Z) : run Writer := for_each (λ byte w, write_byte w (printable byte)) s w.
(** [init], on the contents of the screen at 0xb8000. *)
Definition init (screen : Buffer) : Writer := mkWriter 0 (color_code_new Black Yellow) screen.

(** ** The loops *)
Definition screen_ok (b : Buffer) : Prop := length b = BUFFER_HEIGHT ∧ Forall (λ r, length r = BUFFER_WIDTH) b.
Lemma screen_row b row : screen_ok b → (row < BUFFER_HEIGHT)%nat → ∃ r, b !! row = Some r ∧ length r = BUFFER_WIDTH.
Proof.
  intros [Hl Hf] Hr. destruct (lookup_lt_is_Some_2 b row) as [r E]; [lia|]. exists r. split; [done|].
  by apply (Forall_lookup_1 _ _ _ _ Hf E).
Qed.
Lemma screen_insert b row r : screen_ok b → length r = BUFFER_WIDTH → screen_ok (<[row := r]> b).
Proof. intros [Hl Hf] Hr. split; [by rewrite length_insert|by apply Forall_insert]. Qed.
Lemma write_char_spec b row col c r :
  b !! row = Some r → (col < length r)%nat → write_char b row col c = Ret (<[row := <[col := c]> r]> b).
Proof.
  intros Hr Hc. unfold write_char. rewrite (proj2 (index_Ret b row r) Hr). cbn [mbind run_bind].
  rewrite store_Ret by done. cbn [mbind run_bind]. by rewrite store_Ret by (by eapply lookup_lt_Some).
Qed.
Lemma seq_snoc s n : seq s (S n) = seq s n ++ [(s + n)%nat].
Proof. rewrite <- Nat.add_1_r. by rewrite seq_app. Qed.
(** Writing a row from left to right. *)
Lemma fill_row b row r (f : nat → Buffer → run ScreenChar) (src : list ScreenChar) n :
  b !! row = Some r → length src = length r → (n ≤ length r)%nat →
  (∀ k, (k < n)%nat → ∀ c, src !! k = Some c → f k (<[row := take k src ++ drop k r]> b) = Ret c) →
  for_each (λ col b, c ← f col b; write_char b row col c) (seq 0 n) b = Ret (<[row := take n src ++ drop n r]> b).
Proof.
  intros Hr Hl Hn Hf. induction n as [|n IH]; [by cbn; rewrite drop_0, list_insert_id|].
  rewrite seq_snoc, for_each_app, IH by (lia || (intros; apply Hf; [lia|done])). cbn [mbind run_bind for_each Nat.add].
  destruct (lookup_lt_is_Some_2 src n) as [c Hc]; [lia|]. rewrite (Hf n ltac:(lia) c Hc). cbn [mbind run_bind].
  pose proof (lookup_lt_Some _ _ _ Hr). erewrite write_char_spec;
    [|by rewrite list_lookup_insert_eq by done|by rewrite length_app, length_take, length_drop; lia].
  cbn [mbind run_bind]. rewrite list_insert_insert_eq. do 2 f_equal.
  rewrite insert_app_r_alt by (rewrite length_take; lia). rewrite length_take, Nat.min_l, Nat.sub_diag by lia.
  destruct (lookup_lt_is_Some_2 r n) as [c' Hc']; [lia|]. rewrite (drop_S r c' n Hc'). cbn.
  by rewrite (take_S_r src n c Hc), <- app_assoc.
Qed.
Lemma clear_row_spec w row :
  screen_ok (buffer w) → (row < BUFFER_HEIGHT)%nat →
  clear_row w row = Ret (set_buffer w (<[row := replicate BUFFER_WIDTH (blank (color_code w))]> (buffer w))).
Proof.
  intros Hs Hr. destruct (screen_row _ _ Hs Hr) as (r & Er & Hl). unfold clear_row.
  rewrite (fill_row _ row r (λ _ _, Ret (blank (color_code w))) (replicate BUFFER_WIDTH (blank (color_code w)))).
  - cbn [mbind run_bind]. by rewrite take_ge, drop_ge, app_nil_r by (rewrite ?length_replicate; lia).
  - done.
  - by rewrite length_replicate.
  - by rewrite Hl.
  - intros k Hk c Hc. by apply lookup_replicate_1 in Hc as [-> _].
Qed.
Lemma copy_up_spec b row r :
  screen_ok b → (0 < row < BUFFER_HEIGHT)%nat → b !! row = Some r → copy_up row b = Ret (<[(row - 1)%nat := r]> b).
Proof.
  intros Hs Hr Er. destruct (screen_row b (row - 1) Hs ltac:(lia)) as (d & Ed & Hd).
  pose proof (Forall_lookup_1 _ _ _ _ (proj2 Hs) Er) as Hlr. cbn beta in Hlr. unfold copy_up.
  rewrite (fill_row b (row - 1) d (λ col b, read_char b row col) r); [|done|lia|by rewrite Hd|].
  - by rewrite take_ge, drop_ge, app_nil_r by lia.
  - intros k Hk c Hc. unfold read_char. rewrite (proj2 (index_Ret _ row r)) by (by rewrite list_lookup_insert_ne by lia).
    cbn [mbind run_bind]. by apply index_Ret.
Qed.
Lemma scroll_loop b n :
  screen_ok b → (n < BUFFER_HEIGHT)%nat → for_each copy_up (seq 1 n) b = Ret (take n (drop 1 b) ++ drop n b).
Proof.
  intros Hs Hn. induction n as [|n IH]; [by rewrite take_0, drop_0|]. rewrite seq_snoc, for_each_app, IH by lia. cbn [mbind run_bind for_each].
  destruct Hs as [Hl Hf]. destruct (screen_row b (S n) (conj Hl Hf) Hn) as (r & Er & Hr).
  destruct (screen_row b n (conj Hl Hf) ltac:(lia)) as (d & Ed & _).
  assert (length (take n (drop 1 b)) = n) as Ht by (rewrite length_take, length_drop; lia).
  rewrite (copy_up_spec _ _ r).
  - cbn [mbind run_bind]. do 2 f_equal. rewrite insert_app_r_alt by lia. replace (1 + n - 1 - _)%nat with 0%nat by lia.
    rewrite (drop_S b d n Ed). cbn [insert list_insert]. rewrite (take_S_r (drop 1 b) n r) by (by rewrite lookup_drop). by rewrite <- app_assoc.
  - split; [rewrite length_app, length_drop; lia|]. apply Forall_app. split; [apply Forall_take, Forall_drop, Hf|apply Forall_drop, Hf].
  - lia.
  - rewrite lookup_app_r by lia. rewrite Ht, lookup_drop. by replace (n + (1 + n - n))%nat with (S n) by lia.
Qed.
(** [new_line] scrolls by one row. *)
Lemma new_line_spec w :
  screen_ok (buffer w) →
  new_line w = Ret (mkWriter 0 (color_code w) (drop 1 (buffer w) ++ [replicate BUFFER_WIDTH (blank (color_code w))])).
Proof.
  intros [Hl Hf]. unfold new_line. rewrite scroll_loop by (done || unfold BUFFER_HEIGHT; lia). cbn [mbind run_bind].
  assert (length (drop 1 (buffer w)) = 24%nat) as Hd by (rewrite length_drop, Hl; done). unfold BUFFER_HEIGHT in *.
  rewrite clear_row_spec; cbn [mbind run_bind set_buffer buffer color_code].
  - do 2 f_equal. rewrite take_ge by lia. rewrite insert_app_r_alt by lia. rewrite Hd.
    destruct (lookup_lt_is_Some_2 (buffer w) 24) as [r Er]; [lia|]. change (25 - 1)%nat with 24%nat. rewrite (drop_S _ r 24 Er). rewrite (drop_ge (buffer w) 25) by lia. done.
  - split; [rewrite length_app, length_take, Hd, length_drop, Hl; done|].
    apply Forall_app. split; [apply Forall_take, Forall_drop, Hf|apply Forall_drop, Hf].
  - unfold BUFFER_HEIGHT. lia.
Qed.

(** ** The layout of a text *)
(** Lines end at line feeds. *)
Fixpoint split_lines (s : list Z) : list Z * list (list Z) :=
  match s with
  | [] => ([], [])
  | b :: s => let '(l, ls) := split_lines s in if b =? 0x0a then ([], l :: ls) else (b :: l, ls)
  end.
(** A line longer than the screen is wide takes several rows. *)
Fixpoint wrap_fuel (fuel : nat) (l : list Z) : list (list Z) :=
  match fuel with
  | 0%nat => [l]
  | S fuel => if (length l <=? BUFFER_WIDTH)%nat then [l] else take BUFFER_WIDTH l :: wrap_fuel fuel (drop BUFFER_WIDTH l)
  end.
Definition wrap (l : list Z) : list (list Z) := wrap_fuel (length l) l.
(** The rows a text takes. *)
Definition layout (s : list Z) : list (list Z) := let '(l, ls) := split_lines (printable <$> s) in concat (wrap <$> (l :: ls)).

(** A row with the text typed over what it showed. *)
Definition typed (color : Z) (l : list Z) (r : list ScreenChar) : list ScreenChar :=
  ((λ b, mkChar b color) <$> l) ++ drop (length l) r.
Definition fresh_row (color : Z) (l : list Z) : list ScreenChar := typed color l (replicate BUFFER_WIDTH (blank color)).
Definition last_rows {A} (n : nat) (l : list A) : list A := drop (length l - n) l.

(** The rows of a text, one byte at a time. *)
Fixpoint type_rows (cur s : list Z) : list Z * list (list Z) :=
  match s with
  | [] => (cur, [])
  | b :: s =>
      if b =? 0x0a then let '(l, ls) := type_rows [] s in (cur, l :: ls)
      else if (BUFFER_WIDTH <=? length cur)%nat then let '(l, ls) := type_rows [b] s in (cur, l :: ls)
      else type_rows (cur ++ [b]) s
  end.
Lemma wrap_fuel_more n m l : (length l ≤ n)%nat → (length l ≤ m)%nat → wrap_fuel n l = wrap_fuel m l.
Proof.
  revert m l. induction n as [|n IH]; intros m l Hn Hm.
  - destruct l; [|cbn in Hn; lia]. by destruct m.
  - cbn [wrap_fuel]. destruct m as [|m]; [by destruct l; [|cbn in Hm; lia]|]. cbn [wrap_fuel].
    destruct (Nat.leb_spec (length l) BUFFER_WIDTH); [done|]. f_equal. apply IH; rewrite length_drop; unfold BUFFER_WIDTH in *; lia.
Qed.
Lemma wrap_short l : (length l ≤ BUFFER_WIDTH)%nat → wrap l = [l].
Proof. unfold wrap. destruct l as [|b l]; [done|]. intros H. cbn [length wrap_fuel]. by rewrite (proj2 (Nat.leb_le _ _)). Qed.
Lemma wrap_long cur l : length cur = BUFFER_WIDTH → l ≠ [] → wrap (cur ++ l) = cur :: wrap l.
Proof.
  intros Hc Hl. destruct l as [|b l]; [done|]. unfold wrap. rewrite length_app, Hc.
  change (BUFFER_WIDTH + length (b :: l))%nat with (S (79 + length (b :: l)))%nat. assert (length (b :: l) ≤ 79 + length (b :: l))%nat as Hn by lia.
  revert Hn. generalize (79 + length (b :: l))%nat as n. intros n Hn. cbn [wrap_fuel]. rewrite (proj2 (Nat.leb_gt _ _)) by (rewrite length_app, Hc; cbn [length]; lia).
  rewrite take_app_length', drop_app_length' by done. f_equal. by apply wrap_fuel_more.
Qed.
Lemma type_rows_layout cur s :
  (length cur ≤ BUFFER_WIDTH)%nat →
  let '(l, ls) := split_lines s in let '(r, rs) := type_rows cur s in r :: rs = concat (wrap <$> ((cur ++ l) :: ls)).
Proof.
  revert cur. induction s as [|b s IH]; intros cur Hc; cbn [split_lines type_rows].
  - rewrite app_nil_r. cbn. by rewrite wrap_short.
  - destruct (split_lines s) as [l ls] eqn:El. destruct (b =? 0x0a) eqn:Eb.
    + specialize (IH [] ltac:(cbn; lia)). destruct (type_rows [] s) as [r rs]. cbn [fmap list_fmap concat app] in IH |- *.
      by rewrite app_nil_r, wrap_short, IH by done.
    + destruct (Nat.leb_spec BUFFER_WIDTH (length cur)).
      * specialize (IH [b] ltac:(cbn; unfold BUFFER_WIDTH; lia)). destruct (type_rows [b] s) as [r rs]. cbn [fmap list_fmap concat app] in IH |- *.
        rewrite wrap_long, IH by (done || lia). done.
      * specialize (IH (cur ++ [b])). rewrite length_app in IH. specialize (IH ltac:(cbn; lia)).
        destruct (type_rows (cur ++ [b]) s) as [r rs]. rewrite <- app_assoc in IH. exact IH.
Qed.

(** ** Typing *)
Lemma length_typed color l r : (length l ≤ length r)%nat → length (typed color l r) = length r.
Proof. intros. unfold typed. rewrite length_app, length_fmap, length_drop. lia. Qed.
Lemma typed_snoc color l r b :
  (length l < length r)%nat → <[length l := mkChar b color]> (typed color l r) = typed color (l ++ [b]) r.
Proof.
  intros Hl. unfold typed. rewrite insert_app_r_alt by (by rewrite length_fmap). rewrite length_fmap, Nat.sub_diag.
  destruct (lookup_lt_is_Some_2 r (length l)) as [c Hc]; [lia|]. rewrite (drop_S r c _ Hc). cbn.
  rewrite fmap_app, length_app, Nat.add_1_r, <- app_assoc. done.
Qed.
(** The bottom row shows [cur] over [bottom], the cursor is behind it. *)
Record at_row (w : Writer) (top : list (list ScreenChar)) (bottom : list ScreenChar) (cur : list Z) : Prop := {
  ar_buffer : buffer w = top ++ [typed (color_code w) cur bottom];
  ar_column : column_position w = Z.of_nat (length cur);
  ar_width : (length cur ≤ BUFFER_WIDTH)%nat;
  ar_top : length top = 24%nat ∧ Forall (λ r, length r = BUFFER_WIDTH) top;
  ar_bottom : length bottom = BUFFER_WIDTH
}.
Lemma at_row_screen w top bottom cur : at_row w top bottom cur → screen_ok (buffer w).
Proof.
  intros [-> _ Hw [Ht Hf] Hb]. split; [by rewrite length_app, Ht|]. apply Forall_app. split; [done|].
  apply Forall_singleton. by rewrite length_typed by lia.
Qed.
Lemma new_line_row w top bottom cur :
  at_row w top bottom cur →
  ∃ w', new_line w = Ret w' ∧ color_code w' = color_code w
    ∧ at_row w' (drop 1 top ++ [typed (color_code w) cur bottom]) (replicate BUFFER_WIDTH (blank (color_code w))) [].
Proof.
  intros Ha. rewrite (new_line_spec _ (at_row_screen _ _ _ _ Ha)). destruct Ha as [Hbuf Hcol Hw [Ht Hf] Hb].
  eexists. split; [done|]. split; [done|]. split; cbn [buffer column_position color_code].
  - rewrite Hbuf, drop_app_le by lia. unfold typed. by rewrite drop_0.
  - done.
  - cbn. unfold BUFFER_WIDTH. lia.
  - rewrite length_app, length_drop, Ht. split; [done|]. apply Forall_app. split; [by apply Forall_drop|].
    apply Forall_singleton. by rewrite length_typed by lia.
  - by rewrite length_replicate.
Qed.
Lemma put_row w top bottom cur b :
  at_row w top bottom cur → (length cur < BUFFER_WIDTH)%nat →
  ∃ buf, write_char (buffer w) (BUFFER_HEIGHT - 1) (Z.to_nat (column_position w)) (mkChar b (color_code w)) = Ret buf
    ∧ uadd 64 (column_position w) 1 = Ret (column_position w + 1)
    ∧ at_row (mkWriter (column_position w + 1) (color_code w) buf) top bottom (cur ++ [b]).
Proof.
  intros [Hbuf Hcol Hw [Ht Hf] Hb] Hlt. eexists. rewrite Hcol, Nat2Z.id, Hbuf. split; [|split; [apply uadd_Ret; unfold BUFFER_WIDTH in *; lia|]].
  - apply (write_char_spec _ _ _ _ (typed (color_code w) cur bottom)); [|by rewrite length_typed by lia; rewrite Hb].
    rewrite lookup_app_r by (rewrite Ht; unfold BUFFER_HEIGHT; lia). rewrite Ht. done.
  - split; cbn [buffer column_position color_code]; [|rewrite length_app; cbn; lia|rewrite length_app; cbn; lia|done|done].
    rewrite insert_app_r_alt by (rewrite Ht; unfold BUFFER_HEIGHT; lia). rewrite Ht. cbn. by rewrite typed_snoc by lia.
Qed.
Lemma write_byte_row w top bottom cur b :
  at_row w top bottom cur →
  ∃ w' , write_byte w b = Ret w' ∧ color_code w' = color_code w ∧
    let new_top := drop 1 top ++ [typed (color_code w) cur bottom] in
    let new_bottom := replicate BUFFER_WIDTH (blank (color_code w)) in
    if b =? 0x0a then at_row w' new_top new_bottom []
    else if (BUFFER_WIDTH <=? length cur)%nat then at_row w' new_top new_bottom [b]
    else at_row w' top bottom (cur ++ [b]).
Proof.
  intros Ha. unfold write_byte. destruct (new_line_row _ _ _ _ Ha) as (w1 & Hn & Hc1 & Ha1). destruct (b =? 0x0a); [by exists w1|].
  pose proof (ar_column _ _ _ _ Ha) as Hcol. destruct (Nat.leb_spec BUFFER_WIDTH (length cur)) as [Hge|Hlt].
  - rewrite (proj2 (Z.leb_le _ _)), Hn by lia. cbn [mbind run_bind].
    destruct (put_row w1 _ _ [] b Ha1) as (buf & Hw & Hu & Hat); [cbn; unfold BUFFER_WIDTH; lia|].
    rewrite Hw. cbn [mbind run_bind]. rewrite Hu. cbn [mbind run_bind]. eexists. split; [done|]. split; [done|exact Hat].
  - rewrite (proj2 (Z.leb_gt _ _)) by lia. cbn [mbind run_bind].
    destruct (put_row w _ _ cur b Ha Hlt) as (buf & Hw & Hu & Hat).
    rewrite Hw. cbn [mbind run_bind]. rewrite Hu. cbn [mbind run_bind]. eexists. split; [done|]. split; [done|exact Hat].
Qed.
Lemma last_rows_scroll {A} n (l : list A) : (n < length l)%nat → last_rows n (drop 1 l) = last_rows n l.
Proof. intros Hn. unfold last_rows. rewrite length_drop, drop_drop. f_equal. lia. Qed.
Lemma write_rows s w top bottom cur :
  at_row w top bottom cur →
  let '(r, rs) := type_rows cur s in
  ∃ w', for_each (λ b w, write_byte w b) s w = Ret w' ∧ color_code w' = color_code w
    ∧ buffer w' = last_rows BUFFER_HEIGHT (top ++ typed (color_code w) r bottom :: (fresh_row (color_code w) <$> rs))
    ∧ column_position w' = Z.of_nat (length (List.last (r :: rs) [])).
Proof.
  revert w top bottom cur. induction s as [|b s IH]; intros w top bottom cur Ha; cbn [type_rows for_each].
  - exists w. destruct Ha as [Hbuf Hcol _ [Ht _] _]. split; [done|]. split; [done|]. split; [|done].
    rewrite Hbuf. unfold last_rows. cbn [fmap list_fmap]. by rewrite length_app, Ht.
  - destruct (write_byte_row w top bottom cur b Ha) as (w1 & Hb & Hc1 & Hat). rewrite Hb. cbn [mbind run_bind]. cbv zeta in Hat.
    assert (∀ cur1, at_row w1 (drop 1 top ++ [typed (color_code w) cur bottom]) (replicate BUFFER_WIDTH (blank (color_code w))) cur1 →
      let '(r, rs) := type_rows cur1 s in
      ∃ w', for_each (λ b w, write_byte w b) s w1 = Ret w' ∧ color_code w' = color_code w
        ∧ buffer w' = last_rows BUFFER_HEIGHT (top ++ typed (color_code w) cur bottom :: (fresh_row (color_code w) <$> (r :: rs)))
        ∧ column_position w' = Z.of_nat (length (List.last (cur :: r :: rs) []))) as Hscroll.
    { intros cur1 H1. specialize (IH w1 _ _ _ H1). destruct (type_rows cur1 s) as [r rs]. destruct IH as (w' & E & Hc & Hbuf & Hcol).
      exists w'. split; [done|]. split; [congruence|]. split; [|done]. rewrite Hbuf, Hc1. pose proof (ar_top _ _ _ _ Ha) as [Ht _].
      rewrite <- (last_rows_scroll _ (top ++ _)) by (rewrite length_app, Ht; cbn; unfold BUFFER_HEIGHT; lia).
      rewrite drop_app_le by lia. by rewrite <- app_assoc. }
    destruct (b =? 0x0a).
    + specialize (Hscroll [] Hat). by destruct (type_rows [] s).
    + destruct (BUFFER_WIDTH <=? length cur)%nat.
      * specialize (Hscroll [b] Hat). by destruct (type_rows [b] s).
      * specialize (IH w1 _ _ _ Hat). rewrite Hc1 in IH. exact IH.
Qed.
Lemma write_string_bytes s w : write_string w s = for_each (λ b w, write_byte w b) (printable <$> s) w.
Proof. unfold write_string. revert w. induction s as [|b s IH]; intros w; [done|]. cbn. destruct (write_byte w (printable b)); [|done]. apply IH. Qed.

(** The invariant of the writer. *)
Definition writer_ok (w : Writer) : Prop := screen_ok (buffer w) ∧ 0 ≤ column_position w ≤ Z.of_nat BUFFER_WIDTH.
Lemma screen_split b : screen_ok b → ∃ bottom, b = take 24 b ++ [bottom] ∧ length bottom = BUFFER_WIDTH.
Proof.
  intros Hs. destruct (screen_row b 24 Hs ltac:(unfold BUFFER_HEIGHT; lia)) as (r & Er & Hr). exists r. split; [|done].
  rewrite <- (take_S_r b 24 r Er). rewrite take_ge; [done|]. destruct Hs as [-> _]. done.
Qed.
Lemma at_row_start w : screen_ok (buffer w) → column_position w = 0 → ∃ bottom, buffer w !! 24%nat = Some bottom ∧ at_row w (take 24 (buffer w)) bottom [].
Proof.
  intros Hs Hc. destruct (screen_split _ Hs) as (bottom & Hb & Hl). exists bottom. destruct Hs as [Hh Hf].
  assert (length (take 24 (buffer w)) = 24%nat) as Ht by (rewrite length_take, Hh; done). split; [rewrite Hb, lookup_app_r by lia; by rewrite Ht|].
  split; [unfold typed; by rewrite drop_0|done|cbn; unfold BUFFER_WIDTH; lia|split; [done|by apply Forall_take]|done].
Qed.

Lemma write_string_shows w s :
  screen_ok (buffer w) → column_position w = 0 →
  ∃ w' bottom l ls, write_string w s = Ret w' ∧ buffer w !! 24%nat = Some bottom ∧ layout s = l :: ls
    ∧ color_code w' = color_code w
    ∧ buffer w' = last_rows BUFFER_HEIGHT (take 24 (buffer w) ++ typed (color_code w) l bottom :: (fresh_row (color_code w) <$> ls))
    ∧ column_position w' = Z.of_nat (length (List.last (l :: ls) [])).
Proof.
  intros Hs Hc. destruct (at_row_start w Hs Hc) as (bottom & Hb & Ha). pose proof (write_rows (printable <$> s) w _ _ _ Ha) as H.
  pose proof (type_rows_layout [] (printable <$> s) ltac:(cbn; unfold BUFFER_WIDTH; lia)) as Hl.
  unfold layout. destruct (split_lines (printable <$> s)) as [l ls]. destruct (type_rows [] (printable <$> s)) as [r rs].
  destruct H as (w' & E & Hcol & Hbuf & Hpos). exists w', bottom, r, rs. rewrite write_string_bytes. cbn [app] in Hl. by rewrite <- Hl.
Qed.
(** C35: [write_string] never panics and lays a text out like a terminal: from the
    first column of the bottom row on, a line feed or the end of a row starts a new row, every byte
    that cannot be printed is a block, and the screen shows the last 25 rows of what it
    showed and the text.  The cursor is behind the last character. *)
Theorem vga_shows_text w s :
  screen_ok (buffer w) → column_position w = 0 →
  ∃ w' bottom l ls, write_string w s = Ret w' ∧ buffer w !! 24%nat = Some bottom ∧ layout s = l :: ls
    ∧ color_code w' = color_code w
    ∧ buffer w' = last_rows BUFFER_HEIGHT (take 24 (buffer w) ++ typed (color_code w) l bottom :: (fresh_row (color_code w) <$> ls))
    ∧ column_position w' = Z.of_nat (length (List.last (l :: ls) [])).
Proof. apply write_string_shows. Qed.
(** [flush] clears the whole screen and leaves the cursor where it is. *)
Lemma flush_clears w :
  screen_ok (buffer w) → flush w = Ret (set_buffer w (replicate BUFFER_HEIGHT (replicate BUFFER_WIDTH (blank (color_code w))))).
Proof.
  intros Hs. set (row := replicate BUFFER_WIDTH (blank (color_code w))).
  assert (∀ n, (n ≤ BUFFER_HEIGHT)%nat → for_each (λ row w, clear_row w row) (seq 0 n) w = Ret (set_buffer w (replicate n row ++ drop n (buffer w)))) as H.
  { induction n as [|n IH]; intros Hn; [destruct w; cbn; by rewrite drop_0|]. rewrite seq_snoc, for_each_app, IH by lia. cbn [mbind run_bind for_each].
    destruct Hs as [Hl Hf]. destruct (lookup_lt_is_Some_2 (buffer w) n) as [r Er]; [lia|].
    rewrite clear_row_spec; cbn [set_buffer buffer color_code mbind run_bind].
    - do 3 f_equal. rewrite insert_app_r_alt by (rewrite length_replicate; lia). rewrite length_replicate, Nat.add_0_l, Nat.sub_diag.
      rewrite (drop_S _ r n Er). cbn [insert list_insert]. by rewrite <- Nat.add_1_r, replicate_add, <- app_assoc.
    - split; [rewrite length_app, length_replicate, length_drop; lia|]. apply Forall_app. split; [|by apply Forall_drop].
      apply Forall_replicate. unfold row. apply length_replicate.
    - lia. }
  unfold flush. rewrite (H BUFFER_HEIGHT) by done. destruct Hs as [Hl _]. by rewrite drop_ge, app_nil_r by lia.
Qed.
(** The cursor survives a [flush]: the next character does not start a row. *)
Lemma flush_keeps_column w w' : screen_ok (buffer w) → flush w = Ret w' → column_position w' = column_position w.
Proof. intros Hs. rewrite flush_clears by done. by intros [= <-]. Qed.

Definition blank_screen : Buffer := replicate BUFFER_HEIGHT (replicate BUFFER_WIDTH (blank 7)).
Lemma blank_screen_ok : screen_ok blank_screen.
Proof. split; [done|]. apply Forall_replicate. done. Qed.
Lemma vga_shows_text_witness :
  ∃ w', write_string (init blank_screen) [0x48; 0x69; 0x0a; 0xe9; 0x21] = Ret w' ∧ column_position w' = 2
    ∧ (buffer w' !! 23%nat) ≫= (.!! 0%nat) = Some (mkChar 0x48 14) ∧ (buffer w' !! 24%nat) ≫= (.!! 0%nat) = Some (mkChar 0xfe 14).
Proof.
  destruct (vga_shows_text (init blank_screen) [0x48; 0x69; 0x0a; 0xe9; 0x21] blank_screen_ok eq_refl)
    as (w' & bottom & l & ls & E & Hb & Hl & _ & Hbuf & Hcol).
  exists w'. split; [exact E|]. vm_compute in Hl. injection Hl as <- <-. vm_compute in Hb. injection Hb as <-.
  rewrite Hcol, Hbuf. split; [done|]. split; by vm_compute.
Defined.
End Vga.
