(* ===== verification/Uart.v ===== *)
(** * crates/uart_16550: the serial port, and the kernel's log output

    [Uart] is the driver of crates/uart_16550/src/lib.rs over byte-wide ports, with a model of
    the chip: the divisor latch behind its access bit, the line status and a transmitter
    that takes its time.  [Console] is kernel/src/serial.rs, print.rs and klog.rs: what is
    printed goes to the serial line and to the screen. *)
From S2P Require Import Prelude Addr Bits Msr Gdt Idt Pic Vga.

Module Uart.

(** ** The driver *)
(** [LineStsFlags], and [from_bits_truncate]. *)
Definition INPUT_FULL : Z := 1.
Definition OUTPUT_EMPTY : Z := Z.shiftl 1 5.
Definition from_bits_truncate (bits : Z) : Z := Z.land bits (Z.lor INPUT_FULL OUTPUT_EMPTY).
Definition contains (flags other : Z) : bool := Z.land flags other =? other.

Record SerialPort := mkPort { data : Z; int_en : Z; fifo_ctrl : Z; line_ctrl : Z; modem_ctrl : Z; line_sts_port : Z }.
Definition new (base : Z) : run SerialPort :=
  p1 ← uadd 16 base 1; p2 ← uadd 16 base 2; p3 ← uadd 16 base 3; p4 ← uadd 16 base 4; p5 ← uadd 16 base 5;
  Ret (mkPort base p1 p2 p3 p4 p5).

Section driver.
Context {M : Type} `{!PortIO M}.
Definition interrupt_init (p : SerialPort) (m : M) : M :=
  let m := port_out m (int_en p) 0x00 in
  let m := port_out m (line_ctrl p) 0x80 in
  let m := port_out m (data p) 0x03 in
  let m := port_out m (int_en p) 0x00 in
  let m := port_out m (line_ctrl p) 0x03 in
  let m := port_out m (fifo_ctrl p) 0x07 in
  let m := port_out m (modem_ctrl p) 0x0b in
  port_out m (int_en p) 0x03.
Definition init (p : SerialPort) (m : M) : M :=
  let m := port_out m (int_en p) 0x00 in
  let m := port_out m (line_ctrl p) 0x80 in
  let m := port_out m (data p) 0x03 in
  let m := port_out m (int_en p) 0x00 in
  let m := port_out m (line_ctrl p) 0x03 in
  let m := port_out m (fifo_ctrl p) 0xc7 in
  let m := port_out m (modem_ctrl p) 0x0b in
  port_out m (int_en p) 0x01.
Definition line_sts (p : SerialPort) (m : M) : Z * M :=
  let '(v, m) := port_in m (line_sts_port p) in (from_bits_truncate v, m).
(** [wait_for!(self.line_sts().contains(flag))]. *)
Fixpoint wait_for (fuel : nat) (p : SerialPort) (flag : Z) (m : M) : run M :=
  match fuel with
  | O => Panic NoFuel
  | S fuel' => let '(v, m) := line_sts p m in if contains v flag then Ret m else wait_for fuel' p flag m
  end.
Definition send (fuel : nat) (p : SerialPort) (byte : Z) (m : M) : run M :=
  if (byte =? 8) || (byte =? 0x7f) then
    m ← wait_for fuel p OUTPUT_EMPTY m;
    let m := port_out m (data p) 8 in
    m ← wait_for fuel p OUTPUT_EMPTY m;
    let m := port_out m (data p) 0x20 in
    m ← wait_for fuel p OUTPUT_EMPTY m;
    Ret (port_out m (data p) 8)
  else
    m ← wait_for fuel p OUTPUT_EMPTY m;
    Ret (port_out m (data p) byte).
Definition read (p : SerialPort) (m : M) : Z * M := port_in m (data p).
Definition receive (fuel : nat) (p : SerialPort) (m : M) : run (Z * M) :=
  m ← wait_for fuel p INPUT_FULL m; Ret (port_in m (data p)).
Definition write_str (fuel : nat) (p : SerialPort) (s : list Z) (m : M) : run M := for_each (λ byte m, send fuel p byte m) s m.
End driver.

(** ** The 16550 *)
(** The registers, the number of polls until the transmitter is empty, the bytes on the
    line, whether one was overwritten, and the bytes that wait to be read. *)
Record uart := mkUart {
  ier : Z; dll : Z; dlm : Z; fcr : Z; lcr : Z; mcr : Z;
  busy : nat; sent : list Z; overrun : bool; received : list Z
}.
Definition dlab (u : uart) : bool := Z.testbit (lcr u) 7.
Definition set_ier (u : uart) v := mkUart v (dll u) (dlm u) (fcr u) (lcr u) (mcr u) (busy u) (sent u) (overrun u) (received u).
Definition set_dll (u : uart) v := mkUart (ier u) v (dlm u) (fcr u) (lcr u) (mcr u) (busy u) (sent u) (overrun u) (received u).
Definition set_dlm (u : uart) v := mkUart (ier u) (dll u) v (fcr u) (lcr u) (mcr u) (busy u) (sent u) (overrun u) (received u).
Definition set_fcr (u : uart) v := mkUart (ier u) (dll u) (dlm u) v (lcr u) (mcr u) (busy u) (sent u) (overrun u) (received u).
Definition set_lcr (u : uart) v := mkUart (ier u) (dll u) (dlm u) (fcr u) v (mcr u) (busy u) (sent u) (overrun u) (received u).
Definition set_mcr (u : uart) v := mkUart (ier u) (dll u) (dlm u) (fcr u) (lcr u) v (busy u) (sent u) (overrun u) (received u).
Definition set_busy (u : uart) n := mkUart (ier u) (dll u) (dlm u) (fcr u) (lcr u) (mcr u) n (sent u) (overrun u) (received u).
(** A byte written while the transmitter holds another one replaces it. *)
Definition transmit (slow : list Z → nat) (u : uart) (v : Z) : uart :=
  match busy u with
  | O => mkUart (ier u) (dll u) (dlm u) (fcr u) (lcr u) (mcr u) (slow (sent u)) (sent u ++ [v]) (overrun u) (received u)
  | S _ => mkUart (ier u) (dll u) (dlm u) (fcr u) (lcr u) (mcr u) (busy u) (sent u) true (received u)
  end.
Definition pop (u : uart) : Z * uart :=
  match received u with
  | [] => (0, u)
  | v :: l => (v, mkUart (ier u) (dll u) (dlm u) (fcr u) (lcr u) (mcr u) (busy u) (sent u) (overrun u) l)
  end.
Definition status (u : uart) : Z := Z.lor (if received u then 0 else 1) (if busy u then 0x60 else 0).
Definition uart_in (base : Z) (u : uart) (p : Z) : Z * uart :=
  if p =? base then if dlab u then (dll u, u) else pop u
  else if p =? base + 1 then (if dlab u then dlm u else ier u, u)
  else if p =? base + 3 then (lcr u, u)
  else if p =? base + 4 then (mcr u, u)
  else if p =? base + 5 then (status u, set_busy u (pred (busy u)))
  else (0, u).
Definition uart_out (slow : list Z → nat) (base : Z) (u : uart) (p v : Z) : uart :=
  if p =? base then if dlab u then set_dll u v else transmit slow u v
  else if p =? base + 1 then if dlab u then set_dlm u v else set_ier u v
  else if p =? base + 2 then set_fcr u v
  else if p =? base + 3 then set_lcr u v
  else if p =? base + 4 then set_mcr u v
  else u.

Section chip.
Variables (slow : list Z → nat) (base : Z).
#[local] Instance uart_ports : PortIO uart := {| port_in := uart_in base; port_out := uart_out slow base |}.
Definition port_at : SerialPort := mkPort base (base + 1) (base + 2) (base + 3) (base + 4) (base + 5).
Lemma new_ok : base + 5 < 2 ^ 16 → new base = Ret port_at.
Proof. intros H. unfold new. by rewrite !uadd_Ret by lia. Qed.

Ltac at_port := unfold uart_in, uart_out; repeat (first [rewrite (Z.eqb_refl base) | rewrite (proj2 (Z.eqb_neq _ _)) by lia | rewrite (proj2 (Z.eqb_eq _ _)) by lia]).
Lemma out_data u v : uart_out slow base u base v = if dlab u then set_dll u v else transmit slow u v.
Proof. unfold uart_out. by rewrite Z.eqb_refl. Qed.
Lemma out_int_en u v : uart_out slow base u (base + 1) v = if dlab u then set_dlm u v else set_ier u v.
Proof. at_port. done. Qed.
Lemma out_fifo_ctrl u v : uart_out slow base u (base + 2) v = set_fcr u v.
Proof. at_port. done. Qed.
Lemma out_line_ctrl u v : uart_out slow base u (base + 3) v = set_lcr u v.
Proof. at_port. done. Qed.
Lemma out_modem_ctrl u v : uart_out slow base u (base + 4) v = set_mcr u v.
Proof. at_port. done. Qed.
Lemma in_data u : uart_in base u base = if dlab u then (dll u, u) else pop u.
Proof. unfold uart_in. by rewrite Z.eqb_refl. Qed.
Lemma in_line_sts u : uart_in base u (base + 5) = (status u, set_busy u (pred (busy u))).
Proof. at_port. done. Qed.
Hint Rewrite out_data out_int_en out_fifo_ctrl out_line_ctrl out_modem_ctrl in_data in_line_sts : uart.

(** [init] and [interrupt_init], from any state of the chip: 38400 baud (115200 / 3), eight
    data bits, no parity, one stop bit; they differ in the receive threshold and in the
    interrupts.  Nothing is put on the line. *)
Lemma init_programs u :
  let u' := init port_at u in
  (dll u' = 3 ∧ dlm u' = 0) ∧ lcr u' = 3 ∧ fcr u' = 0xc7 ∧ mcr u' = 0x0b ∧ ier u' = 1
  ∧ busy u' = busy u ∧ sent u' = sent u ∧ overrun u' = overrun u ∧ received u' = received u.
Proof.
  cbv zeta. unfold init, port_at. cbn [port_out uart_ports int_en line_ctrl data fifo_ctrl modem_ctrl].
  autorewrite with uart. destruct (dlab u); by split_and!.
Qed.
Lemma interrupt_init_programs u :
  let u' := interrupt_init port_at u in
  (dll u' = 3 ∧ dlm u' = 0) ∧ lcr u' = 3 ∧ fcr u' = 0x07 ∧ mcr u' = 0x0b ∧ ier u' = 3
  ∧ busy u' = busy u ∧ sent u' = sent u ∧ overrun u' = overrun u ∧ received u' = received u.
Proof.
  cbv zeta. unfold interrupt_init, port_at. cbn [port_out uart_ports int_en line_ctrl data fifo_ctrl modem_ctrl].
  autorewrite with uart. destruct (dlab u); by split_and!.
Qed.

(** The same chip with another transmitter and line. *)
Definition with_line (u : uart) (n : nat) (l : list Z) : uart :=
  mkUart (ier u) (dll u) (dlm u) (fcr u) (lcr u) (mcr u) n l (overrun u) (received u).
Lemma status_empty u : contains (from_bits_truncate (status u)) OUTPUT_EMPTY = match busy u with O => true | _ => false end.
Proof. unfold status. by destruct (busy u), (received u). Qed.
Lemma status_full u : contains (from_bits_truncate (status u)) INPUT_FULL = match received u with [] => false | _ => true end.
Proof. unfold status. by destruct (busy u), (received u). Qed.
Lemma line_sts_spec u : line_sts port_at u = (from_bits_truncate (status u), set_busy u (pred (busy u))).
Proof. unfold line_sts. cbn [port_in uart_ports port_at line_sts_port]. by rewrite in_line_sts. Qed.
Lemma wait_for_empty fuel u : (busy u < fuel)%nat → wait_for fuel port_at OUTPUT_EMPTY u = Ret (with_line u 0 (sent u)).
Proof.
  revert u. induction fuel as [|fuel IH]; intros u Hf; [lia|]. cbn [wait_for]. rewrite line_sts_spec, status_empty.
  destruct (busy u) as [|n] eqn:E; [done|]. rewrite IH by (cbn; lia). done.
Qed.
Lemma wait_for_full fuel u : received u ≠ [] → (0 < fuel)%nat → wait_for fuel port_at INPUT_FULL u = Ret (set_busy u (pred (busy u))).
Proof. intros Hr Hf. destruct fuel as [|fuel]; [lia|]. cbn [wait_for]. rewrite line_sts_spec, status_full. by destruct (received u). Qed.
Lemma transmitted u b :
  dlab u = false → port_out (with_line u 0 (sent u)) (data port_at) b = with_line u (slow (sent u)) (sent u ++ [b]).
Proof. intros Hd. cbn [port_out uart_ports data port_at]. rewrite out_data. unfold dlab in *. cbn [lcr with_line]. by rewrite Hd. Qed.
(** The bytes [send] puts on the line: a deletion is shown as backspace, blank, backspace. *)
Definition echo (b : Z) : list Z := if (b =? 8) || (b =? 0x7f) then [8; 0x20; 8] else [b].
Lemma send_spec fuel u b :
  dlab u = false → (busy u < fuel)%nat → (∀ l, slow l < fuel)%nat →
  ∃ n, (n < fuel)%nat ∧ send fuel port_at b u = Ret (with_line u n (sent u ++ echo b)).
Proof.
  intros Hd Hb Hs. unfold send, echo. rewrite (wait_for_empty fuel u Hb). cbn [mbind run_bind]. rewrite !(transmitted u) by done.
  destruct (_ || _); [|by exists (slow (sent u))]. rewrite wait_for_empty by apply Hs. cbn [mbind run_bind]. rewrite transmitted by done.
  rewrite wait_for_empty by apply Hs. cbn [mbind run_bind]. rewrite transmitted by done. eexists. split; [apply Hs|].
  unfold with_line. cbn. by rewrite <- !app_assoc.
Qed.

Lemma write_str_sends fuel u s :
  dlab u = false → (busy u < fuel)%nat → (∀ l, slow l < fuel)%nat →
  ∃ n, (n < fuel)%nat ∧ write_str fuel port_at s u = Ret (with_line u n (sent u ++ concat (echo <$> s))).
Proof.
  intros Hd Hb Hs. unfold write_str. revert u Hd Hb. induction s as [|b s IH]; intros u Hd Hb.
  - exists (busy u). split; [done|]. destruct u. cbn. by rewrite app_nil_r.
  - destruct (send_spec fuel u b Hd Hb Hs) as (n & Hn & E). cbn [for_each]. rewrite E. cbn [mbind run_bind].
    destruct (IH (with_line u n (sent u ++ echo b)) Hd Hn) as (n' & Hn' & E'). exists n'. split; [done|]. rewrite E'.
    unfold with_line. cbn. by rewrite <- app_assoc.
Qed.
(** [write_str] ends and transmits every byte, however long the chip takes for
    each: the line carries exactly the bytes of the string in their order, a deletion
    as backspace, blank, backspace; no byte is overwritten and the configuration of the
    port stays.  The waiting loops need no more turns than the slowest byte takes. *)
Theorem uart_transmits fuel u s :
  dlab u = false → (busy u < fuel)%nat → (∀ l, slow l < fuel)%nat →
  ∃ n, (n < fuel)%nat ∧ write_str fuel port_at s u = Ret (with_line u n (sent u ++ concat (echo <$> s))).
Proof. apply write_str_sends. Qed.
(** [receive] takes the oldest byte that waits. *)
Lemma receive_takes fuel u v l :
  dlab u = false → received u = v :: l → (0 < fuel)%nat →
  ∃ u', receive fuel port_at u = Ret (v, u') ∧ received u' = l ∧ sent u' = sent u.
Proof.
  intros Hd Hr Hf. unfold receive. rewrite wait_for_full by (done || by rewrite Hr). cbn [mbind run_bind port_in uart_ports data port_at].
  rewrite in_data. unfold dlab in *. cbn [lcr set_busy]. rewrite Hd. unfold pop. cbn [received set_busy]. rewrite Hr. by eexists.
Qed.
End chip.

(** A transmitter that takes three polls per byte. *)
Definition reset_chip : uart := mkUart 0 1 0 0 0 0 2 [] false [].
Lemma uart_transmits_witness :
  ∃ n, (n < 5)%nat ∧ write_str (PortIO0 := uart_ports (λ _, 3%nat) 0x3f8) 5 (port_at 0x3f8) [0x61; 0x7f; 0x62] reset_chip
         = Ret (with_line reset_chip n [0x61; 8; 0x20; 8; 0x62]).
Proof.
  destruct (uart_transmits (λ _, 3%nat) 0x3f8 5 reset_chip [0x61; 0x7f; 0x62]) as (n & Hn & E); [done|cbn; lia|intros; lia|].
  exists n. split; [exact Hn|exact E].
Defined.
End Uart.

Module Console.
Import Uart.

Section console.
Context {M : Type} `{!PortIO M}.
(** The statics, the interrupt flag, the machine behind the ports and the screen memory
    before [Vga.init] takes it. *)
Record state := mkState {
  SERIAL_WRITER : option SerialPort; VGA_WRITER : option Vga.Writer; LOGGER : bool;
  interrupts : bool; ports : M; screen : list (list Vga.ScreenChar)
}.
Definition set_interrupts (s : state) (b : bool) : state := mkState (SERIAL_WRITER s) (VGA_WRITER s) (LOGGER s) b (ports s) (screen s).
Definition set_serial (s : state) (p : SerialPort) (m : M) : state := mkState (Some p) (VGA_WRITER s) (LOGGER s) (interrupts s) m (screen s).
Definition set_vga (s : state) (w : Vga.Writer) : state := mkState (SERIAL_WRITER s) (Some w) (LOGGER s) (interrupts s) (ports s) (screen s).
Definition without_interrupts (f : state → run state) (s : state) : run state :=
  let saved_intpt_flag := interrupts s in
  let s := if saved_intpt_flag then set_interrupts s false else s in
  s ← f s;
  Ret (if saved_intpt_flag then set_interrupts s true else s).

(** A formatted text is the sequence of the strings [write_fmt] passes to [write_str]. *)
Variable fuel : nat.
Definition serial_print (args : list (list Z)) : state → run state :=
  without_interrupts (λ s,
    p ← unwrap (SERIAL_WRITER s);
    m ← for_each (λ str m, write_str fuel p str m) args (ports s);
    Ret (set_serial s p m)).
Definition vga_print (args : list (list Z)) : state → run state :=
  without_interrupts (λ s,
    w ← unwrap (VGA_WRITER s);
    w ← for_each (λ str w, Vga.write_string w str) args w;
    Ret (set_vga s w)).
Definition print (args : list (list Z)) (s : state) : run state := s ← serial_print args s; vga_print args s.
Definition println (args : list (list Z)) (s : state) : run state := print (args ++ [[0x0a]]) s.

Definition serial_init (s : state) : run state := p ← new 0x3f8; Ret (set_serial s p (init p (ports s))).
Definition vga_init (s : state) : state :=
  set_vga s (Vga.init (match VGA_WRITER s with Some w => Vga.buffer w | None => screen s end)).
(** [klog::init], without the level filter. *)
Definition klog_init (s : state) : run state :=
  if LOGGER s then Ret s
  else
    s ← serial_init s;
    let s := vga_init s in
    Ret (mkState (SERIAL_WRITER s) (VGA_WRITER s) true (interrupts s) (ports s) (screen s)).
(** [HWLogger::log] and [HWLogger::flush]; every level is enabled. *)
Definition log (level : list Z) (args : list (list Z)) (s : state) : run state := println (level :: [0x20; 0x2d; 0x20] :: args) s.
Definition flush (s : state) : run state :=
  p ← unwrap (SERIAL_WRITER s);
  m ← send fuel p 0xc (ports s);
  let s := set_serial s p m in
  w ← unwrap (VGA_WRITER s);
  w ← Vga.flush w;
  Ret (set_vga s w).

Lemma for_each_concat {A S} (f : A → S → run S) (ls : list (list A)) s : for_each (λ l s, for_each f l s) ls s = for_each f (concat ls) s.
Proof.
  revert s. induction ls as [|l ls IH]; intros s; [done|]. cbn [concat for_each]. rewrite for_each_app.
  destruct (for_each f l s); [apply IH|done].
Qed.
Lemma set_interrupts_id s : set_interrupts s (interrupts s) = s.
Proof. by destruct s. Qed.
Lemma serial_print_spec args s p m :
  SERIAL_WRITER s = Some p → write_str fuel p (concat args) (ports s) = Ret m → serial_print args s = Ret (set_serial s p m).
Proof.
  intros Hp Hm. unfold serial_print, without_interrupts. destruct (interrupts s) eqn:E; cbn [SERIAL_WRITER set_interrupts ports]; rewrite Hp;
    cbn [unwrap mbind run_bind]; unfold write_str in *; rewrite for_each_concat, Hm; cbn; unfold set_serial; cbn; by rewrite E.
Qed.
Lemma vga_print_spec args s w w' :
  VGA_WRITER s = Some w → Vga.write_string w (concat args) = Ret w' → vga_print args s = Ret (set_vga s w').
Proof.
  intros Hp Hm. unfold vga_print, without_interrupts. destruct (interrupts s) eqn:E; cbn [VGA_WRITER set_interrupts]; rewrite Hp;
    cbn [unwrap mbind run_bind]; unfold Vga.write_string in *; rewrite for_each_concat, Hm; cbn; unfold set_vga; cbn; by rewrite E.
Qed.
End console.

Section printed.
Variables (slow : list Z → nat) (fuel : nat).
#[local] Existing Instance uart_ports.
Local Notation machine := (state (M := uart)).
#[local] Instance com1 : PortIO uart := uart_ports slow 0x3f8.

Lemma klog_init_spec (s : machine) :
  LOGGER s = false → VGA_WRITER s = None →
  klog_init s = Ret (mkState (Some (port_at 0x3f8)) (Some (Vga.init (screen s))) true (interrupts s) (init (port_at 0x3f8) (ports s)) (screen s)).
Proof. intros Hl Hv. unfold klog_init, serial_init, vga_init. rewrite Hl, new_ok by done. cbn [mbind run_bind set_serial VGA_WRITER]. by rewrite Hv. Qed.

(** C36: what is logged reaches both outputs.  [klog::init] sets the serial port up and
    takes the screen, and a later call changes nothing; a message is transmitted on the serial line in
    order and completely, a backspace or delete as the three bytes that erase a character
    ([echo]), at 38400 baud with eight data bits, and laid out on the screen, however slow the line
    is; the interrupt flag is as before. *)
Theorem log_reaches_outputs (s : machine) level args :
  LOGGER s = false → VGA_WRITER s = None → Vga.screen_ok (screen s) → (busy (ports s) < fuel)%nat → (∀ l, slow l < fuel)%nat →
  let text := level ++ [0x20; 0x2d; 0x20] ++ concat args ++ [0x0a] in
  let c := Vga.color_code_new Vga.Black Vga.Yellow in
  ∃ s1 s2 w bottom l ls, klog_init s = Ret s1 ∧ log fuel level args s1 = Ret s2 ∧ klog_init s2 = Ret s2
    ∧ interrupts s2 = interrupts s
    ∧ sent (ports s2) = sent (ports s) ++ concat (echo <$> text) ∧ overrun (ports s2) = overrun (ports s)
    ∧ dll (ports s2) = 3 ∧ dlm (ports s2) = 0 ∧ lcr (ports s2) = 3
    ∧ VGA_WRITER s2 = Some w ∧ screen s !! 24%nat = Some bottom ∧ Vga.layout text = l :: ls
    ∧ Vga.buffer w = Vga.last_rows Vga.BUFFER_HEIGHT (take 24 (screen s) ++ Vga.typed c l bottom :: (Vga.fresh_row c <$> ls))
    ∧ Vga.column_position w = Z.of_nat (length (List.last (l :: ls) [])).
Proof.
  intros Hl Hv Hs Hb Hf text c. rewrite (klog_init_spec s Hl Hv). pose proof (init_programs slow 0x3f8 (ports s)) as Hp. cbv zeta in Hp.
  change (uart_ports slow 0x3f8) with com1 in Hp. set (u := init (port_at 0x3f8) (ports s)) in *. destruct Hp as ((Hdll & Hdlm) & Hlcr & _ & _ & _ & Hbusy & Hsent & Hov & _).
  set (s1 := mkState _ _ _ _ u _).
  assert (concat ((level :: [0x20; 0x2d; 0x20] :: args) ++ [[0x0a]]) = text) as Ht by (cbn [concat app]; by rewrite concat_app).
  destruct (write_str_sends slow 0x3f8 fuel u text) as (n & Hn & Hw); [unfold dlab; by rewrite Hlcr|by rewrite Hbusy|done|].
  destruct (Vga.write_string_shows (Vga.init (screen s)) text Hs eq_refl) as (w & bottom & l & ls & Hvw & Hbot & Hlay & _ & Hbuf & Hcol).
  exists s1, (set_vga (set_serial s1 (port_at 0x3f8) (with_line u n (sent u ++ concat (echo <$> text)))) w), w, bottom, l, ls. split; [done|].
  split; [|split; [done|]].
  - unfold log, println, print. erewrite serial_print_spec; [|reflexivity|by rewrite Ht; exact Hw]. cbn [mbind run_bind].
    by erewrite vga_print_spec; [|reflexivity|rewrite Ht; exact Hvw].
  - cbn [ports interrupts set_vga set_serial VGA_WRITER with_line sent overrun dll dlm lcr]. rewrite Hsent. by split_and!.
Qed.
End printed.

Lemma log_reaches_outputs_witness :
  ∃ s1 s2, klog_init (PortIO0 := com1 (λ _, 3%nat)) (mkState None None false true reset_chip Vga.blank_screen) = Ret s1
    ∧ log (PortIO0 := com1 (λ _, 3%nat)) 5 [0x49; 0x4e; 0x46; 0x4f] [[0x68; 0x69]] s1 = Ret s2
    ∧ sent (ports s2) = [0x49; 0x4e; 0x46; 0x4f; 0x20; 0x2d; 0x20; 0x68; 0x69; 0x0a].
Proof.
  destruct (log_reaches_outputs (λ _, 3%nat) 5 (mkState None None false true reset_chip Vga.blank_screen) [0x49; 0x4e; 0x46; 0x4f] [[0x68; 0x69]])
    as (s1 & s2 & w & bottom & l & ls & H1 & H2 & _ & _ & Hs & _); [done|done|exact Vga.blank_screen_ok|cbn; lia|intros; lia|].
  exists s1, s2. split; [exact H1|]. split; [exact H2|exact Hs].
Defined.
End Console.
