(* ===== verification/Pci.v ===== *)
(** * kernel/src/pci.rs: the scan of the PCI bus

    [init] selects every bus, device and function through the configuration ports, notes
    the present ones in a bitmap, and offers each device to the drivers.  The drivers are
    an argument (the list of the kernel is empty) and work on a state of their own. *)
From S2P Require Import Prelude.

Module Pci.

Definition PCI_CONFIG_ADDRESS : Z := 0xcf8.
Definition PCI_CONFIG_DATA : Z := 0xcfc.
Definition PCI_ADDRESS_ENABLE : Z := Z.shiftl 1 31.

Record PciHeader := mkHeader {
  vendor_id : Z; device_id : Z; command : Z; status : Z;
  revision : Z; prog_if : Z; subclass : Z; class : Z;
  cache_line_size : Z; latency_timer : Z; header_type : Z; bist : Z
}.
Record PciDevice := mkDevice {
  header : PciHeader;
  bar0 : Z; bar1 : Z; bar2 : Z; bar3 : Z; bar4 : Z; bar5 : Z;
  cardbus_cis_pointer : Z; subsystem_vendor_id : Z; subsystem_device_id : Z; expansion_rom_address : Z;
  capabilities : Z; reserved : list Z;
  interrupt_line : Z; interrupt_pin : Z; min_grant : Z; max_latency : Z
}.
(** [read_unaligned] of the registers: the fields lie in them from the lowest byte on. *)
Definition byte_of (r i : Z) : Z := cast 8 (Z.shiftr r (8 * i)).
Definition half_of (r i : Z) : Z := cast 16 (Z.shiftr r (16 * i)).
Definition header_of (reg : Z → Z) : PciHeader :=
  mkHeader (half_of (reg 0) 0) (half_of (reg 0) 1) (half_of (reg 1) 0) (half_of (reg 1) 1)
    (byte_of (reg 2) 0) (byte_of (reg 2) 1) (byte_of (reg 2) 2) (byte_of (reg 2) 3)
    (byte_of (reg 3) 0) (byte_of (reg 3) 1) (byte_of (reg 3) 2) (byte_of (reg 3) 3).
Definition device_of (reg : Z → Z) : PciDevice :=
  mkDevice (header_of reg) (reg 4) (reg 5) (reg 6) (reg 7) (reg 8) (reg 9) (reg 10)
    (half_of (reg 11) 0) (half_of (reg 11) 1) (reg 12)
    (byte_of (reg 13) 0) [byte_of (reg 13) 1; byte_of (reg 13) 2; byte_of (reg 13) 3; byte_of (reg 14) 0; byte_of (reg 14) 1; byte_of (reg 14) 2; byte_of (reg 14) 3]
    (byte_of (reg 15) 0) (byte_of (reg 15) 1) (byte_of (reg 15) 2) (byte_of (reg 15) 3).
Definition registers (l : list Z) (i : Z) : Z := nth (Z.to_nat i) l 0.

(** ** The configuration ports *)
(** [config m a r] is register [r] of the function [a]; what a read of the data port yields
    depends on the last word written to the address port. *)
Definition selected_register (config : Z → Z → Z) (word : Z) : Z :=
  if Z.testbit word 31 then config ((word / 256) mod 65536) (word mod 256 / 4) else 0xffffffff.
Class PciIO (M : Type) := {
  port_read : M → Z → Z * M;
  port_write : M → Z → Z → M;
  config : M → Z → Z → Z;
  selected : M → Z;
  select_law m v : config (port_write m PCI_CONFIG_ADDRESS v) = config m ∧ selected (port_write m PCI_CONFIG_ADDRESS v) = v;
  data_law m : ∃ m', port_read m PCI_CONFIG_DATA = (selected_register (config m) (selected m), m') ∧ config m' = config m
}.

Section scan.
Context {M : Type} `{!PciIO M} {D : Type}.
(** [ProbeFunction]. *)
Definition ProbeFunction := PciDevice → Z → D → option unit * D.
Variable drivers : list ProbeFunction.

(** The body of the three loops of the enumeration. *)
Definition probe_address (pci_addr : Z) (s : list Z * M) : run (list Z * M) :=
  let '(pci_enum, m) := s in
  let addr := Z.lor PCI_ADDRESS_ENABLE (ushl 32 pci_addr 8) in
  let m := port_write m PCI_CONFIG_ADDRESS addr in
  let '(did_vid, m) := port_read m PCI_CONFIG_DATA in
  if negb (did_vid =? 0xffffffff) then
    let idx := pci_addr / 64 in
    let bit := pci_addr mod 64 in
    w ← index pci_enum (Z.to_nat idx);
    pci_enum ← store pci_enum (Z.to_nat idx) (Z.lor w (Z.shiftl 1 bit));
    Ret (pci_enum, m)
  else Ret (pci_enum, m).
Definition enumerate (m : M) : run (list Z * M) :=
  for_each (λ bus s,
    for_each (λ device s,
      for_each (λ function s,
        let pci_addr := Z.lor (Z.lor (Z.shiftl bus 8) (Z.shiftl device 3)) (Z.shiftl function 0) in
        probe_address pci_addr s) (seqZ 0 8) s) (seqZ 0 32) s) (seqZ 0 256)
    (replicate (256 * 32 * 8 / 64) 0, m).

(** [for (rid, register) in header.iter_mut().enumerate()]. *)
Definition read_registers (addr : Z) (n : nat) (m : M) : list Z * M :=
  fold_left (λ '(l, m) rid,
    let m := port_write m PCI_CONFIG_ADDRESS (Z.lor addr (cast 32 (Z.of_nat rid * 4))) in
    let '(v, m) := port_read m PCI_CONFIG_DATA in (l ++ [v], m)) (seq 0 n) ([], m).
Definition offer (device : PciDevice) (addr : Z) (d : D) : D := fold_left (λ d probe, snd (probe device addr d)) drivers d.
(** The body of the second pair of loops, for a bit that is set. *)
Definition visit (pci_addr : Z) (s : M * D) : M * D :=
  let '(m, d) := s in
  let addr := Z.lor PCI_ADDRESS_ENABLE (cast 32 (ushl 64 pci_addr 8)) in
  let '(regs, m) := read_registers addr 4 m in
  let header := header_of (registers regs) in
  if negb (Z.land (header_type header) 0x7f =? 0) then (m, d)
  else
    let '(regs, m) := read_registers addr 16 m in
    (m, offer (device_of (registers regs)) addr d).
Definition visit_word (idx pci_map : Z) (s : M * D) : M * D :=
  if pci_map =? 0 then s
  else fold_left (λ s bit, if Z.land pci_map (Z.shiftl 1 bit) =? 0 then s else visit (Z.lor (idx * 64) bit) s) (seqZ 0 64) s.
Definition init (m : M) (d : D) : run (M * D) :=
  '(pci_devices, m) ← enumerate m;
  Ret (fold_left (λ s '(idx, pci_map), visit_word idx pci_map s) (imap (λ i w, (Z.of_nat i, w)) pci_devices) (m, d)).
End scan.
(** [DRIVERS]. *)
Definition DRIVERS {D : Type} : list (ProbeFunction (D := D)) := [].

(** ** The reference *)
Definition present (config : Z → Z → Z) (a : Z) : bool := negb (config a 0 =? 0xffffffff).
(** Bits 16 to 22 of register 3 are the kind of header: 0 for a device. *)
Definition is_device (config : Z → Z → Z) (a : Z) : bool := (config a 3 / 2 ^ 16) mod 128 =? 0.
Definition address (a : Z) : Z := 2 ^ 31 + a * 256.
(** The devices in ascending order. *)
Definition devices (config : Z → Z → Z) : list Z := filter (λ a, present config a && is_device config a) (seqZ 0 65536).
(** Every device with every driver, in the order of the list of drivers. *)
Definition probes {D} (drivers : list (ProbeFunction (D := D))) (config : Z → Z → Z) : list (ProbeFunction * Z) :=
  a ← devices config; probe ← drivers; [(probe, a)].
Definition offered {D} (drivers : list (ProbeFunction (D := D))) (config : Z → Z → Z) (d : D) : D :=
  fold_left (λ d '(probe, a), snd (probe (device_of (config a)) (address a) d)) (probes drivers config) d.
(** The sixteen registers of a device, from the places the PCI specification gives its fields. *)
Definition word_of (b0 b1 b2 b3 : Z) : Z := b0 + b1 * 2 ^ 8 + b2 * 2 ^ 16 + b3 * 2 ^ 24.
Definition registers_of (dev : PciDevice) : list Z :=
  let h := header dev in
  [vendor_id h + device_id h * 2 ^ 16; command h + status h * 2 ^ 16;
   word_of (revision h) (prog_if h) (subclass h) (class h);
   word_of (cache_line_size h) (latency_timer h) (header_type h) (bist h);
   bar0 dev; bar1 dev; bar2 dev; bar3 dev; bar4 dev; bar5 dev; cardbus_cis_pointer dev;
   subsystem_vendor_id dev + subsystem_device_id dev * 2 ^ 16; expansion_rom_address dev;
   word_of (capabilities dev) (nth 0 (reserved dev) 0) (nth 1 (reserved dev) 0) (nth 2 (reserved dev) 0);
   word_of (nth 3 (reserved dev) 0) (nth 4 (reserved dev) 0) (nth 5 (reserved dev) 0) (nth 6 (reserved dev) 0);
   word_of (interrupt_line dev) (interrupt_pin dev) (min_grant dev) (max_latency dev)].

(** ** The fields of a device *)
Lemma halves_word r : in_width 32 r → half_of r 0 + half_of r 1 * 2 ^ 16 = r.
Proof.
  intros Hr. unfold in_width in Hr. unfold half_of, cast. rewrite !Z.shiftr_div_pow2 by lia. change (2 ^ (16 * 0)) with 1. change (2 ^ (16 * 1)) with (2 ^ 16).
  rewrite Z.div_1_r, (Z.mod_small (r / 2 ^ 16)) by (split; [apply Z.div_pos; lia|apply Z.div_lt_upper_bound; lia]).
  pose proof (Z.div_mod r (2 ^ 16) ltac:(lia)). lia.
Qed.
Lemma bytes_word r : in_width 32 r → word_of (byte_of r 0) (byte_of r 1) (byte_of r 2) (byte_of r 3) = r.
Proof.
  intros Hr. unfold in_width in Hr. unfold word_of, byte_of, cast. rewrite !Z.shiftr_div_pow2 by lia.
  change (2 ^ (8 * 0)) with 1. change (2 ^ (8 * 1)) with (2 ^ 8). change (2 ^ (8 * 2)) with (2 ^ 16). change (2 ^ (8 * 3)) with (2 ^ 24).
  rewrite Z.div_1_r, (Z.mod_small (r / 2 ^ 24)) by (split; [apply Z.div_pos; lia|apply Z.div_lt_upper_bound; lia]).
  pose proof (Z.div_mod r (2 ^ 8) ltac:(lia)). pose proof (Z.div_mod (r / 2 ^ 8) (2 ^ 8) ltac:(lia)) as D8. pose proof (Z.div_mod (r / 2 ^ 16) (2 ^ 8) ltac:(lia)) as D16.
  rewrite Z.div_div in D8, D16 by lia. change (2 ^ 8 * 2 ^ 8) with (2 ^ 16) in D8. change (2 ^ 16 * 2 ^ 8) with (2 ^ 24) in D16. lia.
Qed.
Lemma registers_device reg :
  (∀ i, in_width 32 (reg i)) → registers_of (device_of reg) = reg <$> seqZ 0 16.
Proof.
  intros Hr. unfold registers_of, device_of. cbn [header header_of vendor_id device_id command status revision prog_if subclass class
    cache_line_size latency_timer header_type bist bar0 bar1 bar2 bar3 bar4 bar5 cardbus_cis_pointer subsystem_vendor_id subsystem_device_id
    expansion_rom_address capabilities reserved interrupt_line interrupt_pin min_grant max_latency nth].
  rewrite !halves_word, !bytes_word by done. reflexivity.
Qed.
Lemma device_header reg : (Z.land (header_type (header_of reg)) 0x7f =? 0) = ((reg 3 / 2 ^ 16) mod 128 =? 0).
Proof.
  unfold header_of. cbn [header_type]. unfold byte_of, cast. rewrite Z.shiftr_div_pow2 by lia. change (2 ^ (8 * 2)) with (2 ^ 16).
  change 0x7f with (Z.ones 7). rewrite Z.land_ones by lia. change (2 ^ 7) with 128. f_equal.
  change (2 ^ 8) with (128 * 2). rewrite Z.rem_mul_r, (Z.mul_comm 128), Z_mod_plus_full by lia. by apply Z.mod_mod.
Qed.

(** ** Addresses *)
Lemma address_word a : 0 ≤ a < 65536 → Z.lor PCI_ADDRESS_ENABLE (ushl 32 a 8) = address a.
Proof.
  intros Ha. unfold PCI_ADDRESS_ENABLE, ushl, address. rewrite !Z.shiftl_mul_pow2, Z.mod_small by lia.
  rewrite (lor_disjoint _ _ 31); [lia|lia|reflexivity|unfold in_width; lia].
Qed.
Lemma address_word64 a : 0 ≤ a < 65536 → Z.lor PCI_ADDRESS_ENABLE (cast 32 (ushl 64 a 8)) = address a.
Proof.
  intros Ha. rewrite <- address_word by done. f_equal. unfold cast, ushl. rewrite !Z.shiftl_mul_pow2 by lia.
  rewrite (Z.mod_small _ (2 ^ 64)) by lia. done.
Qed.
Lemma register_word a r : 0 ≤ a < 65536 → 0 ≤ r < 64 → Z.lor (address a) (cast 32 (r * 4)) = address a + r * 4.
Proof.
  intros Ha Hr. unfold address, cast. rewrite (Z.mod_small (r * 4)) by lia. apply (lor_disjoint _ _ 8); [lia| |unfold in_width; lia].
  replace (2 ^ 31 + a * 256) with ((2 ^ 23 + a) * 2 ^ 8) by lia. apply Z_mod_mult.
Qed.
Lemma selected_word c a r : 0 ≤ a < 65536 → 0 ≤ r < 64 → selected_register c (address a + r * 4) = c a r.
Proof.
  intros Ha Hr. unfold selected_register, address.
  assert (Z.testbit (2 ^ 31 + a * 256 + r * 4) 31 = true) as ->.
  { apply Z.testbit_true; [lia|]. rewrite <- (Z.div_unique (2 ^ 31 + a * 256 + r * 4) (2 ^ 31) 1 (a * 256 + r * 4)) by lia. done. }
  rewrite <- (Z.div_unique (2 ^ 31 + a * 256 + r * 4) 256 (2 ^ 23 + a) (r * 4)) by lia.
  rewrite <- (Z.mod_unique (2 ^ 31 + a * 256 + r * 4) 256 (2 ^ 23 + a) (r * 4)) by lia.
  rewrite <- (Z.mod_unique (2 ^ 23 + a) 65536 128 a) by lia. by rewrite Z.div_mul by lia.
Qed.
Lemma function_address bus device function :
  0 ≤ bus → 0 ≤ device < 32 → 0 ≤ function < 8 →
  Z.lor (Z.lor (Z.shiftl bus 8) (Z.shiftl device 3)) (Z.shiftl function 0) = bus * 256 + device * 8 + function.
Proof.
  intros Hb Hd Hf. rewrite Z.shiftl_0_r, !Z.shiftl_mul_pow2 by lia.
  rewrite (lor_disjoint (bus * 2 ^ 8) _ 8); [|lia|apply Z_mod_mult|unfold in_width; lia].
  rewrite (lor_disjoint _ function 3); [lia|lia| |unfold in_width; lia].
  replace (bus * 2 ^ 8 + device * 2 ^ 3) with ((bus * 2 ^ 5 + device) * 2 ^ 3) by lia. apply Z_mod_mult.
Qed.

(** ** Nested loops *)
Lemma seqZ_one x : seqZ x 1 = [x].
Proof. rewrite seqZ_cons by lia. f_equal. Qed.
(** [n] blocks of [k] numbers are the first [n * k] numbers. *)
Lemma seqZ_blocks n k : 0 ≤ k → seqZ 0 (Z.of_nat n * k) = concat ((λ i, seqZ (i * k) k) <$> seqZ 0 (Z.of_nat n)).
Proof.
  intros Hk. induction n as [|n IH]; [done|]. rewrite Nat2Z.inj_succ. unfold Z.succ. rewrite Z.mul_add_distr_r, Z.mul_1_l.
  rewrite !seqZ_app by lia. rewrite seqZ_one, fmap_app, concat_app, IH. cbn. by rewrite app_nil_r.
Qed.
Lemma seqZ_shift i k : seqZ (i * k) k = (λ j, i * k + j) <$> seqZ 0 k.
Proof. change (λ j, i * k + j) with (Z.add (i * k)). rewrite fmap_add_seqZ. f_equal. lia. Qed.
Lemma for_each_ext {A S} (f g : A → S → run S) l s : (∀ a s, a ∈ l → f a s = g a s) → for_each f l s = for_each g l s.
Proof.
  revert s. induction l as [|a l IH]; intros s H; [done|]. cbn [for_each]. rewrite H by (by left).
  destruct (g a s); [|done]. cbn. apply IH. intros. apply H. by right.
Qed.
Lemma for_each_fmap {A B S} (f : A → B) (g : B → S → run S) l s : for_each (λ a s, g (f a) s) l s = for_each g (f <$> l) s.
Proof. revert s. induction l as [|a l IH]; intros s; [done|]. cbn. destruct (g (f a) s); [apply IH|done]. Qed.
Lemma for_each_blocks {A B S} (f : A → list B) (g : B → S → run S) l s :
  for_each (λ a s, for_each g (f a) s) l s = for_each g (concat (f <$> l)) s.
Proof.
  revert s. induction l as [|a l IH]; intros s; [done|]. cbn [for_each fmap list_fmap concat]. rewrite for_each_app.
  destruct (for_each g (f a) s); [apply IH|done].
Qed.

Lemma fold_left_fmap {A B S} (f : A → B) (g : S → B → S) l s : fold_left g (f <$> l) s = fold_left (λ s a, g s (f a)) l s.
Proof. revert s. induction l as [|a l IH]; intros s; [done|]. apply IH. Qed.
Lemma fold_left_filter {A S} (P : A → bool) (g : S → A → S) (l : list A) s :
  fold_left g (filter P l) s = fold_left (λ s a, if P a then g s a else s) l s.
Proof.
  revert s. induction l as [|a l IH]; intros s; [done|]. rewrite filter_cons. cbn [fold_left].
  destruct (decide (P a)) as [H|H]; [apply Is_true_true in H|apply Is_true_false in H]; rewrite H; apply IH.
Qed.
Lemma filter_concat {A} (P : A → bool) (ls : list (list A)) : filter P (concat ls) = concat (filter P <$> ls).
Proof. induction ls as [|l ls IH]; [done|]. cbn. by rewrite filter_app, IH. Qed.
Lemma filter_both {A} (P Q : A → bool) (l : list A) : filter Q (filter P l) = filter (λ a, P a && Q a) l.
Proof.
  induction l as [|a l IH]; [done|]. rewrite !filter_cons. destruct (decide (P a)) as [Hp|Hp].
  - rewrite filter_cons. apply Is_true_true in Hp. rewrite Hp, IH. done.
  - apply Is_true_false in Hp. rewrite Hp, IH. done.
Qed.
(** A loop over an indexed list whose turns are loops over blocks. *)
Lemma fold_imap_blocks {S B} (g : S → Z * Z → S) (v : S → B → S) (blk : Z → list B) l s :
  (∀ i w s, l !! i = Some w → g s (Z.of_nat i, w) = fold_left v (blk (Z.of_nat i)) s) →
  fold_left g (imap (λ i w, (Z.of_nat i, w)) l) s = fold_left v (concat (blk <$> seqZ 0 (Z.of_nat (length l)))) s.
Proof.
  revert s. induction l as [|w l IH] using rev_ind; intros s H; [done|].
  rewrite imap_app, fold_left_app, length_app, Nat2Z.inj_add, seqZ_app, fmap_app, concat_app, fold_left_app by lia. cbn [imap length Z.of_nat Nat.add fold_left].
  rewrite IH by (intros; apply H; rewrite lookup_app_l; [done|by eapply lookup_lt_Some]). rewrite seqZ_one. cbn [fmap list_fmap concat]. rewrite app_nil_r.
  rewrite Nat.add_0_r, Z.add_0_l. apply H. by rewrite lookup_app_r, Nat.sub_diag by lia.
Qed.
Lemma land_bit w b : 0 ≤ b → (Z.land w (Z.shiftl 1 b) =? 0) = negb (Z.testbit w b).
Proof.
  intros Hb. destruct (Z.testbit w b) eqn:E; cbn [negb].
  - apply Z.eqb_neq. intros H. assert (Z.testbit (Z.land w (Z.shiftl 1 b)) b = false) as H2 by (by rewrite H, Z.bits_0).
    rewrite Z.land_spec, E, Z.shiftl_spec, Z.sub_diag in H2 by lia. done.
  - apply Z.eqb_eq, Z.bits_inj'. intros n Hn. rewrite Z.land_spec, Z.shiftl_spec, Z.bits_0 by lia.
    destruct (decide (n = b)) as [->|]; [by rewrite E|]. destruct (decide (n < b)); [rewrite (Z.testbit_neg_r 1) by lia; by rewrite andb_false_r|].
    rewrite (Z.bits_above_log2 1 (n - b)) by (cbn; lia). by rewrite andb_false_r.
Qed.

Section proofs.
Context {M : Type} `{!PciIO M} {D : Type} (drivers : list (ProbeFunction (D := D))).

(** The three loops visit the 65536 addresses in ascending order. *)
Lemma enumerate_flat (m : M) : enumerate m = for_each probe_address (seqZ 0 65536) (replicate 1024 0, m).
Proof.
  unfold enumerate. change (256 * 32 * 8 / 64)%nat with 1024%nat.
  transitivity (for_each (λ bus s, for_each probe_address (seqZ (bus * 256) 256) s) (seqZ 0 256) (replicate 1024 0, m)).
  - apply for_each_ext. intros bus s Hb%elem_of_seqZ. 
    rewrite (seqZ_shift bus 256), (seqZ_blocks 32 8 ltac:(lia) : seqZ 0 256 = _), <- for_each_fmap, <- for_each_blocks. apply for_each_ext. intros device s' Hd%elem_of_seqZ.
    rewrite seqZ_shift, <- (for_each_fmap (λ j, device * 8 + j)). apply for_each_ext. intros function s'' Hf%elem_of_seqZ. cbv zeta.
    rewrite function_address by lia. f_equal. lia.
  - rewrite for_each_blocks. pose proof (seqZ_blocks 256 256 ltac:(lia) : seqZ 0 65536 = concat ((λ i, seqZ (i * 256) 256) <$> seqZ 0 256)) as E.
    rewrite E. reflexivity.
Qed.

(** Reading a register. *)
Lemma read_register (m : M) a r :
  0 ≤ a < 65536 → 0 ≤ r < 64 →
  ∃ m', port_read (port_write m PCI_CONFIG_ADDRESS (address a + r * 4)) PCI_CONFIG_DATA = (config m a r, m') ∧ config m' = config m.
Proof.
  intros Ha Hr. destruct (select_law m (address a + r * 4)) as [Hc Hs].
  destruct (data_law (port_write m PCI_CONFIG_ADDRESS (address a + r * 4))) as (m' & E & Hm). exists m'.
  rewrite E, Hs, Hc, selected_word by done. by rewrite Hm.
Qed.
Lemma read_registers_spec a n (m : M) :
  0 ≤ a < 65536 → (n ≤ 64)%nat →
  ∃ m', read_registers (address a) n m = ((λ i, config m a (Z.of_nat i)) <$> seq 0 n, m') ∧ config m' = config m.
Proof.
  intros Ha Hn. unfold read_registers. induction n as [|n IH]; [by exists m|]. rewrite <- Nat.add_1_r, seq_app, fold_left_app.
  destruct IH as (m1 & -> & Hm1); [lia|]. cbn [seq fold_left Nat.add]. rewrite register_word by lia.
  destruct (read_register m1 a (Z.of_nat n) Ha ltac:(lia)) as (m2 & -> & Hm2). exists m2. split; [|congruence].
  by rewrite fmap_app, Hm1.
Qed.
Lemma visit_spec a (m : M) (d : D) :
  0 ≤ a < 65536 →
  ∃ m', visit drivers a (m, d) = (m', if is_device (config m) a then offer drivers (device_of (config m a)) (address a) d else d)
    ∧ config m' = config m.
Proof.
  intros Ha. unfold visit. rewrite address_word64 by done. destruct (read_registers_spec a 4 m Ha ltac:(lia)) as (m1 & -> & Hm1).
  change (header_of (registers _)) with (header_of (config m a)). rewrite device_header. unfold is_device. destruct (_ =? 0); cbn [negb]; [|by exists m1].
  destruct (read_registers_spec a 16 m1 Ha ltac:(lia)) as (m2 & -> & Hm2). rewrite Hm1 in *. by exists m2.
Qed.

(** The bitmap holds the addresses below [n]. *)
Definition bitmap (c : Z → Z → Z) (n : Z) (l : list Z) : Prop :=
  length l = 1024%nat ∧ ∀ i w b, l !! i = Some w → 0 ≤ b < 64 →
    Z.testbit w b = (64 * Z.of_nat i + b <? n) && present c (64 * Z.of_nat i + b).
Lemma probe_address_spec n l (m : M) :
  0 ≤ n < 65536 → bitmap (config m) n l →
  ∃ l' m', probe_address n (l, m) = Ret (l', m') ∧ config m' = config m ∧ bitmap (config m) (n + 1) l'.
Proof.
  intros Hn [Hl Hb]. unfold probe_address. rewrite address_word by done.
  destruct (read_register m n 0 Hn ltac:(lia)) as (m' & E & Hm'). rewrite Z.add_0_r in E. rewrite E.
  change (negb (config m n 0 =? 0xffffffff)) with (present (config m) n).
  pose proof (Z.div_mod n 64 ltac:(lia)) as Hdm. pose proof (Z.mod_pos_bound n 64 ltac:(lia)) as Hmod.
  assert (0 ≤ n / 64 < 1024) as Hi by lia. destruct (present (config m) n) eqn:Hp.
  - destruct (lookup_lt_is_Some_2 l (Z.to_nat (n / 64))) as [w Hw]; [lia|]. rewrite (proj2 (index_Ret _ _ _) Hw). cbn [mbind run_bind].
    rewrite store_Ret by lia. cbn [mbind run_bind]. eexists _, m'. split; [done|]. split; [done|]. split; [by rewrite length_insert|].
    intros i w' b Hw' Hbb. destruct (decide (i = Z.to_nat (n / 64))) as [->|Hne].
    + rewrite list_lookup_insert_eq in Hw' by lia. injection Hw' as <-. rewrite Z.lor_spec, Z.shiftl_spec, (Hb _ _ _ Hw Hbb), Z2Nat.id by lia.
      destruct (decide (b = n mod 64)) as [->|Hnb].
      * rewrite Z.sub_diag, orb_true_r. rewrite <- Hdm, Hp. by rewrite (proj2 (Z.ltb_lt _ _)) by lia.
      * assert (Z.testbit 1 (b - n mod 64) = false) as ->.
        { destruct (decide (b < n mod 64)); [apply Z.testbit_neg_r; lia|]. apply Z.bits_above_log2; cbn; lia. }
        rewrite orb_false_r. f_equal. apply eq_true_iff_eq. rewrite !Z.ltb_lt. lia.
    + rewrite list_lookup_insert_ne in Hw' by done. rewrite (Hb _ _ _ Hw' Hbb). f_equal. apply eq_true_iff_eq. rewrite !Z.ltb_lt. lia.
  - exists l, m'. split; [done|]. split; [done|]. split; [done|]. intros i w b Hw Hbb. rewrite (Hb _ _ _ Hw Hbb).
    destruct (decide (64 * Z.of_nat i + b = n)) as [E2|Hne]; [rewrite E2, Hp, !andb_false_r; done|].
    f_equal. apply eq_true_iff_eq. rewrite !Z.ltb_lt. lia.
Qed.
Lemma enumerate_bitmap n (m : M) :
  Z.of_nat n ≤ 65536 →
  ∃ l m', for_each probe_address (seqZ 0 (Z.of_nat n)) (replicate 1024 0, m) = Ret (l, m')
    ∧ config m' = config m ∧ bitmap (config m) (Z.of_nat n) l.
Proof.
  intros Hn. induction n as [|n IH].
  - exists (replicate 1024 0), m. split; [done|]. split; [done|]. split; [apply length_replicate|].
    intros i w b Hw Hb. apply lookup_replicate_1 in Hw as [-> _]. rewrite Z.bits_0. by rewrite (proj2 (Z.ltb_ge _ _)) by lia.
  - destruct IH as (l & m1 & E & Hm1 & Hb); [lia|]. rewrite Nat2Z.inj_succ. unfold Z.succ. rewrite seqZ_app, for_each_app, E, seqZ_one by lia.
    cbn [mbind run_bind for_each]. rewrite Z.add_0_l. rewrite <- Hm1 in Hb.
    destruct (probe_address_spec (Z.of_nat n) l m1) as (l2 & m2 & -> & Hm2 & Hb2); [lia|done|]. cbn [mbind run_bind].
    exists l2, m2. split; [done|]. split; [congruence|]. by rewrite <- Hm1.
Qed.
Lemma visit_word_blocks c l i w (s : M * D) :
  bitmap c 65536 l → l !! i = Some w →
  visit_word drivers (Z.of_nat i) w s = fold_left (λ s a, visit drivers a s) (filter (present c) (seqZ (Z.of_nat i * 64) 64)) s.
Proof.
  intros [Hl Hb] Hw. pose proof (lookup_lt_Some _ _ _ Hw) as Hlt. rewrite fold_left_filter, seqZ_shift, fold_left_fmap.
  assert (∀ b, b ∈ seqZ 0 64 → present c (Z.of_nat i * 64 + b) = Z.testbit w b ∧ Z.lor (Z.of_nat i * 64) b = Z.of_nat i * 64 + b) as Hbit.
  { intros b Hin%elem_of_seqZ. rewrite (Hb i w b Hw) by lia. rewrite (proj2 (Z.ltb_lt _ _)) by lia. split; [by rewrite Z.mul_comm|].
    apply (lor_disjoint _ _ 6); [lia|apply Z_mod_mult|unfold in_width; lia]. }
  unfold visit_word. destruct (Z.eqb_spec w 0) as [->|_].
  - revert s. induction (seqZ 0 64) as [|b bs IH]; intros s; [done|]. cbn [fold_left]. destruct (Hbit b) as [-> _]; [by left|].
    rewrite Z.bits_0. apply IH. intros. apply Hbit. by right.
  - assert (Forall (λ b, 0 ≤ b) (seqZ 0 64)) as Hpos by (apply Forall_forall; intros b ?%elem_of_seqZ; lia).
    revert s Hpos. induction (seqZ 0 64) as [|b bs IH]; intros s Hpos; [done|]. apply Forall_cons in Hpos as [H0 Hpos]. cbn [fold_left].
    destruct (Hbit b) as [-> ->]; [by left|]. rewrite land_bit by done. rewrite IH by (done || intros; apply Hbit; by right). by destruct (Z.testbit w b).
Qed.
Lemma visits_spec l (m : M) (d : D) :
  Forall (λ a, 0 ≤ a < 65536) l →
  ∃ m', fold_left (λ s a, visit drivers a s) l (m, d)
        = (m', fold_left (λ d a, if is_device (config m) a then offer drivers (device_of (config m a)) (address a) d else d) l d)
    ∧ config m' = config m.
Proof.
  revert m d. induction l as [|a l IH]; intros m d Hf; [by exists m|]. apply Forall_cons in Hf as [Ha Hf]. cbn [fold_left].
  destruct (visit_spec a m d Ha) as (m1 & -> & Hm1). destruct (IH m1 (if is_device (config m) a then offer drivers (device_of (config m a)) (address a) d else d) Hf) as (m2 & -> & Hm2).
  exists m2. rewrite Hm1 in *. done.
Qed.

(** The devices one by one, or all pairs of a device and a driver. *)
Lemma offered_devices config (d : D) :
  fold_left (λ d a, offer drivers (device_of (config a)) (address a) d) (devices config) d = offered drivers config d.
Proof.
  unfold offered, probes. revert d. induction (devices config) as [|a l IH]; intros d; [done|].
  cbn [fold_left mbind list_bind]. rewrite fold_left_app, <- IH. f_equal. unfold offer. clear.
  revert d. induction drivers as [|p ps IH]; intros d; [done|]. cbn [fold_left mbind list_bind app]. apply IH.
Qed.

(** C37: the scan is complete and exact: it never panics, and every driver of the list is offered
    every function of the bus that is present and whose header is that of a device, in ascending
    order of bus, device and function, each once, with its address, and nothing else.  The
    configuration that comes with it is that of the function: put back in the places of the PCI
    specification, its fields are the sixteen registers. *)
Theorem pci_scan_complete (m : M) (d : D) :
  (∃ m', init drivers m d = Ret (m', offered drivers (config m) d) ∧ config m' = config m)
  ∧ ∀ a, (∀ i, in_width 32 (config m a i)) → registers_of (device_of (config m a)) = config m a <$> seqZ 0 16.
Proof.
  split; [|intros a; apply registers_device].
  unfold init. rewrite enumerate_flat. destruct (enumerate_bitmap (Z.to_nat 65536) m) as (l & m1 & E & Hm1 & Hb); [lia|].
  rewrite Z2Nat.id in E, Hb by lia. rewrite E. cbn [mbind run_bind].
  rewrite (fold_imap_blocks _ (λ s a, visit drivers a s) (λ i, filter (present (config m)) (seqZ (i * 64) 64)))
    by (intros i w s Hw; by eapply visit_word_blocks).
  rewrite (proj1 Hb). change (λ i, filter (present (config m)) (seqZ (i * 64) 64)) with (filter (present (config m)) ∘ (λ i, seqZ (i * 64) 64)).
  rewrite list_fmap_compose, <- filter_concat, <- (seqZ_blocks 1024 64) by lia. change (Z.of_nat 1024 * 64) with 65536.
  destruct (visits_spec (filter (present (config m)) (seqZ 0 65536)) m1 d) as (m2 & -> & Hm2).
  { apply Forall_forall. intros a [_ Ha%elem_of_seqZ]%list_elem_of_filter. lia. }
  exists m2. rewrite Hm1 in *. split; [|done]. rewrite <- offered_devices. unfold devices. rewrite <- filter_both.
  by rewrite (fold_left_filter (is_device (config m))).
Qed.
End proofs.

(** ** Instances *)
Record bus := mkBus { bus_config : Z → Z → Z; bus_word : Z }.
#[local] Program Instance bus_io : PciIO bus := {|
  port_read b p := (if p =? PCI_CONFIG_DATA then selected_register (bus_config b) (bus_word b) else 0xffffffff, b);
  port_write b p v := if p =? PCI_CONFIG_ADDRESS then mkBus (bus_config b) v else b;
  config := bus_config;
  selected := bus_word
|}.
Next Obligation. done. Qed.
Next Obligation. intros b. by exists b. Qed.
(** A bridge at the address 8 and a device at 250; two drivers note what they are offered. *)
Definition sample_config (a r : Z) : Z :=
  if a =? 8 then (if r =? 0 then 0x12348086 else if r =? 3 then 0x00010000 else 0)
  else if a =? 250 then (if r =? 0 then 0x29228086 else if r =? 4 then 0xc001 else 0)
  else 0xffffffff.
Definition note (driver : Z) : ProbeFunction (D := list (Z * Z * Z * Z)) :=
  λ dev addr d, (Some tt, d ++ [(driver, addr, device_id (header dev), bar0 dev)]).
Lemma sample_present : devices sample_config = [250].
Proof.
  unfold devices.
  change 65536 with (256 + 65280). rewrite seqZ_app, filter_app by lia.
  assert (filter (λ a, present sample_config a && is_device sample_config a) (seqZ (0 + 256) 65280) = []) as ->.
  { apply elem_of_nil_inv. intros a [Hp Ha%elem_of_seqZ]%list_elem_of_filter. revert Hp. unfold present, sample_config at 1.
    rewrite !(proj2 (Z.eqb_neq a _)) by lia. done. }
  by vm_compute.
Qed.
Lemma pci_scan_complete_witness :
  ∃ m', init [note 1; note 2] (mkBus sample_config 0) [] = Ret (m', [(1, 0x8000fa00, 0x2922, 0xc001); (2, 0x8000fa00, 0x2922, 0xc001)])
    ∧ bus_config m' = sample_config.
Proof.
  destruct (pci_scan_complete [note 1; note 2] (mkBus sample_config 0) []) as [(m' & E & Hm) _]. exists m'. split; [|exact Hm]. rewrite E.
  unfold offered, probes. change (config (mkBus sample_config 0)) with sample_config. rewrite sample_present. reflexivity.
Defined.
End Pci.
