(* ===== verification/DynAlloc.v ===== *)
(** * crates/dyn_frame_alloc: the bitmap frame allocator

    [FrameAllocator<LEN, UNIT>] keeps one bit per unit.  [alloc] looks for a run of clear
    bits word by word and sets it.  The model follows the loops with their breaks; the
    theorem says for which requests they are right, the examples at the end show
    the others. *)
From S2P Require Import Prelude.

Module DynAlloc.

Definition BITS : Z := 64.
Inductive Error := AlignmentError | NotEnoughMem.
Record FrameAllocator := mkAlloc { barray : list Z; start_addr : Z; bits_used : Z }.

Definition wrapping_shr (a k : Z) : Z := Z.shiftr a (k mod BITS).
Fixpoint trailing_ones_from (fuel : nat) (a i : Z) : Z :=
  match fuel with
  | O => i
  | S fuel => if Z.testbit a i then trailing_ones_from fuel a (i + 1) else i
  end.
Definition trailing_ones (a : Z) : Z := trailing_ones_from 64 a 0.

Section allocator.
Variables LEN UNIT : Z.

Definition num_words : Z := LEN / UNIT / BITS + 1.
Definition new (start_addr : Z) : run FrameAllocator :=
  _ ← rust_assert (LEN mod 8 =? 0);
  r ← urem LEN UNIT;
  _ ← rust_assert (r =? 0);
  _ ← rust_assert ((LEN / 8) mod 8 =? 0);
  r ← urem start_addr UNIT;
  _ ← rust_assert (r =? 0);
  _ ← rust_assert (0 <? UNIT);
  Ret (mkAlloc (replicate (Z.to_nat num_words) 0) start_addr 0).

(** [for bit_i in 0..usize::BITS], until the mask meets only clear bits. *)
Fixpoint find_bit (fuel : nat) (bit_i mask entry : Z) : option Z :=
  match fuel with
  | O => None
  | S fuel => if Z.land mask entry =? 0 then Some bit_i else find_bit fuel (bit_i + 1) (ushl 64 mask 1) entry
  end.
(** The search over [self.barray.iter().enumerate()]: the start and, when found, the end. *)
Fixpoint search (bits_to_compare : Z) (l : list Z) (arr_i compared_bits start_bit_index : Z) : run (Z * option Z) :=
  match l with
  | [] => Ret (start_bit_index, None)
  | entry :: l =>
      next ← uadd 64 arr_i 1;
      if entry =? umax 64 then
        start ← umul 64 next BITS;
        search bits_to_compare l next 0 start
      else
        rmaning_bts_to_cmp ← usub bits_to_compare compared_bits;
        '(compared, start, flag) ←
          (if BITS <=? rmaning_bts_to_cmp then
             if entry =? 0 then c ← uadd 64 compared_bits BITS; Ret (c, start_bit_index, true)
             else start ← umul 64 next BITS; Ret (compared_bits, start, false)
           else
             let mask := wrapping_shr (umax 64) (BITS - rmaning_bts_to_cmp) in
             match find_bit 64 0 mask entry with
             | Some bit_i =>
                 c ← uadd 64 compared_bits rmaning_bts_to_cmp;
                 w ← umul 64 arr_i BITS;
                 start ← uadd 64 w bit_i;
                 Ret (c, start, true)
             | None => Ret (compared_bits, start_bit_index, false)
             end);
        if (flag : bool) then
          if compared =? bits_to_compare then e ← uadd 64 start bits_to_compare; Ret (start, Some e)
          else search bits_to_compare l next compared start
        else search bits_to_compare l next 0 start
  end.
(** The loop over [self.barray[start_byte_index..=end_byte_index].iter_mut()]; the result
    says whether all bits were set. *)
Fixpoint mark (bits_to_compare start_bit_index : Z) (l : list Z) (compared_bits : Z) : run (list Z * bool) :=
  match l with
  | [] => Ret ([], false)
  | entry :: l =>
      rmaning_bts_to_cmp ← usub bits_to_compare compared_bits;
      let mask := wrapping_shr (umax 64) (saturating_sub BITS (cast 32 rmaning_bts_to_cmp)) in
      let num_bits_set := trailing_ones mask in
      let mask := ushl 64 mask (cast 32 start_bit_index mod BITS) in
      c ← uadd 64 compared_bits num_bits_set;
      if c =? bits_to_compare then Ret (Z.lor entry mask :: l, true)
      else '(l, found) ← mark bits_to_compare start_bit_index l c; Ret (Z.lor entry mask :: l, found)
  end.
Definition alloc (a : FrameAllocator) (size : Z) : run (FrameAllocator * result Z Error) :=
  r ← urem size UNIT;
  if negb (r =? 0) then Ret (a, Err AlignmentError)
  else
    used ← umul 64 (bits_used a) UNIT;
    if LEN <=? used then Ret (a, Err NotEnoughMem)
    else
      let bits_to_compare := size / UNIT in
      '(start, e) ← search bits_to_compare (barray a) 0 0 0;
      match e with
      | Some e =>
          let s := Z.to_nat (start / BITS) in
          let n := Z.to_nat (e / BITS) in
          if negb (bool_decide (s ≤ n + 1)%nat && bool_decide (n < length (barray a))%nat) then Panic OutOfBounds
          else
            '(l, found) ← mark bits_to_compare start (take (n + 1 - s) (drop s (barray a))) 0;
            let b := take s (barray a) ++ l ++ drop (n + 1) (barray a) in
            if (found : bool) then
              used ← uadd 64 (bits_used a) bits_to_compare;
              addr ← umul 64 start UNIT;
              addr ← uadd 64 addr (start_addr a);
              Ret (mkAlloc b (start_addr a) used, Ok addr)
            else Ret (mkAlloc b (start_addr a) (bits_used a), Err NotEnoughMem)
      | None => Ret (a, Err NotEnoughMem)
      end.
End allocator.

(** ** A bitmap whose first [p] bits are set *)
Definition ones (n : Z) : Z := 2 ^ n - 1.
Definition words (p len : Z) : list Z :=
  replicate (Z.to_nat (p / 64)) (umax 64) ++ ones (p mod 64) :: replicate (Z.to_nat (len - p / 64 - 1)) 0.

Lemma shr_ones n : 1 ≤ n ≤ 64 → wrapping_shr (umax 64) (64 - n) = ones n.
Proof.
  intros Hn. unfold wrapping_shr, ones, umax, BITS. rewrite Z.mod_small, Z.shiftr_div_pow2 by lia. symmetry.
  apply (Z.div_unique _ _ _ (2 ^ (64 - n) - 1)); [pose proof (pow2_pos (64 - n)); lia|].
  assert (2 ^ 64 = 2 ^ (64 - n) * 2 ^ n) as -> by (rewrite <- Z.pow_add_r by lia; f_equal; lia). lia.
Qed.
Lemma testbit_ones n i : 0 ≤ n → 0 ≤ i → Z.testbit (ones n) i = (i <? n).
Proof.
  intros Hn Hi. unfold ones. change (2 ^ n - 1) with (Z.pred (2 ^ n)). rewrite <- Z.ones_equiv.
  destruct (Z.ltb_spec i n); [by apply Z.ones_spec_low; lia|by apply Z.ones_spec_high; lia].
Qed.
Lemma trailing_ones_spec n : 0 ≤ n ≤ 64 → trailing_ones (ones n) = n.
Proof.
  intros Hn. unfold trailing_ones.
  assert (∀ fuel i, 0 ≤ i ≤ n → n ≤ i + Z.of_nat fuel → trailing_ones_from fuel (ones n) i = n) as H; [|apply H; lia].
  induction fuel as [|fuel IH]; intros i Hi Hf; cbn [trailing_ones_from]; [lia|]. rewrite testbit_ones by lia.
  destruct (Z.ltb_spec i n); [apply IH; lia|lia].
Qed.
(** A run of [n] bits at [i], cut off at the end of the word. *)
Lemma find_bit_spec n r : 1 ≤ n → 0 ≤ r < 64 → find_bit 64 0 (ones n mod 2 ^ 64) (ones r) = Some r.
Proof.
  intros Hn Hr.
  assert (∀ fuel i, 0 ≤ i ≤ r → r < i + Z.of_nat fuel → find_bit fuel i (Z.shiftl (ones n) i mod 2 ^ 64) (ones r) = Some r) as H;
    [|by rewrite <- (Z.shiftl_0_r (ones n)); apply H; lia].
  induction fuel as [|fuel IH]; intros i Hi Hf; [lia|]. cbn [find_bit].
  assert (∀ j, 0 ≤ j → Z.testbit (Z.land (Z.shiftl (ones n) i mod 2 ^ 64) (ones r)) j = (j <? 64) && (i <=? j) && (j <? n + i) && (j <? r)) as Hb.
  { intros j Hj. rewrite Z.land_spec, testbit_ones by lia. f_equal. destruct (Z.ltb_spec j 64); cbn [andb]; [|by apply Z.mod_pow2_bits_high; lia].
    rewrite Z.mod_pow2_bits_low, Z.shiftl_spec by lia. destruct (Z.leb_spec i j); cbn [andb]; [|by apply Z.testbit_neg_r; lia].
    rewrite testbit_ones by lia. apply eq_true_iff_eq. rewrite !Z.ltb_lt. lia. }
  destruct (decide (i = r)) as [->|Hne].
  - rewrite (proj2 (Z.eqb_eq _ _)); [done|]. apply Z.bits_inj'. intros j Hj. rewrite Hb, Z.bits_0 by done. zcase; cbn; lia || done.
  - rewrite (proj2 (Z.eqb_neq _ _)).
    + assert (ushl 64 (Z.shiftl (ones n) i mod 2 ^ 64) 1 = Z.shiftl (ones n) (i + 1) mod 2 ^ 64) as ->; [|apply IH; lia].
      unfold ushl. rewrite !Z.shiftl_mul_pow2 by lia. rewrite Z.pow_add_r, Z.mul_assoc by lia. by rewrite Z.mul_mod_idemp_l by lia.
    + intros E. specialize (Hb i ltac:(lia)). rewrite E, Z.bits_0 in Hb. revert Hb. zcase; cbn; lia || done.
Qed.

(** ** The search *)
Lemma ones_not_full r : 0 ≤ r < 64 → (ones r =? umax 64) = false.
Proof. intros Hr. apply Z.eqb_neq. unfold ones, umax. pose proof (Z.pow_lt_mono_r 2 r 64). lia. Qed.
Lemma search_skip n k l i :
  0 ≤ i → (i + Z.of_nat k) * 64 < 2 ^ 64 →
  search n (replicate k (umax 64) ++ l) i 0 (i * 64) = search n l (i + Z.of_nat k) 0 ((i + Z.of_nat k) * 64).
Proof.
  revert i. induction k as [|k IH]; intros i Hi Hk; [cbn [replicate app]; by rewrite Z.add_0_r|]. cbn [replicate app search].
  rewrite (uadd_Ret 64 i 1) by lia. cbn [mbind run_bind]. rewrite Z.eqb_refl. unfold BITS. rewrite umul_Ret by lia. cbn [mbind run_bind].
  rewrite IH by lia. by replace (i + 1 + Z.of_nat k) with (i + Z.of_nat (S k)) by lia.
Qed.
Lemma search_small n r l i s :
  1 ≤ n < 64 → 0 ≤ r < 64 → 0 ≤ i → (i + 2) * 64 < 2 ^ 64 → search n (ones r :: l) i 0 s = Ret (i * 64 + r, Some (i * 64 + r + n)).
Proof.
  intros Hn Hr Hi Hb. cbn [search]. rewrite (uadd_Ret 64 i 1) by lia. cbn [mbind run_bind]. rewrite ones_not_full by done.
  rewrite usub_Ret by lia. cbn [mbind run_bind]. unfold BITS. rewrite Z.sub_0_r, (proj2 (Z.leb_gt _ _)), shr_ones by lia.
  pose proof (find_bit_spec n r ltac:(lia) Hr) as Hf. pose proof (Z.pow_lt_mono_r 2 n 64). pose proof (pow2_pos n). rewrite Z.mod_small in Hf by (unfold ones; lia). rewrite Hf.
  rewrite uadd_Ret by lia. cbn [mbind run_bind]. rewrite umul_Ret by lia. cbn [mbind run_bind]. rewrite uadd_Ret by lia. cbn [mbind run_bind].
  rewrite Z.add_0_l, Z.eqb_refl, uadd_Ret by lia. done.
Qed.
Lemma search_run n k l i s :
  (1 ≤ k)%nat → 0 ≤ n - 64 * Z.of_nat k → 0 ≤ i → i + Z.of_nat k < 2 ^ 64 → s + n < 2 ^ 64 → n < 2 ^ 63 →
  search n (replicate k 0 ++ l) i (n - 64 * Z.of_nat k) s = Ret (s, Some (s + n)).
Proof.
  revert i. induction k as [|k IH]; intros i Hk Hn Hi Hb Hs H63; [lia|]. cbn [replicate app search]. rewrite (uadd_Ret 64 i 1) by lia. cbn [mbind run_bind].
  change (0 =? umax 64) with false. cbv iota. rewrite usub_Ret by lia. cbn [mbind run_bind]. unfold BITS. rewrite (proj2 (Z.leb_le _ _)) by lia.
  change (0 =? 0) with true. cbv iota. rewrite uadd_Ret by lia. cbn [mbind run_bind]. destruct k as [|k].
  - rewrite (proj2 (Z.eqb_eq _ _)), uadd_Ret by lia. done.
  - rewrite (proj2 (Z.eqb_neq _ _)) by lia. replace (n - 64 * Z.of_nat (S (S k)) + 64) with (n - 64 * Z.of_nat (S k)) by lia. apply IH; lia.
Qed.

(** ** Setting the bits *)
Lemma cast_mod64 z : cast 32 z mod 64 = z mod 64.
Proof. unfold cast. apply Z.mod_mod_divide. exists (2 ^ 26). lia. Qed.
Lemma lor_ones r n : 0 ≤ r → 0 ≤ n → Z.lor (ones r) (Z.shiftl (ones n) r) = ones (r + n).
Proof.
  intros Hr Hn. apply Z.bits_inj'. intros j Hj. rewrite Z.lor_spec, Z.shiftl_spec, (testbit_ones r), (testbit_ones (r + n)) by lia.
  destruct (Z.ltb_spec j r); cbn [orb]; [symmetry; apply Z.ltb_lt; lia|]. rewrite testbit_ones by lia.
  apply eq_true_iff_eq. rewrite !Z.ltb_lt. lia.
Qed.
Lemma mark_small n r start l :
  1 ≤ n → r + n ≤ 64 → start mod 64 = r → mark n start (ones r :: l) 0 = Ret (ones (r + n) :: l, true).
Proof.
  intros Hn Hrn Hs. pose proof (Z.mod_pos_bound start 64 ltac:(lia)). cbn [mark]. rewrite usub_Ret by lia. cbn [mbind run_bind]. unfold BITS, saturating_sub.
  rewrite cast_mod64, Hs. unfold cast. rewrite Z.sub_0_r, (Z.mod_small n) by lia. rewrite Z.max_r, shr_ones, trailing_ones_spec by lia.
  rewrite uadd_Ret by lia. cbn [mbind run_bind]. rewrite Z.add_0_l, Z.eqb_refl. unfold ushl. rewrite Z.mod_small; [by rewrite lor_ones by lia|].
  rewrite Z.shiftl_mul_pow2 by lia. unfold ones. pose proof (pow2_pos n ltac:(lia)). pose proof (pow2_pos r ltac:(lia)).
  assert (2 ^ n * 2 ^ r ≤ 2 ^ 64) by (rewrite <- Z.pow_add_r by lia; apply Z.pow_le_mono_r; lia). nia.
Qed.
Lemma mark_run n k start l :
  (1 ≤ k)%nat → 0 ≤ n - 64 * Z.of_nat k → n < 2 ^ 32 → start mod 64 = 0 →
  mark n start (replicate k 0 ++ l) (n - 64 * Z.of_nat k) = Ret (replicate k (umax 64) ++ l, true).
Proof.
  intros Hk Hn H32 Hs. induction k as [|k IH]; [lia|]. cbn [replicate app mark]. rewrite usub_Ret by lia. cbn [mbind run_bind].
  unfold BITS. rewrite cast_mod64, Hs.
  assert (saturating_sub 64 (cast 32 (n - (n - 64 * Z.of_nat (S k)))) = 0) as -> by (unfold saturating_sub, cast; rewrite Z.mod_small by lia; lia).
  change (wrapping_shr (umax 64) 0) with (umax 64). change (trailing_ones (umax 64)) with 64. change (Z.lor 0 (ushl 64 (umax 64) 0)) with (umax 64).
  rewrite uadd_Ret by lia. cbn [mbind run_bind]. destruct k as [|k].
  - rewrite (proj2 (Z.eqb_eq _ _)) by lia. done.
  - rewrite (proj2 (Z.eqb_neq _ _)) by lia. replace (n - 64 * Z.of_nat (S (S k)) + 64) with (n - 64 * Z.of_nat (S k)) by lia.
    rewrite IH by lia. done.
Qed.

Lemma mark_words n k start l :
  (1 ≤ k)%nat → n = 64 * Z.of_nat k → n < 2 ^ 32 → start mod 64 = 0 → mark n start (replicate k 0 ++ l) 0 = Ret (replicate k (umax 64) ++ l, true).
Proof. intros Hk Hn H32 Hs. pose proof (mark_run n k start l Hk ltac:(lia) H32 Hs) as E. by rewrite Hn, Z.sub_diag, <- Hn in E. Qed.

(** ** Allocation *)
(** A request the loops serve right behind [p] bits: it stays within a word, or it
    consists of whole words and starts at one. *)
Definition fits (p n : Z) : Prop := 1 ≤ n ∧ ((n < 64 ∧ p mod 64 + n ≤ 64) ∨ (p mod 64 = 0 ∧ n mod 64 = 0)).
#[global] Instance fits_dec p n : Decision (fits p n).
Proof. unfold fits. apply _. Defined.
Fixpoint all_fit (p : Z) (ns : list Z) : Prop :=
  match ns with [] => True | n :: ns => fits p n ∧ all_fit (p + n) ns end.
#[global] Instance all_fit_dec p ns : Decision (all_fit p ns).
Proof. revert p. induction ns as [|n ns IH]; intros p; cbn; apply _. Defined.

Lemma words_length p len : 0 ≤ p → p / 64 < len → Z.of_nat (length (words p len)) = len.
Proof. intros Hp Hl. pose proof (Z.div_pos p 64 Hp ltac:(lia)). unfold words. rewrite length_app. cbn [length]. rewrite !length_replicate. lia. Qed.
(** At a word boundary. *)
Lemma words_even p len : p mod 64 = 0 → 0 ≤ p → p / 64 < len →
  words p len = replicate (Z.to_nat (p / 64)) (umax 64) ++ replicate (Z.to_nat (len - p / 64)) 0.
Proof.
  intros Hm Hp Hl. pose proof (Z.div_pos p 64 Hp ltac:(lia)). unfold words. rewrite Hm. f_equal. replace (Z.to_nat (len - p / 64)) with (S (Z.to_nat (len - p / 64 - 1))) by lia. done.
Qed.
Lemma words_small p n len :
  0 ≤ p → 1 ≤ n → p mod 64 + n ≤ 64 → (p + n) / 64 < len →
  words (p + n) len = replicate (Z.to_nat (p / 64)) (umax 64) ++ ones (p mod 64 + n) :: replicate (Z.to_nat (len - p / 64 - 1)) 0.
Proof.
  intros Hp Hn Hf Hl. pose proof (Z.div_pos p 64 Hp ltac:(lia)). pose proof (Z.div_mod p 64 ltac:(lia)) as Hdm. pose proof (Z.mod_pos_bound p 64 ltac:(lia)) as Hm.
  destruct (decide (p mod 64 + n = 64)) as [E|Hne].
  - assert ((p + n) / 64 = p / 64 + 1) as Hd by (symmetry; apply (Z.div_unique _ _ _ 0); lia). rewrite words_even by (lia || (rewrite <- (Z.mod_unique (p + n) 64 (p / 64 + 1) 0); lia)).
    rewrite Hd in *. rewrite E. change (ones 64) with (umax 64). replace (Z.to_nat (p / 64 + 1)) with (Z.to_nat (p / 64) + 1)%nat by lia.
    rewrite replicate_add, <- app_assoc. cbn [replicate app]. do 2 f_equal. f_equal. lia.
  - unfold words. assert ((p + n) / 64 = p / 64) as -> by (symmetry; apply (Z.div_unique _ _ _ (p mod 64 + n)); lia).
    by rewrite <- (Z.mod_unique (p + n) 64 (p / 64) (p mod 64 + n)) by lia.
Qed.

Section correct.
Variables LEN UNIT : Z.
Hypothesis unit_pos : 0 < UNIT.
Hypothesis len_bound : 0 ≤ LEN < 2 ^ 63.
Hypothesis len_units : LEN mod UNIT = 0.
Hypothesis few_units : LEN / UNIT < 2 ^ 32.
Local Notation units := (LEN / UNIT).
Local Notation len := (num_words LEN UNIT).

Lemma units_exact : units * UNIT = LEN.
Proof. pose proof (Z.div_mod LEN UNIT ltac:(lia)). lia. Qed.
Lemma below_words q : q ≤ units → q / 64 < len.
Proof. intros Hq. unfold num_words, BITS. assert (q / 64 ≤ units / 64) by (apply Z.div_le_mono; lia). lia. Qed.

(** The first [p] units are handed out. *)
Record holds (a : FrameAllocator) (start p : Z) : Prop := {
  ho_array : barray a = words p len;
  ho_used : bits_used a = p;
  ho_start : start_addr a = start;
  ho_range : 0 ≤ p ≤ units
}.

(** The search finds the first free bit and the loop sets the bits from there. *)
Lemma search_fits p n : 0 ≤ p → fits p n → p + n ≤ units → search n (words p len) 0 0 0 = Ret (p, Some (p + n)).
Proof.
  intros Hp [Hn Hf] Hr. pose proof (Z.div_mod p 64 ltac:(lia)) as Hdm. pose proof (Z.mod_pos_bound p 64 ltac:(lia)) as Hm.
  pose proof (below_words (p + n) Hr) as Hl. pose proof (Z.div_pos p 64 ltac:(lia) ltac:(lia)).
  destruct (decide (p mod 64 = 0 ∧ n mod 64 = 0)) as [[H0 Hn0]|Hne].
  - pose proof (Z.div_mod n 64 ltac:(lia)) as Hdn. assert ((p + n) / 64 = p / 64 + n / 64) as Hd by (symmetry; apply (Z.div_unique _ _ _ 0); lia).
    rewrite words_even by (lia || apply below_words; lia). pose proof (search_skip n (Z.to_nat (p / 64)) (replicate (Z.to_nat (len - p / 64)) 0) 0 ltac:(lia) ltac:(lia)) as E.
    rewrite Z.mul_0_l, Z2Nat.id, Z.add_0_l in E by lia. rewrite E. rewrite <- (Nat.sub_add (Z.to_nat (n / 64)) (Z.to_nat (len - p / 64))) by lia.
    rewrite Nat.add_comm, replicate_add. replace 0 with (n - 64 * Z.of_nat (Z.to_nat (n / 64))) at 3 by lia.
    rewrite search_run by lia. by replace (p / 64 * 64) with p by lia.
  - assert (n < 64 ∧ p mod 64 + n ≤ 64) as [Hlt Hle] by tauto. unfold words.
    pose proof (search_skip n (Z.to_nat (p / 64)) (ones (p mod 64) :: replicate (Z.to_nat (len - p / 64 - 1)) 0) 0 ltac:(lia) ltac:(lia)) as E.
    rewrite Z.mul_0_l, Z2Nat.id, Z.add_0_l in E by lia. rewrite E, search_small by lia. by replace (p / 64 * 64 + p mod 64) with p by lia.
Qed.

(** The slice [s..=e] starts with the part that changes. *)
Lemma splice (P X X' Y : list Z) s e :
  length P = s → length X' = length X → (s + length X ≤ e + 1)%nat →
  take (e + 1 - s) (drop s (P ++ X ++ Y)) = X ++ take (e + 1 - s - length X) Y
  ∧ take s (P ++ X ++ Y) ++ (X' ++ take (e + 1 - s - length X) Y) ++ drop (e + 1) (P ++ X ++ Y) = P ++ X' ++ Y.
Proof.
  intros HP HX He. rewrite (drop_app_length' P), (take_app_length' P) by done. split; [by rewrite take_app_ge by lia|].
  rewrite drop_app_ge by lia. rewrite HP, drop_app_ge by lia. by rewrite <- app_assoc, take_drop.
Qed.
Lemma mark_fits p n :
  0 ≤ p → fits p n → p + n ≤ units →
  let s := Z.to_nat (p / 64) in let e := Z.to_nat ((p + n) / 64) in
  (s ≤ e + 1)%nat ∧ (e < length (words p len))%nat ∧
  ∃ l, mark n p (take (e + 1 - s) (drop s (words p len))) 0 = Ret (l, true)
    ∧ take s (words p len) ++ l ++ drop (e + 1) (words p len) = words (p + n) len.
Proof.
  intros Hp [Hn Hf] Hr s e. pose proof (Z.div_mod p 64 ltac:(lia)) as Hdm. pose proof (Z.mod_pos_bound p 64 ltac:(lia)) as Hm.
  pose proof (below_words (p + n) Hr) as Hl. pose proof (Z.div_pos p 64 ltac:(lia) ltac:(lia)). pose proof (Z.div_le_mono p (p + n) 64 ltac:(lia) ltac:(lia)) as Hmono.
  split; [lia|]. pose proof (words_length p len ltac:(lia) ltac:(lia)) as Hlen. split; [lia|]. destruct (decide (p mod 64 = 0 ∧ n mod 64 = 0)) as [[H0 Hn0]|Hne].
  - pose proof (Z.div_mod n 64 ltac:(lia)) as Hdn. assert ((p + n) / 64 = p / 64 + n / 64) as Hd by (symmetry; apply (Z.div_unique _ _ _ 0); lia).
    set (k := Z.to_nat (n / 64)). assert (words p len = replicate s (umax 64) ++ replicate k 0 ++ replicate (Z.to_nat (len - p / 64) - k) 0) as ->.
    { rewrite words_even by lia. f_equal. rewrite <- replicate_add. f_equal. lia. }
    destruct (splice (replicate s (umax 64)) (replicate k 0) (replicate k (umax 64)) (replicate (Z.to_nat (len - p / 64) - k) 0) s e) as [-> Hs];
      [apply length_replicate|by rewrite !length_replicate|rewrite length_replicate; lia|].
    eexists. split; [apply mark_words; lia|rewrite Hs].
    rewrite words_even by (lia || (rewrite <- (Z.mod_unique (p + n) 64 ((p + n) / 64) 0); lia)). rewrite Hd, app_assoc, <- replicate_add. do 2 f_equal; lia.
  - assert (n < 64 ∧ p mod 64 + n ≤ 64) as [Hlt Hle] by tauto.
    destruct (splice (replicate s (umax 64)) [ones (p mod 64)] [ones (p mod 64 + n)] (replicate (Z.to_nat (len - p / 64 - 1)) 0) s e) as [Ht Hs];
      [apply length_replicate|done|cbn; lia|].
    unfold words at 1 2 3. fold s. cbn [app] in Ht, Hs. rewrite Ht. eexists. split; [by apply mark_small|]. rewrite words_small by lia. exact Hs.
Qed.
Lemma alloc_fits a start p n :
  holds a start p → fits p n → p + n ≤ units → start + LEN < 2 ^ 64 →
  ∃ a', alloc LEN UNIT a (n * UNIT) = Ret (a', Ok (start + p * UNIT)) ∧ holds a' start (p + n).
Proof.
  intros [Ha Hu Hs Hp] Hf Hr Hb. pose proof units_exact as Hx. pose proof Hf as [Hn _]. assert (p * UNIT < LEN) by nia.
  destruct (mark_fits p n) as (H1 & H2 & l & Hm & Hw); [lia|done|done|]. unfold alloc.
  rewrite urem_Ret by lia. cbn [mbind run_bind]. rewrite Z_mod_mult. cbn [Z.eqb negb]. rewrite Hu, umul_Ret by lia. cbn [mbind run_bind].
  rewrite (proj2 (Z.leb_gt _ _)), Z.div_mul, Ha, search_fits by (done || lia). cbn [mbind run_bind]. unfold BITS.
  rewrite !bool_decide_eq_true_2 by done. cbn [andb negb]. rewrite Hm. cbn [mbind run_bind].
  rewrite uadd_Ret by lia. cbn [mbind run_bind]. rewrite umul_Ret by lia. cbn [mbind run_bind]. rewrite Hs, uadd_Ret by lia. cbn [mbind run_bind].
  eexists. rewrite (Z.add_comm (p * UNIT)). split; [done|]. split; cbn; [done|done|done|lia].
Qed.
Lemma alloc_full a start size : holds a start units → size mod UNIT = 0 → alloc LEN UNIT a size = Ret (a, Err NotEnoughMem).
Proof.
  intros [Ha Hu Hs Hp] Hm. pose proof units_exact as Hx. unfold alloc. rewrite urem_Ret by lia. cbn [mbind run_bind]. rewrite Hm. cbn [Z.eqb negb].
  rewrite Hu, umul_Ret by lia. cbn [mbind run_bind]. by rewrite (proj2 (Z.leb_le _ _)) by lia.
Qed.

(** A sequence of requests, and the addresses of consecutive blocks. *)
Fixpoint alloc_all (a : FrameAllocator) (sizes : list Z) : run (FrameAllocator * list (result Z Error)) :=
  match sizes with
  | [] => Ret (a, [])
  | size :: sizes => '(a, r) ← alloc LEN UNIT a size; '(a, rs) ← alloc_all a sizes; Ret (a, r :: rs)
  end.
Fixpoint consecutive (start : Z) (sizes : list Z) : list Z :=
  match sizes with [] => [] | size :: sizes => start :: consecutive (start + size) sizes end.
Fixpoint total (ns : list Z) : Z := match ns with [] => 0 | n :: ns => n + total ns end.
Lemma all_fit_nonneg p ns : all_fit p ns → 0 ≤ total ns.
Proof. revert p. induction ns as [|n ns IH]; intros p; cbn; [lia|]. intros [[Hn _] H%IH]. lia. Qed.
Lemma alloc_all_fits a start p ns :
  holds a start p → all_fit p ns → p + total ns ≤ units → start + LEN < 2 ^ 64 →
  ∃ a', alloc_all a ((λ n, n * UNIT) <$> ns) = Ret (a', Ok <$> consecutive (start + p * UNIT) ((λ n, n * UNIT) <$> ns)) ∧ holds a' start (p + total ns).
Proof.
  revert a p. induction ns as [|n ns IH]; intros a p Ha Hf Ht Hb; [exists a; split; [done|]; cbn; by rewrite Z.add_0_r|].
  destruct Hf as [Hn Hf]. cbn [total] in *. pose proof (all_fit_nonneg _ _ Hf). destruct (alloc_fits a start p n Ha Hn) as (a1 & E & Ha1); [lia|done|].
  destruct (IH a1 (p + n) Ha1 Hf) as (a2 & E2 & Ha2); [lia|done|]. exists a2. cbn [fmap list_fmap alloc_all consecutive]. rewrite E. cbn [mbind run_bind].
  change (list_fmap _ _ (λ n, n * UNIT) ns) with ((λ n, n * UNIT) <$> ns). rewrite E2. cbn [mbind run_bind]. split; [|by rewrite Z.add_assoc].
  by replace (start + (p + n) * UNIT) with (start + p * UNIT + n * UNIT) by lia.
Qed.
Lemma new_holds start : LEN mod 64 = 0 → start mod UNIT = 0 → ∃ a, new LEN UNIT start = Ret a ∧ holds a start 0.
Proof.
  intros H64 Hs. unfold new. rewrite (proj2 (Z.eqb_eq (LEN mod 8) 0)) by (rewrite <- (Z.mod_mod_divide LEN 64 8), H64 by (by exists 8); done).
  cbn [rust_assert mbind run_bind]. rewrite !urem_Ret by lia. cbn [mbind run_bind]. rewrite len_units. cbn [Z.eqb rust_assert mbind run_bind].
  assert ((LEN / 8) mod 8 = 0) as ->.
  { pose proof (Z.div_mod LEN 64 ltac:(lia)) as Hd. rewrite Hd, H64, Z.add_0_r. replace (64 * (LEN / 64)) with ((LEN / 64 * 8) * 8) by lia. by rewrite Z.div_mul, Z_mod_mult. }
  cbn [Z.eqb rust_assert mbind run_bind]. rewrite Hs. cbn [Z.eqb rust_assert mbind run_bind]. rewrite (proj2 (Z.ltb_lt _ _)) by done. cbn [rust_assert mbind run_bind].
  eexists. split; [done|]. pose proof (Z.div_pos LEN UNIT ltac:(lia) ltac:(lia)). split; cbn [barray bits_used start_addr]; [|done|done|lia].
  rewrite words_even by (done || apply below_words; lia). change (0 / 64) with 0. by rewrite Z.sub_0_r.
Qed.

(** as long as every request either stays within a word of the bitmap or consists of whole
    words and starts at one, the allocator hands out consecutive blocks from its start on: each
    request gets the memory right behind the last one, all of it inside the memory of the allocator,
    and when all units are gone every further request is refused and nothing changes. *)
Theorem dyn_alloc_consecutive start ns :
  LEN mod 64 = 0 → start mod UNIT = 0 → start + LEN < 2 ^ 64 → all_fit 0 ns → total ns ≤ units →
  ∃ a0 a, new LEN UNIT start = Ret a0
    ∧ alloc_all a0 ((λ n, n * UNIT) <$> ns) = Ret (a, Ok <$> consecutive start ((λ n, n * UNIT) <$> ns))
    ∧ bits_used a = total ns
    ∧ (total ns = units → ∀ size, size mod UNIT = 0 → alloc LEN UNIT a size = Ret (a, Err NotEnoughMem)).
Proof.
  intros H64 Hs Hb Hf Ht. destruct (new_holds start H64 Hs) as (a0 & E0 & H0). exists a0.
  destruct (alloc_all_fits a0 start 0 ns H0 Hf ltac:(lia) Hb) as (a & E & Ha). exists a. rewrite Z.mul_0_l, Z.add_0_r in E. rewrite Z.add_0_l in Ha.
  split; [done|]. split; [done|]. split; [apply (ho_used _ _ _ Ha)|]. intros Hfull size Hsz. rewrite Hfull in Ha. by apply (alloc_full a start).
Qed.
End correct.
(** Two units, one, 61 to fill a word, and the second word at once. *)
Lemma dyn_alloc_consecutive_witness :
  ∃ a0 a, new 0x80000 4096 0x1000 = Ret a0
    ∧ alloc_all 0x80000 4096 a0 [0x2000; 0x1000; 0x3d000; 0x40000] = Ret (a, [Ok 0x1000; Ok 0x3000; Ok 0x4000; Ok 0x41000])
    ∧ alloc 0x80000 4096 a 0x1000 = Ret (a, Err NotEnoughMem).
Proof.
  destruct (dyn_alloc_consecutive 0x80000 4096 ltac:(lia) ltac:(lia) eq_refl ltac:(by vm_compute) 0x1000 [2; 1; 61; 64])
    as (a0 & a & H0 & H & _ & Hf); [done|done|lia|apply (bool_decide_unpack _); by vm_compute|by vm_compute|].
  exists a0, a. split; [exact H0|]. split; [exact H|apply Hf; done].
Defined.
(** The behaviours the theorem excludes. *)
(** A request that does not fit into the rest of a word is answered with memory that is handed out again. *)
Example crossing_overlaps :
  ∃ a0 a1 a2 a3, new 128 1 0 = Ret a0 ∧ alloc 128 1 a0 60 = Ret (a1, Ok 0) ∧ alloc 128 1 a1 10 = Ret (a2, Ok 60) ∧ alloc 128 1 a2 10 = Ret (a3, Ok 64).
Proof. eexists _, _, _, _. repeat split. Qed.
(** A request of a word and a bit is answered behind the free word that was found for it, and
    reaches beyond the memory of the allocator. *)
Example remainder_start : ∃ a0 a1, new 128 1 0 = Ret a0 ∧ alloc 128 1 a0 65 = Ret (a1, Ok 64) ∧ barray a1 = [0; umax 64; 1].
Proof. eexists _, _. repeat split. Qed.
(** A request of nothing fails and loses a word. *)
Example empty_request : ∃ a0 a1, new 128 1 0 = Ret a0 ∧ alloc 128 1 a0 0 = Ret (a1, Err NotEnoughMem) ∧ barray a1 = [umax 64; 0; 0].
Proof. eexists _, _. repeat split. Qed.
(** A request may reach behind the array. *)
Example beyond_panics : ∃ a0 a1, new 64 1 0 = Ret a0 ∧ alloc 64 1 a0 1 = Ret (a1, Ok 0) ∧ alloc 64 1 a1 64 = Panic OutOfBounds.
Proof. eexists _, _. repeat split. Qed.
End DynAlloc.
