(* ===== verification/Paging32.v ===== *)
(** * crates/x86: addresses, pages and page table entries of 32 bits

    The bootloader's copy of the crate is cut down to the two-level paging of 32-bit mode:
    addresses, pages and entries have 32 bits, a table has 1024 entries, and the sizes are
    4 KiB and 4 MiB.  (crates/x86/src/addr.rs and structures/paging/page.rs, frame.rs,
    page_table.rs.) *)
From S2P Require Import Prelude.

Module Paging32.

(** ** addr.rs *)
Definition align_down (addr align : Z) : run Z :=
  _ ← rust_assert (is_power_of_two align);
  Ret (Z.land addr (unot 32 (align - 1))).
Definition is_aligned (a align : Z) : run bool := d ← align_down a align; Ret (d =? a).
(** [+] and [-] of addresses and numbers, and of two addresses. *)
Definition addr_add (a rhs : Z) : run Z := uadd 32 a rhs.
Definition addr_sub (a rhs : Z) : run Z := unwrap (checked_sub a rhs).
Definition addr_diff (a b : Z) : run Z := unwrap (checked_sub a b).

Definition ENTRY_COUNT : nat := 1024.
Definition index_new (i : Z) : run Z := _ ← rust_assert (i <? 1024); Ret i.
Definition index_new_truncate (i : Z) : Z := i mod 1024.
Definition offset_new (o : Z) : run Z := _ ← rust_assert (o <? 4096); Ret o.
Definition offset_new_truncate (o : Z) : Z := o mod 4096.
Definition page_offset (a : Z) : Z := offset_new_truncate (cast 16 a).
Definition p1_index (a : Z) : Z := index_new_truncate (cast 16 (Z.shiftr a 12)).
Definition p2_index (a : Z) : Z := index_new_truncate (cast 16 (Z.shiftr a 22)).

(** ** page.rs and frame.rs *)
Inductive PageSize := Size4KiB | Size4MiB.
#[global] Instance PageSize_eq_dec : EqDecision PageSize.
Proof. solve_decision. Defined.
Definition SIZE (s : PageSize) : Z := match s with Size4KiB => 4096 | Size4MiB => 4096 * 1024 end.
Inductive AddressNotAligned := NotAligned.

Definition page_containing_address (s : PageSize) (a : Z) : run Z := align_down a (SIZE s).
Definition page_from_start_address (s : PageSize) (a : Z) : run (result Z AddressNotAligned) :=
  ok ← is_aligned a (SIZE s);
  if negb ok then Ret (Err NotAligned) else p ← page_containing_address s a; Ret (Ok p).
Definition page_add (s : PageSize) (p rhs : Z) : run Z :=
  n ← umul 32 rhs (SIZE s); a ← addr_add p n; page_containing_address s a.
Definition page_sub (s : PageSize) (p rhs : Z) : run Z :=
  n ← umul 32 rhs (SIZE s); a ← addr_sub p n; page_containing_address s a.
Definition page_diff (s : PageSize) (p q : Z) : run Z := d ← addr_diff p q; Ret (d / SIZE s).

Definition frame_containing_address (s : PageSize) (a : Z) : run Z := align_down a (SIZE s).
Definition frame_from_start_address (s : PageSize) (a : Z) : run (result Z AddressNotAligned) :=
  ok ← is_aligned a (SIZE s);
  if negb ok then Ret (Err NotAligned) else f ← frame_containing_address s a; Ret (Ok f).
Definition frame_add (s : PageSize) (f rhs : Z) : run Z :=
  n ← umul 32 rhs (SIZE s); a ← addr_add f n; frame_containing_address s a.
Definition frame_sub (s : PageSize) (f rhs : Z) : run Z :=
  n ← umul 32 rhs (SIZE s); a ← addr_sub f n; frame_containing_address s a.
Definition frame_diff (s : PageSize) (f g : Z) : run Z := d ← addr_diff f g; Ret (d / SIZE s).

Record PageRange := mkRange { r_start : Z; r_end : Z }.
Definition range_is_empty (r : PageRange) : bool := r_end r <=? r_start r.
Definition inclusive_is_empty (r : PageRange) : bool := r_end r <? r_start r.
(** [Iterator::next] of the ranges of pages. *)
Definition page_range_next (s : PageSize) (r : PageRange) : run (option Z * PageRange) :=
  if r_start r <? r_end r then st ← page_add s (r_start r) 1; Ret (Some (r_start r), mkRange st (r_end r)) else Ret (None, r).
Definition page_range_inclusive_next (s : PageSize) (r : PageRange) : run (option Z * PageRange) :=
  if r_start r <=? r_end r then st ← page_add s (r_start r) 1; Ret (Some (r_start r), mkRange st (r_end r)) else Ret (None, r).
(** .. and of the ranges of frames. *)
Definition frame_range_next (s : PageSize) (r : PageRange) : run (option Z * PageRange) :=
  if r_start r <? r_end r then st ← frame_add s (r_start r) 1; Ret (Some (r_start r), mkRange st (r_end r)) else Ret (None, r).
Definition frame_range_inclusive_next (s : PageSize) (r : PageRange) : run (option Z * PageRange) :=
  if r_start r <=? r_end r then st ← frame_add s (r_start r) 1; Ret (Some (r_start r), mkRange st (r_end r)) else Ret (None, r).

(** ** page_table.rs *)
Definition PRESENT : Z := 1.
Definition WRITABLE : Z := Z.shiftl 1 1.
Definition USER_ACCESSIBLE : Z := Z.shiftl 1 2.
Definition WRITE_THROUGH : Z := Z.shiftl 1 3.
Definition NO_CACHE : Z := Z.shiftl 1 4.
Definition ACCESSED : Z := Z.shiftl 1 5.
Definition DIRTY : Z := Z.shiftl 1 6.
Definition HUGE_PAGE : Z := Z.shiftl 1 7.
Definition GLOBAL : Z := Z.shiftl 1 8.
Definition PAT : Z := Z.shiftl 1 12.
Definition ALL_FLAGS : Z :=
  foldr Z.lor 0 [PRESENT; WRITABLE; USER_ACCESSIBLE; WRITE_THROUGH; NO_CACHE; ACCESSED; DIRTY; HUGE_PAGE; GLOBAL; PAT].
Definition from_bits_truncate (bits : Z) : Z := Z.land bits ALL_FLAGS.
Definition contains (flags other : Z) : bool := Z.land flags other =? other.

Inductive FrameError := FrameNotPresent | HugeFrame.
Definition entry_new : Z := 0.
Definition is_unused (entry : Z) : bool := entry =? 0.
Definition set_unused (_ : Z) : Z := 0.
Definition flags (entry : Z) : Z := from_bits_truncate entry.
Definition addr (entry : Z) : Z := Z.land entry 0xfffff000.
Definition frame (entry : Z) : run (result Z FrameError) :=
  if negb (contains (flags entry) PRESENT) then Ret (Err FrameNotPresent)
  else if contains (flags entry) HUGE_PAGE then Ret (Err HugeFrame)
  else f ← frame_containing_address Size4KiB (addr entry); Ret (Ok f).
Definition set_addr (_ : Z) (a fl : Z) : run Z :=
  ok ← is_aligned a (SIZE Size4KiB);
  _ ← rust_assert ok;
  Ret (Z.lor a fl).
Definition set_frame (entry f fl : Z) : run Z :=
  _ ← rust_assert (negb (contains fl HUGE_PAGE));
  set_addr entry f fl.
Definition set_flags (entry fl : Z) : Z := Z.lor (addr entry) fl.
Definition table_new : list Z := replicate ENTRY_COUNT entry_new.
(** [PageTable::zero]. *)
Definition zero (t : list Z) : list Z := set_unused <$> t.

(** ** Lemmas *)
Lemma SIZE_pow32 s : SIZE s = 2 ^ (match s with Size4KiB => 12 | Size4MiB => 22 end).
Proof. by destruct s. Qed.
Lemma SIZE_pos s : 0 < SIZE s.
Proof. by destruct s. Qed.
Lemma align_down32_spec a s : in_width 32 a → align_down a (SIZE s) = Ret (a - a mod SIZE s).
Proof.
  intros Ha. unfold align_down. assert (is_power_of_two (SIZE s) = true) as -> by (by destruct s). cbn [rust_assert mbind run_bind].
  rewrite SIZE_pow32. rewrite land_not_mask; [done|destruct s; lia|done].
Qed.
Lemma is_aligned32_spec a s : in_width 32 a → is_aligned a (SIZE s) = Ret (a mod SIZE s =? 0).
Proof.
  intros Ha. unfold is_aligned. rewrite align_down32_spec by done. cbn [mbind run_bind]. f_equal. apply eq_true_iff_eq. rewrite !Z.eqb_eq.
  split; lia.
Qed.
Lemma containing_aligned s a : in_width 32 a → a mod SIZE s = 0 → frame_containing_address s a = Ret a.
Proof. intros Ha Hm. unfold frame_containing_address. rewrite align_down32_spec by done. by rewrite Hm, Z.sub_0_r. Qed.
Lemma frame_from_start32_spec s a : in_width 32 a → frame_from_start_address s a = Ret (if a mod SIZE s =? 0 then Ok a else Err NotAligned).
Proof.
  intros Ha. unfold frame_from_start_address. rewrite is_aligned32_spec by done. cbn [mbind run_bind].
  destruct (Z.eqb_spec (a mod SIZE s) 0) as [E|]; cbn [negb]; [|done]. rewrite containing_aligned by done. done.
Qed.
Lemma p2_index32_spec v : in_width 32 v → p2_index v = v / 2 ^ 22.
Proof.
  unfold in_width, p2_index, index_new_truncate, cast. intros Hv. rewrite Z.shiftr_div_pow2 by lia.
  assert (0 ≤ v / 2 ^ 22 < 1024) by (split; [apply Z.div_pos; lia|apply Z.div_lt_upper_bound; lia]). rewrite (Z.mod_small _ (2 ^ 16)), Z.mod_small by lia. done.
Qed.
Lemma p1_index32_spec v : in_width 32 v → p1_index v = (v / 2 ^ 12) mod 1024.
Proof.
  unfold in_width, p1_index, index_new_truncate, cast. intros Hv. rewrite Z.shiftr_div_pow2 by lia. apply Z.mod_mod_divide. by exists 64.
Qed.
Lemma page_offset32_spec v : page_offset v = v mod 4096.
Proof. unfold page_offset, offset_new_truncate, cast. apply Z.mod_mod_divide. by exists 16. Qed.

(** The bits of an entry. *)
Definition present (e : Z) : bool := Z.testbit e 0.
Definition huge (e : Z) : bool := Z.testbit e 7.
Definition entry_addr (e : Z) : Z := e - e mod 4096.
Lemma land_pow2 e k : 0 ≤ k → (Z.land e (2 ^ k) =? 2 ^ k) = Z.testbit e k.
Proof.
  intros Hk. destruct (Z.testbit e k) eqn:E; [apply Z.eqb_eq|apply Z.eqb_neq].
  - apply Z.bits_inj'. intros n Hn. rewrite Z.land_spec. destruct (decide (n = k)) as [->|]; [by rewrite E|].
    rewrite Z.pow2_bits_false by lia. apply andb_false_r.
  - intros H. assert (Z.testbit (Z.land e (2 ^ k)) k = true) as H2 by (rewrite H; by apply Z.pow2_bits_true). by rewrite Z.land_spec, E in H2.
Qed.
Lemma flags_present e : contains (flags e) PRESENT = present e.
Proof. unfold contains, flags, from_bits_truncate. rewrite <- Z.land_assoc. exact (land_pow2 e 0 ltac:(lia)). Qed.
Lemma flags_huge e : contains (flags e) HUGE_PAGE = huge e.
Proof. unfold contains, flags, from_bits_truncate. rewrite <- Z.land_assoc. exact (land_pow2 e 7 ltac:(lia)). Qed.
Lemma addr32_spec e : in_width 32 e → addr e = entry_addr e.
Proof. intros He. unfold addr. change 0xfffff000 with (unot 32 (2 ^ 12 - 1)). rewrite land_not_mask; [done|lia|done]. Qed.
Lemma entry_addr_aligned e : entry_addr e mod 4096 = 0.
Proof. unfold entry_addr. rewrite (Z.div_mod e 4096) at 1 by lia. replace (4096 * (e / 4096) + e mod 4096 - e mod 4096) with ((e / 4096) * 4096) by lia. apply Z_mod_mult. Qed.
Lemma entry_addr_width e : in_width 32 e → in_width 32 (entry_addr e).
Proof. unfold in_width, entry_addr. intros He. pose proof (Z.mod_pos_bound e 4096). pose proof (Z.mod_le e 4096). lia. Qed.
Lemma frame32_spec e :
  in_width 32 e → frame e = Ret (if negb (present e) then Err FrameNotPresent else if huge e then Err HugeFrame else Ok (entry_addr e)).
Proof.
  intros He. unfold frame. rewrite flags_present, flags_huge. destruct (present e); cbn [negb]; [|done]. destruct (huge e); [done|].
  rewrite addr32_spec by done. rewrite containing_aligned; [done|by apply entry_addr_width|apply entry_addr_aligned].
Qed.
(** An entry made of an aligned address and flags. *)
Lemma entry_parts a fl :
  in_width 32 a → a mod 4096 = 0 → 0 ≤ fl < 4096 →
  Z.lor a fl = a + fl ∧ in_width 32 (a + fl) ∧ entry_addr (a + fl) = a ∧ (a + fl) mod 4096 = fl
  ∧ present (a + fl) = Z.testbit fl 0 ∧ huge (a + fl) = Z.testbit fl 7.
Proof.
  intros Ha Hm Hf. assert (Z.lor a fl = a + fl) as E by (apply (lor_disjoint _ _ 12); [lia|exact Hm|unfold in_width; lia]).
  assert ((a + fl) mod 4096 = fl) as E2 by (rewrite <- Z.add_mod_idemp_l, Hm, Z.add_0_l, Z.mod_small by lia; done).
  assert (∀ k, 0 ≤ k < 12 → Z.testbit (a + fl) k = Z.testbit fl k) as Hb.
  { intros k Hk. rewrite <- (Z.mod_pow2_bits_low (a + fl) 12 k) by lia. change (2 ^ 12) with 4096. by rewrite E2. }
  split; [done|]. split; [|split; [unfold entry_addr; lia|split; [done|split; [apply Hb; lia|apply Hb; lia]]]].
  unfold in_width in *. pose proof (Z.div_mod a 4096 ltac:(lia)). pose proof (Z.div_lt_upper_bound a 4096 (2 ^ 20) ltac:(lia) ltac:(lia)). lia.
Qed.
Lemma set_addr32_spec e a fl : in_width 32 a → a mod 4096 = 0 → set_addr e a fl = Ret (Z.lor a fl).
Proof. intros Ha Hm. unfold set_addr. rewrite (is_aligned32_spec a Size4KiB) by done. cbn [SIZE mbind run_bind]. by rewrite Hm. Qed.

(** The last page of the address space cannot be the end of an inclusive range: the step
    behind it overflows. *)
Lemma inclusive_last_page s : page_range_inclusive_next s (mkRange (2 ^ 32 - SIZE s) (2 ^ 32 - SIZE s)) = Panic Overflow.
Proof. by destruct s. Qed.
End Paging32.
