(* ===== verification/Mapper32.v ===== *)
(** * crates/x86/src/structures/paging/mapper: the page table mapper of 32-bit paging

    [MappedPageTable] and [OffsetPageTable] of the bootloader's crate: a level 2 table whose
    entries map 4 MiB pages or lead to level 1 tables.  The tables live in a store as in
    [Mapper].  The reference is the walk of the processor ([walk]). *)
From S2P Require Import Prelude Addr Paging MemoryMap FrameAlloc Msr Mapper Paging32.
Import Paging32.

Module Mapper32.
Abbreviation tables := (gmap Z (list Z)).
Import Mapper(read_entry, write_entry, entry_at, upd).

Inductive PageTableWalkError := WalkNotMapped | WalkMappedToHugePage.
Inductive PageTableCreateError := CreateMappedToHugePage | CreateFrameAllocationFailed.
Inductive MapToError := FrameAllocationFailed | ParentEntryHugePage | PageAlreadyMapped (f : Z).
Inductive UnmapError := UnmapParentEntryHugePage | UnmapPageNotMapped | UnmapInvalidFrameAddress (a : Z).
Inductive FlagUpdateError := FlagPageNotMapped | FlagParentEntryHugePage.
Inductive TranslateError := TrPageNotMapped | TrParentEntryHugePage | TrInvalidFrameAddress (a : Z).
Inductive MappedFrame := Frame (s : PageSize) (f : Z).
Inductive TranslateResult :=
  | Mapped (f : MappedFrame) (offset fl : Z)
  | NotMapped
  | InvalidFrameAddress (a : Z).
Definition mapped_start_address (m : MappedFrame) : Z := match m with Frame _ f => f end.
Definition mapped_size (m : MappedFrame) : Z := match m with Frame s _ => SIZE s end.

Definition create_to_map (e : PageTableCreateError) : MapToError :=
  match e with
  | CreateMappedToHugePage => ParentEntryHugePage
  | CreateFrameAllocationFailed => FrameAllocationFailed
  end.
Definition frame_to_walk (e : FrameError) : PageTableWalkError :=
  match e with HugeFrame => WalkMappedToHugePage | FrameNotPresent => WalkNotMapped end.
Definition walk_to_unmap (e : PageTableWalkError) : UnmapError :=
  match e with WalkMappedToHugePage => UnmapParentEntryHugePage | WalkNotMapped => UnmapPageNotMapped end.
Definition walk_to_flag (e : PageTableWalkError) : FlagUpdateError :=
  match e with WalkMappedToHugePage => FlagParentEntryHugePage | WalkNotMapped => FlagPageNotMapped end.
Definition walk_to_translate (e : PageTableWalkError) : TranslateError :=
  match e with WalkMappedToHugePage => TrParentEntryHugePage | WalkNotMapped => TrPageNotMapped end.

Section mapper.
Context `{!PageTableFrameMapping}.

(** ** [PageTableWalker] *)
Definition next_table (entry : Z) : run (result Z PageTableWalkError) :=
  r ← frame entry;
  match r with
  | Ok f => p ← frame_to_pointer f; Ret (Ok p)
  | Err e => Ret (Err (frame_to_walk e))
  end.
Section create.
Context {A : Type} `{!FrameAllocator A}.
Definition create_next_table (t : tables) (a : A) (ptr i insert_flags : Z) : run (tables * A * result Z PageTableCreateError) :=
  entry ← read_entry t ptr i;
  if is_unused entry then
    '(o, a') ← allocate_frame a;
    match o with
    | Some f =>
        entry' ← set_frame entry f insert_flags;
        t1 ← write_entry t ptr i entry';
        n ← next_table entry';
        match n with
        | Err WalkMappedToHugePage => Ret (t1, a', Err CreateMappedToHugePage)
        | Err WalkNotMapped => Panic Explicit
        | Ok p => Ret (<[p := table_new]> t1, a', Ok p)   (* created: [page_table.zero()] *)
        end
    | None => Ret (t, a', Err CreateFrameAllocationFailed)
    end
  else
    '(entry', t1) ←
      (if negb (insert_flags =? 0) && negb (contains (flags entry) insert_flags) then
         let e := set_flags entry (Z.lor (flags entry) insert_flags) in
         t1 ← write_entry t ptr i e; Ret (e, t1)
       else Ret (entry, t));
    n ← next_table entry';
    match n with
    | Err WalkMappedToHugePage => Ret (t1, a, Err CreateMappedToHugePage)
    | Err WalkNotMapped => Panic Explicit
    | Ok p => Ret (t1, a, Ok p)
    end.

(** ** [Mapper<Size4MiB>] and [Mapper<Size4KiB>] *)
Definition map_to_4mib (t : tables) (a : A) (p2 page f fl parent : Z) : run (tables * A * result Z MapToError) :=
  entry ← read_entry t p2 (p2_index page);
  if negb (is_unused entry) then Ret (t, a, Err (PageAlreadyMapped f))
  else
    e ← set_addr entry f (Z.lor fl HUGE_PAGE);
    t1 ← write_entry t p2 (p2_index page) e; Ret (t1, a, Ok page).
Definition map_to_4kib (t : tables) (a : A) (p2 page f fl parent : Z) : run (tables * A * result Z MapToError) :=
  '(t1, a1, r) ← create_next_table t a p2 (p2_index page) parent;
  match r with
  | Err e => Ret (t1, a1, Err (create_to_map e))
  | Ok p1 =>
      entry ← read_entry t1 p1 (p1_index page);
      if negb (is_unused entry) then Ret (t1, a1, Err (PageAlreadyMapped f))
      else e ← set_frame entry f fl; t2 ← write_entry t1 p1 (p1_index page) e; Ret (t2, a1, Ok page)
  end.
Definition map_to_with_table_flags (s : PageSize) := match s with Size4KiB => map_to_4kib | Size4MiB => map_to_4mib end.
Definition map_to (s : PageSize) (t : tables) (a : A) (p2 page f fl : Z) :=
  let parent := Z.land fl (Z.lor (Z.lor PRESENT WRITABLE) USER_ACCESSIBLE) in
  map_to_with_table_flags s t a p2 page f fl parent.
Definition identity_map (s : PageSize) (t : tables) (a : A) (p2 f fl : Z) : run (tables * A * result Z MapToError) :=
  page ← page_containing_address s f; map_to s t a p2 page f fl.
End create.

Definition unmap_4mib (t : tables) (p2 page : Z) : run (tables * result (Z * Z) UnmapError) :=
  entry ← read_entry t p2 (p2_index page);
  if negb (contains (flags entry) PRESENT) then Ret (t, Err UnmapPageNotMapped)
  else if negb (contains (flags entry) HUGE_PAGE) then Ret (t, Err UnmapParentEntryHugePage)
  else
    fr ← frame_from_start_address Size4MiB (addr entry);
    match fr with
    | Err _ => Ret (t, Err (UnmapInvalidFrameAddress (addr entry)))
    | Ok f => t1 ← write_entry t p2 (p2_index page) (set_unused entry); Ret (t1, Ok (f, page))
    end.
Definition unmap_4kib (t : tables) (p2 page : Z) : run (tables * result (Z * Z) UnmapError) :=
  e2 ← read_entry t p2 (p2_index page);
  n ← next_table e2;
  match n with
  | Err e => Ret (t, Err (walk_to_unmap e))
  | Ok p1 =>
      entry ← read_entry t p1 (p1_index page);
      fr ← frame entry;
      match fr with
      | Err FrameNotPresent => Ret (t, Err UnmapPageNotMapped)
      | Err HugeFrame => Ret (t, Err UnmapParentEntryHugePage)
      | Ok f => t1 ← write_entry t p1 (p1_index page) (set_unused entry); Ret (t1, Ok (f, page))
      end
  end.
Definition unmap (s : PageSize) := match s with Size4KiB => unmap_4kib | Size4MiB => unmap_4mib end.

Definition update_flags_4mib (t : tables) (p2 page fl : Z) : run (tables * result Z FlagUpdateError) :=
  entry ← read_entry t p2 (p2_index page);
  if is_unused entry then Ret (t, Err FlagPageNotMapped)
  else t1 ← write_entry t p2 (p2_index page) (set_flags entry (Z.lor fl HUGE_PAGE)); Ret (t1, Ok page).
Definition update_flags_4kib (t : tables) (p2 page fl : Z) : run (tables * result Z FlagUpdateError) :=
  e2 ← read_entry t p2 (p2_index page);
  n ← next_table e2;
  match n with
  | Err e => Ret (t, Err (walk_to_flag e))
  | Ok p1 =>
      entry ← read_entry t p1 (p1_index page);
      if is_unused entry then Ret (t, Err FlagPageNotMapped)
      else t1 ← write_entry t p1 (p1_index page) (set_flags entry fl); Ret (t1, Ok page)
  end.
Definition update_flags (s : PageSize) := match s with Size4KiB => update_flags_4kib | Size4MiB => update_flags_4mib end.
Definition set_flags_p2_entry (s : PageSize) (t : tables) (p2 page fl : Z) : run (tables * result unit FlagUpdateError) :=
  entry ← read_entry t p2 (p2_index page);
  if is_unused entry then Ret (t, Err FlagPageNotMapped)
  else
    let fl := match s with Size4MiB => Z.lor fl HUGE_PAGE | Size4KiB => fl end in
    t1 ← write_entry t p2 (p2_index page) (set_flags entry fl); Ret (t1, Ok tt).

Definition frame_or_invalid (s : PageSize) (entry : Z) : run (result Z TranslateError) :=
  if is_unused entry then Ret (Err TrPageNotMapped)
  else fr ← frame_from_start_address s (addr entry);
       Ret (match fr with Ok f => Ok f | Err _ => Err (TrInvalidFrameAddress (addr entry)) end).
Definition translate_page (s : PageSize) (t : tables) (p2 page : Z) : run (result Z TranslateError) :=
  e2 ← read_entry t p2 (p2_index page);
  match s with
  | Size4MiB => frame_or_invalid Size4MiB e2
  | Size4KiB =>
      n ← next_table e2;
      match n with
      | Err e => Ret (Err (walk_to_translate e))
      | Ok p1 => entry ← read_entry t p1 (p1_index page); frame_or_invalid Size4KiB entry
      end
  end.

(** ** [Translate] *)
Definition translate (t : tables) (p2 v : Z) : run TranslateResult :=
  e2 ← read_entry t p2 (p2_index v);
  n ← next_table e2;
  match n with
  | Err WalkNotMapped => Ret NotMapped
  | Err WalkMappedToHugePage =>
      f ← frame_containing_address Size4MiB (addr e2);
      Ret (Mapped (Frame Size4MiB f) (Z.land v 0x1fffff) (flags e2))
  | Ok p1 =>
      e1 ← read_entry t p1 (p1_index v);
      if is_unused e1 then Ret NotMapped
      else
        fr ← frame_from_start_address Size4KiB (addr e1);
        match fr with
        | Err _ => Ret (InvalidFrameAddress (addr e1))
        | Ok f => Ret (Mapped (Frame Size4KiB f) (page_offset v) (flags e1))
        end
  end.
Definition translate_addr (t : tables) (p2 v : Z) : run (option Z) :=
  r ← translate t p2 v;
  match r with
  | Mapped f offset _ => a ← addr_add (mapped_start_address f) offset; Ret (Some a)
  | _ => Ret None
  end.
End mapper.

(** ** [OffsetPageTable] *)
Definition offset_frame_to_pointer (offset f : Z) : run Z := addr_add offset f.
#[local] Program Instance offset_mapping (offset : Z) : PageTableFrameMapping := {|
  frame_to_pointer := offset_frame_to_pointer offset;
  covered f := 0 ≤ f ∧ offset + f < 2 ^ 32;
  pointer_of f := offset + f
|}.
Next Obligation. intros offset f [H0 Hf]. unfold offset_frame_to_pointer, addr_add. by apply uadd_Ret. Qed.
Next Obligation. intros offset f g _ _ H. cbn in H. lia. Qed.

(** ** The walk of the processor *)
Section walk.
Context `{!PageTableFrameMapping}.
Definition target (e : Z) : Z := pointer_of (entry_addr e).
Definition root_index (v : Z) : Z := v / 2 ^ 22.
Definition leaf_index (v : Z) : Z := (v / 2 ^ 12) mod 1024.
(** The physical address and the flags of the entry that maps it. *)
Definition walk (t : tables) (p2 v : Z) : option (Z * Z) :=
  match entry_at t p2 (root_index v) with
  | Some pde =>
      if negb (present pde) then None
      else if huge pde then Some (pde / 2 ^ 22 * 2 ^ 22 + v mod 2 ^ 22, pde mod 4096)
      else match entry_at t (target pde) (leaf_index v) with
           | Some pte => if present pte then Some (entry_addr pte + v mod 4096, pte mod 4096) else None
           | None => None
           end
  | None => None
  end.
(** The tables are well formed: entries are zero or present, level 1 has no huge
    entries, and every level 1 table has one entry that leads to it. *)
Record two_level (t : tables) (p2 : Z) : Prop := {
  tl_root : is_Some (t !! p2);
  tl_shape ptr es : t !! ptr = Some es → length es = ENTRY_COUNT ∧ Forall (in_width 32) es;
  tl_entry ptr i e : entry_at t ptr i = Some e → e = 0 ∨ present e = true;
  tl_leaf ptr i e : entry_at t ptr i = Some e → ptr ≠ p2 → huge e = false;
  tl_child i e : 0 ≤ i → entry_at t p2 i = Some e → present e = true → huge e = false →
    covered (entry_addr e) ∧ is_Some (t !! target e) ∧ target e ≠ p2;
  tl_tree i j e e' : 0 ≤ i → 0 ≤ j → entry_at t p2 i = Some e → entry_at t p2 j = Some e' →
    present e = true → huge e = false → present e' = true → huge e' = false → target e = target e' → i = j
}.

(** *** Entries *)
Lemma entry_at_ok t p2 ptr i :
  two_level t p2 → is_Some (t !! ptr) → 0 ≤ i < 1024 → ∃ e, entry_at t ptr i = Some e ∧ read_entry t ptr i = Ret e ∧ in_width 32 e.
Proof.
  intros Ht [es Hes] Hi. destruct (tl_shape _ _ Ht _ _ Hes) as [Hl Hw]. unfold ENTRY_COUNT in Hl. unfold entry_at, read_entry. rewrite Hes. cbn.
  destruct (lookup_lt_is_Some_2 es (Z.to_nat i)) as [e He]; [lia|]. exists e. split; [done|]. split; [by apply index_Ret|].
  by apply (Forall_lookup_1 _ _ _ _ Hw He).
Qed.
Lemma write_entry_ok t p2 ptr i e : two_level t p2 → is_Some (t !! ptr) → 0 ≤ i < 1024 → write_entry t ptr i e = Ret (upd t ptr i e).
Proof.
  intros Ht [es Hes] Hi. destruct (tl_shape _ _ Ht _ _ Hes) as [Hl _]. unfold ENTRY_COUNT in Hl. unfold write_entry, upd. rewrite Hes.
  rewrite store_Ret by lia. cbn [mbind run_bind]. f_equal. apply map_eq. intros q.
  destruct (decide (q = ptr)) as [->|]; [by rewrite lookup_insert_eq, lookup_alter_eq, Hes|]. by rewrite lookup_insert_ne, lookup_alter_ne by congruence.
Qed.
Lemma entry_at_upd32 t p2 ptr i e q j :
  two_level t p2 → is_Some (t !! ptr) → 0 ≤ i < 1024 → 0 ≤ j →
  entry_at (upd t ptr i e) q j = if decide (q = ptr ∧ j = i) then Some e else entry_at t q j.
Proof.
  intros Ht [es Hes] Hi Hj. destruct (tl_shape _ _ Ht _ _ Hes) as [Hl _]. unfold ENTRY_COUNT in Hl. unfold entry_at, upd.
  destruct (decide (q = ptr)) as [->|Hne].
  - rewrite lookup_alter_eq, Hes. cbn. destruct (decide (j = i)) as [->|Hji].
    + rewrite decide_True by done. apply list_lookup_insert_eq. lia.
    + rewrite decide_False by tauto. apply list_lookup_insert_ne. lia.
  - rewrite decide_False by tauto. by rewrite lookup_alter_ne by congruence.
Qed.
Lemma zero_entry32 : present 0 = false ∧ huge 0 = false.
Proof. done. Qed.
Lemma next_table32_spec e :
  in_width 32 e →
  next_table e = if negb (present e) then Ret (Err WalkNotMapped)
                 else if huge e then Ret (Err WalkMappedToHugePage)
                 else p ← frame_to_pointer (entry_addr e); Ret (Ok p).
Proof. intros He. unfold next_table. rewrite frame32_spec by done. cbn [mbind run_bind]. destruct (present e); [|done]. by destruct (huge e). Qed.
Lemma next_table_child32 t p2 i e :
  two_level t p2 → 0 ≤ i → entry_at t p2 i = Some e → in_width 32 e → present e = true → huge e = false → next_table e = Ret (Ok (target e)).
Proof.
  intros Ht Hi He Hw Hp Hh. destruct (tl_child _ _ Ht _ _ Hi He Hp Hh) as (Hc & _). rewrite next_table32_spec, Hp, Hh by done. cbn [negb].
  by rewrite frame_to_pointer_covered.
Qed.
(** A write that leads to no new table keeps the shape. *)
Lemma upd_two_level t p2 ptr i e' :
  two_level t p2 → is_Some (t !! ptr) → 0 ≤ i < 1024 → in_width 32 e' → (e' = 0 ∨ present e' = true) → (ptr ≠ p2 → huge e' = false) →
  (ptr = p2 → present e' = true → huge e' = false →
     ∃ e, entry_at t p2 i = Some e ∧ present e = true ∧ huge e = false ∧ entry_addr e' = entry_addr e) →
  two_level (upd t ptr i e') p2.
Proof.
  intros Ht Hptr Hi Hw Hz Hh Hsame. assert (∀ q, is_Some (upd t ptr i e' !! q) ↔ is_Some (t !! q)) as Hsome by (intros; apply Mapper.upd_is_Some).
  assert (∀ j e, 0 ≤ j → entry_at (upd t ptr i e') p2 j = Some e → present e = true → huge e = false →
    ∃ e0, entry_at t p2 j = Some e0 ∧ present e0 = true ∧ huge e0 = false ∧ entry_addr e = entry_addr e0) as Hold.
  { intros j e Hj He Hp Hhe. rewrite (entry_at_upd32 _ p2) in He by done. case_decide as Hd; [|by exists e]. destruct Hd as [<- ->]. injection He as <-. by apply Hsame. }
  assert (∀ q j e, entry_at (upd t ptr i e') q j = Some e → (q = ptr ∧ e = e') ∨ entry_at t q j = Some e) as Hcase.
  { intros q j e He. unfold entry_at, upd in *. destruct (decide (q = ptr)) as [->|]; [|right; by rewrite lookup_alter_ne in He by congruence].
    rewrite lookup_alter_eq in He. destruct Hptr as [es Hes]. rewrite Hes in *. cbn in *. destruct (decide (Z.to_nat j = Z.to_nat i)) as [E|]; [|right; by rewrite list_lookup_insert_ne in He].
    left. split; [done|]. rewrite E in He. apply list_lookup_insert_Some in He as [(_ & -> & _)|(Hx & _)]; done. }
  constructor.
  - apply Hsome, Ht.
  - intros q es Hq. unfold upd in Hq. destruct (decide (q = ptr)) as [->|]; [|rewrite lookup_alter_ne in Hq by congruence; by apply (tl_shape _ _ Ht q)].
    rewrite lookup_alter_eq in Hq. destruct (t !! ptr) as [es0|] eqn:E0; [|done]. injection Hq as <-. destruct (tl_shape _ _ Ht _ _ E0) as [Hl Hf].
    split; [by rewrite length_insert|by apply Forall_insert].
  - intros q j e He. destruct (Hcase _ _ _ He) as [[-> ->]|Hx]; [done|by apply (tl_entry _ _ Ht q j)].
  - intros q j e He Hq. destruct (Hcase _ _ _ He) as [[-> ->]|Hx]; [by apply Hh|by apply (tl_leaf _ _ Ht q j)].
  - intros j e Hj He Hp Hhe. destruct (Hold j e Hj He Hp Hhe) as (e0 & He0 & Hp0 & Hh0 & Ea). unfold target. rewrite Ea, Hsome.
    exact (tl_child _ _ Ht j e0 Hj He0 Hp0 Hh0).
  - intros j k e1 e2 Hj Hk He1 He2 Hp1 Hh1 Hp2 Hh2 Etgt. destruct (Hold j e1 Hj He1 Hp1 Hh1) as (a1 & Ha1 & Hap1 & Hah1 & Ea1).
    destruct (Hold k e2 Hk He2 Hp2 Hh2) as (a2 & Ha2 & Hap2 & Hah2 & Ea2). apply (tl_tree _ _ Ht j k a1 a2); try done. unfold target in *. by rewrite <- Ea1, <- Ea2.
Qed.

(** *** What a write changes *)
Lemma root_index_bound v : in_width 32 v → 0 ≤ root_index v < 1024.
Proof. unfold in_width, root_index. intros Hv. split; [apply Z.div_pos; lia|apply Z.div_lt_upper_bound; lia]. Qed.
Lemma leaf_index_bound v : 0 ≤ leaf_index v < 1024.
Proof. apply Z.mod_pos_bound. lia. Qed.
Definition in_page (s : PageSize) (page v : Z) : Prop := page ≤ v < page + SIZE s.
Lemma in_page_4mib page v : page mod SIZE Size4MiB = 0 → in_page Size4MiB page v ↔ root_index v = root_index page.
Proof.
  unfold in_page, root_index. cbn [SIZE]. change (4096 * 1024) with (2 ^ 22). intros Hp. pose proof (Z.div_mod page (2 ^ 22) ltac:(lia)). pose proof (Z.div_mod v (2 ^ 22) ltac:(lia)).
  pose proof (Z.mod_pos_bound v (2 ^ 22) ltac:(lia)). split; [|lia]. intros [Ha Hb]. symmetry. apply (Z.div_unique _ _ _ (v - page)); lia.
Qed.
Lemma in_page_4kib page v :
  page mod SIZE Size4KiB = 0 → in_page Size4KiB page v ↔ root_index v = root_index page ∧ leaf_index v = leaf_index page.
Proof.
  unfold in_page, root_index, leaf_index. cbn [SIZE]. intros Hp. change (2 ^ 12) with 4096. change (2 ^ 22) with (4096 * 1024).
  rewrite <- !Z.div_div by lia. pose proof (Z.div_mod page 4096 ltac:(lia)). pose proof (Z.div_mod v 4096 ltac:(lia)).
  pose proof (Z.mod_pos_bound v 4096 ltac:(lia)). pose proof (Z.div_mod (v / 4096) 1024 ltac:(lia)). pose proof (Z.div_mod (page / 4096) 1024 ltac:(lia)). split.
  - intros [Ha Hb]. assert (page / 4096 = v / 4096) as -> by (apply (Z.div_unique _ _ _ (v - page)); lia). done.
  - intros [Ha Hb]. lia.
Qed.
(** The translation of an address whose entry in the root changes. *)
Definition walk_root (t : tables) (e v : Z) : option (Z * Z) :=
  if negb (present e) then None
  else if huge e then Some (e / 2 ^ 22 * 2 ^ 22 + v mod 2 ^ 22, e mod 4096)
  else match entry_at t (target e) (leaf_index v) with
       | Some pte => if present pte then Some (entry_addr pte + v mod 4096, pte mod 4096) else None
       | None => None
       end.
Lemma walk_at t p2 v e : entry_at t p2 (root_index v) = Some e → walk t p2 v = walk_root t e v.
Proof. unfold walk, walk_root. by intros ->. Qed.
Lemma walk_upd_root t p2 i e' v :
  two_level t p2 → 0 ≤ i < 1024 → in_width 32 v → (present e' = true → huge e' = false → target e' ≠ p2) →
  walk (upd t p2 i e') p2 v = if decide (root_index v = i) then walk_root t e' v else walk t p2 v.
Proof.
  intros Ht Hi Hv Htg. pose proof (root_index_bound v Hv) as Hr. pose proof (leaf_index_bound v) as Hlf. pose proof (tl_root _ _ Ht) as Hroot.
  assert (entry_at (upd t p2 i e') p2 (root_index v) = if decide (root_index v = i) then Some e' else entry_at t p2 (root_index v)) as E.
  { rewrite (entry_at_upd32 t p2) by (done || lia). by destruct (decide (root_index v = i)); [rewrite decide_True|rewrite decide_False by tauto]. }
  assert (∀ e, (present e = true → huge e = false → target e ≠ p2) → walk_root (upd t p2 i e') e v = walk_root t e v) as Hsame.
  { intros e Hne. unfold walk_root. destruct (present e); cbn [negb]; [|done]. destruct (huge e); [done|]. rewrite (entry_at_upd32 t p2) by (done || lia).
    rewrite decide_False; [done|]. intros [Ht' _]. by apply Hne. }
  destruct (decide (root_index v = i)) as [Hri|Hri].
  - rewrite (walk_at _ _ _ _ E). by apply Hsame.
  - destruct (entry_at_ok t p2 p2 (root_index v) Ht Hroot Hr) as (e & He & _ & Hw). rewrite He in E. rewrite (walk_at _ _ _ _ E), (walk_at _ _ _ _ He).
    apply Hsame. intros Hp Hh. by destruct (tl_child _ _ Ht _ _ (proj1 Hr) He Hp Hh) as (_ & _ & Hne).
Qed.
Lemma walk_upd_leaf t p2 i pde j e' v :
  two_level t p2 → 0 ≤ i < 1024 → 0 ≤ j < 1024 → in_width 32 v → entry_at t p2 i = Some pde → present pde = true → huge pde = false →
  walk (upd t (target pde) j e') p2 v
  = if decide (root_index v = i ∧ leaf_index v = j) then (if present e' then Some (entry_addr e' + v mod 4096, e' mod 4096) else None) else walk t p2 v.
Proof.
  intros Ht Hi Hj Hv Hpde Hp Hh. pose proof (root_index_bound v Hv) as Hr. pose proof (leaf_index_bound v) as Hlf. pose proof (tl_root _ _ Ht) as Hroot.
  destruct (tl_child _ _ Ht _ _ (proj1 Hi) Hpde Hp Hh) as (_ & Hin & Hne). destruct (entry_at_ok t p2 p2 (root_index v) Ht Hroot Hr) as (e & He & _ & Hw).
  assert (entry_at (upd t (target pde) j e') p2 (root_index v) = Some e) as E by (rewrite (entry_at_upd32 t p2) by (done || lia); rewrite decide_False by (intros [E _]; by apply Hne); done).
  rewrite (walk_at _ _ _ _ E), (walk_at _ _ _ _ He). unfold walk_root. destruct (decide (root_index v = i)) as [Hri|Hri].
  - rewrite Hri in He. rewrite Hpde in He. injection He as <-. rewrite Hp, Hh. cbn [negb]. rewrite (entry_at_upd32 t p2) by (done || lia).
    destruct (decide (leaf_index v = j)); [by rewrite !decide_True by done|]. by rewrite !decide_False by tauto.
  - rewrite decide_False by tauto. destruct (present e) eqn:Hpe; cbn [negb]; [|done]. destruct (huge e) eqn:Hhe; [done|].
    rewrite (entry_at_upd32 t p2) by (done || lia). rewrite decide_False; [done|]. intros [Etg _]. apply Hri. by apply (tl_tree _ _ Ht _ _ e pde); try done; lia.
Qed.

(** *** Flags *)
(** Flags for a mapping: present, and none of the bits that are part of the address
    ([PAT] is) or that mark a 4 MiB page. *)
Definition table_flags (fl : Z) : Prop := 0 ≤ fl < 4096 ∧ Z.testbit fl 0 = true ∧ Z.testbit fl 7 = false.
#[global] Instance table_flags_dec fl : Decision (table_flags fl).
Proof. unfold table_flags. apply _. Defined.
Lemma parent_flags32 fl : table_flags fl → table_flags (Z.land fl (Z.lor (Z.lor PRESENT WRITABLE) USER_ACCESSIBLE)).
Proof.
  intros (Hb & Hp & _). change (Z.lor (Z.lor PRESENT WRITABLE) USER_ACCESSIBLE) with (2 ^ 3 - 1). rewrite land_mask by lia.
  pose proof (Z.mod_pos_bound fl (2 ^ 3) ltac:(lia)). split; [lia|]. split; [by rewrite Z.mod_pow2_bits_low by lia|]. by apply Z.mod_pow2_bits_high; lia.
Qed.
(** Adding the 4 MiB flag to flags without it. *)
Lemma lor_huge fl : Z.testbit fl 7 = false → Z.lor fl HUGE_PAGE = fl + 128.
Proof.
  intros Hh. assert (Z.land fl HUGE_PAGE = 0) as Hd; [|by rewrite <- Z.lxor_lor, <- Z.add_nocarry_lxor by done].
  apply Z.bits_inj'. intros n Hn. rewrite Z.land_spec, Z.bits_0. change HUGE_PAGE with (2 ^ 7).
  destruct (decide (n = 7)) as [->|]; [by rewrite Hh|]. rewrite (Z.pow2_bits_false 7 n) by lia. apply andb_false_r.
Qed.
Lemma huge_flags fl : 0 ≤ fl < 4096 → Z.testbit fl 7 = false → 0 ≤ fl + 128 < 4096 ∧ Z.testbit (fl + 128) 7 = true ∧ Z.testbit (fl + 128) 0 = Z.testbit fl 0.
Proof.
  intros Hb Hh. rewrite <- lor_huge by done. rewrite !Z.lor_spec.
  pose proof (Msr.lor_width 12 fl HUGE_PAGE ltac:(lia) ltac:(unfold in_width; lia) ltac:(by vm_compute)) as Hx. unfold in_width in Hx.
  split; [lia|]. change (Z.testbit HUGE_PAGE 7) with true. change (Z.testbit HUGE_PAGE 0) with false. by rewrite orb_true_r, orb_false_r.
Qed.
Lemma widen e fl :
  in_width 32 e → table_flags fl →
  let e' := set_flags e (Z.lor (flags e) fl) in
  in_width 32 e' ∧ entry_addr e' = entry_addr e ∧ present e' = true ∧ huge e' = huge e.
Proof.
  intros He (Hb & Hp & Hh) e'. assert (in_width 32 e') as Hw.
  { apply Msr.lor_width; [lia|by apply Msr.land_width|]. apply Msr.lor_width; [lia|by apply Msr.land_width|unfold in_width; lia]. }
  split; [done|]. split; [|split].
  - rewrite <- !addr32_spec by done. unfold e', addr, set_flags, addr, flags, from_bits_truncate. rewrite !Z.land_lor_distr_l, <- !Z.land_assoc.
    assert (Z.land fl 0xfffff000 = 0) as ->.
    { apply Z.bits_inj'. intros n Hn. rewrite Z.land_spec, Z.bits_0. destruct (decide (n < 12)) as [Hlt|]; [|by rewrite (testbit_above 12 fl) by (unfold in_width; lia)].
      change 0xfffff000 with (0xfffff * 2 ^ 12). rewrite Z.mul_pow2_bits_low by lia. apply andb_false_r. }
    rewrite Z.lor_0_r, <- Z.land_lor_distr_r. done.
  - unfold present, e', set_flags. rewrite !Z.lor_spec, Hp. by rewrite !orb_true_r.
  - unfold huge, e', set_flags, addr, flags, from_bits_truncate. rewrite !Z.lor_spec, !Z.land_spec, Hh, orb_false_r. change (Z.testbit 0xfffff000 7) with false.
    change (Z.testbit ALL_FLAGS 7) with true. by rewrite andb_false_r, andb_true_r.
Qed.
Lemma div_entry_addr e : entry_addr e / 2 ^ 22 = e / 2 ^ 22.
Proof.
  unfold entry_addr. change (2 ^ 22) with (4096 * 1024). rewrite <- !Z.div_div by lia. f_equal.
  pose proof (Z.div_mod e 4096 ltac:(lia)). rewrite <- (Z.div_unique (e - e mod 4096) 4096 (e / 4096) 0); lia.
Qed.

(** *** [create_next_table] *)
Section create_next.
Context {A : Type} `{!FrameAllocator A}.
Definition alloc_ok32 (t : tables) (a : A) : Prop :=
  allocator_inv a ∧ ∀ f, free_frame a f → covered f ∧ t !! pointer_of f = None ∧ f < 2 ^ 32.
Lemma alloc_ok32_upd t a ptr i e : alloc_ok32 t a → alloc_ok32 (upd t ptr i e) a.
Proof.
  intros [Ha Hf]. split; [done|]. intros f Hff. destruct (Hf f Hff) as (Hc & Hn & Hb). split; [done|]. split; [|done].
  apply eq_None_not_Some. rewrite Mapper.upd_is_Some. by apply eq_None_not_Some.
Qed.

(** The first level gets a new, empty table. *)
Section new_table.
Variables (t : tables) (p2 i g fl : Z).
Hypotheses (Ht : two_level t p2) (Hi : 0 ≤ i < 1024) (Hz : entry_at t p2 i = Some 0).
Hypotheses (Hcov : covered g) (Hnone : t !! pointer_of g = None) (Hg : 0 ≤ g < 2 ^ 32) (Hm : g mod 4096 = 0) (Hfl : table_flags fl).
Definition with_table : tables := <[pointer_of g := table_new]> (upd t p2 i (g + fl)).
Lemma pointer_entry :
  in_width 32 (g + fl) ∧ entry_addr (g + fl) = g ∧ present (g + fl) = true ∧ huge (g + fl) = false ∧ target (g + fl) = pointer_of g.
Proof.
  destruct Hfl as (Hb & Hp & Hh). destruct (entry_parts g fl) as (_ & Hw & Hea & _ & Hpe & Hhe); [exact Hg|done|done|].
  unfold target. rewrite Hpe, Hhe, Hea. done.
Qed.
Lemma new_not_root : pointer_of g ≠ p2.
Proof. intros E. rewrite E in Hnone. destruct (tl_root _ _ Ht) as [? Hr]. by rewrite Hr in Hnone. Qed.
Lemma entry_with_table q j :
  0 ≤ j → q ≠ pointer_of g → entry_at with_table q j = if decide (q = p2 ∧ j = i) then Some (g + fl) else entry_at t q j.
Proof.
  intros Hj Hq. rewrite <- (entry_at_upd32 t p2 p2 i) by (done || apply Ht). unfold with_table, entry_at. by rewrite lookup_insert_ne by done.
Qed.
Lemma entry_new_table j e : entry_at with_table (pointer_of g) j = Some e → e = 0.
Proof.
  unfold with_table, entry_at. rewrite lookup_insert_eq. intros Hx. change (table_new !! Z.to_nat j = Some e) in Hx.
  by apply lookup_replicate_1 in Hx as [-> _].
Qed.
Lemma with_table_some q : q ≠ pointer_of g → is_Some (with_table !! q) ↔ is_Some (t !! q).
Proof. intros Hq. unfold with_table. rewrite lookup_insert_ne by done. apply Mapper.upd_is_Some. Qed.
Lemma old_target j e : 0 ≤ j → entry_at t p2 j = Some e → present e = true → huge e = false → target e ≠ pointer_of g.
Proof. intros Hj He Hpj Hhj E. destruct (tl_child _ _ Ht j e Hj He Hpj Hhj) as (_ & [es Hes] & _). rewrite E in Hes. by rewrite Hes in Hnone. Qed.
Lemma with_table_two_level : two_level with_table p2.
Proof.
  destruct pointer_entry as (Hw & Hea & Hpe & Hhe & Htg). pose proof new_not_root as Hne.
  assert (∀ q j e, q ≠ pointer_of g → entry_at with_table q j = Some e → (q = p2 ∧ e = g + fl) ∨ entry_at t q j = Some e) as Hcase.
  { intros q j e Hq He. unfold with_table, entry_at in *. rewrite lookup_insert_ne in He by done. unfold upd in He.
    destruct (decide (q = p2)) as [->|]; [|right; by rewrite lookup_alter_ne in He by congruence]. rewrite lookup_alter_eq in He.
    destruct (t !! p2) as [es|]; [|done]. cbn in He |- *. apply list_lookup_insert_Some in He as [(_ & <- & _)|(_ & Hx)]; [by left|by right]. }
  constructor.
  - apply with_table_some, Ht. done.
  - intros q es Hq. destruct (decide (q = pointer_of g)) as [->|Hqn].
    + unfold with_table in Hq. rewrite lookup_insert_eq in Hq. injection Hq as <-. split; [by apply length_replicate|]. by apply Forall_replicate.
    + unfold with_table, upd in Hq. rewrite lookup_insert_ne in Hq by done. destruct (decide (q = p2)) as [->|]; [|rewrite lookup_alter_ne in Hq by congruence; by apply (tl_shape _ _ Ht q)].
      rewrite lookup_alter_eq in Hq. destruct (t !! p2) as [es0|] eqn:E0; [|done]. injection Hq as <-. destruct (tl_shape _ _ Ht _ _ E0) as [Hl Hf].
      split; [by rewrite length_insert|by apply Forall_insert].
  - intros q j e He. destruct (decide (q = pointer_of g)) as [->|Hqn]; [left; by eapply entry_new_table|].
    destruct (Hcase q j e Hqn He) as [[_ ->]|Hx]; [by right|by apply (tl_entry _ _ Ht q j)].
  - intros q j e He Hq. destruct (decide (q = pointer_of g)) as [->|Hqn]; [by rewrite (entry_new_table j e He)|].
    destruct (Hcase q j e Hqn He) as [[_ ->]|Hx]; [done|by apply (tl_leaf _ _ Ht q j)].
  - intros j e Hj He Hpj Hhj. rewrite entry_with_table in He by done. case_decide as Hd.
    + injection He as <-. rewrite Htg, Hea. split; [done|]. split; [|done]. unfold with_table. rewrite lookup_insert_eq. by eexists.
    + destruct (tl_child _ _ Ht j e Hj He Hpj Hhj) as (Hc & Hin & Hnr). split; [done|]. split; [|done]. apply with_table_some; [by eapply old_target|done].
  - intros j k e1 e2 Hj Hk He1 He2 Hp1 Hh1 Hp2 Hh2 E. rewrite entry_with_table in He1, He2 by done.
    destruct (decide (p2 = p2 ∧ j = i)) as [[_ Hji]|], (decide (p2 = p2 ∧ k = i)) as [[_ Hki]|].
    + lia.
    + injection He1 as <-. rewrite Htg in E. by destruct (old_target k e2 Hk He2 Hp2 Hh2).
    + injection He2 as <-. rewrite Htg in E. by destruct (old_target j e1 Hj He1 Hp1 Hh1).
    + by apply (tl_tree _ _ Ht j k e1 e2).
Qed.
Lemma walk_with_table v : in_width 32 v → walk with_table p2 v = walk t p2 v.
Proof.
  intros Hv. destruct pointer_entry as (Hw & Hea & Hpe & Hhe & Htg). pose proof new_not_root as Hne. pose proof (root_index_bound v Hv) as Hr.
  destruct (decide (root_index v = i)) as [Hri|Hri].
  - pose proof Hz as Hz'. rewrite <- Hri in Hz'. rewrite (walk_at t p2 v 0 Hz').
    rewrite (walk_at with_table p2 v (g + fl)) by (rewrite entry_with_table by (done || lia); by rewrite decide_True).
    unfold walk_root. rewrite Hpe, Hhe, Htg. cbn [negb]. destruct (entry_at with_table (pointer_of g) (leaf_index v)) as [e|] eqn:E; [|done]. by rewrite (entry_new_table _ _ E).
  - destruct (entry_at_ok t p2 p2 (root_index v) Ht (tl_root _ _ Ht) Hr) as (e & He & _ & _).
    rewrite (walk_at t p2 v e He), (walk_at with_table p2 v e) by (rewrite entry_with_table by (done || lia); by rewrite decide_False by tauto).
    unfold walk_root. destruct (present e) eqn:Hpj; cbn [negb]; [|done]. destruct (huge e) eqn:Hhj; [done|].
    rewrite entry_with_table by (apply leaf_index_bound || (by eapply old_target; [apply Hr|..])).
    destruct (tl_child _ _ Ht _ _ (proj1 Hr) He Hpj Hhj) as (_ & _ & Hnr). by rewrite decide_False by tauto.
Qed.
End new_table.

Definition create_outcome (t : tables) (p2 i : Z) (t' : tables) (r : result Z PageTableCreateError) : Prop :=
  match r with
  | Ok p => (∃ e, entry_at t' p2 i = Some e ∧ present e = true ∧ huge e = false ∧ target e = p) ∧ ∀ v, in_width 32 v → walk t' p2 v = walk t p2 v
  | Err CreateFrameAllocationFailed => t' = t ∧ entry_at t p2 i = Some 0
  | Err CreateMappedToHugePage => ∃ e, entry_at t p2 i = Some e ∧ present e = true ∧ huge e = true
  end.
Lemma walk_same_entry t p2 i e e' v :
  two_level t p2 → 0 ≤ i < 1024 → in_width 32 v → entry_at t p2 i = Some e → present e = true → present e' = true → huge e' = huge e → entry_addr e' = entry_addr e →
  fst <$> walk (upd t p2 i e') p2 v = fst <$> walk t p2 v ∧ (huge e = false → walk (upd t p2 i e') p2 v = walk t p2 v).
Proof.
  intros Ht Hi Hv He Hp Hp' Hh Ha. rewrite walk_upd_root; [|done|done|done|].
  - case_decide as Hd; [|done]. rewrite <- Hd in He. rewrite (walk_at _ _ _ _ He). unfold walk_root, target. rewrite Hp, Hp', Hh, Ha. cbn [negb].
    destruct (huge e); [|done]. split; [|done]. cbn. by rewrite <- (div_entry_addr e'), Ha, div_entry_addr.
  - intros _ Hh'. rewrite Hh in Hh'. destruct (tl_child _ _ Ht i e (proj1 Hi) He Hp Hh') as (_ & _ & Hn). unfold target in *. by rewrite Ha.
Qed.
(** An entry that is in use: its flags are widened. *)
Lemma create_used32 t p2 i fl e (a : A) :
  two_level t p2 → alloc_ok32 t a → 0 ≤ i < 1024 → table_flags fl → entry_at t p2 i = Some e → in_width 32 e → present e = true → read_entry t p2 i = Ret e →
  ∃ t' r, create_next_table t a p2 i fl = Ret (t', a, r) ∧ alloc_ok32 t' a ∧ two_level t' p2
    ∧ (∀ v, in_width 32 v → fst <$> walk t' p2 v = fst <$> walk t p2 v) ∧ create_outcome t p2 i t' r.
Proof.
  intros Ht Ha Hi Hfl He Hw Hp Hrd. unfold create_next_table. rewrite Hrd. cbn [mbind run_bind].
  assert (is_unused e = false) as -> by (apply Z.eqb_neq; intros ->; done). destruct (widen e fl Hw Hfl) as (Hw' & Ha' & Hp' & Hh').
  set (e' := set_flags e (Z.lor (flags e) fl)) in *.
  assert (∃ e1 t1, (if negb (fl =? 0) && negb (contains (flags e) fl) then t1 ← write_entry t p2 i e'; Ret (e', t1) else Ret (e, t)) = Ret (e1, t1)
    ∧ (t1 = t ∨ t1 = upd t p2 i e1) ∧ entry_at t1 p2 i = Some e1 ∧ in_width 32 e1 ∧ present e1 = true ∧ huge e1 = huge e ∧ entry_addr e1 = entry_addr e) as (e1 & t1 & E1 & Hcase & Hat & Hw1 & Hp1 & Hh1 & Ha1).
  { destruct (_ && _); [|exists e, t; split_and!; [done|by left|done..]].
    exists e', (upd t p2 i e'). rewrite (write_entry_ok t p2) by (done || apply Ht). split; [done|]. split; [by right|].
    rewrite (entry_at_upd32 t p2) by (done || lia || apply Ht). by rewrite decide_True. }
  rewrite E1. cbn [mbind run_bind]. assert (two_level t1 p2 ∧ alloc_ok32 t1 a ∧ ∀ v, in_width 32 v → fst <$> walk t1 p2 v = fst <$> walk t p2 v ∧ (huge e = false → walk t1 p2 v = walk t p2 v)) as (Ht1 & Hok1 & Hwalk).
  { destruct Hcase as [->| ->]; [done|]. split; [|split; [by apply alloc_ok32_upd|intros v Hv; by apply (walk_same_entry t p2 i e e1)]].
    apply upd_two_level; try done; [apply Ht|by right|intros _ _ Hx; exists e; rewrite <- Hh1; done]. }
  destruct (huge e) eqn:Hh.
  - exists t1, (Err CreateMappedToHugePage). rewrite next_table32_spec, Hp1, Hh1 by done. split; [done|]. split; [done|]. split; [done|].
    split; [intros v Hv; by apply Hwalk|]. by exists e.
  - exists t1, (Ok (target e1)). rewrite (next_table_child32 t1 p2 i) by (done || lia). split; [done|]. split; [done|]. split; [done|].
    split; [intros v Hv; by apply Hwalk|]. split; [by exists e1|]. intros v Hv. by apply Hwalk.
Qed.
Lemma create_cases t p2 i fl (a : A) :
  two_level t p2 → alloc_ok32 t a → 0 ≤ i < 1024 → table_flags fl →
  ∃ t' a' r, create_next_table t a p2 i fl = Ret (t', a', r) ∧ alloc_ok32 t' a' ∧ two_level t' p2
    ∧ (∀ v, in_width 32 v → fst <$> walk t' p2 v = fst <$> walk t p2 v) ∧ create_outcome t p2 i t' r.
Proof.
  intros Ht Ha Hi Hfl. destruct (entry_at_ok t p2 p2 i Ht (tl_root _ _ Ht) Hi) as (e & He & Hrd & Hw). destruct (tl_entry _ _ Ht _ _ _ He) as [->|Hp].
  2:{ destruct (create_used32 t p2 i fl e a) as (t' & r & Hx); [done..|]. by exists t', a, r. }
  unfold create_next_table. rewrite Hrd. cbn [mbind run_bind is_unused Z.eqb]. destruct Ha as [Hinv Hfree].
  destruct (allocate_frame_law a Hinv) as (o & a' & -> & Hinv' & Hsub & Ho). cbn [mbind run_bind]. destruct o as [g|].
  2:{ exists t, a', (Err CreateFrameAllocationFailed). split; [done|]. split; [|done]. split; [done|]. intros f Hf. by apply Hfree, Hsub. }
  destruct Ho as (Hg & Hg' & Hm & H0 & _). destruct (Hfree g Hg) as (Hcov & Hnone & H32). pose proof Hfl as (Hb & Hp & Hh).
  assert (0 ≤ g < 2 ^ 32) as Hgb by lia. destruct (pointer_entry g fl) as (Hwe & Hea & Hpe & Hhe & Htg); [done..|].
  destruct (entry_parts g fl) as (Hlor & _); [exact Hgb|done|done|].
  unfold set_frame. assert (contains fl HUGE_PAGE = false) as -> by (unfold contains; change HUGE_PAGE with (2 ^ 7); by rewrite land_pow2 by lia).
  cbn [negb rust_assert mbind run_bind]. rewrite set_addr32_spec by done. cbn [mbind run_bind]. rewrite Hlor, (write_entry_ok t p2) by (done || apply Ht). cbn [mbind run_bind].
  rewrite next_table32_spec, Hpe, Hhe, Hea by done. cbn [negb]. rewrite frame_to_pointer_covered by done. cbn [mbind run_bind].
  exists (with_table t p2 i g fl), a', (Ok (pointer_of g)). split; [done|].
  assert (∀ v, in_width 32 v → walk (with_table t p2 i g fl) p2 v = walk t p2 v) as Hwalk by (intros; by apply walk_with_table).
  split; [|split; [by apply with_table_two_level|split; [intros v Hv; by rewrite Hwalk|split; [|done]]]].
  - split; [done|]. intros f Hf. destruct (Hfree f (Hsub f Hf)) as (Hc & Hn & Hbf). split; [done|]. split; [|done].
    assert (pointer_of f ≠ pointer_of g) as Hfg by (intros E; apply Hg'; apply pointer_of_inj in E; [by subst|done|done]).
    apply eq_None_not_Some. rewrite with_table_some by done. by apply eq_None_not_Some.
  - exists (g + fl). split; [|done]. rewrite entry_with_table; [by rewrite decide_True|done|done|lia|]. intros E. by apply (new_not_root t p2 g Ht Hnone).
Qed.

(** *** [map_to] *)
Definition leaf_flags (s : PageSize) (fl : Z) : Z := match s with Size4KiB => fl | Size4MiB => fl + 128 end.
Definition map_outcome (s : PageSize) (t : tables) (p2 page f fl : Z) (t' : tables) (r : result Z MapToError) : Prop :=
  match r with
  | Ok p => p = page ∧ (s = Size4MiB → entry_at t' p2 (root_index page) = Some (f + leaf_flags s fl)) ∧ ∀ v, in_width 32 v →
      if decide (in_page s page v) then walk t p2 v = None ∧ walk t' p2 v = Some (f + (v - page), leaf_flags s fl)
      else walk t' p2 v = walk t p2 v
  | Err e =>
      (∀ v, in_width 32 v → fst <$> walk t' p2 v = fst <$> walk t p2 v)
      ∧ match e with
        | PageAlreadyMapped g => g = f ∧ match s with Size4KiB => is_Some (walk t p2 page) | Size4MiB => entry_at t p2 (root_index page) ≠ Some 0 end
        | ParentEntryHugePage => s = Size4KiB ∧ is_Some (walk t p2 page)
        | FrameAllocationFailed => s = Size4KiB ∧ walk t p2 page = None
        end
  end.
#[local] Instance in_page_dec s page v : Decision (in_page s page v).
Proof. unfold in_page. apply _. Defined.
Lemma page_offset_of s page v : page mod SIZE s = 0 → in_page s page v → v mod SIZE s = v - page.
Proof.
  intros Hp [Hl Hu]. pose proof (SIZE_pos s). pose proof (Z.div_mod page (SIZE s) ltac:(lia)). symmetry. apply (Z.mod_unique_pos _ _ (page / SIZE s)); lia.
Qed.
Lemma aligned_4kib s f : f mod SIZE s = 0 → f mod 4096 = 0.
Proof. intros Hf. destruct s; [done|]. cbn [SIZE] in Hf. rewrite <- (Z.mod_mod_divide f (4096 * 1024) 4096) by (by exists 1024). by rewrite Hf. Qed.
Lemma map_to_4mib_cases t p2 page f fl parent (a : A) :
  two_level t p2 → alloc_ok32 t a → in_width 32 page → page mod SIZE Size4MiB = 0 → in_width 32 f → f mod SIZE Size4MiB = 0 → table_flags fl →
  ∃ t' r, map_to_4mib t a p2 page f fl parent = Ret (t', a, r) ∧ alloc_ok32 t' a ∧ two_level t' p2 ∧ map_outcome Size4MiB t p2 page f fl t' r.
Proof.
  intros Ht Ha Hpw Hpm Hfw Hfm (Hb & Hp & Hh). unfold map_to_4mib. rewrite p2_index32_spec by done. fold (root_index page). pose proof (root_index_bound page Hpw) as Hr.
  destruct (entry_at_ok t p2 p2 (root_index page) Ht (tl_root _ _ Ht) Hr) as (e & He & Hrd & Hw). rewrite Hrd. cbn [mbind run_bind].
  destruct (Z.eqb_spec e 0) as [->|Hne].
  2:{ exists t, (Err (PageAlreadyMapped f)). unfold is_unused. rewrite (proj2 (Z.eqb_neq _ _)) by done. split_and!; try done. split; [done|]. split; [done|]. rewrite He. congruence. }
  cbn [is_unused Z.eqb negb]. pose proof (aligned_4kib _ _ Hfm) as Hfm'. rewrite set_addr32_spec by done. cbn [mbind run_bind].
  pose proof (lor_huge fl Hh) as Hl. destruct (huge_flags fl Hb Hh) as (Hlb & _). rewrite <- Hl in Hlb.
  destruct (entry_parts f (Z.lor fl HUGE_PAGE)) as (-> & Hwe & Hea & Hme & Hpe & Hhe); [done..|]. rewrite Z.lor_spec, Hp in Hpe. rewrite Z.lor_spec in Hhe.
  change (Z.testbit HUGE_PAGE 7) with true in Hhe. rewrite orb_true_r in Hhe. cbn [orb] in Hpe.
  rewrite (write_entry_ok t p2) by (done || apply Ht). cbn [mbind run_bind]. set (e' := f + Z.lor fl HUGE_PAGE) in *.
  exists (upd t p2 (root_index page) e'), (Ok page). split; [done|]. split; [by apply alloc_ok32_upd|].
  split; [apply upd_two_level; try done; [apply Ht|by right|intros _ _ Hx; by rewrite Hhe in Hx]|]. split; [done|].
  split; [intros _; rewrite (entry_at_upd32 t p2) by (done || lia || apply Ht); rewrite decide_True by done; unfold e'; by rewrite Hl|]. intros v Hv.
  rewrite walk_upd_root by (done || by rewrite Hhe). destruct (decide (in_page Size4MiB page v)) as [Hin|Hin].
  - pose proof Hin as Hri. apply in_page_4mib in Hri; [|done]. rewrite decide_True by done. rewrite <- Hri in He. split; [by rewrite (walk_at _ _ _ _ He)|].
    unfold walk_root. rewrite Hpe, Hhe, Hme, Hl. cbn [negb leaf_flags]. change (2 ^ 22) with (SIZE Size4MiB).
    rewrite (page_offset_of Size4MiB page v) by done. do 3 f_equal. change (SIZE Size4MiB) with (2 ^ 22). rewrite <- div_entry_addr, Hea.
    pose proof (Z.div_mod f (2 ^ 22) ltac:(lia)). cbn [SIZE] in Hfm. change (4096 * 1024) with (2 ^ 22) in Hfm. lia.
  - rewrite decide_False; [done|]. intros Hx. apply Hin. by apply in_page_4mib.
Qed.

(** A level 1 entry is written. *)
Lemma leaf_entry t p2 page pde :
  two_level t p2 → in_width 32 page → entry_at t p2 (root_index page) = Some pde → present pde = true → huge pde = false →
  ∃ e, entry_at t (target pde) (leaf_index page) = Some e ∧ read_entry t (target pde) (leaf_index page) = Ret e ∧ in_width 32 e
    ∧ (e = 0 ∨ present e = true) ∧ huge e = false ∧ (∀ e', write_entry t (target pde) (leaf_index page) e' = Ret (upd t (target pde) (leaf_index page) e'))
    ∧ walk t p2 page = (if present e then Some (entry_addr e + page mod 4096, e mod 4096) else None)
    ∧ ∀ e', in_width 32 e' → (e' = 0 ∨ present e' = true) → huge e' = false → two_level (upd t (target pde) (leaf_index page) e') p2.
Proof.
  intros Ht Hpw Hpde Hp Hh. pose proof (root_index_bound page Hpw) as Hr. pose proof (leaf_index_bound page) as Hl.
  destruct (tl_child _ _ Ht _ _ (proj1 Hr) Hpde Hp Hh) as (Hc & Hin & Hn). destruct (entry_at_ok t p2 (target pde) (leaf_index page) Ht Hin Hl) as (e & He & Hrd & Hw).
  exists e. split; [done|]. split; [done|]. split; [done|]. split; [by apply (tl_entry _ _ Ht _ _ _ He)|]. split; [by apply (tl_leaf _ _ Ht _ _ _ He)|].
  split; [intros e'; by apply (write_entry_ok t p2)|]. split; [rewrite (walk_at _ _ _ _ Hpde); unfold walk_root; rewrite Hp, Hh, He; done|].
  intros e' Hw' Hz Hh'. by apply upd_two_level.
Qed.
Lemma map_to_4kib_cases t p2 page f fl parent (a : A) :
  two_level t p2 → alloc_ok32 t a → in_width 32 page → page mod SIZE Size4KiB = 0 → in_width 32 f → f mod SIZE Size4KiB = 0 → table_flags fl → table_flags parent →
  ∃ t' a' r, map_to_4kib t a p2 page f fl parent = Ret (t', a', r) ∧ alloc_ok32 t' a' ∧ two_level t' p2 ∧ map_outcome Size4KiB t p2 page f fl t' r.
Proof.
  intros Ht Ha Hpw Hpm Hfw Hfm Hfl Hpar. unfold map_to_4kib. rewrite p2_index32_spec, p1_index32_spec by done. fold (root_index page) (leaf_index page).
  pose proof (root_index_bound page Hpw) as Hr. destruct (create_cases t p2 (root_index page) parent a Ht Ha Hr Hpar) as (t1 & a1 & r1 & -> & Ha1 & Ht1 & Hw1 & Hout).
  cbn [mbind run_bind]. destruct r1 as [p1|[|]]; cbn [create_to_map].
  2:{ exists t1, a1, (Err ParentEntryHugePage). split_and!; try done. split; [done|]. split; [done|]. destruct Hout as (e & He & Hp & Hh).
      rewrite (walk_at _ _ _ _ He). unfold walk_root. rewrite Hp, Hh. by eexists. }
  2:{ exists t1, a1, (Err FrameAllocationFailed). split_and!; try done. split; [done|]. split; [done|]. destruct Hout as [_ He]. by rewrite (walk_at _ _ _ _ He). }
  destruct Hout as [(pde & Hpde & Hp & Hh & <-) Hwalk]. destruct (leaf_entry t1 p2 page pde Ht1 Hpw Hpde Hp Hh) as (e & He & Hrd & Hwe & Hze & Hhe & Hwr & Hwp & Hupd).
  rewrite Hrd. cbn [mbind run_bind]. destruct Hze as [->|Hpe].
  2:{ exists t1, a1, (Err (PageAlreadyMapped f)). assert (is_unused e = false) as -> by (apply Z.eqb_neq; intros ->; done). split_and!; try done. split; [done|]. split; [done|].
      rewrite <- Hwalk, Hwp, Hpe by done. by eexists. }
  destruct Hfl as (Hb & Hpf & Hhf). cbn [is_unused Z.eqb negb]. unfold set_frame.
  assert (contains fl HUGE_PAGE = false) as -> by (unfold contains; change HUGE_PAGE with (2 ^ 7); by rewrite land_pow2 by lia).
  cbn [negb rust_assert mbind run_bind]. rewrite set_addr32_spec by done. cbn [mbind run_bind].
  destruct (entry_parts f fl) as (-> & Hwf & Hea & Hmf & Hpf' & Hhf'); [done..|]. rewrite Hpf in Hpf'. rewrite Hhf in Hhf'.
  rewrite Hwr. cbn [mbind run_bind]. eexists _, a1, (Ok page). split; [done|]. split; [by apply alloc_ok32_upd|]. split; [apply Hupd; [done|by right|done]|].
  split; [done|]. split; [done|]. intros v Hv. rewrite (walk_upd_leaf t1 p2 (root_index page) pde) by (done || apply leaf_index_bound). destruct (decide (in_page Size4KiB page v)) as [Hin|Hin].
  - pose proof Hin as Hri. apply in_page_4kib in Hri; [|done]. rewrite decide_True by done. destruct Hri as [Hri Hli]. split.
    + rewrite <- Hwalk by done. rewrite (walk_at t1 p2 v pde) by (by rewrite Hri). unfold walk_root. by rewrite Hp, Hh, Hli, He.
    + rewrite Hpf', Hea, Hmf. cbn [leaf_flags]. do 3 f_equal. by apply (page_offset_of Size4KiB).
  - rewrite decide_False; [by apply Hwalk|]. intros Hx. apply Hin. by apply in_page_4kib.
Qed.
Lemma map_to_cases32 s t p2 page f fl (a : A) :
  two_level t p2 → alloc_ok32 t a → in_width 32 page → page mod SIZE s = 0 → in_width 32 f → f mod SIZE s = 0 → table_flags fl →
  ∃ t' a' r, map_to s t a p2 page f fl = Ret (t', a', r) ∧ alloc_ok32 t' a' ∧ two_level t' p2 ∧ map_outcome s t p2 page f fl t' r.
Proof.
  intros Ht Ha Hpw Hpm Hfw Hfm Hfl. unfold map_to. destruct s; cbn [map_to_with_table_flags].
  - apply map_to_4kib_cases; try done. by apply parent_flags32.
  - destruct (map_to_4mib_cases t p2 page f fl (Z.land fl (Z.lor (Z.lor PRESENT WRITABLE) USER_ACCESSIBLE)) a) as (t' & r & Hx); [done..|]. by exists t', a, r.
Qed.
End create_next.

(** *** [unmap] *)
#[local] Existing Instance in_page_dec.
Definition unmap_outcome (s : PageSize) (t : tables) (p2 page : Z) (t' : tables) (r : result (Z * Z) UnmapError) : Prop :=
  match r with
  | Ok (f, p) => p = page ∧ ∀ v, in_width 32 v →
      if decide (in_page s page v) then fst <$> walk t p2 v = Some (f + (v - page)) ∧ walk t' p2 v = None else walk t' p2 v = walk t p2 v
  | Err e =>
      t' = t ∧
      match e with
      | UnmapPageNotMapped => walk t p2 page = None
      | UnmapParentEntryHugePage => ∃ e, entry_at t p2 (root_index page) = Some e ∧ present e = true ∧ huge e = match s with Size4KiB => true | Size4MiB => false end
      | UnmapInvalidFrameAddress a => s = Size4MiB ∧ ∃ e, entry_at t p2 (root_index page) = Some e ∧ a = entry_addr e ∧ a mod SIZE Size4MiB ≠ 0
      end
  end.
Lemma unmap_4mib_cases t p2 page :
  two_level t p2 → in_width 32 page → page mod SIZE Size4MiB = 0 →
  ∃ t' r, unmap_4mib t p2 page = Ret (t', r) ∧ two_level t' p2 ∧ unmap_outcome Size4MiB t p2 page t' r.
Proof.
  intros Ht Hpw Hpm. unfold unmap_4mib. rewrite p2_index32_spec by done. fold (root_index page). pose proof (root_index_bound page Hpw) as Hr.
  destruct (entry_at_ok t p2 p2 (root_index page) Ht (tl_root _ _ Ht) Hr) as (e & He & Hrd & Hw). rewrite Hrd. cbn [mbind run_bind].
  rewrite flags_present, flags_huge. destruct (present e) eqn:Hp; cbn [negb].
  2:{ eexists t, _. split; [done|]. split; [done|]. split; [done|]. rewrite (walk_at _ _ _ _ He). unfold walk_root. by rewrite Hp. }
  destruct (huge e) eqn:Hh; cbn [negb]. 2:{ eexists t, _. split; [done|]. split; [done|]. split; [done|]. by exists e. }
  pose proof (entry_addr_width e Hw) as Haw. rewrite addr32_spec, frame_from_start32_spec by done. cbn [mbind run_bind]. destruct (Z.eqb_spec (entry_addr e mod SIZE Size4MiB) 0) as [Hm|Hm].
  2:{ eexists t, _. split; [done|]. split; [done|]. split; [done|]. split; [done|]. by exists e. }
  rewrite (write_entry_ok t p2) by (done || apply Ht). cbn [mbind run_bind]. eexists _, _. split; [done|].
  split; [apply upd_two_level; try done; [apply Ht|by left]|]. split; [done|]. intros v Hv. rewrite walk_upd_root by done. destruct (decide (in_page Size4MiB page v)) as [Hin|Hin].
  - pose proof Hin as Hri. apply in_page_4mib in Hri; [|done]. rewrite decide_True by done. split; [|done]. rewrite <- Hri in He. rewrite (walk_at _ _ _ _ He).
    unfold walk_root. rewrite Hp, Hh. cbn [negb fmap option_fmap option_map fst]. f_equal. change (2 ^ 22) with (SIZE Size4MiB). rewrite (page_offset_of Size4MiB page v) by done.
    f_equal. change (SIZE Size4MiB) with (2 ^ 22) in *. rewrite <- div_entry_addr. pose proof (Z.div_mod (entry_addr e) (2 ^ 22) ltac:(lia)). lia.
  - rewrite decide_False; [done|]. intros Hx. apply Hin. by apply in_page_4mib.
Qed.
Lemma unmap_4kib_cases t p2 page :
  two_level t p2 → in_width 32 page → page mod SIZE Size4KiB = 0 →
  ∃ t' r, unmap_4kib t p2 page = Ret (t', r) ∧ two_level t' p2 ∧ unmap_outcome Size4KiB t p2 page t' r.
Proof.
  intros Ht Hpw Hpm. unfold unmap_4kib. rewrite p2_index32_spec, p1_index32_spec by done. fold (root_index page) (leaf_index page). pose proof (root_index_bound page Hpw) as Hr.
  destruct (entry_at_ok t p2 p2 (root_index page) Ht (tl_root _ _ Ht) Hr) as (pde & Hpde & Hrd & Hw). rewrite Hrd. cbn [mbind run_bind].
  destruct (present pde) eqn:Hp.
  2:{ rewrite next_table32_spec, Hp by done. eexists t, _. split; [done|]. split; [done|]. split; [done|]. rewrite (walk_at _ _ _ _ Hpde). unfold walk_root. by rewrite Hp. }
  destruct (huge pde) eqn:Hh. { rewrite next_table32_spec, Hp, Hh by done. eexists t, _. split; [done|]. split; [done|]. split; [done|]. by exists pde. }
  rewrite (next_table_child32 t p2 (root_index page)) by (done || lia). cbn [mbind run_bind].
  destruct (leaf_entry t p2 page pde Ht Hpw Hpde Hp Hh) as (e & He & Hrd2 & Hwe & Hze & Hhe & Hwr & Hwp & Hupd).
  rewrite Hrd2. cbn [mbind run_bind]. rewrite frame32_spec, Hhe by done. cbn [mbind run_bind]. destruct (present e) eqn:Hpe; cbn [negb].
  2:{ eexists t, _. split; [done|]. split; [done|]. split; [done|]. by rewrite Hwp. }
  rewrite Hwr. cbn [mbind run_bind]. eexists _, _. split; [done|]. split; [apply Hupd; [done|by left|done]|]. split; [done|]. intros v Hv.
  rewrite (walk_upd_leaf t p2 (root_index page) pde) by (done || apply leaf_index_bound). destruct (decide (in_page Size4KiB page v)) as [Hin|Hin].
  - pose proof Hin as Hri. apply in_page_4kib in Hri; [|done]. rewrite decide_True by done. split; [|done]. destruct Hri as [Hri Hli].
    rewrite (walk_at t p2 v pde) by (by rewrite Hri). unfold walk_root. rewrite Hp, Hh, Hli, He, Hpe. cbn [negb fmap option_fmap option_map fst]. do 2 f_equal.
    by apply (page_offset_of Size4KiB).
  - rewrite decide_False; [done|]. intros Hx. apply Hin. by apply in_page_4kib.
Qed.
Lemma unmap_cases32 s t p2 page :
  two_level t p2 → in_width 32 page → page mod SIZE s = 0 → ∃ t' r, unmap s t p2 page = Ret (t', r) ∧ two_level t' p2 ∧ unmap_outcome s t p2 page t' r.
Proof. destruct s; [apply unmap_4kib_cases|apply unmap_4mib_cases]. Qed.

(** *** [translate] *)
(** C38: [translate_addr] against the walk of the processor, on any well-formed tables: it never panics,
    an address is translated exactly when the processor translates it, and to the same
    physical address, except in the upper half of a 4 MiB page, where the result is 2 MiB too low. *)
Theorem translate_walk32 t p2 v :
  two_level t p2 → in_width 32 v →
  translate_addr t p2 v =
    Ret (match walk t p2 v with
         | Some (a, fl) => Some (if Z.testbit fl 7 && Z.testbit v 21 then a - 2 ^ 21 else a)
         | None => None
         end).
Proof.
  intros Ht Hv. unfold translate_addr, translate. rewrite p2_index32_spec, p1_index32_spec by done. fold (root_index v) (leaf_index v). pose proof (root_index_bound v Hv) as Hr.
  destruct (entry_at_ok t p2 p2 (root_index v) Ht (tl_root _ _ Ht) Hr) as (pde & Hpde & Hrd & Hw). rewrite Hrd, (walk_at _ _ _ _ Hpde). unfold walk_root. cbn [mbind run_bind].
  destruct (present pde) eqn:Hp; [|rewrite next_table32_spec, Hp by done; done]. cbn [negb]. destruct (huge pde) eqn:Hh.
  - rewrite next_table32_spec, Hp, Hh by done. cbn [negb mbind run_bind]. pose proof (entry_addr_width pde Hw) as Haw. rewrite addr32_spec by done. unfold frame_containing_address.
    rewrite align_down32_spec by done. cbn [mbind run_bind mapped_start_address]. change 0x1fffff with (2 ^ 21 - 1). rewrite land_mask by lia. unfold addr_add.
    change (SIZE Size4MiB) with (2 ^ 22). pose proof (Z.div_mod (entry_addr pde) (2 ^ 22) ltac:(lia)) as Hd. rewrite div_entry_addr in Hd.
    pose proof (Z.mod_pos_bound v (2 ^ 21) ltac:(lia)). pose proof (Z.div_lt_upper_bound pde (2 ^ 22) 1024 ltac:(lia) ltac:(unfold in_width in Hw; lia)).
    rewrite uadd_Ret by lia. cbn [mbind run_bind]. do 2 f_equal. assert (Z.testbit (pde mod 4096) 7 = true) as -> by (change 4096 with (2 ^ 12); by rewrite Z.mod_pow2_bits_low by lia).
    cbn [andb]. assert (v mod 2 ^ 22 = v mod 2 ^ 21 + if Z.testbit v 21 then 2 ^ 21 else 0) as ->; [|destruct (Z.testbit v 21); lia].
    change (2 ^ 22) with (2 ^ 21 * 2). rewrite Z.rem_mul_r by lia. pose proof (Z.testbit_spec' v 21 ltac:(lia)) as Hb. rewrite <- Hb. destruct (Z.testbit v 21); cbn [Z.b2z]; lia.
  - rewrite (next_table_child32 t p2 (root_index v)) by (done || lia). cbn [mbind run_bind].
    destruct (leaf_entry t p2 v pde Ht Hv Hpde Hp Hh) as (e & He & Hrd2 & Hwe & Hze & Hhe & _). rewrite Hrd2, He. cbn [mbind run_bind]. destruct Hze as [->|Hpe]; [done|].
    rewrite Hpe. assert (is_unused e = false) as -> by (apply Z.eqb_neq; intros ->; done). pose proof (entry_addr_width e Hwe) as Haw. rewrite addr32_spec, frame_from_start32_spec by done.
    cbn [SIZE mbind run_bind]. rewrite entry_addr_aligned. cbn [Z.eqb mapped_start_address mbind run_bind]. rewrite page_offset32_spec. unfold addr_add.
    pose proof (Z.mod_pos_bound v 4096 ltac:(lia)). assert (entry_addr e + 4096 ≤ 2 ^ 32) as Hlim.
    { pose proof (entry_addr_aligned e) as Hal. pose proof (Z.div_mod (entry_addr e) 4096 ltac:(lia)). pose proof (Z.div_lt_upper_bound (entry_addr e) 4096 (2 ^ 20) ltac:(lia) ltac:(unfold in_width in Haw; lia)). lia. }
    rewrite uadd_Ret by lia. cbn [mbind run_bind]. do 2 f_equal. assert (Z.testbit (e mod 4096) 7 = false) as -> by (change 4096 with (2 ^ 12); by rewrite Z.mod_pow2_bits_low by lia). done.
Qed.

(** *** [update_flags] *)
(** A mapped page keeps its frame and gets the flags. *)
Lemma update_flags_4kib_spec t p2 page fl w :
  two_level t p2 → in_width 32 page → page mod SIZE Size4KiB = 0 → table_flags fl → walk t p2 page = Some w → Z.testbit w.2 7 = false →
  ∃ t', update_flags_4kib t p2 page fl = Ret (t', Ok page) ∧ two_level t' p2
    ∧ ∀ v, in_width 32 v → walk t' p2 v = if decide (in_page Size4KiB page v) then Some (w.1 + (v - page), fl) else walk t p2 v.
Proof.
  intros Ht Hpw Hpm (Hb & Hpf & Hhf) Hwalk Hsz. unfold update_flags_4kib. rewrite p2_index32_spec, p1_index32_spec by done. fold (root_index page) (leaf_index page). pose proof (root_index_bound page Hpw) as Hr.
  destruct (entry_at_ok t p2 p2 (root_index page) Ht (tl_root _ _ Ht) Hr) as (pde & Hpde & Hrd & Hw). rewrite Hrd. cbn [mbind run_bind].
  rewrite (walk_at _ _ _ _ Hpde) in Hwalk. unfold walk_root in Hwalk. destruct (present pde) eqn:Hp; [|done]. cbn [negb] in Hwalk. destruct (huge pde) eqn:Hh.
  { injection Hwalk as <-. cbn [snd] in Hsz. change 4096 with (2 ^ 12) in Hsz. rewrite Z.mod_pow2_bits_low in Hsz by lia. unfold huge in Hh. congruence. }
  rewrite (next_table_child32 t p2 (root_index page)) by (done || lia). cbn [mbind run_bind].
  destruct (leaf_entry t p2 page pde Ht Hpw Hpde Hp Hh) as (e & He & Hrd2 & Hwe & Hze & Hhe & Hwr & Hwp & Hupd). rewrite He in Hwalk. destruct (present e) eqn:Hpe; [|done]. injection Hwalk as <-.
  rewrite Hrd2. cbn [mbind run_bind]. assert (is_unused e = false) as -> by (apply Z.eqb_neq; intros ->; done). unfold set_flags. rewrite addr32_spec by done.
  destruct (entry_parts (entry_addr e) fl) as (-> & Hwf & Hea & Hmf & Hpf' & Hhf'); [by apply entry_addr_width|apply entry_addr_aligned|done|].
  rewrite Hwr. cbn [mbind run_bind]. eexists. split; [done|]. split; [apply Hupd; [done|right; congruence|congruence]|]. intros v Hv.
  rewrite (walk_upd_leaf t p2 (root_index page) pde) by (done || apply leaf_index_bound). rewrite Hpf', Hpf, Hea, Hmf. cbn [fst].
  cbn [SIZE] in Hpm. rewrite Hpm.
  destruct (decide (in_page Size4KiB page v)) as [Hin|Hin].
  - rewrite decide_True by (by apply in_page_4kib). do 2 f_equal. pose proof (page_offset_of Size4KiB page v Hpm Hin) as Ho. cbn [SIZE] in Ho. rewrite Ho. lia.
  - rewrite decide_False; [done|]. intros Hx. apply Hin. by apply in_page_4kib.
Qed.
(** [update_flags] for a 4 MiB page does not check that the entry maps one: an entry that leads
    to a table becomes a 4 MiB mapping of the memory that holds the table. *)
Lemma update_flags_4mib_table t p2 page fl e :
  two_level t p2 → in_width 32 page → page mod SIZE Size4MiB = 0 → table_flags fl → entry_at t p2 (root_index page) = Some e → in_width 32 e → present e = true → huge e = false →
  ∃ t', update_flags_4mib t p2 page fl = Ret (t', Ok page)
    ∧ ∀ v, in_width 32 v → in_page Size4MiB page v → walk t' p2 v = Some (entry_addr e / 2 ^ 22 * 2 ^ 22 + (v - page), fl + 128).
Proof.
  intros Ht Hpw Hpm (Hb & Hpf & Hhf) He Hw Hp Hh. unfold update_flags_4mib. rewrite p2_index32_spec by done. fold (root_index page). pose proof (root_index_bound page Hpw) as Hr.
  rewrite (Mapper.read_entry_spec _ _ _ _ He). cbn [mbind run_bind]. assert (is_unused e = false) as -> by (apply Z.eqb_neq; intros ->; done). unfold set_flags. rewrite addr32_spec by done.
  destruct (huge_flags fl Hb Hhf) as (Hlb & H7 & H0). rewrite lor_huge by done.
  destruct (entry_parts (entry_addr e) (fl + 128)) as (-> & Hwf & Hea & Hmf & Hpf' & Hhf'); [by apply entry_addr_width|apply entry_addr_aligned|done|].
  rewrite (write_entry_ok t p2) by (done || apply Ht). cbn [mbind run_bind]. eexists. split; [done|]. intros v Hv Hin. rewrite H7 in Hhf'. rewrite H0 in Hpf'.
  rewrite walk_upd_root by (done || by rewrite Hhf'). rewrite decide_True by (by apply in_page_4mib). unfold walk_root. rewrite Hpf', Hpf, Hhf', Hmf. cbn [negb]. do 3 f_equal.
  - by rewrite <- (div_entry_addr (entry_addr e + (fl + 128))), Hea.
  - by apply (page_offset_of Size4MiB).
Qed.

Section theorems.
Context {A : Type} `{!FrameAllocator A}.
(** C12: [map_to] on well-formed tables never panics and keeps them well formed.  On success the page
    was not mapped, the processor now translates every address of it into the frame with the given
    flags, and no other translation changes.  On an error no physical address changes: the page is
    already mapped, part of a 4 MiB page, or no frame is left for its table. *)
Theorem map_to_walk32 s t p2 page f fl (a : A) :
  two_level t p2 → alloc_ok32 t a → in_width 32 page → page mod SIZE s = 0 → in_width 32 f → f mod SIZE s = 0 → table_flags fl →
  ∃ t' a' r, map_to s t a p2 page f fl = Ret (t', a', r) ∧ alloc_ok32 t' a' ∧ two_level t' p2 ∧ map_outcome s t p2 page f fl t' r.
Proof. apply map_to_cases32. Qed.

(** unmapping undoes mapping: after a successful [map_to], [unmap] succeeds with the frame, and
    the processor translates every address as before. *)
Theorem map_unmap32 s t p2 page f fl (a : A) t' a' :
  two_level t p2 → alloc_ok32 t a → in_width 32 page → page mod SIZE s = 0 → in_width 32 f → f mod SIZE s = 0 → table_flags fl →
  map_to s t a p2 page f fl = Ret (t', a', Ok page) →
  ∃ t'', unmap s t' p2 page = Ret (t'', Ok (f, page)) ∧ two_level t'' p2 ∧ ∀ v, in_width 32 v → walk t'' p2 v = walk t p2 v.
Proof.
  intros Ht Ha Hpw Hpm Hfw Hfm Hfl Hmap. destruct (map_to_cases32 s t p2 page f fl a) as (t1 & a1 & r & E & _ & Ht1 & Hout); [done..|].
  rewrite Hmap in E. injection E as <- <- <-. destruct Hout as (_ & Hent & Hout). destruct (unmap_cases32 s t' p2 page Ht1 Hpw Hpm) as (t2 & r & -> & Ht2 & Hu).
  assert (in_page s page page) as Hself by (split; [lia|]; pose proof (SIZE_pos s); lia).
  pose proof (Hout page Hpw) as Hpage. rewrite decide_True in Hpage by done. destruct Hpage as [_ Hpage]. destruct Hfl as (Hb & Hp & Hh).
  destruct r as [[g p]|e].
  - destruct Hu as (-> & Hu). assert (g = f) as ->.
    { pose proof (Hu page Hpw) as Hx. rewrite decide_True in Hx by done. destruct Hx as [Hx _]. rewrite Hpage in Hx. cbn in Hx. injection Hx as Hx. lia. }
    exists t2. split; [done|]. split; [done|]. intros v Hv. specialize (Hu v Hv). specialize (Hout v Hv).
    destruct (decide (in_page s page v)) as [Hin|Hin]; destruct_and?; congruence.
  - exfalso. destruct Hu as [_ Hu]. destruct e as [| |b].
    + destruct Hu as (e & He & Hpe & Hhe). rewrite (walk_at _ _ _ _ He) in Hpage. unfold walk_root in Hpage. rewrite Hpe in Hpage. destruct s; rewrite Hhe in Hpage; cbn [negb leaf_flags] in Hpage.
      * injection Hpage as _ Hx. assert (Z.testbit (e mod 4096) 7 = true) as Hy by (change 4096 with (2 ^ 12); by rewrite Z.mod_pow2_bits_low by lia). rewrite Hx in Hy. congruence.
      * rewrite Hent in He by done. injection He as <-. cbn [leaf_flags] in Hhe. destruct (entry_parts f (fl + 128)) as (_ & _ & _ & _ & _ & Hh2); [done|by apply (aligned_4kib Size4MiB)|by apply huge_flags|].
        rewrite Hh2 in Hhe. destruct (huge_flags fl Hb Hh) as (_ & Hx & _). congruence.
    + by rewrite Hu in Hpage.
    + destruct Hu as (-> & e & He & -> & Hm). apply Hm. rewrite Hent in He by done. injection He as <-. cbn [leaf_flags].
      destruct (entry_parts f (fl + 128)) as (_ & _ & -> & _); [done|by apply (aligned_4kib Size4MiB)|by apply huge_flags|done].
Qed.
End theorems.
End walk.

(** ** Instances *)
(** Physical memory at its own addresses, an empty level 2 table, 1 MiB to 2 MiB usable. *)
#[local] Instance identity32 : PageTableFrameMapping := offset_mapping 0.
Definition empty32 : tables := {[ 0x1000 := table_new ]}.
Lemma entry_at_empty32 q i e : entry_at empty32 q i = Some e → e = 0.
Proof.
  unfold entry_at, empty32. destruct (decide (q = 0x1000)) as [->|Hne]; [|by rewrite lookup_singleton_ne by congruence].
  rewrite lookup_singleton_eq. intros Hx. change (table_new !! Z.to_nat i = Some e) in Hx. by apply lookup_replicate_1 in Hx as [-> _].
Qed.
Lemma empty_two_level : two_level empty32 0x1000.
Proof.
  constructor.
  - by exists table_new.
  - intros ptr es He. unfold empty32 in He. apply lookup_singleton_Some in He as [_ <-]. split; [apply length_replicate|by apply Forall_replicate].
  - intros ptr i e He. left. by eapply entry_at_empty32.
  - intros ptr i e He _. by apply entry_at_empty32 in He as ->.
  - intros i e _ He Hp. apply entry_at_empty32 in He as ->. done.
  - intros i j e e' _ _ He _ Hp. apply entry_at_empty32 in He as ->. done.
Qed.
Definition frames32 : FrameAlloc.BootInfoFrameAllocator :=
  FrameAlloc.new (MemoryMap.single (MemoryMap.mkRegion (MemoryMap.mkFrameRange 0x100 0x200) MemoryMap.Usable)).
Lemma frames32_ok : alloc_ok32 empty32 frames32.
Proof.
  split; [by apply FrameAlloc.single_map_ok|]. intros f (i & _ & Hf). apply list_elem_of_lookup_2 in Hf.
  rewrite FrameAlloc.elem_of_usable_pages in Hf by (by apply Forall_singleton).
  destruct Hf as (_ & r & Hr & _ & Hh). apply list_elem_of_singleton in Hr as ->. unfold MemoryMap.hits in Hh. cbn in Hh.
  unfold MemoryMap.PAGE_SIZE in Hh.
  split; [cbn; lia|]. split; [|lia]. apply lookup_singleton_ne. cbn. lia.
Qed.
Definition rw32 : Z := Z.lor PRESENT WRITABLE.
Lemma map_to_walk32_witness :
  ∃ t' a', map_to Size4KiB empty32 frames32 0x1000 0xb8000 0xa000 rw32 = Ret (t', a', Ok 0xb8000) ∧ walk t' 0x1000 0xb8123 = Some (0xa123, 3).
Proof.
  destruct (map_to_walk32 Size4KiB empty32 0x1000 0xb8000 0xa000 rw32 frames32) as (t' & a' & r & E & _ & _ & Hout);
    [exact empty_two_level|exact frames32_ok|by vm_compute|done|by vm_compute|done|by vm_compute|].
  assert (match map_to Size4KiB empty32 frames32 0x1000 0xb8000 0xa000 rw32 with Ret (_, _, Ok _) => true | _ => false end = true) as Hok by (vm_compute; reflexivity).
  rewrite E in Hok. destruct r as [p|]; [|discriminate Hok]. destruct Hout as (-> & _ & Hout). exists t', a'. split; [exact E|].
  specialize (Hout 0xb8123 ltac:(by vm_compute)). rewrite decide_True in Hout by (by vm_compute). exact (proj2 Hout).
Defined.
Definition with_big : tables :=
  match map_to Size4MiB empty32 frames32 0x1000 0x400000 0x800000 rw32 with Ret (t, _, _) => t | Panic _ => empty32 end.
Lemma map_unmap32_witness :
  ∃ t'', unmap Size4MiB with_big 0x1000 0x400000 = Ret (t'', Ok (0x800000, 0x400000)) ∧ two_level t'' 0x1000
    ∧ ∀ v, in_width 32 v → walk t'' 0x1000 v = walk empty32 0x1000 v.
Proof.
  apply (map_unmap32 Size4MiB empty32 0x1000 0x400000 0x800000 rw32 frames32 with_big frames32);
    [exact empty_two_level|exact frames32_ok|by vm_compute|done|by vm_compute|done|by vm_compute|vm_compute; reflexivity].
Defined.
Lemma with_big_ok : two_level with_big 0x1000.
Proof.
  destruct (map_to_cases32 Size4MiB empty32 0x1000 0x400000 0x800000 rw32 frames32) as (t' & a' & r & E & _ & Ht & _);
    [exact empty_two_level|exact frames32_ok|by vm_compute|done|by vm_compute|done|by vm_compute|].
  unfold with_big. rewrite E. exact Ht.
Qed.
Lemma translate_walk32_witness : translate_addr with_big 0x1000 0x400123 = Ret (Some 0x800123).
Proof. rewrite (translate_walk32 with_big 0x1000 0x400123 with_big_ok ltac:(by vm_compute)). vm_compute. reflexivity. Defined.
(** 0x600000 lies in the upper half of the page at 0x400000, which is mapped to 0x800000. *)
Example translate_upper_half : translate_addr with_big 0x1000 0x600000 = Ret (Some 0x800000) ∧ walk with_big 0x1000 0x600000 = Some (0xa00000, 131).
Proof. split; vm_compute; reflexivity. Qed.
(** With [PAT] among the flags a page is mapped to the next frame. *)
Example pat_moves_frame :
  match map_to Size4KiB empty32 frames32 0x1000 0xb8000 0xa000 (Z.lor rw32 PAT) with
  | Ret (t', _, Ok _) => walk t' 0x1000 0xb8000
  | _ => None
  end = Some (0xb000, 3).
Proof. vm_compute. reflexivity. Qed.
End Mapper32.
