(* ===== verification/Cpuid.v ===== *)
(** * crates/rust-cpuid: the CPUID queries of the bootloader, and its processor check

    A processor is what [cpuid] answers for a leaf and a subleaf.  [CpuId] caches the highest
    basic and extended leaf and the vendor; the queries the bootloader makes are the vendor
    string, the feature bits of leaf 1, the extended state of leaf 0xD and the extended
    features of leaf 0x8000_0001.  [check_processor] is the check at the beginning of
    [bootloader_main]. *)
From Stdlib Require Import Strings.String Strings.Ascii.
From S2P Require Import Prelude Bytes Paging Control Multiboot.
Import Bytes Paging Control.

Module Cpuid.

Record CpuIdResult := mkResult { eax : Z; ebx : Z; ecx : Z; edx : Z }.
Definition all_zero (r : CpuIdResult) : bool := (eax r =? 0) && (ebx r =? 0) && (ecx r =? 0) && (edx r =? 0).
Definition result_ok (r : CpuIdResult) : Prop := in_width 32 (eax r) ∧ in_width 32 (ebx r) ∧ in_width 32 (ecx r) ∧ in_width 32 (edx r).
(** [CpuIdReader]: the function that queries a leaf and a subleaf. *)
Abbreviation CpuIdReader := (Z → Z → CpuIdResult).
Definition cpuid1 (read : CpuIdReader) (a : Z) : CpuIdResult := read a 0.
Definition cpuid2 (read : CpuIdReader) (a c : Z) : CpuIdResult := read a c.

Definition get_bits (r from to : Z) : run Z :=
  _ ← rust_assert (from <=? 31);
  _ ← rust_assert (to <=? 31);
  _ ← rust_assert (from <=? to);
  mask ← (if to =? 31 then Ret 0xffffffff else usub (Z.shiftl 1 (to + 1)) 1);
  Ret (Z.shiftr (Z.land r mask) from).

(** ** Vendors *)
Definition ascii_bytes (s : string) : list Z := (λ c, Z.of_N (N_of_ascii c)) <$> list_ascii_of_string s.
Definition continuation (b : Z) : bool := (0x80 <=? b) && (b <=? 0xbf).
(** The second byte of a sequence of three or four bytes: neither overlong, nor a surrogate,
    nor above U+10FFFF. *)
Definition second3 (b c : Z) : bool :=
  ((b =? 0xe0) && (0xa0 <=? c) && (c <=? 0xbf)) || ((0xe1 <=? b) && (b <=? 0xec) && continuation c)
  || ((b =? 0xed) && (0x80 <=? c) && (c <=? 0x9f)) || ((0xee <=? b) && (b <=? 0xef) && continuation c).
Definition second4 (b c : Z) : bool :=
  ((b =? 0xf0) && (0x90 <=? c) && (c <=? 0xbf)) || ((0xf1 <=? b) && (b <=? 0xf3) && continuation c)
  || ((b =? 0xf4) && (0x80 <=? c) && (c <=? 0x8f)).
Fixpoint from_utf8 (l : list Z) : bool :=
  match l with
  | [] => true
  | b :: l1 =>
      if b <? 0x80 then from_utf8 l1 else
      match l1 with
      | [] => false
      | c :: l2 =>
          if (0xc2 <=? b) && (b <=? 0xdf) && continuation c then from_utf8 l2 else
          match l2 with
          | [] => false
          | d :: l3 =>
              if second3 b c && continuation d then from_utf8 l3 else
              match l3 with
              | [] => false
              | e :: l4 => if second4 b c && continuation d && continuation e then from_utf8 l4 else false
              end
          end
      end
  end.

Record VendorInfo := mkVendorInfo { vi_ebx : Z; vi_edx : Z; vi_ecx : Z }.
(** The struct is [repr(C)]: its bytes are those of the fields in this order. *)
Definition as_str (v : VendorInfo) : list Z :=
  let slice := le_bytes 4 (vi_ebx v) ++ le_bytes 4 (vi_edx v) ++ le_bytes 4 (vi_ecx v) in
  if from_utf8 slice then slice else ascii_bytes "InvalidVendorString".
Definition INTEL : list Z := ascii_bytes "GenuineIntel".
Definition AMD : list Z := ascii_bytes "AuthenticAMD".

Inductive Vendor := Intel | Amd | Unknown (b c d : Z).
#[global] Instance Vendor_eq_dec : EqDecision Vendor.
Proof. solve_decision. Defined.
Definition from_vendor_leaf (res : CpuIdResult) : Vendor :=
  let s := as_str (mkVendorInfo (ebx res) (edx res) (ecx res)) in
  if decide (s = INTEL) then Intel else if decide (s = AMD) then Amd else Unknown (ebx res) (ecx res) (edx res).

(** ** [CpuId] *)
Definition EAX_VENDOR_INFO : Z := 0x0.
Definition EAX_FEATURE_INFO : Z := 0x1.
Definition EAX_EXTENDED_STATE_INFO : Z := 0xd.
Definition EAX_EXTENDED_FUNCTION_INFO : Z := 0x80000000.
Definition EAX_EXTENDED_PROCESSOR_AND_FEATURE_IDENTIFIERS : Z := 0x80000001.

Record CpuId := mkCpuId { read : CpuIdReader; vendor : Vendor; supported_leafs : Z; supported_extended_leafs : Z }.
Definition with_cpuid_fn (read : CpuIdReader) : CpuId :=
  let vendor_leaf := cpuid1 read EAX_VENDOR_INFO in
  let extended_leaf := cpuid1 read EAX_EXTENDED_FUNCTION_INFO in
  mkCpuId read (from_vendor_leaf vendor_leaf) (eax vendor_leaf) (eax extended_leaf).
Definition leaf_is_supported (c : CpuId) (val : Z) : bool :=
  if bool_decide (vendor c = Amd) && (((0x2 <=? val) && (val <=? 0x4)) || ((0x8 <=? val) && (val <=? 0xa))) then false
  else if val <? EAX_EXTENDED_FUNCTION_INFO then val <=? supported_leafs c else val <=? supported_extended_leafs c.
Definition get_vendor_info (c : CpuId) : option VendorInfo :=
  if leaf_is_supported c EAX_VENDOR_INFO then
    let res := cpuid1 (read c) EAX_VENDOR_INFO in Some (mkVendorInfo (ebx res) (edx res) (ecx res))
  else None.

(** ** Leaf 1 *)
Record FeatureInfo := mkFeatureInfo { fi_vendor : Vendor; fi_eax : Z; fi_ebx : Z; edx_ecx : Z }.
Definition get_feature_info (c : CpuId) : option FeatureInfo :=
  if leaf_is_supported c EAX_FEATURE_INFO then
    let res := cpuid1 (read c) EAX_FEATURE_INFO in
    Some (mkFeatureInfo (vendor c) (eax res) (ebx res) (Z.lor (ushl 64 (edx res) 32) (ecx res)))
  else None.
Definition byte_field (r from to : Z) : run Z := v ← get_bits r from to; Ret (cast 8 v).
Definition extended_family_id (f : FeatureInfo) : run Z := byte_field (fi_eax f) 20 27.
Definition extended_model_id (f : FeatureInfo) : run Z := byte_field (fi_eax f) 16 19.
Definition base_family_id (f : FeatureInfo) : run Z := byte_field (fi_eax f) 8 11.
Definition base_model_id (f : FeatureInfo) : run Z := byte_field (fi_eax f) 4 7.
Definition stepping_id (f : FeatureInfo) : run Z := byte_field (fi_eax f) 0 3.
Definition brand_index (f : FeatureInfo) : run Z := byte_field (fi_ebx f) 0 7.
Definition cflush_cache_line_size (f : FeatureInfo) : run Z := byte_field (fi_ebx f) 8 15.
Definition initial_local_apic_id (f : FeatureInfo) : run Z := byte_field (fi_ebx f) 24 31.
Definition max_logical_processor_ids (f : FeatureInfo) : run Z := byte_field (fi_ebx f) 16 23.
Definition family_id (f : FeatureInfo) : run Z :=
  base ← base_family_id f;
  extended ← extended_family_id f;
  let just_use_base := (bool_decide (fi_vendor f = Amd) && (base <? 0xf)) || (bool_decide (fi_vendor f = Intel) && negb (base =? 0xf)) in
  if just_use_base then Ret base else uadd 8 base extended.
Definition model_id (f : FeatureInfo) : run Z :=
  base_family ← base_family_id f;
  base ← base_model_id f;
  extended ← extended_model_id f;
  let just_use_base := (bool_decide (fi_vendor f = Amd) && (base_family <? 0xf))
                       || (bool_decide (fi_vendor f = Intel) && negb (base_family =? 0xf) && negb (base_family =? 0x6)) in
  if just_use_base then Ret base else Ret (Z.lor (ushl 8 extended 4) base).

(** [check_flag!]: bits 0 to 31 are ECX, bits 32 to 63 are EDX. *)
Definition feature (k : Z) (f : FeatureInfo) : bool := contains (edx_ecx f) (Z.shiftl 1 k).
Definition has_ssse3 : FeatureInfo → bool := feature 9.
Definition has_sse41 : FeatureInfo → bool := feature 19.
Definition has_sse42 : FeatureInfo → bool := feature 20.
Definition has_xsave : FeatureInfo → bool := feature 26.
Definition has_avx : FeatureInfo → bool := feature 28.
Definition has_fpu : FeatureInfo → bool := feature 32.
Definition has_msr : FeatureInfo → bool := feature (32 + 5).
Definition has_pae : FeatureInfo → bool := feature (32 + 6).
Definition has_apic : FeatureInfo → bool := feature (32 + 9).
Definition has_pat : FeatureInfo → bool := feature (32 + 16).
Definition has_sse : FeatureInfo → bool := feature (32 + 25).

(** ** Leaf 0xD *)
Record ExtendedStateInfo := mkStateInfo { st_eax : Z; st_ebx : Z; st_ecx : Z; eax1 : Z; ebx1 : Z; ecx1 : Z }.
Definition get_extended_state_info (c : CpuId) : option ExtendedStateInfo :=
  if leaf_is_supported c EAX_EXTENDED_STATE_INFO then
    let res := cpuid2 (read c) EAX_EXTENDED_STATE_INFO 0 in
    let res1 := cpuid2 (read c) EAX_EXTENDED_STATE_INFO 1 in
    Some (mkStateInfo (eax res) (ebx res) (ecx res) (eax res1) (ebx res1) (ecx res1))
  else None.
Definition xcr0_supports_legacy_x87 (s : ExtendedStateInfo) : bool := contains (st_eax s) (Z.shiftl 1 0).
Definition xcr0_supports_sse_128 (s : ExtendedStateInfo) : bool := contains (st_eax s) (Z.shiftl 1 1).
Definition xcr0_supports_avx_256 (s : ExtendedStateInfo) : bool := contains (st_eax s) (Z.shiftl 1 2).
Definition has_xgetbv (s : ExtendedStateInfo) : bool := 0 <? Z.land (eax1 s) 4.

(** ** Leaf 0x8000_0001 *)
Definition ExtendedFunctionInfoEcx : Z :=
  bits_of [0; 1; 2; 3; 4; 5; 6; 7; 8; 9; 10; 11; 12; 13; 15; 16; 21; 22; 23; 24; 26; 27; 28; 29; 30].
Definition ExtendedFunctionInfoEdx : Z := bits_of [11; 20; 22; 24; 26; 27; 29; 30; 31].
Record ExtendedProcessorFeatureIdentifiers := mkIdentifiers { ef_vendor : Vendor; ef_eax : Z; ef_ebx : Z; ef_ecx : Z; ef_edx : Z }.
Definition identifiers_new (v : Vendor) (data : CpuIdResult) : ExtendedProcessorFeatureIdentifiers :=
  mkIdentifiers v (eax data) (ebx data) (Z.land (ecx data) ExtendedFunctionInfoEcx) (Z.land (edx data) ExtendedFunctionInfoEdx).
Definition get_extended_processor_and_feature_identifiers (c : CpuId) : option ExtendedProcessorFeatureIdentifiers :=
  if leaf_is_supported c EAX_EXTENDED_PROCESSOR_AND_FEATURE_IDENTIFIERS
  then Some (identifiers_new (vendor c) (cpuid1 (read c) EAX_EXTENDED_PROCESSOR_AND_FEATURE_IDENTIFIERS))
  else None.
Definition has_execute_disable (e : ExtendedProcessorFeatureIdentifiers) : bool := contains (ef_edx e) (Z.shiftl 1 20).
Definition has_64bit_mode (e : ExtendedProcessorFeatureIdentifiers) : bool := contains (ef_edx e) (Z.shiftl 1 29).
Definition has_sse4a (e : ExtendedProcessorFeatureIdentifiers) : bool :=
  bool_decide (ef_vendor e = Amd) && contains (ef_ecx e) (Z.shiftl 1 6).

(** ** The check of [bootloader_main] *)
Definition refuse_unless (b : bool) : run unit := if b then Ret tt else Panic Explicit.
Definition check_processor (magic : Z) (p : CpuIdReader) : run unit :=
  _ ← refuse_unless (magic =? Multiboot.MULTIBOOT2_BOOTLOADER_MAGIC);
  let cpuid := with_cpuid_fn p in
  _ ← match get_vendor_info cpuid with
      | Some vf => refuse_unless (bool_decide (as_str vf = INTEL) || bool_decide (as_str vf = AMD))
      | None => Ret tt
      end;
  features ← unwrap (get_feature_info cpuid);
  _ ← refuse_unless (has_msr features);
  _ ← refuse_unless (has_pae features);
  _ ← refuse_unless (has_apic features);
  _ ← refuse_unless (has_pat features);
  _ ← family_id features;
  _ ← model_id features;
  extended ← unwrap (get_extended_processor_and_feature_identifiers cpuid);
  _ ← refuse_unless (has_64bit_mode extended);
  refuse_unless (has_execute_disable extended).

(** ** What the queries read *)
Lemma feature_bit p k v b e a :
  result_ok (p 1 0) → 0 ≤ k < 64 → edx_ecx (mkFeatureInfo v b e a) = Z.lor (ushl 64 (edx (p 1 0)) 32) (ecx (p 1 0)) →
  feature k (mkFeatureInfo v b e a) = if k <? 32 then Z.testbit (ecx (p 1 0)) k else Z.testbit (edx (p 1 0)) (k - 32).
Proof.
  intros (_ & _ & Hc & Hd) Hk E. unfold feature. rewrite has_bit by lia. rewrite E, Z.lor_spec. unfold ushl.
  rewrite Z.mod_pow2_bits_low by lia. rewrite Z.shiftl_spec by lia. destruct (Z.ltb_spec k 32).
  - by rewrite Z.testbit_neg_r by lia.
  - rewrite (testbit_above 32 (ecx _)) by (done || lia). apply orb_false_r.
Qed.
Lemma extended_bit v r k :
  0 ≤ k → contains (ef_edx (identifiers_new v r)) (Z.shiftl 1 k) = Z.testbit (edx r) k && Z.testbit ExtendedFunctionInfoEdx k.
Proof. intros Hk. rewrite has_bit by done. apply Z.land_spec. Qed.
Lemma byte_field_spec r from to :
  in_width 32 r → 0 ≤ from ≤ to → to ≤ 31 → to < from + 8 → byte_field r from to = Ret (r / 2 ^ from mod 2 ^ (to + 1 - from)).
Proof.
  intros Hr Hf Ht Hw. unfold byte_field, get_bits. rewrite !(proj2 (Z.leb_le _ _)) by lia. cbn [rust_assert mbind run_bind].
  assert ((if to =? 31 then Ret 0xffffffff else usub (Z.shiftl 1 (to + 1)) 1) = Ret (2 ^ (to + 1) - 1)) as ->.
  { destruct (Z.eqb_spec to 31) as [->|]; [done|]. rewrite Z.shiftl_1_l. pose proof (pow2_pos (to + 1)). by rewrite usub_Ret by lia. }
  cbn [mbind run_bind]. f_equal. rewrite land_mask, Z.shiftr_div_pow2 by lia.
  assert ((r mod 2 ^ (to + 1)) / 2 ^ from = r / 2 ^ from mod 2 ^ (to + 1 - from)) as ->.
  { apply Z.bits_inj'. intros i Hi. rewrite <- Z.shiftr_div_pow2, Z.shiftr_spec by lia. destruct (decide (i < to + 1 - from)).
    - rewrite !Z.mod_pow2_bits_low by lia. rewrite <- Z.shiftr_div_pow2 by lia. by rewrite Z.shiftr_spec by lia.
    - by rewrite !Z.mod_pow2_bits_high by lia. }
  apply Z.mod_small. pose proof (Z.mod_pos_bound (r / 2 ^ from) (2 ^ (to + 1 - from)) ltac:(apply pow2_pos; lia)).
  pose proof (Z.pow_le_mono_r 2 (to + 1 - from) 8 ltac:(lia) ltac:(lia)). lia.
Qed.

Definition vendor_bytes (r : CpuIdResult) : list Z := le_bytes 4 (ebx r) ++ le_bytes 4 (edx r) ++ le_bytes 4 (ecx r).
Lemma as_str_known r s : s = INTEL ∨ s = AMD → as_str (mkVendorInfo (ebx r) (edx r) (ecx r)) = s ↔ vendor_bytes r = s.
Proof.
  intros Hs. unfold as_str. cbn [vi_ebx vi_edx vi_ecx]. fold (vendor_bytes r). destruct (from_utf8 (vendor_bytes r)) eqn:Hu; [done|]. split.
  - intros E. exfalso. apply (f_equal length) in E. destruct Hs as [-> | ->]; vm_compute in E; discriminate E.
  - intros E. exfalso. rewrite E in Hu. destruct Hs as [-> | ->]; vm_compute in Hu; discriminate Hu.
Qed.

(** ** The processors that are accepted *)
Record acceptable (p : CpuIdReader) : Prop := {
  ac_vendor : vendor_bytes (p 0 0) = INTEL ∨ vendor_bytes (p 0 0) = AMD;
  ac_leaves : 1 ≤ eax (p 0 0) ∧ 0x80000001 ≤ eax (p 0x80000000 0);
  (** MSR, PAE, APIC and PAT *)
  ac_features : Forall (λ k, Z.testbit (edx (p 1 0)) k = true) [5; 6; 9; 16];
  (** 64-bit mode and the execute-disable bit *)
  ac_extended : Forall (λ k, Z.testbit (edx (p 0x80000001 0)) k = true) [29; 20];
  (** the family is a byte *)
  ac_family : eax (p 1 0) / 2 ^ 8 mod 2 ^ 4 = 15 → eax (p 1 0) / 2 ^ 20 mod 2 ^ 8 ≤ 240
}.

Section queries.
Context (p : CpuIdReader) (Hp : ∀ a k, result_ok (p a k)).
Definition queried := with_cpuid_fn p.
Definition info_of := mkFeatureInfo (vendor queried) (eax (p 1 0)) (ebx (p 1 0)) (Z.lor (ushl 64 (edx (p 1 0)) 32) (ecx (p 1 0))).
Definition state_of := mkStateInfo (eax (p 0xd 0)) (ebx (p 0xd 0)) (ecx (p 0xd 0)) (eax (p 0xd 1)) (ebx (p 0xd 1)) (ecx (p 0xd 1)).

Lemma leaf_supported val :
  val ∈ [0; 1; 0xd; 0x80000001] →
  leaf_is_supported queried val = if val <? 0x80000000 then val <=? eax (p 0 0) else val <=? eax (p 0x80000000 0).
Proof.
  intros H. unfold leaf_is_supported. rewrite !elem_of_cons, elem_of_nil in H.
  destruct H as [-> | [-> | [-> | [-> | []]]]]; cbn; rewrite andb_false_r; reflexivity.
Qed.
Lemma vendor_info : get_vendor_info queried = Some (mkVendorInfo (ebx (p 0 0)) (edx (p 0 0)) (ecx (p 0 0))).
Proof.
  unfold get_vendor_info. rewrite leaf_supported by set_solver. destruct (Hp 0 0) as (Ha & _). unfold in_width in Ha.
  change (EAX_VENDOR_INFO <? 0x80000000) with true. cbn match. by rewrite (proj2 (Z.leb_le _ _)) by (unfold EAX_VENDOR_INFO; lia).
Qed.
Lemma feature_info : get_feature_info queried = if 1 <=? eax (p 0 0) then Some info_of else None.
Proof. unfold get_feature_info. by rewrite leaf_supported by set_solver. Qed.
Lemma state_info : get_extended_state_info queried = if 0xd <=? eax (p 0 0) then Some state_of else None.
Proof. unfold get_extended_state_info. by rewrite leaf_supported by set_solver. Qed.
Lemma identifiers :
  get_extended_processor_and_feature_identifiers queried =
  if 0x80000001 <=? eax (p 0x80000000 0) then Some (identifiers_new (vendor queried) (p 0x80000001 0)) else None.
Proof. unfold get_extended_processor_and_feature_identifiers. by rewrite leaf_supported by set_solver. Qed.
Lemma info_bit k : 0 ≤ k < 64 → feature k info_of = if k <? 32 then Z.testbit (ecx (p 1 0)) k else Z.testbit (edx (p 1 0)) (k - 32).
Proof. intros Hk. by apply feature_bit. Qed.

(** [family_id] of a known vendor overflows for an extended family above 240 only. *)
Lemma family_info :
  vendor queried = Intel ∨ vendor queried = Amd →
  returns (family_id info_of) ↔ (eax (p 1 0) / 2 ^ 8 mod 2 ^ 4 = 15 → eax (p 1 0) / 2 ^ 20 mod 2 ^ 8 ≤ 240).
Proof.
  intros Hv. destruct (Hp 1 0) as (Ha & _). unfold family_id, base_family_id, extended_family_id. cbn [fi_eax fi_vendor info_of].
  rewrite !byte_field_spec by (done || lia). cbn [mbind run_bind]. change (11 + 1 - 8) with 4. change (27 + 1 - 20) with 8.
  pose proof (Z.mod_pos_bound (eax (p 1 0) / 2 ^ 8) (2 ^ 4) ltac:(lia)) as Hb. set (base := eax (p 1 0) / 2 ^ 8 mod 2 ^ 4) in *.
  pose proof (Z.mod_pos_bound (eax (p 1 0) / 2 ^ 20) (2 ^ 8) ltac:(lia)) as He. set (ext := eax (p 1 0) / 2 ^ 20 mod 2 ^ 8) in *.
  change (2 ^ 4) with 16 in Hb. change (2 ^ 8) with 256 in He.
  assert ((bool_decide (vendor queried = Amd) && (base <? 0xf)) || (bool_decide (vendor queried = Intel) && negb (base =? 0xf)) = negb (base =? 0xf)) as ->.
  { destruct Hv as [-> | ->]; cbn; zcase; lia || done. }
  destruct (Z.eqb_spec base 15) as [E|E]; cbn [negb]; [|split; [lia|by eexists]].
  unfold uadd. change (2 ^ 8) with 256. split.
  - intros [a H] _. destruct (Z.ltb_spec (base + ext) 256); [lia|discriminate H].
  - intros H. rewrite (proj2 (Z.ltb_lt _ _)) by lia. by eexists.
Qed.
Lemma model_info : returns (model_id info_of).
Proof.
  destruct (Hp 1 0) as (Ha & _). unfold model_id, base_family_id, base_model_id, extended_model_id. cbn [fi_eax fi_vendor info_of].
  rewrite !byte_field_spec by (done || lia). cbn [mbind run_bind]. case_match; by eexists.
Qed.
Lemma vendor_known : vendor_bytes (p 0 0) = INTEL ∨ vendor_bytes (p 0 0) = AMD → vendor queried = Intel ∨ vendor queried = Amd.
Proof.
  intros H. cbn [vendor queried with_cpuid_fn]. unfold from_vendor_leaf, cpuid1, EAX_VENDOR_INFO.
  destruct (decide (_ = INTEL)) as [|H1]; [by left|]. destruct (decide (_ = AMD)) as [|H2]; [by right|]. exfalso.
  rewrite as_str_known in H1, H2 by auto. tauto.
Qed.

Lemma refuse_Ret {A} b (k : run A) r : (_ ← refuse_unless b; k) = Ret r ↔ b = true ∧ k = Ret r.
Proof. destruct b; cbn; [tauto|]. by split; [|intros [? _]]. Qed.
Lemma unwrap_Ret {A B} (b : bool) (y : A) (k : A → run B) r : (x ← unwrap (if b then Some y else None); k x) = Ret r ↔ b = true ∧ k y = Ret r.
Proof. destruct b; cbn; [tauto|]. by split; [|intros [? _]]. Qed.
Lemma then_Ret {A B} (m : run A) (k : run B) r : (_ ← m; k) = Ret r ↔ returns m ∧ k = Ret r.
Proof. destruct m; cbn; [|by split; [|intros [[? ?] _]]]. split; [intros H; split; [by eexists|done]|by intros [_ ?]]. Qed.
Lemma refuse_last b : refuse_unless b = Ret tt ↔ b = true.
Proof. by destruct b. Qed.

Lemma check_processor_cases magic :
  check_processor magic p = Ret tt ↔ magic = Multiboot.MULTIBOOT2_BOOTLOADER_MAGIC ∧ acceptable p.
Proof.
  unfold check_processor. fold queried. rewrite vendor_info, feature_info, identifiers.
  rewrite !refuse_Ret, unwrap_Ret, !refuse_Ret, !then_Ret, unwrap_Ret, refuse_Ret, refuse_last.
  unfold has_msr, has_pae, has_apic, has_pat, has_64bit_mode, has_execute_disable. rewrite !info_bit, !extended_bit by lia.
  rewrite orb_true_iff, !bool_decide_eq_true, !as_str_known, !andb_true_iff, Z.eqb_eq, !Z.leb_le by auto.
  change (32 + 5 <? 32) with false. change (32 + 6 <? 32) with false. change (32 + 9 <? 32) with false. change (32 + 16 <? 32) with false.
  cbn match. change (32 + 5 - 32) with 5. change (32 + 6 - 32) with 6. change (32 + 9 - 32) with 9. change (32 + 16 - 32) with 16.
  split.
  - intros (? & Hv & ? & ? & ? & ? & ? & Hf & _ & ? & [? _] & ? & _). rewrite family_info in Hf by (by apply vendor_known).
    split; [done|]. constructor; auto.
  - intros (? & [Hv ? Hf He Hy]). rewrite !Forall_cons in Hf. rewrite !Forall_cons in He. destruct_and!.
    rewrite family_info by (by apply vendor_known). repeat split; try done; apply model_info.
Qed.
End queries.

(** C39: the processor check at the beginning of [bootloader_main] returns exactly on a multiboot2
    boot of an Intel or AMD processor that announces model specific registers, PAE, a local
    APIC, the page attribute table, 64-bit mode and the execute-disable bit, and whose
    extended family is at most 240; in every other case it panics. *)
Theorem check_processor_accepts magic p :
  (∀ a c, result_ok (p a c)) →
  (check_processor magic p = Ret tt ↔ magic = Multiboot.MULTIBOOT2_BOOTLOADER_MAGIC ∧ acceptable p)
  ∧ (¬ (magic = Multiboot.MULTIBOOT2_BOOTLOADER_MAGIC ∧ acceptable p) → ∃ e, check_processor magic p = Panic e).
Proof.
  intros Hp. pose proof (check_processor_cases p Hp magic) as H. split; [exact H|]. intros Hn.
  destruct (check_processor magic p) as [[]|e]; [by exfalso; apply Hn, H|by eexists].
Qed.

(** ** An instance: an Intel processor with AVX *)
Definition intel (eax_1 : Z) : CpuIdReader := λ a c,
  if a =? 0 then mkResult 0x16 0x756e6547 0x6c65746e 0x49656e69
  else if a =? 1 then mkResult eax_1 0x100800 (bits_of [0; 9; 19; 20; 26; 28]) (bits_of [0; 4; 5; 6; 9; 16; 24; 25; 26])
  else if a =? 0xd then (if c =? 0 then mkResult 7 0x340 0x340 0 else if c =? 1 then mkResult 0xf 0x340 0 0 else mkResult 0 0 0 0)
  else if a =? 0x80000000 then mkResult 0x80000008 0 0 0
  else if a =? 0x80000001 then mkResult 0 0 1 (bits_of [11; 20; 27; 29])
  else mkResult 0 0 0 0.
Lemma intel_ok e : in_width 32 e → ∀ a c, result_ok (intel e a c).
Proof.
  intros He a c. unfold intel. repeat case_match; (split; [|split; [|split]]); first [exact He | by vm_compute].
Qed.
Lemma check_processor_accepts_witness :
  check_processor Multiboot.MULTIBOOT2_BOOTLOADER_MAGIC (intel 0x906ea) = Ret tt ∧ ∃ e, check_processor 0 (intel 0x906ea) = Panic e.
Proof.
  split.
  - apply check_processor_accepts; [by apply intel_ok; vm_compute|]. split; [done|].
    constructor; [by left; vm_compute|by vm_compute|by repeat constructor|by repeat constructor|by vm_compute].
  - apply check_processor_accepts; [by apply intel_ok; vm_compute|]. by intros [? _].
Defined.
(** The log of the family overflows a byte: family 0xf, extended family 0xff. *)
Example family_overflows : check_processor Multiboot.MULTIBOOT2_BOOTLOADER_MAGIC (intel 0x0ff00f00) = Panic Overflow.
Proof. by vm_compute. Qed.
End Cpuid.
