(* ===== verification/Idt32.v ===== *)
(** * The 32-bit interrupt table: crates/x86 idt.rs, bootloader interrupts.rs and default_interrupt.rs

    The table of the bootloader: 256 gates of 8 bytes, built on the first call of
    [interrupts::init] by the bootstrap processor and loaded by every core.  The positions of
    the fields and the panics of [index_mut] are those of [Idt]; the functions the linker placed
    are a parameter. *)
From S2P Require Import Prelude Addr Bits Msr Control Idt.
Import Addr Bits.
Import (notations) Idt.

Module Idt32.

(** ** [Entry] and [EntryOptions] *)
Record Entry := mkEntry { pointer_low : Z; gdt_selector : Z; options : Z; pointer_middle : Z }.
#[global] Instance Entry_eq_dec : EqDecision Entry.
Proof. solve_decision. Defined.
Definition minimal : Z := 0xe00.
Definition missing : Entry := mkEntry 0 0 minimal 0.
Abbreviation InterruptDescriptorTable := (list Entry).
Definition idt_new : InterruptDescriptorTable := replicate 256 missing.
Definition reset (_ : InterruptDescriptorTable) : InterruptDescriptorTable := idt_new.
Definition index_mut (i : nat) : run nat := Idt.index_mut i.
Definition condition_slice_bounds (start_bound end_bound : Idt.Bound) : run (Z * Z) :=
  lower_idx ← match start_bound with Idt.Included s => Ret s | Idt.Excluded s => uadd 32 s 1 | Idt.Unbounded => Ret 0 end;
  upper_idx ← match end_bound with Idt.Included e => uadd 32 e 1 | Idt.Excluded e => Ret e | Idt.Unbounded => Ret 256 end;
  if (256 <? lower_idx) || (256 <? upper_idx) then Panic Explicit
  else if lower_idx <? 32 then Panic Explicit
  else Ret (lower_idx, upper_idx).
Definition slice (idt : InterruptDescriptorTable) (s e : Idt.Bound) : run (list Entry) :=
  '(lower_idx, upper_idx) ← condition_slice_bounds s e;
  lo ← usub lower_idx 32;
  hi ← usub upper_idx 32;
  if hi <? lo then Panic OutOfBounds
  else Ret (take (Z.to_nat (hi - lo)) (drop (Z.to_nat lo) (drop 32 idt))).
Definition pointer (addr : Z) : Control.DescriptorTablePointer := Control.mkPointer (cast 16 (256 * 8 - 1)) addr.
Definition get_handler_fn (e : Entry) : Z := Z.lor (pointer_low e) (ushl 32 (pointer_middle e) 16).

Section idt.
Context {BF : BitField}.
Definition set_present (o : Z) (present : bool) : run Z := set_bits o 15 (15 + 1) (Z.b2z present).
Definition set_privilege_level (o : Z) (dpl : Msr.PrivilegeLevel) : run Z := set_bits o 13 15 (Msr.ring_number dpl).
(** [cs] is what [segmentation::cs()] returns. *)
Definition set_handler_addr (e : Entry) (cs addr : Z) : run Entry :=
  o ← set_present (options e) true;
  Ret (mkEntry (cast 16 addr) cs o (cast 16 (Z.shiftr addr 16))).

(** ** The handlers *)
Inductive handler :=
  | page_fault_handler (N : nat) | invalid_op
  | default_handler (N : nat) | default_handler_with_error (N : nat)
  | default_diverging_handler (N : nat) | default_diverging_with_error_handler (N : nat).
#[global] Instance handler_eq_dec : EqDecision handler.
Proof. solve_decision. Defined.
Variable fn_addr : handler → Z.

Definition set_handler_fn (cs : Z) (v : nat) (h : handler) (idt : InterruptDescriptorTable) : run InterruptDescriptorTable :=
  e ← index idt v;
  e ← set_handler_addr e cs (fn_addr h);
  store idt v e.
Definition set_indexed (cs : Z) (i : nat) (h : handler) (idt : InterruptDescriptorTable) : run InterruptDescriptorTable :=
  v ← index_mut i; set_handler_fn cs v h idt.
Definition set_defaults (cs : Z) (ns : list nat) : InterruptDescriptorTable → run InterruptDescriptorTable :=
  for_each (λ n, set_indexed cs n (default_handler n)) ns.
Definition init_default_handlers (cs : Z) (idt : InterruptDescriptorTable) : run InterruptDescriptorTable :=
  idt ← set_defaults cs (seq 0 8) idt;
  idt ← set_handler_fn cs Idt.double_fault (default_diverging_with_error_handler 8) idt;
  idt ← set_defaults cs [9%nat] idt;
  idt ← set_handler_fn cs Idt.invalid_tss (default_handler_with_error 10) idt;
  idt ← set_handler_fn cs Idt.segment_not_present (default_handler_with_error 11) idt;
  idt ← set_handler_fn cs Idt.stack_segment_fault (default_handler_with_error 12) idt;
  idt ← set_handler_fn cs Idt.general_protection_fault (default_handler_with_error 13) idt;
  idt ← set_defaults cs [16%nat] idt;
  idt ← set_handler_fn cs Idt.alignment_check (default_handler_with_error 17) idt;
  idt ← set_handler_fn cs Idt.machine_check (default_diverging_handler 18) idt;
  idt ← set_defaults cs [19%nat; 20%nat] idt;
  idt ← set_handler_fn cs Idt.security_exception (default_handler_with_error 30) idt;
  set_defaults cs (seq 32 224) idt.

(** [interrupts::init]; [addr] is where the static lies, the result what [lidt] loads. *)
Definition init (IDT : option InterruptDescriptorTable) (cs addr : Z)
    : run (option InterruptDescriptorTable * Control.DescriptorTablePointer) :=
  IDT ← match IDT with
        | Some _ => Ret IDT
        | None =>
            let idt := idt_new in
            idt ← set_handler_fn cs Idt.page_fault (page_fault_handler 14) idt;
            idt ← init_default_handlers cs idt;
            idt ← set_handler_fn cs Idt.invalid_opcode invalid_op idt;
            Ret (Some idt)
        end;
  _ ← unwrap IDT;
  Ret (IDT, pointer addr).

(** ** What the table holds *)
Definition entry_of (cs : Z) (h : handler) : Entry := mkEntry (field (fn_addr h) 0 16) cs 0x8e00 (field (fn_addr h) 16 32).
Abbreviation installed := (list (nat * handler)).
Fixpoint layout (cs : Z) (l : installed) : InterruptDescriptorTable :=
  match l with [] => idt_new | (v, h) :: l' => <[v := entry_of cs h]> (layout cs l') end.
Lemma layout_length32 cs l : length (layout cs l) = 256%nat.
Proof. induction l as [|[v h] l IH]; simpl; [done|]. by rewrite length_insert. Qed.
Lemma layout_lookup32 cs v l : (v < 256)%nat →
  layout cs l !! v = Some (match Idt.assoc v l with Some h => entry_of cs h | None => missing end).
Proof.
  intros Hv. induction l as [|[w h] l IH]; simpl; [by apply lookup_replicate_2|]. case_decide as E.
  - subst w. apply list_lookup_insert_eq. by rewrite layout_length32.
  - by rewrite list_lookup_insert_ne.
Qed.
Lemma set_handler_fn_layout32 cs v h l :
  (v < 256)%nat → set_handler_fn cs v h (layout cs l) = Ret (layout cs ((v, h) :: l)).
Proof.
  intros Hv. unfold set_handler_fn. unfold index at 1. rewrite layout_lookup32 by done. cbn [mbind run_bind].
  unfold set_handler_addr, set_present.
  assert (∀ e, options e = 0xe00 ∨ options e = 0x8e00 → set_bits (options e) 15 (15 + 1) (Z.b2z true) = Ret 0x8e00) as Hs.
  { intros e [-> | ->]; (rewrite set_bits_value; [by vm_compute|cbn; unfold in_width; lia..]). }
  rewrite Hs by (destruct (Idt.assoc v l); [by right|by left]). cbn [mbind run_bind]. rewrite store_Ret by (by rewrite layout_length32).
  cbn [layout]. unfold entry_of, field, cast. rewrite Z.div_1_r, Z.shiftr_div_pow2 by lia. done.
Qed.
Definition defaulted (ns : list nat) (l : installed) : installed := foldl (λ l n, (n, default_handler n) :: l) l ns.
Lemma set_defaults_layout cs ns l :
  Forall (λ n, index_mut n = Ret n ∧ n < 256)%nat ns → set_defaults cs ns (layout cs l) = Ret (layout cs (defaulted ns l)).
Proof.
  intros Hns. revert l. induction Hns as [|n ns [Hi Hn] _ IH]; intros l; [done|].
  change (set_defaults cs (n :: ns) (layout cs l)) with (set_indexed cs n (default_handler n) (layout cs l) ≫= set_defaults cs ns).
  unfold set_indexed. rewrite Hi. cbn [mbind run_bind]. rewrite set_handler_fn_layout32 by done. cbn [mbind run_bind]. apply IH.
Qed.
Definition low_installed : installed :=
  (Idt.security_exception, default_handler_with_error 30) ::
  defaulted [19; 20]%nat ((Idt.machine_check, default_diverging_handler 18) :: (Idt.alignment_check, default_handler_with_error 17) ::
  defaulted [16]%nat ((Idt.general_protection_fault, default_handler_with_error 13) :: (Idt.stack_segment_fault, default_handler_with_error 12) ::
    (Idt.segment_not_present, default_handler_with_error 11) :: (Idt.invalid_tss, default_handler_with_error 10) ::
  defaulted [9]%nat ((Idt.double_fault, default_diverging_with_error_handler 8) ::
  defaulted (seq 0 8) [(Idt.page_fault, page_fault_handler 14)]))).
Definition all_installed : installed := (Idt.invalid_opcode, invalid_op) :: defaulted (seq 32 224) low_installed.

Lemma handler_then {B} cs v h l (k : InterruptDescriptorTable → run B) :
  (v < 256)%nat → (set_handler_fn cs v h (layout cs l) ≫= k) = k (layout cs ((v, h) :: l)).
Proof. intros Hv. by rewrite set_handler_fn_layout32. Qed.
Lemma defaults_then {B} cs ns l (k : InterruptDescriptorTable → run B) :
  Forall (λ n, index_mut n = Ret n ∧ n < 256)%nat ns → (set_defaults cs ns (layout cs l) ≫= k) = k (layout cs (defaulted ns l)).
Proof. intros Hn. by rewrite set_defaults_layout. Qed.
Lemma exception_indices : Forall (λ n, index_mut n = Ret n ∧ n < 256)%nat (seq 0 8 ++ [9; 16; 19; 20]%nat).
Proof. repeat constructor. Qed.
Lemma user_indices : Forall (λ n, index_mut n = Ret n ∧ n < 256)%nat (seq 32 224).
Proof. apply Forall_forall. intros n Hn. apply elem_of_seq in Hn. split; [apply Idt.index_mut_user; lia|lia]. Qed.
Lemma init_builds cs addr : init None cs addr = Ret (Some (layout cs all_installed), pointer addr).
Proof.
  unfold init, init_default_handlers. cbv zeta. change idt_new with (layout cs []).
  pose proof exception_indices as Hl. rewrite Forall_app, !Forall_cons in Hl. destruct Hl as (H0 & H9 & H16 & H19 & H20 & _).
  assert (∀ n, index_mut n = Ret n ∧ (n < 256)%nat → Forall (λ n, index_mut n = Ret n ∧ n < 256)%nat [n]) as Hone by (by constructor).
  rewrite handler_then by (by apply Nat.ltb_lt). rewrite defaults_then by done. rewrite handler_then by (by apply Nat.ltb_lt).
  rewrite defaults_then by auto. do 4 rewrite handler_then by (by apply Nat.ltb_lt). rewrite defaults_then by auto.
  do 2 rewrite handler_then by (by apply Nat.ltb_lt). rewrite defaults_then by auto. rewrite handler_then by (by apply Nat.ltb_lt).
  rewrite defaults_then by exact user_indices. rewrite handler_then by (by apply Nat.ltb_lt). reflexivity.
Qed.

(** ** The specification of the table *)
(** The vector a handler is written for, whether it takes an error code, and whether it
    returns. *)
Definition vector (h : handler) : nat :=
  match h with
  | page_fault_handler N | default_handler N | default_handler_with_error N
  | default_diverging_handler N | default_diverging_with_error_handler N => N
  | invalid_op => 6%nat
  end.
Definition takes_error (h : handler) : bool :=
  match h with page_fault_handler _ | default_handler_with_error _ | default_diverging_with_error_handler _ => true | _ => false end.
Definition diverges (h : handler) : bool :=
  match h with default_diverging_handler _ | default_diverging_with_error_handler _ => true | _ => false end.
(** The exceptions for which the processor pushes an error code, the aborts, and the vectors
    it reserves. *)
Definition error_vectors : list nat := [8; 10; 11; 12; 13; 14; 17; 30]%nat.
Definition aborts : list nat := [8; 18]%nat.
Definition reserved_vectors : list nat := (15 :: 31 :: seq 21 9)%nat.
Definition fits (v : nat) (h : handler) : bool :=
  bool_decide (vector h = v) && eqb (takes_error h) (bool_decide (v ∈ error_vectors)) && eqb (diverges h) (bool_decide (v ∈ aborts)).

Definition gate_ok (cs : Z) (v : nat) (e : Entry) : Prop :=
  if decide (v ∈ reserved_vectors) then e = missing
  else ∃ h, get_handler_fn e = fn_addr h ∧ fits v h = true ∧ gdt_selector e = cs
         ∧ field (options e) 8 12 = 14 ∧ field (options e) 13 15 = 0 ∧ field (options e) 15 16 = 1.

Lemma installed_spec v : (v < 256)%nat →
  match Idt.assoc v all_installed with
  | Some h => fits v h = true ∧ v ∉ reserved_vectors
  | None => v ∈ reserved_vectors
  end.
Proof.
  assert (Forall (λ v, match Idt.assoc v all_installed with
                       | Some h => fits v h && bool_decide (v ∉ reserved_vectors)
                       | None => bool_decide (v ∈ reserved_vectors)
                       end = true) (seq 0 256)) as H by (apply (bool_decide_unpack _); by vm_compute).
  intros Hv. rewrite Forall_forall in H. specialize (H v). rewrite elem_of_seq in H. specialize (H ltac:(lia)).
  destruct (Idt.assoc v all_installed); [|by apply bool_decide_eq_true in H].
  apply andb_true_iff in H as [H1 H2]. split; [done|by apply bool_decide_eq_true in H2].
Qed.
Lemma get_handler_fn_of cs h : in_width 32 (fn_addr h) → get_handler_fn (entry_of cs h) = fn_addr h.
Proof.
  intros Ha. unfold get_handler_fn, entry_of, ushl, field. cbn [pointer_low pointer_middle]. unfold in_width in Ha.
  pose proof (Z.mod_pos_bound (fn_addr h) (2 ^ 16) ltac:(lia)) as Hm. pose proof (Z.div_mod (fn_addr h) (2 ^ 16) ltac:(lia)) as Hd.
  assert (fn_addr h / 2 ^ 16 < 2 ^ 16) by (apply Z.div_lt_upper_bound; lia). assert (0 ≤ fn_addr h / 2 ^ 16) by (apply Z.div_pos; lia).
  change (2 ^ 0) with 1. rewrite Z.div_1_r, Z.shiftl_mul_pow2 by lia. change (2 ^ (16 - 0)) with (2 ^ 16). change (2 ^ (32 - 16)) with (2 ^ 16).
  rewrite (Z.mod_small (fn_addr h / 2 ^ 16)), (Z.mod_small (_ * _)) by lia.
  rewrite Z.lor_comm, (lor_disjoint _ _ 16); [lia|lia|apply Z_mod_mult|unfold in_width; lia].
Qed.

Hypothesis fn_width : ∀ h, in_width 32 (fn_addr h).
Lemma layout_gates32 cs v e : layout cs all_installed !! v = Some e → gate_ok cs v e.
Proof.
  intros He. assert (v < 256)%nat as Hv by (rewrite <- (layout_length32 cs all_installed); by eapply lookup_lt_Some).
  rewrite layout_lookup32 in He by done. apply (inj Some) in He. subst e. pose proof (installed_spec v Hv) as Hs. unfold gate_ok.
  destruct (Idt.assoc v all_installed) as [h|]; [|by rewrite decide_True]. destruct Hs as [Hf Hr]. rewrite decide_False by done.
  exists h. rewrite get_handler_fn_of by done. do 3 (split; [done|]). by vm_compute.
Qed.

(** C40: the first [interrupts::init] of the bootloader never panics and loads a table of 256
    gates in which every vector but the reserved ones has a present interrupt gate of
    privilege 0 with the given code selector, whose handler is written for this vector, takes an
    error code exactly where the processor pushes one, and does not return exactly from the
    aborts.  Every later call, on any core, keeps the table and loads it. *)
Theorem bootloader_idt_installs cs addr :
  ∃ idt, init None cs addr = Ret (Some idt, Control.mkPointer 2047 addr) ∧ length idt = 256%nat
    ∧ (∀ v e, idt !! v = Some e → gate_ok cs v e)
    ∧ ∀ cs2, init (Some idt) cs2 addr = Ret (Some idt, Control.mkPointer 2047 addr).
Proof.
  exists (layout cs all_installed). split; [apply init_builds|]. split; [apply layout_length32|]. split; [intros v e; apply layout_gates32|done].
Qed.
End idt.

(** ** Instances *)
#[local] Existing Instance bit_field_model.
Definition sample_fn (h : handler) : Z := 0x100000 + 16 * (Z.of_nat (vector h) mod 256).
Lemma sample_width h : in_width 32 (sample_fn h).
Proof. unfold sample_fn, in_width. pose proof (Z.mod_pos_bound (Z.of_nat (vector h)) 256 ltac:(lia)). lia. Qed.
Lemma bootloader_idt_installs_witness :
  ∃ idt, init sample_fn None 24 0x7000 = Ret (Some idt, Control.mkPointer 2047 0x7000)
    ∧ ∀ e, idt !! 14%nat = Some e → get_handler_fn e = 0x1000e0 ∧ gdt_selector e = 24.
Proof.
  destruct (bootloader_idt_installs sample_fn sample_width 24 0x7000) as (idt & H & _ & Hg & _). exists idt. split; [exact H|].
  intros e He. destruct (Hg _ _ He) as (h & -> & Hf & -> & _). split; [|reflexivity]. unfold fits in Hf.
  rewrite !andb_true_iff in Hf. destruct Hf as [[Hv _] _]. apply bool_decide_eq_true in Hv. unfold sample_fn. rewrite Hv. reflexivity.
Defined.
End Idt32.
