(* ===== verification/Handover.v ===== *)
(** * From the bootloader to the kernel: media_extensions.rs, mmu.rs, main.rs, smp.rs, start.s

    What a core does between the memory set-up of the bootloader and the entry of the kernel.
    The bootstrap processor runs the end of [bootloader_main]; every other core comes from the
    trampoline, waits for the one bootstrap stack, runs [smp_main] and gives the stack back.
    Both enable the media extensions the processor announces, set up the memory management
    and switch to long mode.  The control registers are those of the crate x86 (32 bits
    wide), on the registers of a core of [Control]; the processor is what [cpuid] answers. *)
From stdpp Require Import relations.
From S2P Require Import Prelude MemoryMap Bytes Addr Paging Msr Control Mapper KernelMemory Mmu Boot Multiboot Cores Stacks KernelInit Paging32 Cpuid Idt Idt32.
Import Bytes Paging Control.

Module Handover.

(** ** crates/x86/src/registers *)
Definition set_idtr (c : cpu) (p : DescriptorTablePointer) : cpu :=
  mkCpu (msrs c) (cr0 c) (cr2 c) (cr3 c) (cr4 c) (cr8 c) (xcr0 c) (rflags c) (gdtr c) p.
Definition set_msrs (c : cpu) (m : Msr.machine) : cpu :=
  mkCpu m (cr0 c) (cr2 c) (cr3 c) (cr4 c) (cr8 c) (xcr0 c) (rflags c) (gdtr c) (idtr c).

(** bitflags: [set], which inserts or removes. *)
Definition set_flag (flags other : Z) (value : bool) : Z := if value then Z.lor flags other else Z.land flags (unot 32 other).

Definition Cr0Flags32 : Z := bits_of [0; 1; 2; 3; 5; 16; 18; 29; 30; 31].
Definition Cr3Flags32 : Z := bits_of [3; 4].
Definition Cr4Flags32 : Z := bits_of [0; 1; 2; 3; 4; 5; 6; 7; 8; 9; 10; 11; 12; 13; 14; 16; 17; 18; 20; 21; 22].
Definition EFlags32 : Z := bits_of [0; 2; 4; 6; 7; 8; 9; 10; 11; 12; 13; 14; 16; 17; 18; 19; 20; 21].
Definition Cr0_32 : control_register := mkControl cr0 set_cr0 Cr0Flags32.
Definition Cr4_32 : control_register := mkControl cr4 set_cr4 Cr4Flags32.
Definition EFLAGS : control_register := mkControl rflags set_rflags EFlags32.
Definition ctl32_read (r : control_register) (c : cpu) : Z := Z.land (ctl_read_raw r c) (defined r).
Definition ctl32_write (r : control_register) (c : cpu) (flags : Z) : cpu :=
  let old_value := ctl_read_raw r c in
  let reserved := Z.land old_value (unot 32 (defined r)) in
  let new_value := Z.lor reserved flags in
  ctl_write_raw r c new_value.
Definition ctl32_update (r : control_register) (c : cpu) (f : Z → Z) : cpu :=
  let flags := ctl32_read r c in ctl32_write r c (f flags).

Definition cr2_read32 (c : cpu) : Z := cr2 c.
Definition cr3_read_raw32 (c : cpu) : run (Z * Z) :=
  let value := cr3 c in
  f ← Paging32.frame_containing_address Paging32.Size4KiB (Z.land value 0xfffff000);
  Ret (f, cast 16 (Z.land value 0xfff)).
Definition cr3_read32 (c : cpu) : run (Z * Z) := '(f, value) ← cr3_read_raw32 c; Ret (f, Z.land value Cr3Flags32).
Definition cr3_read_pcid32 (c : cpu) : run (Z * Z) := '(f, value) ← cr3_read_raw32 c; p ← unwrap (pcid_new value); Ret (f, p).
Definition cr3_write_raw32 (c : cpu) (f val : Z) : cpu := set_cr3 c (Z.lor f val).
Definition cr3_write32 (c : cpu) (f flags : Z) : cpu := cr3_write_raw32 c f (cast 16 flags).
Definition cr3_write_pcid32 (c : cpu) (f pcid : Z) : cpu := cr3_write_raw32 c f pcid.
(** [XCr0] is the same code as in the crate x86_64. *)
Definition xcr0_read32 (c : cpu) : Z := xcr0_read c.
Definition xcr0_write32 (c : cpu) (flags : Z) : run cpu := xcr0_write c flags.

Definition EFER : Z := 0xc0000080.
Definition EferFlags32 : Z := bits_of [0; 8; 10; 11; 12; 13; 14; 15].
Definition efer_read_raw32 (c : cpu) : run Z := v ← Msr.msr_read (msrs c) EFER; Ret (cast 32 v).
Definition efer_read32 (c : cpu) : run Z := v ← efer_read_raw32 c; Ret (Z.land v EferFlags32).
Definition efer_write_raw32 (c : cpu) (flags : Z) : run cpu := m ← Msr.msr_write (msrs c) EFER flags; Ret (set_msrs c m).
Definition efer_write32 (c : cpu) (flags : Z) : run cpu :=
  old_value ← efer_read_raw32 c;
  let reserved := Z.land old_value (unot 32 EferFlags32) in
  efer_write_raw32 c (Z.lor reserved flags).
Definition efer_update32 (c : cpu) (f : Z → Z) : run cpu := flags ← efer_read32 c; efer_write32 c (f flags).

(** ** media_extensions.rs *)
Definition MONITOR_COPROCESSOR : Z := Z.shiftl 1 1.
Definition EMULATE_COPROCESSOR : Z := Z.shiftl 1 2.
Definition TASK_SWITCHED : Z := Z.shiftl 1 3.
Definition WRITE_PROTECT : Z := Z.shiftl 1 16.
Definition NOT_WRITE_THROUGH : Z := Z.shiftl 1 29.
Definition CACHE_DISABLE : Z := Z.shiftl 1 30.
Definition OSFXSR : Z := Z.shiftl 1 9.
Definition OSXMMEXCPT_ENABLE : Z := Z.shiftl 1 10.
Definition OSXSAVE : Z := Z.shiftl 1 18.
Definition NO_EXECUTE_ENABLE : Z := Z.shiftl 1 11.

Definition enable_sse (c : cpu) : cpu :=
  let flags := ctl32_read Cr4_32 c in
  let flags := set_flag flags OSFXSR true in
  let flags := set_flag flags OSXMMEXCPT_ENABLE true in
  let c := ctl32_write Cr4_32 c flags in
  let flags := ctl32_read Cr0_32 c in
  let flags := set_flag flags EMULATE_COPROCESSOR false in
  let flags := set_flag flags MONITOR_COPROCESSOR true in
  let flags := set_flag flags TASK_SWITCHED false in
  ctl32_write Cr0_32 c flags.
Definition enable_avx (c : cpu) : run cpu :=
  let flags := ctl32_read Cr4_32 c in
  let flags := set_flag flags OSXSAVE true in
  let c := ctl32_write Cr4_32 c flags in
  let flags := xcr0_read32 c in
  let flags := set_flag flags X87 true in
  let flags := set_flag flags AVX true in
  let flags := set_flag flags SSE true in
  xcr0_write32 c flags.
Definition enable_all (p : Cpuid.CpuIdReader) (c : cpu) : run cpu :=
  let cpuid := Cpuid.with_cpuid_fn p in
  features ← unwrap (Cpuid.get_feature_info cpuid);
  _ ← unwrap (Cpuid.get_extended_processor_and_feature_identifiers cpuid);
  ext_state ← unwrap (Cpuid.get_extended_state_info cpuid);
  if negb (Cpuid.has_fpu features) then Ret c
  else if negb (Cpuid.has_sse features) then Ret c
  else
    let c := enable_sse c in
    if negb (Cpuid.has_xsave features) then Ret c
    else if negb (Cpuid.has_xgetbv ext_state) then Ret c
    else if negb (Cpuid.xcr0_supports_legacy_x87 ext_state) then Ret c
    else if negb (Cpuid.xcr0_supports_sse_128 ext_state) then Ret c
    else if negb (Cpuid.xcr0_supports_avx_256 ext_state) || negb (Cpuid.has_avx features) then Ret c
    else enable_avx c.

(** ** [mmu::setup_mmu] *)
Definition setup_mmu (p4_physical : Z) (c : cpu) : run cpu :=
  let flags := ctl32_read Cr0_32 c in
  let c := ctl32_write Cr0_32 c (set_flag flags WRITE_PROTECT true) in
  flags ← efer_read32 c;
  c ← efer_write32 c (set_flag flags NO_EXECUTE_ENABLE true);
  '(_, flags) ← cr3_read32 c;
  r ← Paging32.frame_from_start_address Paging32.Size4KiB p4_physical;
  f ← match r with Ok f => Ret f | Err _ => Panic Unwrap end;
  Ret (cr3_write32 c f flags).

(** ** start.s: [switch_to_long_mode]
    When paging is enabled with the long mode bit of EFER set, the processor sets the bit that
    long mode is active. *)
Definition mov_cr0 (c : cpu) (v : Z) : run cpu :=
  let c := set_cr0 c v in
  '(edx, eax) ← Msr.rdmsr (msrs c) EFER;
  if Z.testbit v 31 && Z.testbit eax 8 then
    m ← Msr.wrmsr (msrs c) EFER (Z.lor eax (Z.shiftl 1 10)) edx; Ret (set_msrs c m)
  else Ret c.
Definition switch_to_long_mode (c : cpu) : run cpu :=
  let c := set_cr4 c (Z.lor (cr4 c) (Z.shiftl 1 5)) in
  '(edx, eax) ← Msr.rdmsr (msrs c) EFER;
  m ← Msr.wrmsr (msrs c) EFER (Z.lor eax (Z.shiftl 1 8)) edx;
  let c := set_msrs c m in
  mov_cr0 c (Z.lor (cr0 c) (Z.shiftl 1 31)).

(** ** main.rs: the end of [bootloader_main] *)
Definition ELF_MAGIC : list Z := [0x7f; 0x45; 0x4c; 0x46; 0x02; 0x01; 0x01; 0; 0; 0; 0; 0; 0; 0; 0; 0].
Record Elf32Header := mkHeader { e_ident : list Z; e_type : Z; e_machine : Z; e_version : Z; e_entry : Z }.
Definition get_kernel_header (mem : Z → Z) (kernel_start : Z) : run Elf32Header :=
  let h := mkHeader (read_bytes mem kernel_start 16) (read_uint mem (kernel_start + 16) 2) (read_uint mem (kernel_start + 18) 2)
             (read_uint mem (kernel_start + 20) 4) (read_uint mem (kernel_start + 24) 4) in
  if bool_decide (e_ident h ≠ ELF_MAGIC) then Panic Explicit else Ret h.

Abbreviation BootInfo := KernelInit.BootInfo.
Definition with_cores (b : BootInfo) (cs : Cores.Cores) : BootInfo :=
  KernelInit.mkBootInfo (KernelInit.memory_map b) (KernelInit.smp_trampoline b) (KernelInit.physical_memory_offset b)
    (KernelInit.page_table_addr b) (KernelInit.kernel_entry_addr b) cs (KernelInit.max_phys_memory b).
Definition with_page_table (b : BootInfo) (p4 : Z) : BootInfo :=
  KernelInit.mkBootInfo (KernelInit.memory_map b) (KernelInit.smp_trampoline b) (KernelInit.physical_memory_offset b)
    p4 (KernelInit.kernel_entry_addr b) (KernelInit.boot_cores b) (KernelInit.max_phys_memory b).
Definition with_entry (b : BootInfo) (entry : Z) : BootInfo :=
  KernelInit.mkBootInfo (KernelInit.memory_map b) (KernelInit.smp_trampoline b) (KernelInit.physical_memory_offset b)
    (KernelInit.page_table_addr b) entry (KernelInit.boot_cores b) (KernelInit.max_phys_memory b).
Definition count_booted (cs : Cores.Cores) (n : Z) : Cores.Cores := Cores.mkCores (Cores.cores cs) n (Cores.num_cores cs).
(** [get_stack_start().expect(..) - 8]. *)
Definition initial_stack (core : Cores.Core) : run Z := s ← unwrap (Cores.get_stack_start core); usub s 8.

(** A core at the entry of the kernel: its registers, [rip] and [rsp]. *)
Record entered := mkEntered { en_cpu : cpu; en_rip : Z; en_rsp : Z }.
Definition finish_boot (mem : Z → Z) (kernel_start : Z) (p : Cpuid.CpuIdReader) (p4_physical : Z) (b : BootInfo) (c : cpu)
    : run (BootInfo * entered) :=
  c ← enable_all p c;
  c ← setup_mmu p4_physical c;
  let b := with_page_table b p4_physical in
  n ← uadd 16 (Cores.num_booted_cores (KernelInit.boot_cores b)) 1;
  let b := with_cores b (count_booted (KernelInit.boot_cores b) n) in
  kernel_header ← get_kernel_header mem kernel_start;
  core ← Cores.core_at (KernelInit.boot_cores b) 0;
  stack_addr ← initial_stack core;
  let entry_addr := e_entry kernel_header in
  let b := with_entry b entry_addr in
  c ← switch_to_long_mode c;
  Ret (b, mkEntered c entry_addr stack_addr).

(** ** The registers afterwards *)
(** Two values agree if they agree on the bits of their width. *)
Lemma bits_eq w a b :
  0 ≤ w → in_width w a → in_width w b → Forall (λ i, Z.testbit a i = Z.testbit b i) (seqZ 0 w) → a = b.
Proof.
  intros Hw Ha Hb H. apply Z.bits_inj'. intros i Hi. destruct (decide (i < w)).
  - rewrite Forall_forall in H. apply H. rewrite elem_of_seqZ. lia.
  - by rewrite !(testbit_above w) by (done || lia).
Qed.
(** Writing back the defined flags of a register with [on] inserted and [off] removed. *)
Lemma write_back w old al on off :
  0 ≤ w → in_width w old → in_width w al → Msr.subset on al → Msr.subset off al →
  Z.lor (Z.land old (unot w al)) (Z.lor (Z.land (Z.land old al) (unot w off)) on) = Z.lor (Z.ldiff old off) on.
Proof.
  intros Hw Ho Ha Hon Hoff. pose proof (Msr.subset_width w off al Hw Ha Hoff) as Hoffw.
  apply Z.bits_inj'. intros i Hi. rewrite !Z.lor_spec, !Z.land_spec, Z.ldiff_spec.
  assert (Z.testbit on i = Z.testbit on i && Z.testbit al i) as -> by (rewrite <- Z.land_spec; by rewrite (proj2 Hon)).
  assert (Z.testbit off i = Z.testbit off i && Z.testbit al i) as -> by (rewrite <- Z.land_spec; by rewrite (proj2 Hoff)).
  destruct (decide (i < w)).
  - rewrite !Msr.testbit_unot by (done || lia).
    destruct (Z.testbit old i), (Z.testbit al i), (Z.testbit on i), (Z.testbit off i); done.
  - rewrite (testbit_above w old), (testbit_above w al) by (done || lia). by rewrite !andb_false_r.
Qed.
Lemma write_back_on w old al on :
  0 ≤ w → in_width w old → in_width w al → Msr.subset on al →
  Z.lor (Z.land old (unot w al)) (Z.lor (Z.land old al) on) = Z.lor old on.
Proof.
  intros Hw Ho Ha Hon. pose proof (write_back w old al on 0 Hw Ho Ha Hon) as H. rewrite Z.ldiff_0_r in H. rewrite <- H; [|done].
  do 2 f_equal. apply Z.bits_inj'. intros i Hi. rewrite !Z.land_spec. destruct (decide (i < w)).
  - rewrite (Msr.testbit_unot w 0), Z.bits_0 by (try lia; unfold in_width; pose proof (pow2_pos w Hw); lia). by rewrite andb_true_r.
  - by rewrite (testbit_above w old) by (done || lia).
Qed.

Record ready (c : cpu) (efer : Z) : Prop := {
  rd_width : in_width 32 (cr0 c) ∧ in_width 32 (cr3 c) ∧ in_width 32 (cr4 c) ∧ in_width 64 (xcr0 c);
  rd_xcr0 : xcr0_valid (Z.land (xcr0 c) XCr0Flags) = true;
  rd_efer : msrs c !! EFER = Some efer ∧ in_width 64 efer;
  (** protected mode *)
  rd_protected : Z.testbit (cr0 c) 0 = true
}.

Lemma enable_sse_spec c efer :
  ready c efer → enable_sse c = set_cr0 (set_cr4 c (Z.lor (cr4 c) 0x600)) (Z.lor (Z.ldiff (cr0 c) 0xc) 2).
Proof.
  intros [(H0 & _ & H4 & _) _ _ _]. unfold enable_sse, ctl32_write, ctl32_read, ctl_read_raw, ctl_write_raw. cbn [get set defined Cr4_32 Cr0_32].
  unfold set_flag. cbv zeta match.
  assert (Z.lor (Z.land (cr4 c) (unot 32 Cr4Flags32)) (Z.lor (Z.lor (Z.land (cr4 c) Cr4Flags32) OSFXSR) OSXMMEXCPT_ENABLE) = Z.lor (cr4 c) 0x600) as ->.
  { rewrite <- (Z.lor_assoc (Z.land _ _) OSFXSR). apply write_back_on; [lia|done|by vm_compute..]. }
  f_equal. cbn [cr0 set_cr4].
  rewrite <- (write_back 32 (cr0 c) Cr0Flags32 2 0xc) by (try done; try lia; by vm_compute). f_equal.
  rewrite Z.land_lor_distr_l, <- Z.land_assoc. reflexivity.
Qed.
Lemma enable_caches_value c efer :
  ready c efer →
  ctl32_write Cr0_32 c (set_flag (set_flag (ctl32_read Cr0_32 c) NOT_WRITE_THROUGH false) CACHE_DISABLE false)
  = set_cr0 c (Z.ldiff (cr0 c) 0x60000000).
Proof.
  intros [(H0 & _) _ _ _]. unfold ctl32_write, ctl32_read, ctl_read_raw, ctl_write_raw. cbn [get set defined Cr0_32]. unfold set_flag. cbv match. f_equal.
  rewrite <- (Z.lor_0_r (Z.ldiff _ _)). rewrite <- (write_back 32 (cr0 c) Cr0Flags32 0 0x60000000) by (try done; try lia; by vm_compute). f_equal.
  rewrite Z.lor_0_r, <- Z.land_assoc. reflexivity.
Qed.
(** The state components stay a valid combination. *)
Lemma xcr0_valid_insert x : xcr0_valid x = true → xcr0_valid (Z.lor x 7) = true.
Proof.
  unfold xcr0_valid. rewrite !Z.lor_spec. rewrite !andb_true_iff. intros (((((H0 & H1) & H3) & H5) & H6) & H2).
  change (Z.testbit 7 0) with true. change (Z.testbit 7 1) with true. change (Z.testbit 7 2) with true.
  change (Z.testbit 7 3) with false. change (Z.testbit 7 4) with false. change (Z.testbit 7 5) with false.
  change (Z.testbit 7 6) with false. change (Z.testbit 7 7) with false. rewrite !orb_true_r, !orb_false_r.
  rewrite H3, H5, H6. destruct (Z.testbit x 5); done.
Qed.
Lemma enable_avx_spec c efer :
  ready c efer → enable_avx c = Ret (set_xcr0 (set_cr4 c (Z.lor (cr4 c) 0x40000)) (Z.lor (xcr0 c) 7)).
Proof.
  intros [(_ & _ & H4 & Hx) Hv _ _]. unfold enable_avx, ctl32_write, ctl32_read, ctl_read_raw, ctl_write_raw. cbn [get set defined Cr4_32].
  unfold set_flag. cbv zeta match. rewrite write_back_on by (try done; try lia; by vm_compute).
  unfold xcr0_write32. rewrite xcr0_write_cases. unfold xcr0_read32, xcr0_read, xcr0_read_raw. cbn [xcr0 set_cr4]. rewrite !Msr.join_halves by done.
  rewrite <- !Z.lor_assoc. change (Z.lor X87 (Z.lor AVX SSE)) with 7. rewrite xcr0_valid_insert by done.
  rewrite write_back_on by (try done; try lia; by vm_compute). f_equal. unfold xcr0_write_raw, set_xcr0. cbn [msrs cr0 cr2 cr3 cr4 cr8 rflags gdtr idtr set_cr4].
  assert (in_width 64 (Z.lor (xcr0 c) 7)) as Hw by (apply Msr.lor_width; [lia|done|by vm_compute]).
  destruct (Msr.halves _ Hw) as [-> ->]. pose proof (Z.div_mod (Z.lor (xcr0 c) 7) (2 ^ 32) ltac:(lia)). f_equal. lia.
Qed.

(** What [cpuid] announces, and the registers [enable_all] leaves. *)
Definition sse_announced (p : Cpuid.CpuIdReader) : bool := Z.testbit (Cpuid.edx (p 1 0)) 0 && Z.testbit (Cpuid.edx (p 1 0)) 25.
Definition avx_announced (p : Cpuid.CpuIdReader) : bool :=
  Z.testbit (Cpuid.ecx (p 1 0)) 26 && Z.testbit (Cpuid.eax (p 0xd 1)) 2
  && forallb (Z.testbit (Cpuid.eax (p 0xd 0))) [0; 1; 2] && Z.testbit (Cpuid.ecx (p 1 0)) 28.
Definition leaves_present (p : Cpuid.CpuIdReader) : bool :=
  (0xd <=? Cpuid.eax (p 0 0)) && (0x80000001 <=? Cpuid.eax (p 0x80000000 0)).
Definition sse_on (c : cpu) : cpu := set_cr0 (set_cr4 c (Z.lor (cr4 c) 0x600)) (Z.lor (Z.ldiff (cr0 c) 0xc) 2).
Definition avx_on (c : cpu) : cpu := set_xcr0 (set_cr4 c (Z.lor (cr4 c) 0x40000)) (Z.lor (xcr0 c) 7).
Definition media_on (p : Cpuid.CpuIdReader) (c : cpu) : cpu :=
  if sse_announced p then if avx_announced p then avx_on (sse_on c) else sse_on c else c.

Lemma ldiff_lor_width w a b d : 0 ≤ w → in_width w a → in_width w d → in_width w (Z.lor (Z.ldiff a b) d).
Proof. intros Hw Ha Hd. apply Msr.lor_width; [done| |done]. by apply Idt.ldiff_width. Qed.
Lemma sse_on_ready c efer : ready c efer → ready (sse_on c) efer.
Proof.
  intros [(H0 & H3 & H4 & Hx) Hv He Hpe]. constructor; [|done..|]; cbn [cr0 cr3 cr4 xcr0 sse_on set_cr0 set_cr4].
  2: by rewrite Z.lor_spec, Z.ldiff_spec, Hpe.
  split; [apply ldiff_lor_width; [lia|done|by vm_compute]|]. split; [done|]. split; [|done]. apply Msr.lor_width; [lia|done|by vm_compute].
Qed.
Lemma avx_on_ready c efer : ready c efer → ready (avx_on c) efer.
Proof.
  intros [(H0 & H3 & H4 & Hx) Hv He Hpe]. constructor; [| |done..]; cbn [cr0 cr3 cr4 xcr0 avx_on set_xcr0 set_cr4].
  - do 2 (split; [done|]). split; (apply Msr.lor_width; [lia|done|by vm_compute]).
  - rewrite Z.land_lor_distr_l. change (Z.land 7 XCr0Flags) with 7. by apply xcr0_valid_insert.
Qed.
Lemma media_on_ready p c efer : ready c efer → ready (media_on p c) efer.
Proof. intros H. unfold media_on. repeat case_match; auto using sse_on_ready, avx_on_ready. Qed.

Lemma xgetbv_bit s : Cpuid.has_xgetbv s = Z.testbit (Cpuid.eax1 s) 2.
Proof.
  unfold Cpuid.has_xgetbv. rewrite <- (intersects_bit (Cpuid.eax1 s) 2) by lia. unfold intersects. change (Z.shiftl 1 2) with 4.
  assert (0 ≤ Z.land (Cpuid.eax1 s) 4) by (apply Z.land_nonneg; by right). zcase; lia || done.
Qed.
Lemma enable_all_spec p c efer :
  (∀ a i, Cpuid.result_ok (p a i)) → ready c efer →
  enable_all p c = if leaves_present p then Ret (media_on p c) else Panic Unwrap.
Proof.
  intros Hp Hc. unfold enable_all. fold (Cpuid.queried p). rewrite Cpuid.feature_info, Cpuid.identifiers, Cpuid.state_info by done. unfold leaves_present.
  destruct (Z.leb_spec 13 (Cpuid.eax (p 0 0))), (Z.leb_spec 0x80000001 (Cpuid.eax (p 0x80000000 0)));
    [rewrite (proj2 (Z.leb_le 1 _)) by lia|..]; cbn [andb unwrap mbind run_bind];
    [|destruct (1 <=? Cpuid.eax (p 0 0)); reflexivity..].
  unfold Cpuid.has_fpu, Cpuid.has_sse, Cpuid.has_xsave, Cpuid.has_avx, Cpuid.xcr0_supports_legacy_x87, Cpuid.xcr0_supports_sse_128, Cpuid.xcr0_supports_avx_256.
  rewrite !Cpuid.info_bit, !has_bit, xgetbv_bit by (done || lia).
  cbn [Cpuid.st_eax Cpuid.eax1 Cpuid.state_of].
  change (32 <? 32) with false. change (32 + 25 <? 32) with false. change (26 <? 32) with true. change (28 <? 32) with true. cbv match.
  change (32 - 32) with 0. change (32 + 25 - 32) with 25. unfold media_on, sse_announced, avx_announced. cbn [forallb].
  rewrite (enable_sse_spec c efer Hc). fold (sse_on c). rewrite (enable_avx_spec _ efer (sse_on_ready c efer Hc)). fold (avx_on (sse_on c)).
  destruct (Z.testbit (Cpuid.edx (p 1 0)) 0), (Z.testbit (Cpuid.edx (p 1 0)) 25); [|reflexivity..]. cbn [negb andb].
  destruct (Z.testbit (Cpuid.ecx (p 1 0)) 26); [|reflexivity]. cbn [negb andb]. destruct (Z.testbit (Cpuid.eax (p 0xd 1)) 2); [|reflexivity]. cbn [negb andb].
  destruct (Z.testbit (Cpuid.eax (p 0xd 0)) 0); [|reflexivity]. cbn [negb andb]. destruct (Z.testbit (Cpuid.eax (p 0xd 0)) 1); [|reflexivity]. cbn [negb andb].
  destruct (Z.testbit (Cpuid.eax (p 0xd 0)) 2); [|reflexivity]. cbn [negb andb orb]. destruct (Z.testbit (Cpuid.ecx (p 1 0)) 28); reflexivity.
Qed.

(** The registers [setup_mmu] leaves, and those of long mode. *)
Definition mmu_on (p4 efer : Z) (c : cpu) : cpu :=
  set_cr3 (set_msrs (set_cr0 c (Z.lor (cr0 c) 0x10000)) (<[EFER := Z.lor (efer mod 2 ^ 32) 0x800]> (msrs c))) (p4 + Z.land (cr3 c) 0x18).
Definition long_mode_on (efer : Z) (c : cpu) : cpu :=
  set_cr0 (set_msrs (set_cr4 c (Z.lor (cr4 c) 0x20)) (<[EFER := Z.lor efer 0x500]> (msrs c))) (Z.lor (cr0 c) 0x80000000).

Lemma flags3_width c : in_width 32 (cr3 c) → 0 ≤ Z.land (cr3 c) 0x18 < 4096.
Proof.
  intros H. change 0x18 with (Z.land 0xfff 0x18). rewrite Z.land_assoc. change 0xfff with (2 ^ 12 - 1). rewrite land_mask by lia.
  apply (Msr.land_width 12); [lia|apply Z.mod_pos_bound; lia|lia].
Qed.
Lemma setup_mmu_spec p4 c efer :
  ready c efer → in_width 32 p4 →
  setup_mmu p4 c = if p4 mod 4096 =? 0 then Ret (mmu_on p4 efer c) else Panic Unwrap.
Proof.
  intros [(H0 & H3 & H4 & Hx) Hv [He Hew] Hpe] Hp. unfold setup_mmu, ctl32_write, ctl32_read, ctl_read_raw, ctl_write_raw. cbn [get set defined Cr0_32].
  unfold set_flag. cbv zeta match. rewrite write_back_on by (try done; try lia; by vm_compute).
  unfold efer_read32, efer_write32, efer_write_raw32, efer_read_raw32. cbn [msrs set_cr0]. rewrite (Msr.msr_read_Ret _ _ efer) by done.
  cbn [mbind run_bind]. assert (in_width 32 (cast 32 efer)) as Hc by (apply Z.mod_pos_bound; lia).
  rewrite write_back_on by (try done; try lia; by vm_compute).
  rewrite (Msr.msr_write_Ret _ _ efer); [|done|].
  2: { assert (in_width 32 (Z.lor (cast 32 efer) NO_EXECUTE_ENABLE)) as Hw by (apply Msr.lor_width; [lia|done|by vm_compute]). unfold in_width in *. lia. }
  cbn [mbind run_bind]. unfold cr3_read32, cr3_read_raw32. cbn [cr3 set_msrs set_cr0]. change (Z.land (cr3 c) 0xfffff000) with (Paging32.addr (cr3 c)).
  rewrite Paging32.addr32_spec by done. rewrite Paging32.containing_aligned by (first [by apply Paging32.entry_addr_width | apply Paging32.entry_addr_aligned]).
  cbn [mbind run_bind]. rewrite Paging32.frame_from_start32_spec by done. cbn [mbind run_bind]. change (Paging32.SIZE Paging32.Size4KiB) with 4096.
  destruct (Z.eqb_spec (p4 mod 4096) 0) as [Hm|]; [|done]. cbn [mbind run_bind]. f_equal. unfold mmu_on, cr3_write32, cr3_write_raw32.
  assert (cast 16 (Z.land (cast 16 (Z.land (cr3 c) 0xfff)) Cr3Flags32) = Z.land (cr3 c) 0x18) as ->.
  { assert (cast 16 (Z.land (cr3 c) 0xfff) = Z.land (cr3 c) 0xfff) as ->.
    { apply Z.mod_small. change 0xfff with (2 ^ 12 - 1). rewrite land_mask by lia. pose proof (Z.mod_pos_bound (cr3 c) (2 ^ 12) ltac:(lia)). lia. }
    rewrite <- Z.land_assoc. change (Z.land 0xfff Cr3Flags32) with 0x18. apply Z.mod_small. pose proof (flags3_width c H3). lia. }
  pose proof (flags3_width c H3) as Hf.
  assert (Z.lor p4 (Z.land (cr3 c) 0x18) = p4 + Z.land (cr3 c) 0x18) as ->; [|reflexivity].
  apply (lor_disjoint _ _ 12); [lia|exact Hm|]. unfold in_width in *. lia.
Qed.
Lemma mmu_on_ready p4 c efer :
  ready c efer → in_width 32 p4 → p4 mod 4096 = 0 → ready (mmu_on p4 efer c) (Z.lor (efer mod 2 ^ 32) 0x800).
Proof.
  intros [(H0 & H3 & H4 & Hx) Hv [He Hew] Hpe] Hp Hm. constructor; [|done| |].
  - cbn [cr0 cr3 cr4 xcr0 mmu_on set_cr3 set_cr0 set_msrs]. split; [apply Msr.lor_width; [lia|done|by vm_compute]|]. split; [|done].
    pose proof (flags3_width c H3) as Hf. assert (p4 ≤ 2 ^ 32 - 4096).
    { unfold in_width in *. pose proof (Z.div_mod p4 4096 ltac:(lia)). assert (p4 / 4096 < 2 ^ 20) by (apply Z.div_lt_upper_bound; lia). lia. }
    unfold in_width in *. lia.
  - cbn [msrs mmu_on set_cr3 set_msrs set_cr0]. split; [apply lookup_insert_eq|].
    assert (in_width 32 (Z.lor (efer mod 2 ^ 32) 0x800)) as Hw.
    { apply Msr.lor_width; [lia|apply Z.mod_pos_bound; lia|by vm_compute]. }
    unfold in_width in *. lia.
  - cbn [cr0 mmu_on set_cr3 set_msrs set_cr0]. by rewrite Z.lor_spec, Hpe.
Qed.
(** The low half of a register with a bit inserted. *)
Lemma insert_low v k : in_width 64 v → in_width 32 k → v / 2 ^ 32 * 2 ^ 32 + Z.lor (v mod 2 ^ 32) k = Z.lor v k.
Proof.
  intros Hv Hk. assert (in_width 32 (Z.lor (v mod 2 ^ 32) k)) as Hw by (apply Msr.lor_width; [lia|apply Z.mod_pos_bound; lia|done]).
  rewrite <- (lor_disjoint (v / 2 ^ 32 * 2 ^ 32) (Z.lor (v mod 2 ^ 32) k) 32) by (first [lia | done | apply Z_mod_mult]).
  rewrite Z.lor_assoc. f_equal. rewrite (lor_disjoint _ _ 32) by (first [lia | apply Z_mod_mult | apply Z.mod_pos_bound; lia]).
  pose proof (Z.div_mod v (2 ^ 32) ltac:(lia)). lia.
Qed.
Lemma switch_spec c efer : ready c efer → switch_to_long_mode c = Ret (long_mode_on efer c).
Proof.
  intros [(H0 & H3 & H4 & Hx) Hv [He Hew] Hpe]. unfold switch_to_long_mode, mov_cr0, Msr.rdmsr, Msr.wrmsr. cbn [msrs set_cr4]. rewrite He. cbn [mbind run_bind].
  cbn [msrs set_msrs set_cr0 cr0 set_cr4]. rewrite insert_low by (done || by vm_compute).
  rewrite lookup_insert_eq. cbn [mbind run_bind].
  assert (in_width 64 (Z.lor efer (Z.shiftl 1 8))) as Hw by (apply Msr.lor_width; [lia|done|by vm_compute]).
  rewrite Z.mod_pow2_bits_low, !Z.lor_spec by lia. change (Z.testbit (Z.shiftl 1 31) 31) with true. change (Z.testbit (Z.shiftl 1 8) 8) with true.
  rewrite !orb_true_r. cbn [andb]. rewrite ?lookup_insert_eq. cbn [mbind run_bind]. rewrite insert_low by (done || by vm_compute).
  rewrite insert_insert_eq, <- Z.lor_assoc. reflexivity.
Qed.

(** ** A core in the kernel *)
(** Long mode with paging on the given root: read-only pages are read-only for the kernel too,
    and the execute-disable bit counts. *)
Record protected (p4 : Z) (c : cpu) : Prop := {
  pr_cr0 : Forall (λ k, Z.testbit (cr0 c) k = true) [0; 16; 31];
  pr_cr4 : Z.testbit (cr4 c) 5 = true;
  pr_efer : ∃ e, msrs c !! EFER = Some e ∧ Forall (λ k, Z.testbit e k = true) [8; 10; 11];
  pr_root : Z.land (cr3 c) 0x000ffffffffff000 = p4
}.
Lemma root_of p4 f : in_width 32 p4 → p4 mod 4096 = 0 → 0 ≤ f < 4096 → Z.land (p4 + f) 0x000ffffffffff000 = p4.
Proof.
  intros Hp Hm Hf. destruct (Paging32.entry_parts p4 f Hp Hm Hf) as (_ & Hw & He & _). rewrite <- He at 2. rewrite <- Paging32.addr32_spec by done.
  unfold Paging32.addr. change 0xfffff000 with (Z.land (Z.ones 32) 0x000ffffffffff000). rewrite Z.land_assoc. f_equal.
  rewrite Z.land_ones by lia. symmetry. apply Z.mod_small. exact Hw.
Qed.
Lemma lor_bit a b k : Z.testbit a k = true → Z.testbit (Z.lor a b) k = true.
Proof. intros H. by rewrite Z.lor_spec, H. Qed.
Lemma lor_bit_r a b k : Z.testbit b k = true → Z.testbit (Z.lor a b) k = true.
Proof. intros H. rewrite Z.lor_spec, H. apply orb_true_r. Qed.
Lemma protected_on p4 efer c off :
  ready c efer → in_width 32 p4 → p4 mod 4096 = 0 → Z.testbit off 0 = false → Z.testbit off 16 = false →
  let m := mmu_on p4 efer c in
  protected p4 (long_mode_on (Z.lor (efer mod 2 ^ 32) 0x800) (set_cr0 m (Z.ldiff (cr0 m) off))).
Proof.
  intros Hc Hp Hm Hoff0 Hoff16 m. destruct (mmu_on_ready p4 c efer Hc Hp Hm) as [_ _ _ Hpe]. fold m in Hpe. constructor.
  - cbn [cr0 long_mode_on set_cr0]. repeat constructor; [apply lor_bit|apply lor_bit|by apply lor_bit_r]; rewrite Z.ldiff_spec.
    + by rewrite Hpe, Hoff0.
    + rewrite Hoff16. cbn [m mmu_on set_cr3 set_msrs set_cr0 cr0]. by rewrite lor_bit_r.
  - cbn [cr4 long_mode_on set_cr0 set_msrs set_cr4]. by apply lor_bit_r.
  - cbn [msrs long_mode_on set_cr0 set_msrs set_cr4]. eexists. split; [apply lookup_insert_eq|].
    repeat constructor; [by apply lor_bit_r|by apply lor_bit_r|apply lor_bit; by apply lor_bit_r].
  - cbn [cr3 long_mode_on set_cr0 set_msrs set_cr4 m mmu_on set_cr3]. apply root_of; [done..|]. apply flags3_width, Hc.
Qed.

(** ** The bootstrap processor *)
(** The registers and the entry of the kernel after a boot that goes through. *)
Definition booted (p : Cpuid.CpuIdReader) (p4 efer : Z) (c : cpu) : cpu :=
  long_mode_on (Z.lor (efer mod 2 ^ 32) 0x800) (mmu_on p4 efer (media_on p c)).
Definition handed_over (b : BootInfo) (p4 entry : Z) : BootInfo :=
  with_entry (with_cores (with_page_table b p4)
    (count_booted (KernelInit.boot_cores b) (Cores.num_booted_cores (KernelInit.boot_cores b) + 1))) entry.
Lemma booted_protected p p4 efer c :
  ready c efer → in_width 32 p4 → p4 mod 4096 = 0 → protected p4 (booted p p4 efer c).
Proof.
  intros Hc Hp Hm. pose proof (protected_on p4 efer (media_on p c) 0 (media_on_ready p c efer Hc) Hp Hm eq_refl eq_refl) as H.
  cbv zeta in H. rewrite Z.ldiff_0_r in H. exact H.
Qed.
(** What the end of [bootloader_main] relies on. *)
Record bootable (mem : Z → Z) (kernel_start : Z) (p : Cpuid.CpuIdReader) (p4 : Z) (b : BootInfo) (k : Cores.Core) : Prop := {
  bo_leaves : leaves_present p = true;
  bo_root : p4 mod 4096 = 0;
  bo_count : Cores.num_booted_cores (KernelInit.boot_cores b) < 65535;
  bo_header : read_bytes mem kernel_start 16 = ELF_MAGIC;
  bo_core : Cores.core_at (KernelInit.boot_cores b) 0 = Ret k;
  bo_stack : 8 ≤ Cores.stack_start_addr k
}.
Lemma core_at_count cs n i : Cores.core_at (count_booted cs n) i = Cores.core_at cs i.
Proof. done. Qed.

Lemma initial_stack_Ret k s : initial_stack k = Ret s ↔ 8 ≤ Cores.stack_start_addr k ∧ s = Cores.stack_start_addr k - 8.
Proof.
  unfold initial_stack, Cores.get_stack_start, usub. destruct (Z.eqb_spec (Cores.stack_start_addr k) 0) as [->|]; cbn [unwrap mbind run_bind].
  - split; [discriminate|lia].
  - destruct (Z.leb_spec 8 (Cores.stack_start_addr k)); split; [intros [= <-]; lia|intros [_ ->]; done|discriminate|lia].
Qed.
Lemma get_kernel_header_Ret mem a h :
  get_kernel_header mem a = Ret h → read_bytes mem a 16 = ELF_MAGIC ∧ e_entry h = read_uint mem (a + 24) 4.
Proof.
  unfold get_kernel_header. cbn [e_ident]. intros H. case_bool_decide as E; [discriminate H|]. injection H as <-. split; [|done].
  by destruct (decide (read_bytes mem a 16 = ELF_MAGIC)).
Qed.
Lemma header_ok mem a : read_bytes mem a 16 = ELF_MAGIC → ∃ h, get_kernel_header mem a = Ret h.
Proof. intros H. unfold get_kernel_header. cbn [e_ident]. rewrite bool_decide_eq_false_2 by (by intros []). by eexists. Qed.
Lemma finish_boot_cases mem ks p p4 b c efer b' e :
  (∀ a i, Cpuid.result_ok (p a i)) → ready c efer → in_width 32 p4 →
  finish_boot mem ks p p4 b c = Ret (b', e) ↔
  ∃ k, bootable mem ks p p4 b k ∧ b' = handed_over b p4 (read_uint mem (ks + 24) 4)
    ∧ e = mkEntered (booted p p4 efer c) (read_uint mem (ks + 24) 4) (Cores.stack_start_addr k - 8).
Proof.
  intros Hp Hc Hw. unfold finish_boot. rewrite (enable_all_spec p c efer Hp Hc). pose proof (media_on_ready p c efer Hc) as Hm. split.
  - intros H. apply bind_Ret in H as (c1 & E1 & H). destruct (leaves_present p) eqn:Hl; [|discriminate E1]. injection E1 as <-.
    rewrite (setup_mmu_spec p4 _ efer Hm Hw) in H. apply bind_Ret in H as (c2 & E2 & H).
    destruct (Z.eqb_spec (p4 mod 4096) 0) as [Hr|]; [|discriminate E2]. injection E2 as <-.
    apply bind_Ret in H as (n & En & H). apply uadd_Ret_inv in En as [-> Hn]. apply bind_Ret in H as (h & Eh & H).
    apply get_kernel_header_Ret in Eh as [Hi He]. apply bind_Ret in H as (k & Ek & H). apply bind_Ret in H as (st & Es & H).
    apply initial_stack_Ret in Es as [Hs ->]. apply bind_Ret in H as (c3 & E3 & H).
    rewrite (switch_spec _ _ (mmu_on_ready p4 _ efer Hm Hw Hr)) in E3. injection E3 as <-. injection H as <- <-. rewrite He.
    exists k. split; [|done]. constructor; try done. cbn in Hn. change (2 ^ 16) with 65536 in Hn. lia.
  - intros (k & [Hl Hr Hn Hi Hk Hs] & -> & ->). rewrite Hl. cbn [mbind run_bind]. rewrite (setup_mmu_spec p4 _ efer Hm Hw), Hr. cbn [Z.eqb mbind run_bind].
    cbn [KernelInit.boot_cores with_page_table]. rewrite uadd_Ret by (change (2 ^ 16) with 65536; lia). cbn [mbind run_bind].
    destruct (header_ok mem ks Hi) as [h Eh]. rewrite Eh. cbn [mbind run_bind]. apply get_kernel_header_Ret in Eh as [_ He].
    cbn [KernelInit.boot_cores with_cores]. rewrite core_at_count, Hk. cbn [mbind run_bind].
    rewrite (proj2 (initial_stack_Ret k _) (conj Hs eq_refl)). cbn [mbind run_bind].
    rewrite (switch_spec _ _ (mmu_on_ready p4 _ efer Hm Hw Hr)). cbn [mbind run_bind]. by rewrite He.
Qed.

(** ** smp.rs and smp_trampoline.s: the other cores *)
Section smp.
Context {BF : Addr.BitField}.
(** The addresses of the handlers and of the static interrupt table. *)
Variables (fn_addr : Idt32.handler → Z) (idt_addr : Z).

Definition apic_id (p : Cpuid.CpuIdReader) : Z := cast 8 (Z.shiftr (Cpuid.ebx (p 1 0)) 24).
(** The code selector the trampoline jumps with. *)
Definition CODE32 : Z := 24.

(** Where a core is: [Spin] in the loop of the trampoline, then in [smp_main] and
    [switch_to_long_mode], and in the kernel.  The increment of the count is a load and a
    store. *)
Inductive phase :=
  | Spin
  | LoadIdt | EnableMedia | FindStack | SetupMmu (stack : Z) | EnableCaches (stack : Z)
  | LoadCount (stack : Z) | StoreCount (stack n : Z) | Switch (stack : Z) | Release (e : entered)
  | InKernel (e : entered).
Record ap := mkAp { at_phase : phase; regs : cpu; processor : Cpuid.CpuIdReader }.
Record shared := mkShared { stack_avail : Z; IDT : option Idt32.InterruptDescriptorTable; BOOT_INFO : BootInfo }.
Definition set_boot (g : shared) (b : BootInfo) : shared := mkShared (stack_avail g) (IDT g) b.

(** One step of a core; [Spin] takes the stack with an exchange.  With the stack taken, the
    exchange stores the zero that is there and the core stays where it is: no step. *)
Definition run_phase (g : shared) (a : ap) : option (run (shared * ap)) :=
  let go ph c := mkAp ph c (processor a) in
  match at_phase a with
  | Spin =>
      let al := stack_avail g in
      if al =? 0 then None else Some (Ret (mkShared 0 (IDT g) (BOOT_INFO g), go LoadIdt (regs a)))
  | LoadIdt => Some (
      '(idt, ptr) ← Idt32.init fn_addr (IDT g) CODE32 idt_addr;
      Ret (mkShared (stack_avail g) idt (BOOT_INFO g), go EnableMedia (set_idtr (regs a) ptr)))
  | EnableMedia => Some (c ← enable_all (processor a) (regs a); Ret (g, go FindStack c))
  | FindStack => Some (
      '(core, _) ← unwrap (Cores.get_by_apic_id (KernelInit.boot_cores (BOOT_INFO g)) (apic_id (processor a)));
      stack_addr ← initial_stack core;
      Ret (g, go (SetupMmu stack_addr) (regs a)))
  | SetupMmu s => Some (c ← setup_mmu (KernelInit.page_table_addr (BOOT_INFO g)) (regs a); Ret (g, go (EnableCaches s) c))
  | EnableCaches s => Some (
      let cr0 := ctl32_read Cr0_32 (regs a) in
      let cr0 := set_flag cr0 NOT_WRITE_THROUGH false in
      let cr0 := set_flag cr0 CACHE_DISABLE false in
      Ret (g, go (LoadCount s) (ctl32_write Cr0_32 (regs a) cr0)))
  | LoadCount s => Some (Ret (g, go (StoreCount s (Cores.num_booted_cores (KernelInit.boot_cores (BOOT_INFO g)))) (regs a)))
  | StoreCount s n => Some (
      n ← uadd 16 n 1;
      Ret (set_boot g (with_cores (BOOT_INFO g) (count_booted (KernelInit.boot_cores (BOOT_INFO g)) n)), go (Switch s) (regs a)))
  | Switch s => Some (
      let entry_addr := KernelInit.kernel_entry_addr (BOOT_INFO g) in
      c ← switch_to_long_mode (regs a);
      Ret (g, go (Release (mkEntered c entry_addr s)) c))
  | Release e => Some (Ret (mkShared 1 (IDT g) (BOOT_INFO g), go (InKernel e) (regs a)))
  | InKernel _ => None
  end.

Record system := mkSys { glob : shared; aps : list ap }.
Inductive step (s : system) : system → Prop :=
  | step_core i a g' a' : aps s !! i = Some a → run_phase (glob s) a = Some (Ret (g', a')) → step s (mkSys g' (<[i := a']> (aps s))).
Definition faulty (s : system) : Prop := ∃ i a e, aps s !! i = Some a ∧ run_phase (glob s) a = Some (Panic e).

(** ** The arrival of the cores *)
Lemma boot_same b : with_cores b (count_booted (KernelInit.boot_cores b) (Cores.num_booted_cores (KernelInit.boot_cores b))) = b.
Proof. by destruct b as [? ? ? ? ? [? ? ?] ?]. Qed.
Section arrival.
(** The boot information the bootstrap processor left, and the cores at the trampoline. *)
Variables (b0 : BootInfo) (starts : list ap).
Let p4 := KernelInit.page_table_addr b0.
Let cs0 := KernelInit.boot_cores b0.

Record starting (a : ap) : Prop := {
  sa_phase : at_phase a = Spin;
  sa_answers x i : Cpuid.result_ok (processor a x i);
  sa_leaves : leaves_present (processor a) = true;
  sa_ready : ∃ efer, ready (regs a) efer;
  sa_listed : ∃ k i, Cores.get_by_apic_id cs0 (apic_id (processor a)) = Some (k, i) ∧ 8 ≤ Cores.stack_start_addr k
}.
Record left_behind : Prop := {
  lb_root : in_width 32 p4 ∧ p4 mod 4096 = 0;
  lb_count : 0 ≤ Cores.num_booted_cores cs0 ∧ Cores.num_booted_cores cs0 + Z.of_nat (length starts) < 65536;
  lb_cores : Forall starting starts
}.

(** The registers of a core on its way, and where it arrives. *)
Definition efer_of (a : ap) : Z := default 0 (msrs (regs a) !! EFER).
Definition stack_of (a : ap) : Z :=
  match Cores.get_by_apic_id cs0 (apic_id (processor a)) with Some (k, _) => Cores.stack_start_addr k - 8 | None => 0 end.
Definition idt_loaded (a : ap) : cpu := set_idtr (regs a) (Idt32.pointer idt_addr).
Definition media_enabled (a : ap) : cpu := media_on (processor a) (idt_loaded a).
Definition mmu_enabled (a : ap) : cpu := mmu_on p4 (efer_of a) (media_enabled a).
Definition caches_enabled (a : ap) : cpu := set_cr0 (mmu_enabled a) (Z.ldiff (cr0 (mmu_enabled a)) 0x60000000).
Definition arrived (a : ap) : entered :=
  mkEntered (long_mode_on (Z.lor (efer_of a mod 2 ^ 32) 0x800) (caches_enabled a)) (KernelInit.kernel_entry_addr b0) (stack_of a).

(** [a] is the core that started as [a0], with [m] cores counted. *)
Definition on_the_way (m : Z) (a0 a : ap) : Prop :=
  processor a = processor a0 ∧
  match at_phase a with
  | Spin | LoadIdt => regs a = regs a0
  | EnableMedia => regs a = idt_loaded a0
  | FindStack => regs a = media_enabled a0
  | SetupMmu s => regs a = media_enabled a0 ∧ s = stack_of a0
  | EnableCaches s => regs a = mmu_enabled a0 ∧ s = stack_of a0
  | LoadCount s | Switch s => regs a = caches_enabled a0 ∧ s = stack_of a0
  | StoreCount s n => regs a = caches_enabled a0 ∧ s = stack_of a0 ∧ n = m
  | Release e | InKernel e => e = arrived a0
  end.
Definition holding (a : ap) : bool := match at_phase a with Spin | InKernel _ => false | _ => true end.
Definition counted (a : ap) : bool := match at_phase a with Switch _ | Release _ | InKernel _ => true | _ => false end.
Definition rank (a : ap) : nat :=
  match at_phase a with
  | Spin => 10 | LoadIdt => 9 | EnableMedia => 8 | FindStack => 7 | SetupMmu _ => 6 | EnableCaches _ => 5
  | LoadCount _ => 4 | StoreCount _ _ => 3 | Switch _ => 2 | Release _ => 1 | InKernel _ => 0
  end.
Definition number (f : ap → bool) (l : list ap) : nat := sum_list_with (λ a, Nat.b2n (f a)) l.
Record inv (s : system) : Prop := {
  iv_boot : BOOT_INFO (glob s) = with_cores b0 (count_booted cs0 (Cores.num_booted_cores cs0 + Z.of_nat (number counted (aps s))));
  iv_cores : Forall2 (on_the_way (Cores.num_booted_cores cs0 + Z.of_nat (number counted (aps s)))) starts (aps s);
  iv_lock : (stack_avail (glob s) = 1 ∧ number holding (aps s) = 0%nat) ∨ (stack_avail (glob s) = 0 ∧ number holding (aps s) = 1%nat)
}.

Lemma number_insert (f : ap → nat) l i a a' :
  l !! i = Some a → (sum_list_with f (<[i := a']> l) + f a = sum_list_with f l + f a')%nat.
Proof.
  revert i. induction l as [|b l IH]; intros [|i] H; simpl in *; try done.
  - injection H as ->. lia.
  - specialize (IH i H). unfold insert in *. simpl. lia.
Qed.
Lemma number_le f l : (number f l ≤ length l)%nat.
Proof. induction l as [|a l IH]; cbn; [done|]. unfold number in IH. destruct (f a); cbn; lia. Qed.
Lemma number_none f l : Forall (λ a, f a = false) l → number f l = 0%nat.
Proof. unfold number. induction 1 as [|a l Ha _ IH]; [done|]. cbn. rewrite Ha. exact IH. Qed.
Lemma number_all f l : Forall (λ a, f a = true) l → number f l = length l.
Proof. unfold number. induction 1 as [|a l Ha _ IH]; [done|]. cbn. rewrite Ha. cbn. by rewrite IH. Qed.
Lemma number_lt f l i a : l !! i = Some a → f a = false → (number f l < length l)%nat.
Proof.
  intros Ha Hf. revert i Ha. unfold number. induction l as [|b l IH]; intros [|i] Ha; cbn in *; try done.
  - injection Ha as ->. rewrite Hf. cbn. pose proof (number_le f l) as H. unfold number in H. lia.
  - specialize (IH i Ha). destruct (f b); cbn; lia.
Qed.
Lemma number_zero f l : number f l = 0%nat → ∀ i a, l !! i = Some a → f a = false.
Proof.
  unfold number. induction l as [|b l IH]; intros H [|i] a Ha; cbn in *; try done.
  - injection Ha as ->. destruct (f a); cbn in H; [lia|done].
  - apply (IH ltac:(lia) i a Ha).
Qed.
(** Only one core holds the stack. *)
Lemma number_one f l i j a a' :
  (number f l ≤ 1)%nat → l !! i = Some a → l !! j = Some a' → f a = true → f a' = true → i = j.
Proof.
  unfold number. revert i j. induction l as [|b l IH]; intros [|i] [|j] H Hi Hj Ha Ha'; cbn in *; try done.
  - injection Hi as ->. rewrite Ha in H. cbn in H. assert (number f l = 0)%nat as H0 by (unfold number; lia). pose proof (number_zero f l H0 j a' Hj). congruence.
  - injection Hj as ->. rewrite Ha' in H. cbn in H. assert (number f l = 0)%nat as H0 by (unfold number; lia). pose proof (number_zero f l H0 i a Hi). congruence.
  - f_equal. by apply (IH i j); [lia|..].
Qed.

(** How a step may change the lock. *)
Definition lock_step (g g' : shared) (a a' : ap) : Prop :=
  (holding a' = holding a ∧ stack_avail g' = stack_avail g)
  ∨ (holding a = false ∧ holding a' = true ∧ stack_avail g ≠ 0 ∧ stack_avail g' = 0)
  ∨ (holding a = true ∧ holding a' = false ∧ stack_avail g' = 1).
Lemma lock_kept s i a g' a' :
  inv s → aps s !! i = Some a → lock_step (glob s) g' a a' →
  (stack_avail g' = 1 ∧ number holding (<[i := a']> (aps s)) = 0%nat) ∨ (stack_avail g' = 0 ∧ number holding (<[i := a']> (aps s)) = 1%nat).
Proof.
  intros [_ _ Hl] Ha Hs. pose proof (number_insert (λ a, Nat.b2n (holding a)) (aps s) i a a' Ha) as Hn. fold (number holding (aps s)) in Hn.
  fold (number holding (<[i := a']> (aps s))) in Hn. cbv beta in Hn.
  destruct Hs as [[E1 ->]|[(E1 & E2 & Hg & ->)|(E1 & E2 & ->)]].
  - rewrite E1 in Hn. destruct Hl as [[-> Hl]|[-> Hl]]; [left|right]; split; try done; lia.
  - rewrite E1, E2 in Hn. cbn in Hn. right. split; [done|]. destruct Hl as [[_ Hl]|[Hl _]]; [lia|congruence].
  - rewrite E1, E2 in Hn. cbn in Hn. left. split; [done|]. lia.
Qed.
(** A core that is not about to store the count does not depend on it. *)
Lemma on_the_way_any m m' a0 a : holding a = false → on_the_way m a0 a → on_the_way m' a0 a.
Proof. unfold on_the_way, holding. intros Hh [Hp H]. split; [done|]. by destruct (at_phase a). Qed.
Lemma inv_advance s i a0 a g' a' :
  inv s → starts !! i = Some a0 → aps s !! i = Some a →
  let m' := Cores.num_booted_cores cs0 + Z.of_nat (number counted (<[i := a']> (aps s))) in
  BOOT_INFO g' = with_cores b0 (count_booted cs0 m') → on_the_way m' a0 a' → counted a' = counted a ∨ holding a = true →
  lock_step (glob s) g' a a' → inv (mkSys g' (<[i := a']> (aps s))).
Proof.
  intros Hi H0 Ha m' Hb Hw Hc Hl. constructor; cbn [glob aps]; [done| |by eapply lock_kept]. fold m'.
  pose proof (iv_cores _ Hi) as Hf. pose proof (Forall2_length _ _ _ Hf) as Hlen.
  apply Forall2_same_length_lookup. split; [by rewrite length_insert|]. intros j x y Hx Hy.
  destruct (decide (i = j)) as [<-|Hne].
  - rewrite list_lookup_insert_eq in Hy by (by eapply lookup_lt_Some). congruence.
  - rewrite list_lookup_insert_ne in Hy by done. pose proof (Forall2_lookup_lr _ _ _ _ _ _ Hf Hx Hy) as Hxy. destruct Hc as [Hc|Hc].
    + assert (number counted (<[i := a']> (aps s)) = number counted (aps s)) as E.
      { pose proof (number_insert (λ a, Nat.b2n (counted a)) (aps s) i a a' Ha) as Hn. cbv beta in Hn. rewrite Hc in Hn. unfold number. lia. }
      unfold m'. by rewrite E.
    + apply (on_the_way_any (Cores.num_booted_cores cs0 + Z.of_nat (number counted (aps s)))); [|done].
      destruct (holding y) eqn:Hh; [|done]. exfalso. apply Hne. eapply (number_one holding (aps s)); [|done..]. destruct (iv_lock _ Hi) as [[_ ->]|[_ ->]]; lia.
Qed.
(** A step that does not count. *)
Lemma inv_same s i a0 a g' a' :
  inv s → starts !! i = Some a0 → aps s !! i = Some a → BOOT_INFO g' = BOOT_INFO (glob s) → counted a' = counted a →
  (∀ m, on_the_way m a0 a → m = Cores.num_booted_cores (KernelInit.boot_cores (BOOT_INFO (glob s))) → on_the_way m a0 a') →
  lock_step (glob s) g' a a' → inv (mkSys g' (<[i := a']> (aps s))).
Proof.
  intros Hi H0 Ha Hb Hc Hw Hl. pose proof (Forall2_lookup_lr _ _ _ _ _ _ (iv_cores _ Hi) H0 Ha) as Haw.
  assert (number counted (<[i := a']> (aps s)) = number counted (aps s)) as E.
  { pose proof (number_insert (λ a, Nat.b2n (counted a)) (aps s) i a a' Ha) as Hn. cbv beta in Hn. rewrite Hc in Hn. unfold number. lia. }
  eapply inv_advance; [done..| | |by left|done].
  - by rewrite Hb, E, (iv_boot _ Hi).
  - rewrite E. apply Hw; [done|]. by rewrite (iv_boot _ Hi).
Qed.
Hypothesis Hlb : left_behind.
Lemma start_ready i a0 : starts !! i = Some a0 → ready (regs a0) (efer_of a0).
Proof.
  intros H0. destruct (sa_ready _ (Forall_lookup_1 _ _ _ _ (lb_cores Hlb) H0)) as [efer Hr].
  unfold efer_of. destruct (rd_efer _ _ Hr) as [-> _]. exact Hr.
Qed.
Lemma idt_ready c ptr efer : ready c efer → ready (set_idtr c ptr) efer.
Proof. intros [H1 H2 H3 H4]. by constructor. Qed.
Lemma idt_init_Ret idt : ∃ t, Idt32.init fn_addr idt CODE32 idt_addr = Ret (Some t, Idt32.pointer idt_addr).
Proof. destruct idt as [t|]; [by exists t|]. eexists. apply Idt32.init_builds. Qed.
Ltac same_step Hph :=
  split; [|unfold rank; rewrite Hph; cbn; lia];
  eapply inv_same; [done|done|done|done|unfold counted; by rewrite Hph| |unfold lock_step, holding; rewrite Hph; cbn; tauto].
Lemma phase_step s i a0 a :
  inv s → starts !! i = Some a0 → aps s !! i = Some a →
  match run_phase (glob s) a with
  | None => (at_phase a = Spin ∧ stack_avail (glob s) = 0) ∨ ∃ e, at_phase a = InKernel e
  | Some (Panic _) => False
  | Some (Ret (g', a')) => inv (mkSys g' (<[i := a']> (aps s))) ∧ (rank a' < rank a)%nat
  end.
Proof.
  intros Hi H0 Ha. pose proof (Forall2_lookup_lr _ _ _ _ _ _ (iv_cores _ Hi) H0 Ha) as [Hp Hw]. pose proof (start_ready i a0 H0) as Hr.
  destruct (lb_root Hlb) as [Hp4 Hm4].
  assert (ready (idt_loaded a0) (efer_of a0)) as Hr1 by (by apply idt_ready).
  assert (ready (media_enabled a0) (efer_of a0)) as Hr2 by (by apply media_on_ready).
  assert (ready (mmu_enabled a0) (Z.lor (efer_of a0 mod 2 ^ 32) 0x800)) as Hr3 by (by apply mmu_on_ready).
  pose proof (Forall_lookup_1 _ _ _ _ (lb_cores Hlb) H0) as Hst. unfold run_phase. destruct (at_phase a) eqn:Hph.
  - destruct (Z.eqb_spec (stack_avail (glob s)) 0); [by left|]. same_step Hph. intros m _ _. by split.
  - destruct (idt_init_Ret (IDT (glob s))) as [t ->]. cbn [mbind run_bind]. same_step Hph. intros m _ _. split; [done|]. cbn [at_phase regs].
    unfold idt_loaded. by rewrite Hw.
  - rewrite Hw, Hp. rewrite (enable_all_spec _ _ _ (sa_answers _ Hst) Hr1), (sa_leaves _ Hst). cbn [mbind run_bind]. same_step Hph. intros m _ _. by split.
  - destruct (sa_listed _ Hst) as (k & j & Hk & Hs8). rewrite (iv_boot _ Hi). cbn [KernelInit.boot_cores with_cores].
    change (Cores.get_by_apic_id (count_booted cs0 _) (apic_id (processor a))) with (Cores.get_by_apic_id cs0 (apic_id (processor a))).
    rewrite Hp, Hk. cbn [unwrap mbind run_bind]. rewrite (proj2 (initial_stack_Ret k _) (conj Hs8 eq_refl)). cbn [mbind run_bind].
    same_step Hph. intros m _ _. split; [done|]. split; [done|]. unfold stack_of. by rewrite Hk.
  - destruct Hw as [Hw ->]. rewrite Hw, (iv_boot _ Hi). cbn [KernelInit.page_table_addr with_cores]. fold p4. rewrite (setup_mmu_spec p4 _ _ Hr2 Hp4), Hm4. cbn [Z.eqb mbind run_bind].
    same_step Hph. intros m _ _. by split.
  - destruct Hw as [Hw ->]. rewrite Hw. rewrite (enable_caches_value _ _ Hr3). same_step Hph. intros m _ _. by split.
  - destruct Hw as [Hw ->]. same_step Hph. intros m _ ->. by split.
  - destruct Hw as (Hw & -> & ->). destruct (lb_count Hlb) as [_ Hcnt]. pose proof (number_lt counted (aps s) i a Ha) as Hle. unfold counted in Hle at 1. rewrite Hph in Hle. specialize (Hle eq_refl).
    rewrite <- (Forall2_length _ _ _ (iv_cores _ Hi)) in Hle. rewrite uadd_Ret by (change (2 ^ 16) with 65536; lia). cbn [mbind run_bind].
    split; [|unfold rank; rewrite Hph; cbn; lia]. set (a' := mkAp _ _ _).
    assert (number counted (<[i := a']> (aps s)) = S (number counted (aps s))) as E.
    { pose proof (number_insert (λ a, Nat.b2n (counted a)) (aps s) i a a' Ha) as Hn. unfold counted in Hn at 2 4. rewrite Hph in Hn. cbn in Hn. unfold number, counted in *. lia. }
    eapply inv_advance; [done|done|done| | | |].
    + rewrite E, (iv_boot _ Hi). cbn. do 2 f_equal. lia.
    + by split.
    + right. unfold holding. by rewrite Hph.
    + left. unfold holding. by rewrite Hph.
  - destruct Hw as [Hw ->]. rewrite Hw. rewrite (switch_spec _ (Z.lor (efer_of a0 mod 2 ^ 32) 0x800)).
    + cbn [mbind run_bind]. same_step Hph. intros m _ _. split; [done|]. cbn [at_phase]. unfold arrived. by rewrite (iv_boot _ Hi).
    + destruct Hr3 as [(W0 & W3 & W4 & Wx) Wv We Wp]. constructor; [|done|done|].
      * split; [by apply Idt.ldiff_width|done].
      * cbn [cr0 caches_enabled set_cr0]. rewrite Z.ldiff_spec. by rewrite Wp.
  - same_step Hph. intros m _ _. by split.
  - right. by eexists.
Qed.
Lemma start_inv idt : inv (mkSys (mkShared 1 idt b0) starts).
Proof.
  assert (number counted starts = 0%nat ∧ number holding starts = 0%nat) as [E1 E2].
  { split; apply number_none; (eapply Forall_impl; [exact (lb_cores Hlb)|]); intros a Ha; [unfold counted|unfold holding]; by rewrite (sa_phase _ Ha). }
  constructor; cbn [glob aps BOOT_INFO stack_avail].
  - rewrite E1, Z.add_0_r. symmetry. apply boot_same.
  - rewrite E1. apply Forall2_same_length_lookup. split; [done|]. intros i x y Hx Hy. assert (x = y) as <- by congruence. split; [done|].
    by rewrite (sa_phase _ (Forall_lookup_1 _ _ _ _ (lb_cores Hlb) Hx)).
  - by left.
Qed.
Definition work (s : system) : nat := sum_list_with rank (aps s).
Lemma started s i a : inv s → aps s !! i = Some a → ∃ a0, starts !! i = Some a0.
Proof. intros Hi Ha. destruct (Forall2_lookup_r _ _ _ _ _ (iv_cores _ Hi) Ha) as (a0 & H0 & _). by exists a0. Qed.
Lemma arrival_step s s' : inv s → step s s' → inv s' ∧ (work s' < work s)%nat.
Proof.
  intros Hi [i a g' a' Ha Hr]. destruct (started s i a Hi Ha) as [a0 H0]. pose proof (phase_step s i a0 a Hi H0 Ha) as H. rewrite Hr in H.
  destruct H as [H Hk]. split; [done|]. unfold work. cbn [aps]. pose proof (number_insert rank (aps s) i a a' Ha). lia.
Qed.
Lemma arrival_steps s s' : inv s → rtc step s s' → inv s'.
Proof. intros Hi H. induction H as [|s s1 s2 H _ IH]; [done|]. apply IH. by eapply arrival_step. Qed.
Lemma arrival_sn n s : inv s → (work s < n)%nat → sn step s.
Proof.
  revert s. induction n as [|n IH]; intros s Hi Hn; [lia|]. constructor. intros s' Hst.
  destruct (arrival_step s s' Hi Hst) as [Hi' Hlt]. apply IH; [done|lia].
Qed.
(** A core that cannot go on waits for the stack or is in the kernel. *)
Lemma stuck s i a : inv s → nf step s → aps s !! i = Some a → (at_phase a = Spin ∧ stack_avail (glob s) = 0) ∨ ∃ e, at_phase a = InKernel e.
Proof.
  intros Hi Hn Ha. destruct (started s i a Hi Ha) as [a0 H0]. pose proof (phase_step s i a0 a Hi H0 Ha) as H.
  destruct (run_phase (glob s) a) as [[[g' a']|e]|] eqn:E; [|done|done]. exfalso. apply Hn. eexists. by eapply step_core.
Qed.
Lemma all_in_kernel s i a : inv s → nf step s → aps s !! i = Some a → ∃ e, at_phase a = InKernel e.
Proof.
  intros Hi Hn Ha. destruct (stuck s i a Hi Hn Ha) as [[Hp Hs]|H]; [|done]. exfalso.
  destruct (iv_lock _ Hi) as [[Hs' _]|[_ Hh]]; [congruence|].
  rewrite number_none in Hh; [lia|]. apply Forall_lookup_2. intros j y Hy. unfold holding.
  destruct (stuck s j y Hi Hn Hy) as [[-> _]|[e ->]]; done.
Qed.
(** At most one core is on the bootstrap stack. *)
Definition exclusive (s : system) : Prop :=
  ∀ i j a a', aps s !! i = Some a → aps s !! j = Some a' → holding a = true → holding a' = true → i = j.
Lemma inv_exclusive s : inv s → exclusive s.
Proof. intros Hi i j a a' Ha Ha'. apply (number_one holding (aps s)); [|done..]. destruct (iv_lock _ Hi) as [[_ ->]|[_ ->]]; lia. Qed.
Lemma arrived_protected i a0 : starts !! i = Some a0 → protected p4 (en_cpu (arrived a0)).
Proof.
  intros H0. destruct (lb_root Hlb) as [Hp4 Hm4].
  apply (protected_on p4 (efer_of a0) (media_enabled a0) 0x60000000); [|done..]. apply media_on_ready, idt_ready. by eapply start_ready.
Qed.

(** C6: the cores that come through the trampoline share one bootstrap stack.  On every
    interleaving no core panics and never two of them are on that stack; every interleaving comes
    to an end; and where nothing is left to do, every core has entered the kernel at its entry
    point, in long mode with the page table of the bootstrap processor and its protection in
    force, on the stack listed for its own local APIC; each core is counted once, and the
    bootstrap stack is free again. *)
Theorem cores_arrive idt :
  let s := mkSys (mkShared 1 idt b0) starts in
  (∀ s', rtc step s s' → ¬ faulty s' ∧ exclusive s')
  ∧ sn step s
  ∧ ∀ s', rtc step s s' → nf step s' →
      stack_avail (glob s') = 1
      ∧ BOOT_INFO (glob s') = with_cores b0 (count_booted cs0 (Cores.num_booted_cores cs0 + Z.of_nat (length starts)))
      ∧ Forall2 (λ a0 a, ∃ e k i, at_phase a = InKernel e ∧ protected p4 (en_cpu e) ∧ en_rip e = KernelInit.kernel_entry_addr b0
                   ∧ Cores.get_by_apic_id cs0 (apic_id (processor a0)) = Some (k, i) ∧ en_rsp e = Cores.stack_start_addr k - 8) starts (aps s').
Proof.
  intros s. pose proof (start_inv idt : inv s) as Hi. split; [|split; [apply (arrival_sn (S (work s)) s Hi); lia|]].
  - intros s' Hs. pose proof (arrival_steps _ _ Hi Hs) as Hi'. split; [|by apply inv_exclusive]. intros (i & a & f & Ha & Hr).
    destruct (started s' i a Hi' Ha) as [a0 H0]. pose proof (phase_step s' i a0 a Hi' H0 Ha) as H. by rewrite Hr in H.
  - intros s' Hs Hn. pose proof (arrival_steps _ _ Hi Hs) as Hi'. pose proof (iv_cores _ Hi') as Hf. pose proof (Forall2_length _ _ _ Hf) as Hlen.
    assert (number counted (aps s') = length starts) as E.
    { rewrite Hlen. apply number_all, Forall_lookup_2. intros i a Ha. destruct (all_in_kernel s' i a Hi' Hn Ha) as [e He]. unfold counted. by rewrite He. }
    split; [|split; [by rewrite (iv_boot _ Hi'), E|]].
    + destruct (iv_lock _ Hi') as [[H _]|[_ H]]; [done|]. rewrite number_none in H; [lia|]. apply Forall_lookup_2. intros i a Ha.
      destruct (all_in_kernel s' i a Hi' Hn Ha) as [e He]. unfold holding. by rewrite He.
    + apply Forall2_same_length_lookup. split; [done|]. intros i a0 a H0 Ha. destruct (all_in_kernel s' i a Hi' Hn Ha) as [e He].
      destruct (Forall2_lookup_lr _ _ _ _ _ _ Hf H0 Ha) as [_ Hw]. rewrite He in Hw. subst e.
      destruct (sa_listed _ (Forall_lookup_1 _ _ _ _ (lb_cores Hlb) H0)) as (k & j & Hk & _). exists (arrived a0), k, j. split; [done|].
      split; [by eapply arrived_protected|]. split; [done|]. split; [done|]. cbn [en_rsp arrived]. unfold stack_of. by rewrite Hk.
Qed.
End arrival.
End smp.

(** ** The theorems *)
(** C8: the end of [bootloader_main] on the bootstrap processor enters the kernel exactly if the
    processor has the leaves that are queried, the page table is aligned, the kernel image is
    a 64-bit ELF file and the first core has a stack; every other case panics.  The kernel is
    entered at the entry of the image on that stack less 8 bytes, in long mode with the page
    table loaded and write protection and execute-disable in force; the boot information holds
    the page table, the entry and one more booted core. *)
Theorem bootstrap_enters_kernel mem ks p p4 b c efer :
  (∀ a i, Cpuid.result_ok (p a i)) → ready c efer → in_width 32 p4 →
  (∀ b' e, finish_boot mem ks p p4 b c = Ret (b', e) ↔
     ∃ k, bootable mem ks p p4 b k ∧ b' = handed_over b p4 (read_uint mem (ks + 24) 4)
       ∧ e = mkEntered (booted p p4 efer c) (read_uint mem (ks + 24) 4) (Cores.stack_start_addr k - 8))
  ∧ (∀ b' e, finish_boot mem ks p p4 b c = Ret (b', e) → protected p4 (en_cpu e)).
Proof.
  intros Hp Hc Hw. split; [intros b' e; by apply finish_boot_cases|]. intros b' e H.
  apply (finish_boot_cases mem ks p p4 b c efer b' e Hp Hc Hw) in H as (k & Hb & _ & ->). apply booted_protected; [done..|apply Hb].
Qed.

(** *** The guard pages *)
Section guard.
Context {BF : Addr.BitField} `{!SortUnstable MemoryMap.MemoryRegion}.
Variables p4 p3 : Z.
Hypothesis Hp3 : page_frame p3.
(** A store, or an instruction fetch, of the kernel at [v]: the page is missing, or its entry
    forbids the access and the processor enforces it. *)
Definition faults (t : Mapper.tables) (c : cpu) (v : Z) (forbids : Z → bool) (enforced : bool) : Prop :=
  match Mapper.translate t (Z.land (cr3 c) 0x000ffffffffff000) v with
  | Ret (Mapper.Mapped _ _ fl) => forbids fl && enforced = true
  | _ => True
  end.
Definition store_faults (t : Mapper.tables) (c : cpu) (v : Z) : Prop :=
  faults t c v (λ fl, negb (Z.testbit fl 1)) (Z.testbit (cr0 c) 16).
Definition fetch_faults (t : Mapper.tables) (c : cpu) (v : Z) : Prop :=
  faults t c v (λ fl, Z.testbit fl 63) (match msrs c !! EFER with Some e => Z.testbit e 11 | None => false end).

(** C7: stacks, page tables and processor together: after the stacks of the cores and their
    interrupt stacks were allocated, which splits some of the 2 MiB pages, on every core that
    is handed over with that page table a store into the 2 MiB below the stack of any core
    faults, and so does an instruction fetch there: a stack that overflows never runs into the
    stack of another core.  The level 1 tables between [p1s] and [p1e] are not in use before. *)
Theorem stack_overflow_faults b path p1s p1e lapics b' c i k :
  Boot.sound (Stacks.mm b) → MemoryMap.owners (MemoryMap.live (Stacks.mm b)) 0 ≡ₚ [MemoryMap.FrameZero] →
  (MemoryMap.next_entry_index (Stacks.mm b) + 36 * length lapics ≤ MemoryMap.MAX_MEMORY_MAP_SIZE)%nat →
  Cores.cores_ok (Stacks.cs b) → Cores.num_cores (Stacks.cs b) = 0 →
  Mapper.tree (Stacks.tb b) p4 path → Mapper.entry_at (Stacks.tb b) p4 0 = Some (Mmu.table_entry p3) → Stacks.coarse p4 (Stacks.tb b) →
  (∀ j, 0 ≤ j → p1s + 4096 * j ≤ p1e → Stacks.tb b !! (p1s + 4096 * j) = None) →
  Stacks.allocate_stacks p3 p1s p1e lapics b = Ret b' → protected p4 c → (i < length lapics)%nat → Cores.cores (Stacks.cs b') !! i = Some k →
  ∀ v, Cores.stack_end_addr k - 2 * 2 ^ 20 ≤ v < Cores.stack_end_addr k → store_faults (Stacks.tb b') c v ∧ fetch_faults (Stacks.tb b') c v.
Proof.
  intros Hs H0 Hroom Hok Hn Ht H4 Hc Hf Hrun Hpr Hi Hk v Hv.
  destruct (Stacks.allocate_stacks_cases p4 p3 Hp3 b path p1s p1e lapics b') as (l & b1 & ts & Hl & Hts & Hguard); [done..|].
  destruct (lookup_lt_is_Some_2 l i) as [a Ha]; [by rewrite (Stacks.sg_length _ _ _ _ _ _ Hl)|].
  destruct (lookup_lt_is_Some_2 lapics i Hi) as [id Hid]. pose proof (list_elem_of_lookup_2 _ _ _ Ha) as Hin.
  destruct (Stacks.tg_core _ _ _ Hts i k Hk) as (k1 & Hk1 & _ & _ & E1).
  destruct (Stacks.sg_core _ _ _ _ _ _ Hl i a id Ha Hid) as (k' & Hk' & _ & Hend & _). assert (k' = k1) as -> by congruence.
  rewrite E1, Hend in Hv. change Stacks.guard_page with (2 * 2 ^ 20) in Hv.
  unfold store_faults, fetch_faults, faults. rewrite (pr_root _ _ Hpr), (Hguard a v Hin).
  2: { apply KernelMemory.in_page_2mib. destruct (Stacks.sg_addr _ _ _ _ _ _ Hl a Hin) as (_ & Hm & _).
       unfold Stacks.TWO_MEG, Boot.TWO_MEG in *. change (2 ^ 21) with (1048576 * 2).
       pose proof (Z.div_mod a (1048576 * 2) ltac:(lia)). symmetry. apply (Z.div_unique_pos _ _ _ (v - a)); lia. }
  pose proof (pr_cr0 _ _ Hpr) as Hcr0. rewrite !Forall_cons in Hcr0. destruct Hcr0 as (_ & -> & _).
  destruct (pr_efer _ _ Hpr) as (e & -> & He). rewrite !Forall_cons in He. destruct He as (_ & _ & -> & _). done.
Qed.
End guard.

(** ** Instances *)
#[local] Existing Instance Addr.bit_field_model.
(** A processor with the local APIC [id], 32-bit protected mode with caches off, and two cores
    with their stacks. *)
Definition sample_processor (id : Z) : Cpuid.CpuIdReader := λ a c,
  if a =? 1 then Cpuid.mkResult 0x906ea (id * 2 ^ 24) (bits_of [0; 9; 19; 20; 26; 28]) (bits_of [0; 4; 5; 6; 9; 16; 24; 25; 26])
  else Cpuid.intel 0x906ea a c.
Lemma sample_answers id : 0 ≤ id < 256 → ∀ a c, Cpuid.result_ok (sample_processor id a c).
Proof.
  intros Hid a c. unfold sample_processor. destruct (a =? 1); [|by apply Cpuid.intel_ok; vm_compute].
  split; [by vm_compute|]. split; [unfold in_width; cbn; lia|]. split; by vm_compute.
Qed.
Definition start_cpu : cpu := mkCpu {[ EFER := 0 ]} 0x60000011 0 0 0 0 1 2 (mkPointer 0 0) (mkPointer 0 0).
Lemma start_cpu_ready : ready start_cpu 0.
Proof. constructor; [by vm_compute..|]. by vm_compute. Qed.
Definition sample_core (id : Z) : Cores.Core := Cores.mkCore id (0x1000000 + id * 0x1000000) (0x800000 + id * 0x1000000) (Cores.tss Cores.core_empty).
Definition sample_info : BootInfo :=
  KernelInit.mkBootInfo (MemoryMap.single (MemoryMap.mkRegion (MemoryMap.mkFrameRange 0 1) MemoryMap.FrameZero)) 0x8000 0 0x1000 0x200000
    (Cores.mkCores ([sample_core 0; sample_core 1; sample_core 2] ++ replicate 253 Cores.core_empty) 1 3) 0x10000000.
Definition sample_image : list Z := ELF_MAGIC ++ [2; 0; 0x3e; 0; 1; 0; 0; 0] ++ [0; 0x12; 0x20; 0].
Definition image_memory (a : Z) : Z := default 0 (sample_image !! Z.to_nat (a - 0x200000)).
Lemma bootstrap_enters_kernel_witness :
  ∃ b' e, finish_boot image_memory 0x200000 (sample_processor 0) 0x1000 sample_info start_cpu = Ret (b', e)
    ∧ en_rip e = 0x201200 ∧ en_rsp e = 0xfffff8 ∧ protected 0x1000 (en_cpu e).
Proof.
  destruct (bootstrap_enters_kernel image_memory 0x200000 (sample_processor 0) 0x1000 sample_info start_cpu 0) as [H1 H2];
    [by apply sample_answers|exact start_cpu_ready|by vm_compute|].
  eexists _, _. assert (finish_boot image_memory 0x200000 (sample_processor 0) 0x1000 sample_info start_cpu
    = Ret (handed_over sample_info 0x1000 0x201200, mkEntered (booted (sample_processor 0) 0x1000 0 start_cpu) 0x201200 0xfffff8)) as E.
  { apply H1. exists (sample_core 0). split; [constructor; by vm_compute|]. split; by vm_compute. }
  split; [exact E|]. split; [reflexivity|]. split; [reflexivity|]. exact (H2 _ _ E).
Defined.

Definition sample_ap (id : Z) : ap := mkAp Spin start_cpu (sample_processor id).
Lemma sample_starting id : id ∈ [1; 2] → starting sample_info (sample_ap id).
Proof.
  intros Hid. rewrite !elem_of_cons, elem_of_nil in Hid. constructor.
  - done.
  - apply sample_answers. lia.
  - destruct Hid as [-> | [-> | []]]; by vm_compute.
  - exists 0. exact start_cpu_ready.
  - exists (sample_core id), (Z.to_nat id). destruct Hid as [-> | [-> | []]]; (split; [by vm_compute|cbn; lia]).
Qed.
Lemma sample_left : left_behind sample_info [sample_ap 1; sample_ap 2].
Proof.
  constructor; [by vm_compute|by vm_compute|]. repeat constructor; apply sample_starting; set_solver.
Qed.
Lemma cores_arrive_witness :
  let s := mkSys (mkShared 1 None sample_info) [sample_ap 1; sample_ap 2] in
  sn (step Idt32.sample_fn 0x7000) s
  ∧ ∀ s', rtc (step Idt32.sample_fn 0x7000) s s' → nf (step Idt32.sample_fn 0x7000) s' →
      Cores.num_booted_cores (KernelInit.boot_cores (BOOT_INFO (glob s'))) = 3.
Proof.
  destruct (cores_arrive Idt32.sample_fn 0x7000 sample_info [sample_ap 1; sample_ap 2] sample_left None) as (_ & H2 & H3).
  split; [exact H2|]. intros s' Hs Hn. destruct (H3 s' Hs Hn) as (_ & E & _). rewrite E. reflexivity.
Defined.

Definition sample_on : cpu := booted (sample_processor 0) 0x1000 0 start_cpu.
Lemma sample_on_protected : protected 0x1000 sample_on.
Proof.
  assert (in_width 32 0x1000) as Hw by (by vm_compute). exact (booted_protected (sample_processor 0) 0x1000 0 start_cpu start_cpu_ready Hw eq_refl).
Qed.
Lemma stack_overflow_faults_witness :
  ∃ k, Cores.cores (Stacks.cs Stacks.after_stacks) !! 0%nat = Some k
    ∧ store_faults (Stacks.tb Stacks.after_stacks) sample_on (Cores.stack_end_addr k - 8).
Proof.
  assert (∃ k, Cores.cores (Stacks.cs Stacks.after_stacks) !! 0%nat = Some k) as [k Hk].
  { apply lookup_lt_is_Some_2. apply Nat.ltb_lt. vm_compute. reflexivity. }
  exists k. split; [exact Hk|]. destruct Stacks.sample_tables_ok as [[path Ht] Hc].
  assert (MemoryMap.owners (MemoryMap.live (Stacks.mm Stacks.sample_boot)) 0 ≡ₚ [MemoryMap.FrameZero]) as H0 by (by vm_compute).
  assert (MemoryMap.next_entry_index (Stacks.mm Stacks.sample_boot) + 36 * length [0] ≤ MemoryMap.MAX_MEMORY_MAP_SIZE)%nat as Hroom
    by (by apply Nat.leb_le; vm_compute).
  assert (Mapper.entry_at (Stacks.tb Stacks.sample_boot) 0x1000 0 = Some (Mmu.table_entry 0x2000)) as H4 by (by vm_compute).
  assert (0 < length [0])%nat as Hi by (apply Nat.ltb_lt; reflexivity).
  assert (Cores.stack_end_addr k - 2 * 2 ^ 20 ≤ Cores.stack_end_addr k - 8 < Cores.stack_end_addr k) as Hv by lia.
  exact (proj1 (stack_overflow_faults 0x1000 0x2000 Stacks.sample_p3 Stacks.sample_boot path 0x9000 0xb000 [0] Stacks.after_stacks sample_on 0 k
    Stacks.small_map_sound H0 Hroom Cores.cores_empty_ok eq_refl Ht H4 Hc Stacks.sample_fresh Stacks.after_stacks_run sample_on_protected Hi Hk _ Hv)).
Defined.
End Handover.
