(* ===== verification/Locks.v ===== *)
(** * The spin locks of the kernel and its interrupt handlers

    kernel/src/interrupts.rs (handlers), serial.rs, vga.rs, print.rs and klog.rs (output),
    allocator.rs, apic.rs, lib.rs and main.rs (what runs on the cores), and
    [without_interrupts] of crates/x86_64/src/instructions/interrupts.rs.

    Every routine is here what it does to the six locks and to the interrupt flag, in the
    order of the code; the rest of an instruction sequence is [Io].  How often a routine
    logs depends on data and is a parameter.  A core is a stack of frames: the code it runs
    and, above it, the handlers that interrupted it.  A frame carries the guards of the
    locks it has taken.  Cores take steps in any order; a core that waits for a lock takes
    none.  An interrupt may arrive between any two steps while the flag is set.

    The start of the kernel is taken not to panic; the two handlers that can, do so
    here, and a core in the panic handler keeps its locks and loops with interrupts off.
    The theorem is that no order of steps and interrupts makes the cores wait for each
    other in a circle: what waits forever waits for a core that panicked.  It rests on [check], which goes through the code of a frame: locks are
    taken in the order of [rank], those that handlers use only without interrupts, and a core
    sleeps with interrupts enabled and without locks. *)
From stdpp Require Import relations functions.
From S2P Require Import Prelude.

Module Locks.

Inductive lock := PAGE_TABLE | FRAME_ALLOCATOR | ALLOCATOR | PICS | SERIAL_WRITER | VGA_WRITER.
#[global] Instance lock_eq_dec : EqDecision lock.
Proof. solve_decision. Defined.

(** [SaveFlag] and [RestoreFlag] are the two halves of [without_interrupts]; [Halt] is
    [hlt_loop], [Loop] the [loop {}] at the end of the panic handler. *)
Inductive cmd := Lock (l : lock) | Unlock (l : lock) | SaveFlag | RestoreFlag | Enable | Io | Halt | Loop.
Abbreviation code := (list cmd).

(** ** The routines *)
Definition locked (l : lock) (body : code) : code := Lock l :: body ++ [Unlock l].
Definition without_interrupts (f : code) : code := SaveFlag :: f ++ [RestoreFlag].

Definition serial_print : code := without_interrupts (locked SERIAL_WRITER [Io]).
Definition vga_print : code := without_interrupts (locked VGA_WRITER [Io]).
Definition print : code := serial_print ++ vga_print.
(** [HWLogger::log] and [HWLogger::flush]. *)
Definition log : code := print.
Definition logs (n : nat) : code := concat (replicate n log).
Definition flush : code := locked SERIAL_WRITER [Io] ++ locked VGA_WRITER [Io].

(** [alloc], [dealloc], [alloc_zeroed] and [realloc] of [GlobalAlloc]: all hold the lock
    until they return, and log meanwhile. *)
Definition heap_call (n : nat) : code := locked ALLOCATOR (Io :: logs n).

(** The panic handler of the kernel; nothing is unwound, so the locks stay taken. *)
Definition panic : code := print ++ [Loop].

(** *** The handlers *)
Definition notify_end_of_interrupt : code := locked PICS [Io].
Definition timer_interrupt_handler : code := print ++ [Io].
Definition keyboard_interrupt_handler (key : bool) : code := Io :: (if key then print else []) ++ notify_end_of_interrupt.
(** A byte above 0x7f is not UTF-8: the conversion is unwrapped before anything is printed. *)
Definition serial_handler (utf8 : bool) : code :=
  without_interrupts (locked SERIAL_WRITER [Io] ++ if utf8 then print else panic) ++ notify_end_of_interrupt.
(** When the controller confirms that the interrupt is spurious the closure runs under the lock. *)
Definition spurious_handler (res : bool) : code :=
  log ++ locked PICS (Io :: if res then log ++ [Io] else []) ++ if res then [] else panic.
Inductive handler := Timer | Keyboard (key : bool) | Serial (utf8 : bool) | Spurious (res : bool).
Definition handler_code (h : handler) : code :=
  match h with
  | Timer => timer_interrupt_handler
  | Keyboard key => keyboard_interrupt_handler key
  | Serial utf8 => serial_handler utf8
  | Spurious res => spurious_handler res
  end.
(** [page_fault_handler] and the other handlers that end in [hlt_loop] or a panic. *)
Definition fatal_handler (n : nat) : code := logs n ++ [Halt].

(** *** The start of the kernel *)
Inductive call := Log | HeapCall (n : nat) | Other.
Definition call_code (c : call) : code := match c with Log => log | HeapCall n => heap_call n | Other => [Io] end.
Definition calls (cs : list call) : code := concat (call_code <$> cs).
Definition init_heap (n : nat) : code := locked PAGE_TABLE (locked FRAME_ALLOCATOR (logs n ++ [Io])).
Definition init_chained_pics (mask_pics : bool) : code :=
  locked PICS [Io] ++ (if mask_pics then Io :: locked PICS [Io] ++ log else locked PICS [Io]).
Definition apic_init (bsp mask_pics : bool) (n : nat) : code :=
  locked PAGE_TABLE (locked FRAME_ALLOCATOR
    (Io :: logs n ++ (if bsp then log ++ init_chained_pics mask_pics else []) ++ Io :: (if bsp then log else []) ++ [Io])).

(** What a core does is known up to the number of lines it logs and blocks it allocates. *)
Record profile := mkProfile {
  bsp : bool; mask_pics : bool; heap_logs : nat; apic_logs : nat;
  before_heap : list call; before_apic : list call; after_apic : list call; boot_cores : list call
}.
(** [perf_kernel::init], then [hlt_loop] of [kernel_main]. *)
Definition init (p : profile) : code :=
  calls (before_heap p) ++ (if bsp p then init_heap (heap_logs p) else []) ++ calls (before_apic p)
  ++ apic_init (bsp p) (mask_pics p) (apic_logs p) ++ calls (after_apic p)
  ++ Enable :: (if bsp p then calls (boot_cores p) else []).
Definition kernel_main (p : profile) : code := init p ++ [Halt].

(** ** The cores *)
Record frame := mkFrame { rest : code; guards : list lock; saved : list bool; return_flag : bool }.
Record core := mkCore { IF : bool; frames : list frame }.
Record system := mkSystem { cores : list core; owner : lock → option nat }.

Definition set_core (s : system) (i : nat) (c : core) : system := mkSystem (<[i := c]> (cores s)) (owner s).
Definition set_owner (s : system) (l : lock) (o : option nat) : system := mkSystem (cores s) (<[l := o]> (owner s)).

(** The next instruction of core [i]; [None] when it waits, sleeps, or loops forever. *)
Definition exec (i : nat) (s : system) : option system :=
  c ← cores s !! i;
  match frames c with
  | [] => None
  | f :: fs =>
      match rest f with
      | [] => match fs with [] => None | _ => Some (set_core s i (mkCore (return_flag f) fs)) end
      | x :: k =>
          match x with
          | Io => Some (set_core s i (mkCore (IF c) (mkFrame k (guards f) (saved f) (return_flag f) :: fs)))
          | Lock l =>
              match owner s l with
              | Some _ => None
              | None => Some (set_owner (set_core s i (mkCore (IF c) (mkFrame k (l :: guards f) (saved f) (return_flag f) :: fs))) l (Some i))
              end
          | Unlock l =>
              match guards f with
              | [] => None
              | g :: gs => Some (set_owner (set_core s i (mkCore (IF c) (mkFrame k gs (saved f) (return_flag f) :: fs))) g None)
              end
          | SaveFlag => Some (set_core s i (mkCore false (mkFrame k (guards f) (IF c :: saved f) (return_flag f) :: fs)))
          | RestoreFlag =>
              match saved f with
              | [] => None
              | b :: sv => Some (set_core s i (mkCore (b || IF c) (mkFrame k (guards f) sv (return_flag f) :: fs)))
              end
          | Enable => Some (set_core s i (mkCore true (mkFrame k (guards f) (saved f) (return_flag f) :: fs)))
          | Halt | Loop => None
          end
      end
  end.

(** The processor enters a handler through an interrupt gate, which clears the flag. *)
Definition enter (i : nat) (k : code) (s : system) : option system :=
  c ← cores s !! i; Some (set_core s i (mkCore false (mkFrame k [] [] (IF c) :: frames c))).
Definition interrupt (i : nat) (h : handler) (s : system) : option system :=
  c ← cores s !! i; if IF c then enter i (handler_code h) s else None.

Definition runs_on (s s' : system) : Prop := ∃ i, exec i s = Some s'.
Inductive step (s s' : system) : Prop :=
  | step_exec : runs_on s s' → step s s'
  | step_interrupt i h : interrupt i h s = Some s' → step s s'.

(** Interrupts are off when the kernel is entered, and no lock is taken. *)
Definition start (ps : list profile) : system :=
  mkSystem ((λ p, mkCore false [mkFrame (kernel_main p) [] [] false]) <$> ps) (λ _, None).

(** ** The discipline *)
Definition rank (l : lock) : Z :=
  (match l with PAGE_TABLE => 0 | FRAME_ALLOCATOR => 1 | ALLOCATOR => 2 | PICS => 3 | SERIAL_WRITER => 4 | VGA_WRITER => 5 end)%Z.
(** The locks that handlers take. *)
Definition shared (l : lock) : bool := (3 <=? rank l)%Z.
Definition unshared (g : list lock) : bool := forallb (λ l, negb (shared l)) g.

(** Going through code with the guards [g], the interrupt flag [b] and the saved flags [sv]. *)
Fixpoint check (g : list lock) (b : bool) (sv : list bool) (k : code) : bool :=
  match k with
  | [] => match g, sv with [], [] => true | _, _ => false end
  | Io :: k' => check g b sv k'
  | Lock l :: k' => forallb (λ h, rank h <? rank l)%Z g && (negb b || negb (shared l)) && check (l :: g) b sv k'
  | Unlock l :: k' => match g with [] => false | h :: g' => bool_decide (h = l) && check g' b sv k' end
  | SaveFlag :: k' => check g false (b :: sv) k'
  | RestoreFlag :: k' =>
      match sv with [] => false | b' :: sv' => (negb (b' || b) || unshared g) && check g (b' || b) sv' k' end
  | Enable :: k' => unshared g && check g true sv k'
  | Halt :: _ => match g with [] => b | _ => false end
  | Loop :: _ => match g with [] => negb b | _ => false end
  end.
(** Handlers take only shared locks and return. *)
Definition handler_cmd (x : cmd) : bool := match x with Lock l => shared l | Halt => false | _ => true end.

Fixpoint stack_ok (b : bool) (fs : list frame) : Prop :=
  match fs with
  | [] => False
  | f :: fs' =>
      check (guards f) b (saved f) (rest f) = true ∧ (b = true → unshared (guards f) = true)
      ∧ match fs' with
        | [] => last (rest f) = Some Halt
        | _ => forallb handler_cmd (rest f) = true ∧ forallb shared (guards f) = true ∧ return_flag f = true
            ∧ unshared (concat (guards <$> fs')) = true ∧ stack_ok true fs'
        end
  end.
Definition all_guards (c : core) : list lock := concat (guards <$> frames c).
Record inv (s : system) : Prop := {
  iv_stack i c : cores s !! i = Some c → stack_ok (IF c) (frames c);
  iv_nodup i c : cores s !! i = Some c → NoDup (all_guards c);
  iv_owner l i : owner s l = Some i ↔ ∃ c, cores s !! i = Some c ∧ l ∈ all_guards c
}.

(** ** The invariant *)
Lemma unshared_spec g : unshared g = true ↔ ∀ l, l ∈ g → shared l = false.
Proof.
  unfold unshared. rewrite forallb_forall. split; intros H l Hl; [apply list_elem_of_In in Hl; apply H in Hl; by apply negb_true_iff|].
  apply negb_true_iff, H. by apply list_elem_of_In.
Qed.
Lemma unshared_app g h : unshared (g ++ h) = unshared g && unshared h.
Proof. unfold unshared. apply forallb_app. Qed.

(** Every frame below the first has its own locks only, which handlers do not need. *)
Lemma stack_top b f fs : stack_ok b (f :: fs) → check (guards f) b (saved f) (rest f) = true ∧ (b = true → unshared (concat (guards <$> f :: fs)) = true).
Proof.
  intros (Hc & Hu & Hs). split; [done|]. intros E. cbn [fmap list_fmap concat]. rewrite unshared_app, Hu by done. cbn [andb].
  destruct fs; [done|]. by destruct Hs as (_ & _ & _ & Hs & _).
Qed.
(** Replacing the first frame. *)
Lemma stack_replace b b' f f' fs :
  stack_ok b (f :: fs) → check (guards f') b' (saved f') (rest f') = true → (b' = true → unshared (guards f') = true) →
  (forallb handler_cmd (rest f) = true → forallb handler_cmd (rest f') = true) →
  (forallb handler_cmd (rest f) = true → forallb shared (guards f) = true → forallb shared (guards f') = true) →
  return_flag f' = return_flag f → (last (rest f) = Some Halt → last (rest f') = Some Halt) → stack_ok b' (f' :: fs).
Proof.
  intros (_ & _ & Hs) Hc Hu Hh Hg Hr Hl. split; [done|]. split; [done|]. destruct fs as [|f2 fs]; [by apply Hl|].
  destruct Hs as (H1 & H2 & H3 & H4). split; [by apply Hh|]. split; [by apply Hg|]. split; [by rewrite Hr|done].
Qed.
Lemma last_tail x k : x ≠ Halt → last (x :: k) = Some Halt → last k = Some Halt.
Proof. intros Hx. destruct k; cbn [last]; [congruence|done]. Qed.
Lemma stack_pop b f f2 fs : stack_ok b (f :: f2 :: fs) → rest f = [] → guards f = [] ∧ return_flag f = true ∧ stack_ok true (f2 :: fs).
Proof.
  intros (Hc & _ & _ & _ & Hr & _ & Hs) E. rewrite E in Hc. cbn [check] in Hc. split; [|done]. by destruct (guards f), (saved f).
Qed.

Lemma cores_set_core s i c j :
  is_Some (cores s !! i) → cores (set_core s i c) !! j = if decide (j = i) then Some c else cores s !! j.
Proof.
  intros Hi. cbn [cores set_core]. case_decide as E.
  - subst j. apply list_lookup_insert_eq. by apply lookup_lt_is_Some.
  - by apply list_lookup_insert_ne.
Qed.

(** A step of core [i] to [c'] with a new owner of some locks keeps the invariant. *)
Lemma inv_update s i c c' o :
  inv s → cores s !! i = Some c → stack_ok (IF c') (frames c') → NoDup (all_guards c') →
  (∀ l, l ∈ all_guards c' ↔ o l = Some i) → (∀ l j, j ≠ i → o l = Some j ↔ owner s l = Some j) →
  inv (mkSystem (<[i := c']> (cores s)) o).
Proof.
  intros Hi Hc Hs Hn Ho1 Ho2.
  assert (∀ j, <[i := c']> (cores s) !! j = if decide (j = i) then Some c' else cores s !! j) as Hl.
  { intros j. apply (cores_set_core s i c' j). by exists c. }
  split; cbn [cores owner].
  - intros j d Hd. rewrite Hl in Hd. case_decide; [by injection Hd as <-|by apply (iv_stack _ Hi j)].
  - intros j d Hd. rewrite Hl in Hd. case_decide; [by injection Hd as <-|by apply (iv_nodup _ Hi j)].
  - intros l j. rewrite Hl. case_decide as E.
    + subst j. rewrite <- Ho1. split; [intros; by exists c'|]. by intros (d & [= <-] & ?).
    + rewrite Ho2 by done. apply (iv_owner _ Hi).
Qed.
(** Steps that change no lock. *)
Lemma inv_same_guards s i c c' :
  inv s → cores s !! i = Some c → stack_ok (IF c') (frames c') → all_guards c' = all_guards c → inv (set_core s i c').
Proof.
  intros Hi Hc Hs Hg. apply (inv_update s i c c'); [done|done|done|rewrite Hg; by apply (iv_nodup _ Hi i)| |done].
  intros l. rewrite Hg, (iv_owner _ Hi). split; [intros; by exists c|]. intros (d & Hd & ?). rewrite Hc in Hd. by injection Hd as <-.
Qed.

Lemma exec_inv s s' i : inv s → exec i s = Some s' → inv s'.
Proof.
  intros Hi Hx. unfold exec in Hx. destruct (cores s !! i) as [c|] eqn:Hc; [|done]. cbn [mbind option_bind] in Hx.
  pose proof (iv_stack _ Hi i c Hc) as Hs. pose proof (iv_nodup _ Hi i c Hc) as Hn. unfold all_guards in Hn.
  destruct (frames c) as [|f fs] eqn:Hf; [done|]. destruct (stack_top _ _ _ Hs) as [Hck Hun].
  assert (∀ l, owner s l = Some i ↔ l ∈ guards f ++ concat (guards <$> fs)) as Hown.
  { intros l. rewrite (iv_owner _ Hi). unfold all_guards. split; [|intros; exists c; by rewrite Hf].
    intros (d & Hd & Hl). rewrite Hc in Hd. injection Hd as <-. by rewrite Hf in Hl. }
  destruct (rest f) as [|[l|l| | | | | |] k] eqn:Hr; cbn [check] in Hck.
  - destruct fs as [|f2 fs]; [done|]. injection Hx as <-. destruct (stack_pop _ _ _ _ Hs Hr) as (Hg & Hrf & Hs2). rewrite Hrf.
    apply (inv_same_guards s i c); [done|done|done|]. unfold all_guards. rewrite Hf. cbn [frames fmap list_fmap concat]. by rewrite Hg.
  - destruct (owner s l) as [?|] eqn:Ho; [done|]. injection Hx as <-. apply andb_true_iff in Hck as [[Hrk Hsh]%andb_true_iff Hck].
    assert (l ∉ guards f ++ concat (guards <$> fs)) as Hl by (rewrite <- Hown; congruence).
    apply (inv_update s i c _ (<[l := Some i]> (owner s))); try done; cbn [IF frames all_guards fmap list_fmap concat guards].
    + apply (stack_replace (IF c) _ f); cbn [guards saved rest return_flag]; try done.
      * intros E. rewrite E in Hsh. cbn [negb orb] in Hsh. cbn [unshared forallb]. rewrite Hsh.
        destruct Hs as (_ & Hu & _). by apply Hu.
      * rewrite Hr. cbn [forallb]. by intros [_ ?]%andb_true_iff.
      * rewrite Hr. cbn [forallb handler_cmd]. intros [-> _]%andb_true_iff. by intros ->.
      * rewrite Hr. by apply last_tail.
    + by constructor.
    + intros x. unfold all_guards. cbn [frames fmap list_fmap concat guards app]. rewrite elem_of_cons, <- Hown. destruct (decide (x = l)) as [->|Hne].
      * rewrite fn_lookup_insert. naive_solver.
      * rewrite fn_lookup_insert_ne by congruence. naive_solver.
    + intros x j Hj. destruct (decide (x = l)) as [->|Hne]; [rewrite fn_lookup_insert, Ho; naive_solver|by rewrite fn_lookup_insert_ne by congruence].
  - destruct (guards f) as [|g gs] eqn:Hg; [done|]. injection Hx as <-. apply andb_true_iff in Hck as [->%bool_decide_eq_true Hck].
    cbn [fmap list_fmap concat] in Hn. rewrite Hg in Hn. inversion Hn as [|? ? Hgn Hn' E]; subst.
    apply (inv_update s i c _ (<[l := None]> (owner s))); try done; cbn [IF frames all_guards fmap list_fmap concat guards].
    + apply (stack_replace (IF c) _ f); cbn [guards saved rest return_flag]; try done.
      * intros E. destruct Hs as (_ & Hu & _). specialize (Hu E). rewrite Hg in Hu. by apply andb_true_iff in Hu as [_ ?].
      * rewrite Hr. done.
      * rewrite Hg. cbn [forallb]. by intros _ [_ ?]%andb_true_iff.
      * rewrite Hr. by apply last_tail.
    + intros x. unfold all_guards. cbn [frames fmap list_fmap concat guards]. destruct (decide (x = l)) as [->|Hne].
      * rewrite fn_lookup_insert. split; [|done]. intros H. by destruct Hgn.
      * rewrite fn_lookup_insert_ne, Hown by congruence. cbn [app]. rewrite elem_of_cons. naive_solver.
    + intros x j Hj. destruct (decide (x = l)) as [->|Hne]; [|by rewrite fn_lookup_insert_ne by congruence].
      rewrite fn_lookup_insert. split; [done|]. intros H. assert (owner s l = Some i) as H' by (apply Hown; by left). congruence.
  - injection Hx as <-. apply (inv_same_guards s i c); [done|done| |unfold all_guards; by rewrite Hf].
    apply (stack_replace (IF c) _ f); rewrite ?Hr; try done. by apply last_tail.
  - destruct (saved f) as [|b sv] eqn:Hsv; [done|]. injection Hx as <-. apply andb_true_iff in Hck as [Hu Hck].
    apply (inv_same_guards s i c); [done|done| |unfold all_guards; by rewrite Hf].
    apply (stack_replace (IF c) _ f); rewrite ?Hr; try done; [|by apply last_tail]. cbn [IF guards]. intros E. by rewrite E in Hu.
  - injection Hx as <-. apply andb_true_iff in Hck as [Hu Hck]. apply (inv_same_guards s i c); [done|done| |unfold all_guards; by rewrite Hf].
    apply (stack_replace (IF c) _ f); rewrite ?Hr; try done. by apply last_tail.
  - injection Hx as <-. apply (inv_same_guards s i c); [done|done| |unfold all_guards; by rewrite Hf].
    apply (stack_replace (IF c) _ f); rewrite ?Hr; try done; [by destruct Hs as (_ & Hu & _)|by apply last_tail].
  - done.
  - done.
Qed.

(** The handlers themselves. *)
Lemma handlers_ok h : check [] false [] (handler_code h) = true ∧ forallb handler_cmd (handler_code h) = true.
Proof. by destruct h as [|[]|[]|[]]. Qed.
Lemma interrupt_inv s s' i h : inv s → interrupt i h s = Some s' → inv s'.
Proof.
  intros Hi Hx. unfold interrupt, enter in Hx. destruct (cores s !! i) as [c|] eqn:Hc; [|done]. cbn [mbind option_bind] in Hx.
  destruct (IF c) eqn:Hif; [|done]. injection Hx as <-. pose proof (iv_stack _ Hi i c Hc) as Hs. rewrite Hif in Hs.
  destruct (handlers_ok h) as [H1 H2]. apply (inv_same_guards s i c); [done|done| |unfold all_guards; done].
  cbn [IF frames stack_ok guards saved rest return_flag]. split; [done|]. split; [done|]. destruct (frames c) as [|f fs] eqn:Hf; [done|].
  split; [done|]. split; [done|]. split; [done|]. split; [|done]. by apply (stack_top true f fs).
Qed.
Lemma lock_step_inv s s' : inv s → step s s' → inv s'.
Proof. intros Hi [[i Hx]|i h Hx]; [by eapply exec_inv|by eapply interrupt_inv]. Qed.

(** ** Progress *)
(** Asleep, and not in a handler. *)
Definition idle (c : core) : Prop := ∃ f k, frames c = [f] ∧ rest f = Halt :: k.

#[global] Instance idle_dec c : Decision (idle c).
Proof.
  destruct (frames c) as [|f [|? ?]] eqn:E; [right; by intros (f & k & Hf & _); rewrite E in Hf| |right; by intros (g & k & Hf & _); rewrite E in Hf].
  destruct (rest f) as [|[l|l| | | | | |] k] eqn:Hr; try (right; intros (g & k' & Hf & Hr'); rewrite E in Hf; injection Hf as <-; congruence).
  left. by exists f, k.
Defined.
Lemma idle_guards b c : stack_ok b (frames c) → idle c → all_guards c = [] ∧ b = true.
Proof.
  intros Hs (f & k & Hf & E). unfold all_guards. rewrite Hf in *. destruct Hs as (Hc & _). cbn [fmap list_fmap concat]. rewrite app_nil_r.
  rewrite E in Hc. cbn [check] in Hc. by destruct (guards f).
Qed.
(** In the endless loop of the panic handler. *)
Definition panicked (c : core) : Prop := ∃ f fs k, frames c = f :: fs ∧ rest f = Loop :: k.
Lemma panicked_guards b c :
  stack_ok b (frames c) → panicked c → b = false ∧ ∀ l, l ∈ all_guards c → shared l = false.
Proof.
  intros Hs (f & fs & k & Hf & E). unfold all_guards. rewrite Hf in *. destruct Hs as (Hc & _ & Hs). rewrite E in Hc. cbn [check] in Hc.
  destruct (guards f) eqn:Hg; [|done]. split; [by destruct b|]. intros l. cbn [fmap list_fmap concat]. rewrite Hg. cbn [app]. intros Hl.
  destruct fs as [|f2 fs]; [by apply elem_of_nil in Hl|]. destruct Hs as (_ & _ & _ & Hu & _). by apply unshared_spec with (l := l) in Hu.
Qed.
(** Core [i] waits for a lock that core [j] has taken. *)
Definition waits_for_lock (s : system) (i : nat) (l : lock) (j : nat) : Prop :=
  ∃ c f fs k, cores s !! i = Some c ∧ frames c = f :: fs ∧ rest f = Lock l :: k ∧ owner s l = Some j.
Definition waits_for (s : system) (i j : nat) : Prop := ∃ l, waits_for_lock s i l j.

(** A core can run unless it is idle, panicked or waits for a lock above all that it holds. *)
Lemma runs_or_waits s i c :
  inv s → cores s !! i = Some c →
  idle c ∨ panicked c ∨ (∃ s', exec i s = Some s')
  ∨ ∃ l j, waits_for_lock s i l j ∧ ∀ g, g ∈ all_guards c → (rank g < rank l)%Z.
Proof.
  intros Hi Hc. pose proof (iv_stack _ Hi i c Hc) as Hs. unfold exec. rewrite Hc. cbn [mbind option_bind]. unfold all_guards, idle, panicked, waits_for_lock.
  destruct (frames c) as [|f fs] eqn:Hf; [done|]. destruct (stack_top _ _ _ Hs) as [Hck _].
  destruct (rest f) as [|x k] eqn:Hr.
  { destruct fs as [|f2 fs]; [|right; right; left; by eexists]. destruct Hs as (_ & _ & Hl). by rewrite Hr in Hl. }
  destruct x as [l|l| | | | | |]; cbn [check] in Hck; try (right; right; left; by eexists).
  - destruct (owner s l) as [j|] eqn:Ho; [|right; right; left; by eexists]. right; right; right. exists l, j.
    split; [by exists c, f, fs, k|]. intros g [Hg|Hg]%elem_of_app.
    + apply andb_true_iff in Hck as [[Hrk _]%andb_true_iff _]. rewrite forallb_forall in Hrk. apply list_elem_of_In, Hrk in Hg. by apply Z.ltb_lt in Hg.
    + destruct Hs as (_ & _ & Hs). destruct fs as [|f2 fs]; [by apply elem_of_nil in Hg|]. destruct Hs as (Hh & _ & _ & Hu & _).
      rewrite Hr in Hh. cbn [forallb handler_cmd] in Hh. apply andb_true_iff in Hh as [Hsl _]. apply unshared_spec with (l := g) in Hu; [|done].
      unfold shared in *. lia.
  - destruct (guards f); [done|]. right; right; left. by eexists.
  - destruct (saved f); [done|]. right; right; left. by eexists.
  - left. destruct fs as [|f2 fs]; [by exists f, k|]. destruct Hs as (_ & _ & Hh & _). by rewrite Hr in Hh.
  - right; left. by exists f, fs, k.
Qed.

(** At rest, with no core that can run. *)
Section rest.
Context (s : system).
Hypothesis Hi : inv s.
Hypothesis Hnf : nf runs_on s.
(** A holder of a lock has panicked, or waits for one that has: its locks rank ever higher. *)
Lemma holder_stuck n l i :
  owner s l = Some i → (5 - rank l < Z.of_nat n)%Z →
  shared l = false ∧ ∃ j d, rtc (waits_for s) i j ∧ cores s !! j = Some d ∧ panicked d.
Proof.
  revert l i. induction n as [|n IH]; intros l i Ho Hn; [destruct l; cbn [rank] in Hn; lia|].
  pose proof (proj1 (iv_owner _ Hi l i) Ho) as (c & Hc & Hl).
  destruct (runs_or_waits s i c Hi Hc) as [Hid|[Hp|[[s' Hx]|(l' & j & Hw & Hrk)]]].
  - rewrite (proj1 (idle_guards (IF c) c (iv_stack _ Hi i c Hc) Hid)) in Hl. by apply elem_of_nil in Hl.
  - split; [by apply (panicked_guards (IF c) c (iv_stack _ Hi i c Hc) Hp)|]. exists i, c. by split.
  - destruct Hnf. exists s'. by exists i.
  - pose proof Hw as (_ & _ & _ & _ & _ & _ & _ & Ho'). specialize (Hrk l Hl). destruct (IH l' j Ho' ltac:(lia)) as (Hsh & k & d & Hk & Hd & Hp).
    split; [unfold shared in *; lia|]. exists k, d. split; [|done]. eapply rtc_l; [by exists l'|done].
Qed.
Lemma at_rest :
  (∀ l, shared l = true → owner s l = None)
  ∧ ∀ i c, cores s !! i = Some c →
      (idle c ∧ IF c = true) ∨ (panicked c ∧ IF c = false) ∨ ∃ j d, tc (waits_for s) i j ∧ cores s !! j = Some d ∧ panicked d.
Proof.
  split.
  - intros l Hl. destruct (owner s l) as [i|] eqn:Ho; [|done].
    destruct (holder_stuck (S (Z.to_nat (5 - rank l))) l i Ho) as [Hsh _]; [lia|congruence].
  - intros i c Hc. destruct (runs_or_waits s i c Hi Hc) as [Hid|[Hp|[[s' Hx]|(l & j & Hw & _)]]].
    + left. split; [done|]. by apply (idle_guards (IF c) c (iv_stack _ Hi i c Hc)).
    + right; left. split; [done|]. by apply (panicked_guards (IF c) c (iv_stack _ Hi i c Hc)).
    + destruct Hnf. exists s'. by exists i.
    + right; right. pose proof Hw as (_ & _ & _ & _ & _ & _ & _ & Ho).
      destruct (holder_stuck (S (Z.to_nat (5 - rank l))) l j Ho) as (_ & k & d & Hk & Hd & Hp); [lia|].
      exists k, d. split; [|done]. destruct (proj1 (rtc_tc _ _) Hk) as [->|Ht]; [apply tc_once; by exists l|eapply tc_l; [by exists l|done]].
Qed.
(** If no core has panicked, all of them sleep. *)
Lemma all_asleep :
  (∀ i c, cores s !! i = Some c → ¬ panicked c) →
  (∀ l, owner s l = None) ∧ ∀ i c, cores s !! i = Some c → idle c ∧ IF c = true.
Proof.
  intros Hno. split.
  - intros l. destruct (owner s l) as [i|] eqn:Ho; [|done].
    destruct (holder_stuck (S (Z.to_nat (5 - rank l))) l i Ho) as (_ & j & d & _ & Hd & Hp); [lia|]. by destruct (Hno j d).
  - intros i c Hc. destruct (proj2 at_rest i c Hc) as [?|[[Hp _]|(j & d & _ & Hd & Hp)]]; [done|by destruct (Hno i c)|by destruct (Hno j d)].
Qed.
End rest.

(** *** Without unexpected interrupts *)
(** The interrupts whose handlers do not panic. *)
Definition expected (h : handler) : bool := match h with Serial utf8 => utf8 | Spurious res => res | _ => true end.
Inductive calm_step (s s' : system) : Prop :=
  | calm_exec : runs_on s s' → calm_step s s'
  | calm_interrupt i h : expected h = true → interrupt i h s = Some s' → calm_step s s'.
Definition no_loop (x : cmd) : bool := match x with Loop => false | _ => true end.
Definition calm_frames (fs : list frame) : bool := forallb (λ f, forallb no_loop (rest f)) fs.
Lemma calm_cons f fs : calm_frames (f :: fs) = forallb no_loop (rest f) && calm_frames fs.
Proof. done. Qed.
Definition calm (s : system) : Prop := ∀ i c, cores s !! i = Some c → calm_frames (frames c) = true.
Lemma calm_set s i c c' o : calm s → cores s !! i = Some c → calm_frames (frames c') = true → calm (mkSystem (<[i := c']> (cores s)) o).
Proof.
  intros Hs Hc Hf j d Hd. change (cores (set_core s i c') !! j = Some d) in Hd. rewrite cores_set_core in Hd by (by exists c).
  case_decide; [by injection Hd as <-|by apply (Hs j)].
Qed.
Lemma exec_calm s s' i : calm s → exec i s = Some s' → calm s'.
Proof.
  intros Hs Hx. unfold exec in Hx. destruct (cores s !! i) as [c|] eqn:Hc; [|done]. cbn [mbind option_bind] in Hx.
  pose proof (Hs i c Hc) as Hcf. destruct (frames c) as [|f fs] eqn:Hf; [done|]. rewrite calm_cons in Hcf. apply andb_true_iff in Hcf as [Hk Hfs].
  destruct (rest f) as [|x k] eqn:Hr.
  { destruct fs; [done|]. injection Hx as <-. by apply (calm_set s i c). }
  change (no_loop x && forallb no_loop k = true) in Hk. apply andb_true_iff in Hk as [Hx0 Hk].
  assert (∀ b g sv o, calm (mkSystem (<[i := mkCore b (mkFrame k g sv (return_flag f) :: fs)]> (cores s)) o)) as Hset.
  { intros b g sv o. apply (calm_set s i c); [done|done|]. cbn [frames]. rewrite calm_cons. cbn [rest]. by rewrite Hk. }
  destruct x as [l|l| | | | | |]; try done; try (injection Hx as <-; apply Hset).
  - destruct (owner s l); [done|]. injection Hx as <-. apply Hset.
  - destruct (guards f); [done|]. injection Hx as <-. apply Hset.
  - destruct (saved f); [done|]. injection Hx as <-. apply Hset.
Qed.
Lemma expected_calm h : expected h = true → forallb no_loop (handler_code h) = true.
Proof. by destruct h as [|[]|[]|[]]. Qed.
Lemma calm_step_calm s s' : calm s → calm_step s s' → calm s'.
Proof.
  intros Hs [[i Hx]|i h He Hx]; [by eapply exec_calm|]. unfold interrupt, enter in Hx. destruct (cores s !! i) as [c|] eqn:Hc; [|done].
  cbn [mbind option_bind] in Hx. destruct (IF c); [|done]. injection Hx as <-. apply (calm_set s i c); [done|done|].
  cbn [frames]. rewrite calm_cons. cbn [rest]. by rewrite expected_calm, (Hs i c Hc).
Qed.
Lemma rtc_calm s s' : calm s → rtc calm_step s s' → calm s'.
Proof. intros Hs Hr. induction Hr as [|s1 s2 s3 H _ IH]; [done|]. apply IH. by eapply calm_step_calm. Qed.
Lemma calm_not_panicked s i c : calm s → cores s !! i = Some c → ¬ panicked c.
Proof. intros Hs Hc (f & fs & k & Hf & Hr). specialize (Hs i c Hc). by rewrite Hf, calm_cons, Hr in Hs. Qed.

(** ** Instructions left *)
Definition frame_work (f : frame) : nat := S (length (rest f)).
Definition core_work (c : core) : nat := sum_list (frame_work <$> frames c).
Definition work (s : system) : nat := sum_list (core_work <$> cores s).

Lemma sum_insert (l : list core) i c c' :
  l !! i = Some c → (core_work c' < core_work c)%nat → (sum_list (core_work <$> <[i := c']> l) < sum_list (core_work <$> l))%nat.
Proof.
  revert i. induction l as [|d l IH]; intros [|i] Hi Hlt; cbn in *; try done.
  - injection Hi as ->. lia.
  - apply (proj1 (Nat.add_lt_mono_l _ _ _)). by apply (IH i).
Qed.
Lemma exec_work s s' i : exec i s = Some s' → (work s' < work s)%nat.
Proof.
  unfold exec. destruct (cores s !! i) as [c|] eqn:Hc; [|done]. cbn [mbind option_bind].
  assert (∀ c' o, (core_work c' < core_work c)%nat → (work (mkSystem (<[i := c']> (cores s)) o) < work s)%nat) as Hw.
  { intros c' o Hlt. unfold work. cbn [cores]. by apply (sum_insert _ i c). }
  destruct (frames c) as [|f fs] eqn:Hf; [done|].
  assert (core_work c = frame_work f + sum_list (frame_work <$> fs))%nat as E by (unfold core_work; by rewrite Hf). rewrite E in Hw.
  destruct (rest f) as [|x k] eqn:Hr.
  { destruct fs as [|f2 fs]; [done|]. intros [= <-]. apply Hw. unfold core_work, frame_work at 2. cbn [frames]. lia. }
  assert (∀ b g sv, core_work (mkCore b (mkFrame k g sv (return_flag f) :: fs)) < frame_work f + sum_list (frame_work <$> fs))%nat as Hk.
  { intros b g sv. change (S (length k) + sum_list (frame_work <$> fs) < frame_work f + sum_list (frame_work <$> fs))%nat.
    unfold frame_work at 2. rewrite Hr. cbn [length]. lia. }
  destruct x as [l|l| | | | | |].
  - destruct (owner s l); [done|]. intros [= <-]. apply Hw, Hk.
  - destruct (guards f); [done|]. intros [= <-]. apply Hw, Hk.
  - intros [= <-]. apply Hw, Hk.
  - destruct (saved f); [done|]. intros [= <-]. apply Hw, Hk.
  - intros [= <-]. apply Hw, Hk.
  - intros [= <-]. apply Hw, Hk.
  - done.
  - done.
Qed.
Lemma runs_sn n s : (work s < n)%nat → sn runs_on s.
Proof.
  revert s. induction n as [|n IH]; intros s Hn; [lia|]. constructor. intros s' [i Hx]. apply IH. apply exec_work in Hx. lia.
Qed.

Lemma locked_flag s i c l : inv s → cores s !! i = Some c → l ∈ all_guards c → shared l = true → IF c = false.
Proof.
  intros Hi Hc Hl Hsh. destruct (IF c) eqn:Hif; [|done]. pose proof (iv_stack _ Hi i c Hc) as Hs. rewrite Hif in Hs. unfold all_guards in Hl.
  destruct (frames c) as [|f fs]; [done|]. destruct (stack_top _ _ _ Hs) as [_ Hu]. apply unshared_spec with (l := l) in Hu; [congruence|done|done].
Qed.
(** ** The routines keep the discipline

    [good lo b r]: the routine [r] may run with the interrupt flag [b] while the locks held
    rank below [lo]. *)
Definition good (lo : Z) (b : bool) (r : code) : Prop :=
  ∀ g sv k, Forall (λ l, rank l < lo) g → check g b sv k = true → check g b sv (r ++ k) = true.

Lemma good_nil lo b : good lo b [].
Proof. by intros g sv k. Qed.
Lemma good_app lo b r1 r2 : good lo b r1 → good lo b r2 → good lo b (r1 ++ r2).
Proof. intros H1 H2 g sv k Hg Hk. rewrite <- app_assoc. by apply H1, H2. Qed.
Lemma good_io lo b r : good lo b r → good lo b (Io :: r).
Proof. intros Hr g sv k Hg Hk. cbn [app check]. by apply Hr. Qed.
Lemma good_if lo b (c : bool) r1 r2 : good lo b r1 → good lo b r2 → good lo b (if c then r1 else r2).
Proof. by destruct c. Qed.
Lemma good_concat lo b rs : Forall (good lo b) rs → good lo b (concat rs).
Proof. induction 1; [apply good_nil|by apply good_app]. Qed.
Lemma good_locked l lo b r : lo ≤ rank l → (b = true → shared l = false) → good (rank l + 1) b r → good lo b (locked l r).
Proof.
  intros Hlo Hb Hr g sv k Hg Hk. unfold locked. rewrite <- app_comm_cons, <- app_assoc. cbn [app check]. rewrite Hr.
  - rewrite andb_true_r. apply andb_true_iff. split.
    + apply forallb_forall. intros h Hh. apply list_elem_of_In in Hh. rewrite Forall_forall in Hg. specialize (Hg h Hh). lia.
    + destruct b; [by rewrite Hb|done].
  - constructor; [lia|]. eapply Forall_impl; [exact Hg|]. cbn. lia.
  - cbn [check]. by rewrite bool_decide_true.
Qed.
Lemma good_without_interrupts lo b r : (b = true → lo ≤ 3) → good lo false r → good lo b (without_interrupts r).
Proof.
  intros Hb Hr g sv k Hg Hk. unfold without_interrupts. rewrite <- app_comm_cons, <- app_assoc. cbn [app check]. apply Hr; [done|]. cbn [check].
  rewrite orb_false_r, Hk, andb_true_r. destruct b; [|done]. cbn [negb orb]. apply unshared_spec. intros l Hl. rewrite Forall_forall in Hg.
  specialize (Hg l Hl). specialize (Hb eq_refl). unfold shared. lia.
Qed.
Create HintDb discipline.
#[local] Hint Resolve good_nil good_app good_io good_if : discipline.

Lemma good_print lo b : lo ≤ 4 → (b = true → lo ≤ 3) → good lo b print.
Proof.
  intros Hlo Hb. apply good_app; (apply good_without_interrupts; [done|]; apply good_locked; [cbn; lia|done|auto with discipline]).
Qed.
Lemma good_logs lo b n : lo ≤ 4 → (b = true → lo ≤ 3) → good lo b (logs n).
Proof. intros Hlo Hb. apply good_concat, Forall_replicate. by apply good_print. Qed.
Lemma good_calls b cs : good 2 b (calls cs).
Proof.
  apply good_concat, Forall_fmap, Forall_true. intros [|n|]; cbn [compose call_code].
  - apply good_print; lia.
  - apply good_locked; [cbn; lia|done|]. apply good_io, good_logs; cbn; lia.
  - auto with discipline.
Qed.
Lemma good_weaken lo lo' b r : lo ≤ lo' → good lo' b r → good lo b r.
Proof. intros Hlo Hr g sv k Hg. apply Hr. eapply Forall_impl; [exact Hg|]. cbn. lia. Qed.
Lemma good_pics lo : lo ≤ 3 → good lo false (locked PICS [Io]).
Proof. intros Hlo. apply good_locked; [done|done|auto with discipline]. Qed.
Lemma good_init_heap n : good 0 false (init_heap n).
Proof.
  do 2 (apply good_locked; [cbn; lia|done|]). apply good_app; [apply good_logs; cbn; lia|auto with discipline].
Qed.
Lemma good_apic_init b m n : good 0 false (apic_init b m n).
Proof.
  do 2 (apply good_locked; [cbn; lia|done|]). cbn [rank]. apply good_io, good_app; [by apply good_logs|].
  assert (good (1 + 1) false log) as Hl by (by apply good_print). pose proof (good_pics (1 + 1) ltac:(done)) as Hp.
  apply good_app.
  - apply good_if; [|apply good_nil]. apply good_app; [done|]. unfold init_chained_pics. apply good_app; [done|].
    apply good_if; [|done]. apply good_io. by apply good_app.
  - apply good_io, good_app; [apply good_if; [done|apply good_nil]|auto with discipline].
Qed.
Lemma kernel_main_ok p : check [] false [] (kernel_main p) = true ∧ last (kernel_main p) = Some Halt.
Proof.
  split; [|apply last_snoc]. unfold kernel_main, init. rewrite <- !app_assoc.
  assert (∀ cs b k, check [] b [] k = true → check [] b [] (calls cs ++ k) = true) as Hcalls by (intros; by apply good_calls).
  apply Hcalls. rewrite app_assoc. rewrite <- app_assoc.
  assert (∀ k, check [] false [] k = true → check [] false [] ((if bsp p then init_heap (heap_logs p) else []) ++ k) = true) as Hheap.
  { intros k. apply (good_if 0); [apply good_init_heap|apply good_nil|done]. }
  apply Hheap, Hcalls, good_apic_init, Hcalls; [done|]. cbn [app check unshared forallb andb]. destruct (bsp p); [by apply Hcalls|done].
Qed.
Lemma locks_start ps : inv (start ps).
Proof.
  split; cbn [start cores owner].
  - intros i c Hc. apply list_lookup_fmap_Some in Hc as (p & -> & _). cbn [IF frames stack_ok guards saved rest].
    by destruct (kernel_main_ok p).
  - intros i c Hc. apply list_lookup_fmap_Some in Hc as (p & -> & _). constructor.
  - intros l i. split; [done|]. intros (c & Hc & Hl). apply list_lookup_fmap_Some in Hc as (p & -> & _). by apply elem_of_nil in Hl.
Qed.

(** The start of the kernel does not panic. *)
Definition steady (k : code) : Prop := forallb no_loop k = true.
Lemma steady_app k1 k2 : steady k1 → steady k2 → steady (k1 ++ k2).
Proof. unfold steady. intros H1 H2. by rewrite forallb_app, H1, H2. Qed.
Lemma steady_cons x k : no_loop x = true → steady k → steady (x :: k).
Proof. unfold steady. cbn [forallb]. by intros ->. Qed.
Lemma steady_locked l k : steady k → steady (locked l k).
Proof. intros Hk. apply steady_cons, steady_app; done. Qed.
Lemma steady_logs n : steady (logs n).
Proof. unfold logs. induction n as [|n IH]; [done|]. by apply steady_app. Qed.
Lemma steady_calls cs : steady (calls cs).
Proof.
  unfold calls. induction cs as [|[|n|] cs IH]; [done|..]; (apply steady_app; [|exact IH]); [done| |done].
  apply steady_locked, steady_cons, steady_logs. done.
Qed.
Lemma kernel_main_steady p : steady (kernel_main p).
Proof.
  unfold kernel_main, init, init_heap, apic_init. repeat (apply steady_app || apply steady_locked || apply steady_cons || apply steady_calls || apply steady_logs); try done.
  - destruct (bsp p); [|done]. by apply steady_locked, steady_locked, steady_app; [apply steady_logs|].
  - destruct (bsp p); [|done]. by destruct (mask_pics p).
  - by destruct (bsp p).
  - destruct (bsp p); [apply steady_calls|done].
Qed.
Lemma calm_start ps : calm (start ps).
Proof.
  intros i c Hc. apply list_lookup_fmap_Some in Hc as (p & -> & _). cbn [frames]. rewrite calm_cons. cbn [rest]. by rewrite kernel_main_steady.
Qed.

(** ** Properties *)
(** C5: Any number of cores starts the kernel, and they take their steps in any
    order, with any timer, keyboard, serial and spurious interrupts at any time.  In every
    state that is reached, a lock belongs to one core, and a core with a lock that handlers
    take has its interrupts off.  If no further interrupt arrives the cores come to rest
    after finitely many steps, whatever the order.  At rest the locks that handlers and
    output take are free, and every core sleeps with interrupts on, unless it panicked in a
    handler, which leaves it in an endless loop with interrupts off, or waits, directly or
    through other cores, for a lock that a panicked core had taken before the interrupt: the
    cores never wait for each other in a circle.  Only a serial byte that is not UTF-8 and an
    interrupt on the spurious vector that the controller does not confirm cause a panic:
    without them all cores sleep and no lock is taken. *)
Theorem cores_never_deadlock ps s :
  rtc step (start ps) s →
  (∀ l i, owner s l = Some i → ∃ c, cores s !! i = Some c ∧ l ∈ all_guards c ∧ (shared l = true → IF c = false))
  ∧ (∀ i j c d l, cores s !! i = Some c → cores s !! j = Some d → l ∈ all_guards c → l ∈ all_guards d → i = j)
  ∧ sn runs_on s
  ∧ (∀ s', rtc runs_on s s' → nf runs_on s' →
       (∀ l, shared l = true → owner s' l = None)
       ∧ ∀ i c, cores s' !! i = Some c →
           (idle c ∧ IF c = true) ∨ (panicked c ∧ IF c = false) ∨ ∃ j d, tc (waits_for s') i j ∧ cores s' !! j = Some d ∧ panicked d)
  ∧ (rtc calm_step (start ps) s → ∀ s', rtc runs_on s s' → nf runs_on s' →
       (∀ l, owner s' l = None) ∧ ∀ i c, cores s' !! i = Some c → idle c ∧ IF c = true).
Proof.
  intros Hr. assert (inv s) as Hi.
  { pose proof (locks_start ps) as H0. induction Hr as [|s1 s2 s3 Hs _ IH]; [done|]. apply IH. by apply (lock_step_inv s1). }
  assert (∀ s', rtc runs_on s s' → inv s') as Hinv.
  { clear Hr. intros s' Hs'. induction Hs' as [|s1 s2 s3 [k Hx] _ IH]; [done|]. apply IH. by apply (exec_inv s1 _ k). }
  split; [|split; [|split; [by apply (runs_sn (S (work s))); lia|split]]].
  - intros l i Ho. destruct (proj1 (iv_owner _ Hi l i) Ho) as (c & Hc & Hl). exists c. split; [done|]. split; [done|]. intros Hsh.
    by apply (locked_flag s i c l).
  - intros i j c d l Hc Hd Hl Hl'. assert (owner s l = Some i) as E1 by (apply (iv_owner _ Hi); by exists c).
    assert (owner s l = Some j) as E2 by (apply (iv_owner _ Hi); by exists d). congruence.
  - intros s' Hs' Hnf. by apply at_rest; [apply Hinv|].
  - intros Hcalm s' Hs' Hnf. apply all_asleep; [by apply Hinv|done|]. assert (calm s') as Hc'.
    { apply (rtc_calm (start ps)); [apply calm_start|]. etrans; [exact Hcalm|].
      apply (rtc_subrel runs_on calm_step); [|done]. intros x y. apply calm_exec. }
    intros i c. by apply calm_not_panicked.
Qed.

(** ** Instances *)
Fixpoint run_core (n : nat) (i : nat) (s : system) : option system :=
  match n with O => Some s | S n' => exec i s ≫= run_core n' i end.
Lemma run_core_steps n i s s' : run_core n i s = Some s' → rtc runs_on s s'.
Proof.
  revert s. induction n as [|n IH]; intros s; cbn [run_core]; [by intros [= ->]|]. destruct (exec i s) as [s1|] eqn:E; [|done].
  intros H. eapply rtc_l; [by exists i|by apply IH].
Qed.
Lemma runs_on_steps s s' : rtc runs_on s s' → rtc step s s'.
Proof. apply rtc_subrel. intros x y Hx. by apply step_exec. Qed.

(** The first core is in the allocator, with interrupts on, when it is interrupted; the second
    one is still at the beginning. *)
Definition two_cores : list profile :=
  [mkProfile true false 1 0 [Log] [HeapCall 2] [Log] [HeapCall 1; Log]; mkProfile false false 0 0 [Log] [] [HeapCall 1] []].
Definition interrupted (h : handler) : option system := s ← run_core 94 0 (start two_cores); interrupt 0 h s.
Lemma interrupted_reached h s : expected h = true → interrupted h = Some s → rtc step (start two_cores) s ∧ rtc calm_step (start two_cores) s.
Proof.
  unfold interrupted. intros He. destruct (run_core 94 0 (start two_cores)) as [s1|] eqn:E1; [|done]. intros E2. apply run_core_steps in E1. split.
  - eapply rtc_r; [by apply runs_on_steps|by apply (step_interrupt _ _ 0 h)].
  - eapply rtc_r; [apply (rtc_subrel runs_on calm_step); [|exact E1]; intros x y; apply calm_exec|by apply (calm_interrupt _ _ 0 h)].
Qed.
Lemma cores_never_deadlock_witness :
  ∃ s, interrupted Timer = Some s ∧ owner s ALLOCATOR = Some 0%nat ∧ sn runs_on s
    ∧ ∀ s', rtc runs_on s s' → nf runs_on s' → (∀ l, owner s' l = None) ∧ ∀ i c, cores s' !! i = Some c → idle c ∧ IF c = true.
Proof.
  assert (∃ s, interrupted Timer = Some s ∧ owner s ALLOCATOR = Some 0%nat) as (s & Hs & Ho) by (eexists; split; by vm_compute).
  destruct (interrupted_reached Timer s eq_refl Hs) as [Hr Hc]. destruct (cores_never_deadlock two_cores s Hr) as (_ & _ & Hn & _ & Hrest).
  exists s. split; [exact Hs|]. split; [exact Ho|]. split; [exact Hn|exact (Hrest Hc)].
Defined.
(** With a byte that is not UTF-8 instead, the first core stops in the panic handler and keeps
    the allocator; the second one waits for it forever. *)
Lemma bad_byte_stops_cores :
  ∃ s, (s1 ← interrupted (Serial false); s2 ← run_core 14 0 s1; run_core 17 1 s2) = Some s
    ∧ waits_for_lock s 1 ALLOCATOR 0 ∧ exec 1 s = None ∧ ∃ c, cores s !! 0%nat = Some c ∧ panicked c ∧ IF c = false.
Proof. eexists. split; [by vm_compute|]. split; [by eexists _, _, _, _|]. split; [done|]. eexists. split; [done|]. split; [by eexists _, _, _|done]. Qed.

(** [flush] takes the locks with interrupts on: a timer interrupt meanwhile waits for a lock
    that only the interrupted code can release. *)
Definition flushing : system := mkSystem [mkCore true [mkFrame (flush ++ [Halt]) [] [] false]] (λ _, None).
Lemma flush_deadlocks :
  ∃ s, rtc step flushing s ∧ owner s SERIAL_WRITER = Some 0%nat ∧ ∀ s', ¬ step s s'.
Proof.
  destruct (exec 0 flushing) as [s1|] eqn:E1; [|done]. destruct (interrupt 0 Timer s1) as [s2|] eqn:E2; [|by injection E1 as <-].
  destruct (exec 0 s2) as [s3|] eqn:E3; [|by injection E1 as <-; injection E2 as <-].
  exists s3. split; [|].
  - eapply rtc_l; [apply step_exec; by exists 0%nat|]. eapply rtc_l; [by apply (step_interrupt _ _ 0 Timer)|].
    eapply rtc_l; [apply step_exec; by exists 0%nat|]. done.
  - injection E1 as <-. injection E2 as <-. injection E3 as <-. split; [done|]. intros s' [[[|i] Hx]|[|i] h Hx]; by vm_compute in Hx.
Qed.
(** A page fault while a line is printed: the handler cannot report it. *)
Lemma fault_in_print_deadlocks :
  ∃ s1 s2 s3, run_core 2 0 (start two_cores) = Some s1 ∧ enter 0 (fatal_handler 1) s1 = Some s2 ∧ run_core 1 0 s2 = Some s3
    ∧ owner s3 SERIAL_WRITER = Some 0%nat ∧ exec 0 s3 = None ∧ ∀ h, interrupt 0 h s3 = None.
Proof. by eexists _, _, _. Qed.
End Locks.
